(* ===== verification/_CoqProject ===== *)
-Q . S2P
Prelude.v
LinkedList.v
MsgQueue.v
Agps.v
AgpsStates.v
DmnPipe.v
EngPipe.v
DmnConn.v
ThreadHelper.v
DmnServer.v
Power.v
Lights.v
Hal.v
InputReader.v
Sensors.v
Akm.v
SensorsPoll.v
SensorsHal.v
LocCfg.v
Nmea.v
Ni.v
EngMsg.v
EngCtx.v
EngQueue.v
LocEng.v
LocEngFacts.v
LocEngAgps.v
GpsConf.v
Adapter.v
LocHal.v
DmnAgps.v
EngService.v
LocLog.v
Camera.v
