(* ===== verification/Prelude.v ===== *)
(** * Verification of the native code of the Samsung MSM8660 device tree

    The tree holds the code with which a phone of the MSM8660 family adapts the
    Android services to its hardware: the location service (gps/), the sensors
    (libsensors/), the camera wrapper (camera/), the lights (liblights/), the
    power profiles (power/) and the NFC module (nfc/).  This library models the
    C and C++ code of all of them as executable definitions and proves what
    makes them correct.  File names below are relative to src/;
    LOC stands for gps/libloc_api_50001 and UTIL for gps/utils.

    ** The program

    The location service is a tower.  The framework opens the module (LOC/gps.c)
    and gets a table of functions (LOC/loc.cpp), which pass their arguments to
    the location engine (LOC/loc_eng.cpp).  The engine's clients post messages
    (LOC/loc_eng_msg.h) to a queue (UTIL/msg_q.c on UTIL/linked_list.c), which
    one thread handles: it calls the adapter of the modem
    (LOC/LocApiAdapter.cpp), tells the framework through callbacks, prints NMEA
    sentences (LOC/loc_eng_nmea.cpp), drives three state machines for data
    connections (LOC/loc_eng_agps.cpp) and hands requests of the network to a
    thread of their own (LOC/loc_eng_ni.cpp).  The modem's side posts to the
    same queue, and so does a server of other processes, which reads a pipe
    (LOC/loc_eng_dmn_conn.cpp and its handler) in a thread (the thread helper).  The parameters
    come from a file (UTIL/loc_cfg.cpp).  The sensors module multiplexes four
    drivers over input devices; the other modules are small and independent.

    ** Files and what they model

    - [Prelude]: machine integers, the state and fault monad [ST] with the two
      kinds of triples [moves] and [safe], [reachable] and its rule induction,
      tactics and lemmas shared by the components.
    - [LinkedList] UTIL/linked_list.c, on a heap of objects and pointers;
      [MsgQueue] UTIL/msg_q.c, functions under a mutex and condition variable
      and the interleavings of their callers.  The queue is proved against an
      interface of lists ([ListStore]) that [LinkedList] implements.
    - [Agps] LOC/loc_eng_agps.{h,cpp}: subscribers, notifications and the four
      states of a connection, on a store of objects; [abs_call] is its
      specification on values.  [AgpsStates]: the objects of the states, their
      pointers, the constructor and the destructor.
    - [DmnPipe] loc_eng_dmn_conn_glue_pipe.c and _glue_msg.c; [EngPipe]
      loc_eng_msg.cpp on the same pipes; [DmnConn] loc_eng_dmn_conn.cpp and
      _handler.cpp; [ThreadHelper] loc_eng_dmn_conn_thread_helper.c (all LOC);
      [DmnServer] the server on its thread, among the processes that use it;
      [DmnAgps] a request from the pipe through the engine and back.
    - [LocCfg] UTIL/loc_cfg.cpp; [GpsConf] the table, the defaults and the
      reading of gps_conf in loc_eng.cpp, and the text of gps/gps.conf.
    - [Nmea] LOC/loc_eng_nmea.cpp; [Ni] LOC/loc_eng_ni.cpp; [EngMsg] the
      messages; [EngCtx] LocEngContext, which creates and releases the queue
      and the thread; [EngQueue] the same queue as objects in memory, on the
      functions of [MsgQueue]; [LocEng] loc_eng.{h,cpp} and loc_eng_xtra.cpp, with the
      theorems in [LocEngFacts] and [LocEngAgps]; [Adapter]
      LOC/LocApiAdapter.{h,cpp}; [LocHal] LOC/loc.cpp and the whole location
      program; [EngService] that program with its context, queue and thread;
      [LocLog] UTIL/loc_log.cpp, UTIL/log_util.h, LOC/loc_eng_log.cpp.
    - [InputReader], [Sensors], [Akm], [SensorsPoll], [SensorsHal]: libsensors,
      from the circular reader to the module; the drivers are virtual, which is
      the class [Driver] with its instances.
    - [Camera] camera/CameraWrapper.cpp, [Power] power/power.{c,h}, [Lights]
      liblights/lights.c, [Hal] nfc/nfc_hw.c and LOC/gps.c.

    A struct is a record with the member names of the source, a function is a
    definition with its name (a method, too, without its class), and the comment
    in front says where it departs from that.  [None] of [ST] is an access
    outside a live object, a NULL dereference or a loop bound that ran out.

    ** What the theorems show

    - Safety of the whole location service: [EngService.service_never_faults],
      over all interleavings of framework, modem, daemon, ULP, threads, the
      making of the context and its end; it refines the program of the interface
      ([EngService.service_refines_program]), and what was posted is handled
      ([EngService.posted_are_handled]).  A fix reaches the callback of the
      framework ([LocHal.fix_reaches_client]), what a report makes the engine say
      ([LocEngFacts.report_position_spec]), and does not say in a muted session
      ([LocEngFacts.muted_session_private]); what clients ask of the modem reaches
      it unchanged ([LocEngFacts.requests_reach_modem]) and what the modem reports
      reaches the framework in order ([Adapter.reports_in_order]).
    - From the file to the modem: [GpsConf.configuration_reaches_modem]; from a
      process that asks for the connection to the location server, through
      server, engine, machine and framework back to it:
      [DmnAgps.connection_answered].
    - Refinements: the engine's queue in memory, with its senders, its thread and
      spurious wake-ups, refines the list of messages and is served
      ([EngQueue.deferred_queue_refines], [EngQueue.deferred_queue_serves]); the
      connection machines refine machines on values
      ([Agps.agps_refines]) and the engine drives those
      ([LocEngAgps.engine_refines_machines]); the circular reader refines a
      bounded queue ([InputReader.reader_refines_queue]).
    - Concurrency: order and no lost wake-up of the queue
      ([MsgQueue.msg_q_fifo], [MsgQueue.msg_q_no_lost_wakeup]), when an
      initialisation that gives its context back returns, and when it never does
      ([EngService.failed_init_returns]), the order of the callbacks of a server thread
      ([ThreadHelper.callbacks_in_order]), the daemon's server on that thread
      ([DmnServer.server_serves_in_order], [DmnServer.server_never_stuck],
      [DmnServer.server_stops]), network requests kept in
      one place and answered ([Ni.ni_requests_conserved], [Ni.ni_always_answered]).
    - Resources: descriptors of the sensors module
      ([SensorsHal.hal_descriptors]), memory of the camera
      ([Camera.camera_device_open_spec], [Camera.camera_never_faults]).
    - Round trips of pipes ([DmnPipe.messages_roundtrip]); the exact effect of each function of
      the small modules; bounds of buffers and of the poll loop.

    Lemmas in the sections "Findings" show, on concrete inputs, behaviour that
    is not what the code means to do.

    ** Assumptions, bounds and fuel

    Calls of the system, vendor libraries and floating point are arguments or
    classes ([EngEnv], [NmeaEnv], [Kernel], [Sysfs], [SensorIo], [CameraEnv],
    ...), with the laws of their documentation as hypotheses where a theorem
    needs them, and concrete instances in the witnesses.  A critical section is
    one atomic step; a wait ends one.  What the system may do although the code
    does not count with it is in the model, and recorded in the state where it has
    happened, so that a theorem that excludes it says so: a wait that ends
    without a signal ([EngCtx.spurious], [DmnServer.sv_spurious]), memory refused
    for a message ([EngCtx.refused]), a thread that is not created
    ([Ni.created]), a request taken inside the window without a lock of a restart
    ([Ni.collided]), a [pipe] that fails ([SensorsHal.p_pipe_failed]), a node that
    refuses a write ([Sensors.nw_done]), subscribers dropped under a machine
    ([Agps.dropped_after]), memory that cannot be read behind the context (the
    parameter of [EngCtx]).  In [LocHal] and [EngService] a call of the framework
    and a round of the thread are single steps: the windows without a lock inside
    them are in [Ni] (requests of the network) and in [LocHal.loc_cleanup].  The
    nodes of sysfs are one store that all open sensor devices share.  Loops that the code bounds are recursive
    on that bound (30 attempts of [reinit_loop], [num_svs] of the satellites,
    the characters of a line).  Loops that it does not bound take fuel:
    [search_loop] and the flush of a list have one more than the heap has
    elements and are proved to return, [loc_eng_deferred_action_thread] counts rounds of
    the thread and is stated for as many as there are messages, the flush of a
    pipe and the read loops of the drivers for as many as there are data.
    [long], [int] and pointers have 32 bits; arithmetic that can leave its type
    is wrapped, the rest is on [Z].

    ** Not modelled

    The firmware array of nfc, the functions of libsamsung_symbols, which only
    give old names to other functions, the headers that only declare, Java code
    and the files of the build and of the configuration.  Functions do not
    record what they log. *)

From stdpp Require Export base tactics gmap strings list list_numbers fin_maps relations.
From Stdlib Require Export ZArith Lia.

#[export] Set Default Goal Selector "!".

(** ** Machine integers *)

Declare Scope cint_scope.
Delimit Scope cint_scope with cint.

(** A value stored in an unsigned / signed [w]-bit C object. *)
Definition uwrap (w x : Z) : Z := (x mod 2 ^ w)%Z.
Definition swrap (w x : Z) : Z :=
  (let y := x mod 2 ^ w in if y <? 2 ^ (w - 1) then y else y - 2 ^ w)%Z.

Abbreviation uint8 x := (uwrap 8 x).
Abbreviation uint16 x := (uwrap 16 x).
Abbreviation uint32 x := (uwrap 32 x).
Abbreviation uint64 x := (uwrap 64 x).
Abbreviation int32 x := (swrap 32 x).
Abbreviation int64 x := (swrap 64 x).

(** C truth of an [int]. *)
Definition truth (z : Z) : bool := negb (z =? 0)%Z.
(** The value of a C comparison. *)
Definition b2i (b : bool) : Z := if b then 1%Z else 0%Z.

Lemma uwrap_id w x : (0 <= x < 2 ^ w)%Z → uwrap w x = x.
Proof. apply Z.mod_small. Qed.

Lemma uwrap_uwrap w x : (0 < 2 ^ w)%Z → uwrap w (uwrap w x) = uwrap w x.
Proof. intros Hw. apply Z.mod_mod. lia. Qed.

Lemma uwrap_range w x : (0 < 2 ^ w)%Z → (0 <= uwrap w x < 2 ^ w)%Z.
Proof. apply Z.mod_pos_bound. Qed.

Lemma swrap_id w x :
  (0 < w)%Z → (- 2 ^ (w - 1) <= x < 2 ^ (w - 1))%Z → swrap w x = x.
Proof.
  intros Hw Hx. unfold swrap.
  assert (2 ^ w = 2 * 2 ^ (w - 1))%Z as Hp.
  { rewrite <- Z.pow_succ_r by lia. f_equal. lia. }
  destruct (decide (0 <= x)%Z) as [H0|H0].
  - rewrite Z.mod_small by lia. destruct (Z.ltb_spec x (2 ^ (w - 1)))%Z; lia.
  - assert (x mod 2 ^ w = x + 2 ^ w)%Z as Hm.
    { rewrite <- (Z.mod_add x 1) by lia. rewrite Z.mod_small; lia. }
    rewrite Hm. destruct (Z.ltb_spec (x + 2 ^ w) (2 ^ (w - 1)))%Z; lia.
Qed.

Lemma swrap_range w x :
  (0 < w)%Z → (- 2 ^ (w - 1) <= swrap w x < 2 ^ (w - 1))%Z.
Proof.
  intros Hw. unfold swrap.
  assert (2 ^ w = 2 * 2 ^ (w - 1))%Z as Hp.
  { rewrite <- Z.pow_succ_r by lia. f_equal. lia. }
  assert (0 < 2 ^ w)%Z by (apply Z.pow_pos_nonneg; lia).
  pose proof (Z.mod_pos_bound x (2 ^ w) ltac:(lia)).
  destruct (Z.ltb_spec (x mod 2 ^ w) (2 ^ (w - 1)))%Z; lia.
Qed.

Lemma uwrap_swrap w x : (0 < w)%Z → uwrap w (swrap w x) = uwrap w x.
Proof.
  intros Hw. unfold uwrap, swrap. assert (2 ^ w ≠ 0)%Z by (apply Z.pow_nonzero; lia).
  destruct (_ <? _)%Z; [by rewrite Z.mod_mod|].
  rewrite Zminus_mod, Z_mod_same_full, Z.sub_0_r, !Z.mod_mod by done. done.
Qed.

Lemma truth_true z : truth z = true ↔ z ≠ 0%Z.
Proof. unfold truth. destruct (Z.eqb_spec z 0); naive_solver. Qed.

Lemma truth_b2i b : truth (b2i b) = b.
Proof. by destruct b. Qed.

(** ** State passing with faults

    [ST S A] is a computation over the state [S]; [None] is an access outside
    a live object (undefined behaviour in C) or an exhausted loop bound. *)

Definition ST (S A : Type) : Type := S → option (A * S).

#[export] Instance ST_ret S : MRet (ST S) := λ A a s, Some (a, s).
#[export] Instance ST_bind S : MBind (ST S) := λ A B f m s,
  match m s with Some (a, s') => f a s' | None => None end.

Definition st_fault {S A} : ST S A := λ _, None.
Definition st_get {S A} (f : S → A) : ST S A := λ s, Some (f s, s).
Definition st_read {S A} (f : S → option A) : ST S A := λ s,
  match f s with Some a => Some (a, s) | None => None end.
Definition st_modify {S} (f : S → S) : ST S unit := λ s, Some (tt, f s).

Section st_lemmas.
Context {S : Type}.

Lemma st_bind_run {A B} (m : ST S A) (f : A → ST S B) s :
  (m ≫= f) s = match m s with Some (a, s') => f a s' | None => None end.
Proof. done. Qed.

Lemma st_bind_some {A B} (m : ST S A) (f : A → ST S B) s a s' :
  m s = Some (a, s') → (m ≫= f) s = f a s'.
Proof. intros H. by rewrite st_bind_run, H. Qed.

Lemma st_read_some {A} (f : S → option A) s a :
  f s = Some a → st_read f s = Some (a, s).
Proof. unfold st_read. by intros ->. Qed.
End st_lemmas.

(** ** Properties of computations

    [moves R m]: every run of [m] that returns relates its states by [R];
    [safe I m]: from the states of [I] it returns, in a state of [I]. *)

Section triples.
Context {S : Type}.

Definition moves (R : S → S → Prop) {A} (m : ST S A) : Prop :=
  ∀ s a s', m s = Some (a, s') → R s s'.
Definition safe (I : S → Prop) {A} (m : ST S A) : Prop :=
  ∀ s, I s → ∃ a s', m s = Some (a, s') ∧ I s'.

Section moves.
Context (R : S → S → Prop) `{!PreOrder R}.

Lemma moves_ret {A} (a : A) : moves R (mret a).
Proof. by intros s a' s' [= <- <-]. Qed.
Lemma moves_fault {A} : moves R (@st_fault S A).
Proof. by intros s a s'. Qed.
Lemma moves_get {A} (f : S → A) : moves R (st_get f).
Proof. by intros s a s' [= <- <-]. Qed.
Lemma moves_read {A} (f : S → option A) : moves R (st_read f).
Proof. unfold st_read. intros s a s'. destruct (f s); [|done]. by intros [= <- <-]. Qed.
Lemma moves_modify (f : S → S) : (∀ s, R s (f s)) → moves R (st_modify f).
Proof. intros Hf s a s' [= <- <-]. apply Hf. Qed.
Lemma moves_bind {A B} (m : ST S A) (f : A → ST S B) :
  moves R m → (∀ a, moves R (f a)) → moves R (m ≫= f).
Proof.
  intros Hm Hf s b s'. rewrite st_bind_run. destruct (m s) as [[a s1]|] eqn:Hs; [|done].
  intros Hb. etrans; [by eapply Hm|by eapply Hf].
Qed.
Lemma moves_get_bind {A B} (g : S → A) (f : A → ST S B) :
  (∀ s b s', f (g s) s = Some (b, s') → R s s') → moves R (st_get g ≫= f).
Proof. intros Hf s b s'. rewrite st_bind_run. cbn. apply Hf. Qed.
Lemma moves_if {A} (b : bool) (m1 m2 : ST S A) :
  (b = true → moves R m1) → (b = false → moves R m2) → moves R (if b then m1 else m2).
Proof. destruct b; auto. Qed.
End moves.

Section safe.
Context (I : S → Prop).

Lemma safe_ret {A} (a : A) : safe I (mret a).
Proof. intros s Hs. by exists a, s. Qed.
Lemma safe_get {A} (f : S → A) : safe I (st_get f).
Proof. intros s Hs. by exists (f s), s. Qed.
Lemma safe_modify (f : S → S) : (∀ s, I s → I (f s)) → safe I (st_modify f).
Proof. intros Hf s Hs. exists tt, (f s). auto. Qed.
Lemma safe_bind {A B} (m : ST S A) (f : A → ST S B) :
  safe I m → (∀ a, safe I (f a)) → safe I (m ≫= f).
Proof.
  intros Hm Hf s Hs. destruct (Hm s Hs) as (a & s1 & Ha & H1).
  rewrite (st_bind_some _ _ _ _ _ Ha). by apply Hf.
Qed.
Lemma safe_get_bind {A B} (g : S → A) (f : A → ST S B) :
  (∀ s, I s → ∃ b s', f (g s) s = Some (b, s') ∧ I s') → safe I (st_get g ≫= f).
Proof. intros Hf s Hs. rewrite st_bind_run. cbn. by apply Hf. Qed.
Lemma safe_if {A} (b : bool) (m1 m2 : ST S A) :
  (b = true → safe I m1) → (b = false → safe I m2) → safe I (if b then m1 else m2).
Proof. destruct b; auto. Qed.
End safe.
End triples.

(** One symbolic step of a computation whose first action is known. *)
Ltac st_step H := rewrite (st_bind_some _ _ _ _ _ H).
Ltac st_steps := cbn [mbind mret ST_bind ST_ret st_modify st_get].

(** All the steps that run without a case analysis. *)
Ltac st_run := repeat (rewrite st_bind_run; cbn beta iota delta [st_modify st_get mret ST_ret]).

(** Case analysis on the condition the goal is stuck on. *)
Ltac break_if :=
  match goal with
  | |- context [if ?b then _ else _] =>
      match type of b with
      | bool => let E := fresh "E" in destruct b eqn:E
      | sumbool _ _ => let E := fresh "E" in destruct b as [E|E]
      end
  end.
Ltac break_match :=
  match goal with
  | |- context [match ?x with _ => _ end] => let E := fresh "E" in destruct x eqn:E
  end.

Create HintDb msm discriminated.

(** ** Reachability *)

Section invariants.
Context {S : Type} (step : S → S → Prop) (init : S → Prop).

Definition reachable (s : S) : Prop := ∃ s0, init s0 ∧ rtc step s0 s.

(** Rule induction for an inductive invariant. *)
Lemma invariant_reachable (I : S → Prop) :
  (∀ s, init s → I s) →
  (∀ s s', I s → step s s' → I s') →
  ∀ s, reachable s → I s.
Proof.
  intros Hi Hs s (s0 & H0 & Hr). apply Hi in H0.
  induction Hr; eauto.
Qed.

Lemma reachable_step s s' : reachable s → step s s' → reachable s'.
Proof. intros (s0 & ? & ?) ?. exists s0. eauto using rtc_r. Qed.
End invariants.

(** ** Lists *)

Lemma list_filter_all {A} (P : A → Prop) `{∀ x, Decision (P x)} l :
  Forall P l → filter P l = l.
Proof.
  induction 1 as [|x l Hx _ IH]; [done|].
  by rewrite filter_cons_True, IH.
Qed.

Lemma last_rev_cons {A} (x : A) l : last (reverse (x :: l)) = Some x.
Proof. by rewrite reverse_cons, last_snoc. Qed.

Lemma list_filter_none {A} (P : A → Prop) `{∀ x, Decision (P x)} l :
  Forall (λ x, ¬ P x) l → filter P l = [].
Proof.
  induction 1 as [|x l Hx _ IH]; [done|].
  by rewrite filter_cons_False.
Qed.

Lemma list_filter_ext {A} (P Q : A → Prop) `{∀ x, Decision (P x), ∀ x, Decision (Q x)} l :
  Forall (λ x, P x ↔ Q x) l → filter P l = filter Q l.
Proof.
  induction 1 as [|x l Hx _ IH]; [done|].
  rewrite !filter_cons, IH. destruct (decide (P x)), (decide (Q x)); naive_solver.
Qed.

(** A decidable fact about closed data. *)
Ltac by_compute := apply (bool_decide_unpack _); vm_compute; exact I.
