(* ===== verification/LinkedList.v ===== *)
(** * The doubly linked list of gps/utils/linked_list.c

    A pointer-level model: a heap of [list_state] and [list_element] objects
    and of [void *] variables, with [malloc]/[calloc]/[free], and the eight
    functions of the file as computations over it.  [Spec] is the sequence the
    list stands for; [list_at] relates the two. *)

From S2P Require Import Prelude.

(** Addresses of objects and of functions; [None] is NULL. *)
Abbreviation loc := positive.
Abbreviation ptr := (option positive).

(** [linked_list_err_type] *)
Inductive linked_list_err_type :=
| eLINKED_LIST_SUCCESS
| eLINKED_LIST_FAILURE_GENERAL
| eLINKED_LIST_INVALID_PARAMETER
| eLINKED_LIST_INVALID_HANDLE
| eLINKED_LIST_UNAVAILABLE_RESOURCE
| eLINKED_LIST_INSUFFICIENT_BUFFER.

#[export] Instance linked_list_err_type_eq_dec : EqDecision linked_list_err_type.
Proof. solve_decision. Defined.

(** The numeric values of the enumeration. *)
Definition linked_list_err_code (e : linked_list_err_type) : Z :=
  match e with
  | eLINKED_LIST_SUCCESS => 0
  | eLINKED_LIST_FAILURE_GENERAL => -1
  | eLINKED_LIST_INVALID_PARAMETER => -2
  | eLINKED_LIST_INVALID_HANDLE => -3
  | eLINKED_LIST_UNAVAILABLE_RESOURCE => -4
  | eLINKED_LIST_INSUFFICIENT_BUFFER => -5
  end.

Record list_element := Elem {
  next : ptr;
  prev : ptr;
  data_ptr : loc;
  dealloc_func : ptr
}.

Record list_state := LState {
  p_head : ptr;
  p_tail : ptr
}.

Definition set_next (n : ptr) (e : list_element) : list_element :=
  Elem n (prev e) (data_ptr e) (dealloc_func e).
Definition set_prev (p : ptr) (e : list_element) : list_element :=
  Elem (next e) p (data_ptr e) (dealloc_func e).

(** The C allocator: the [n]-th request, made when [live] is allocated, yields
    NULL or an address that is not live. *)
Class Allocator := {
  alloc : nat → gset loc → ptr;
  alloc_fresh : ∀ n live l, alloc n live = Some l → l ∉ live
}.

(** What the functions behind [dealloc] pointers do to the callers' state. *)
Class Deallocators (W : Type) := call_dealloc : loc → loc → W → W.

(** The memory: list headers, elements, [void *] variables, the number of
    allocation requests made so far, and the callers' own state. *)
Record heap (W : Type) := Heap {
  h_state : gmap loc list_state;
  h_elem : gmap loc list_element;
  h_cell : gmap loc ptr;
  h_calls : nat;
  h_world : W
}.
Arguments Heap {W} _ _ _ _ _.
Arguments h_state {W} _.
Arguments h_elem {W} _.
Arguments h_cell {W} _.
Arguments h_calls {W} _.
Arguments h_world {W} _.

Section memory.
Context {W : Type} `{Allocator}.

Definition with_state (f : gmap loc list_state → gmap loc list_state) (h : heap W) : heap W :=
  Heap (f (h_state h)) (h_elem h) (h_cell h) (h_calls h) (h_world h).
Definition with_elem (f : gmap loc list_element → gmap loc list_element) (h : heap W) : heap W :=
  Heap (h_state h) (f (h_elem h)) (h_cell h) (h_calls h) (h_world h).
Definition with_cell (f : gmap loc ptr → gmap loc ptr) (h : heap W) : heap W :=
  Heap (h_state h) (h_elem h) (f (h_cell h)) (h_calls h) (h_world h).
Definition with_world (f : W → W) (h : heap W) : heap W :=
  Heap (h_state h) (h_elem h) (h_cell h) (h_calls h) (f (h_world h)).

Definition live (h : heap W) : gset loc := dom (h_state h) ∪ dom (h_elem h) ∪ dom (h_cell h).

(** [malloc]/[calloc]: the address, or NULL. *)
Definition malloc : ST (heap W) ptr := λ h,
  Some (alloc (h_calls h) (live h),
        Heap (h_state h) (h_elem h) (h_cell h) (S (h_calls h)) (h_world h)).

Definition read_elem (l : loc) : ST (heap W) list_element := st_read (λ h, h_elem h !! l).
Definition read_state (l : loc) : ST (heap W) list_state := st_read (λ h, h_state h !! l).

(** A store through a pointer: the object must be live. *)
Definition update_elem (l : loc) (f : list_element → list_element) : ST (heap W) unit :=
  e ← read_elem l; st_modify (with_elem (<[l := f e]>)).
Definition update_state (l : loc) (f : list_state → list_state) : ST (heap W) unit :=
  s ← read_state l; st_modify (with_state (<[l := f s]>)).
Definition write_cell (c : loc) (v : ptr) : ST (heap W) unit :=
  _ ← st_read (λ h : heap W, h_cell h !! c); st_modify (with_cell (<[c := v]>)).
Definition read_cell (c : loc) : ST (heap W) ptr := st_read (λ h, h_cell h !! c).

(** [calloc] of an object whose first word is a [void *], seen as a variable. *)
Definition calloc_cell : ST (heap W) ptr :=
  p ← malloc;
  match p with
  | None => mret None
  | Some c => _ ← st_modify (with_cell (<[c := None]>)); mret (Some c)
  end.
Definition free_cell (c : loc) : ST (heap W) unit :=
  _ ← read_cell c; st_modify (with_cell (delete c)).

Definition free_elem (l : loc) : ST (heap W) unit :=
  _ ← read_elem l; st_modify (with_elem (delete l)).
Definition free_state (l : loc) : ST (heap W) unit :=
  _ ← read_state l; st_modify (with_state (delete l)).

Definition set_p_head (p : ptr) (s : list_state) : list_state := LState p (p_tail s).
Definition set_p_tail (p : ptr) (s : list_state) : list_state := LState (p_head s) p.
End memory.

(** ** The functions of linked_list.c *)

Section operations.
Context {W : Type} `{Allocator} `{!Deallocators W}.

Definition linked_list_init (list_data : ptr) : ST (heap W) linked_list_err_type :=
  match list_data with
  | None => mret eLINKED_LIST_INVALID_PARAMETER
  | Some out =>
      tmp_list ← malloc;
      match tmp_list with
      | None => mret eLINKED_LIST_FAILURE_GENERAL
      | Some t =>
          _ ← st_modify (with_state (<[t := LState None None]>));
          _ ← write_cell out (Some t);
          mret eLINKED_LIST_SUCCESS
      end
  end.

Definition linked_list_add (list_data data_obj dealloc : ptr) : ST (heap W) linked_list_err_type :=
  match list_data, data_obj with
  | None, _ => mret eLINKED_LIST_INVALID_HANDLE
  | Some _, None => mret eLINKED_LIST_INVALID_PARAMETER
  | Some p_list, Some obj =>
      elem ← malloc;
      match elem with
      | None => mret eLINKED_LIST_FAILURE_GENERAL
      | Some e =>
          _ ← st_modify (with_elem (<[e := Elem None None obj dealloc]>));
          st ← read_state p_list;
          _ ← update_state p_list (set_p_head (Some e));
          _ ← update_elem e (set_next (p_head st));
          _ ← match p_head st with
              | Some tmp => update_elem tmp (set_prev (Some e))
              | None => update_state p_list (set_p_tail (Some e))
              end;
          mret eLINKED_LIST_SUCCESS
      end
  end.

Definition linked_list_remove (list_data data_obj : ptr) : ST (heap W) linked_list_err_type :=
  match list_data, data_obj with
  | None, _ => mret eLINKED_LIST_INVALID_HANDLE
  | Some _, None => mret eLINKED_LIST_INVALID_PARAMETER
  | Some p_list, Some out =>
      st ← read_state p_list;
      match p_tail st with
      | None => mret eLINKED_LIST_UNAVAILABLE_RESOURCE
      | Some tmp =>
          e ← read_elem tmp;
          _ ← update_state p_list (set_p_tail (prev e));
          _ ← match prev e with
              | Some t => update_elem t (set_next None)
              | None => update_state p_list (set_p_head None)
              end;
          _ ← write_cell out (Some (data_ptr e));
          _ ← free_elem tmp;
          mret eLINKED_LIST_SUCCESS
      end
  end.

Definition linked_list_empty (list_data : ptr) : ST (heap W) Z :=
  match list_data with
  | None => mret (linked_list_err_code eLINKED_LIST_INVALID_HANDLE)
  | Some p_list =>
      st ← read_state p_list;
      mret (match p_head st with None => 1 | Some _ => 0 end)%Z
  end.

(** The loop of [linked_list_flush]; [fuel] bounds its iterations. *)
Fixpoint flush_loop (fuel : nat) (p_list : loc) : ST (heap W) unit :=
  match fuel with
  | O => st_fault
  | S fuel =>
      st ← read_state p_list;
      match p_head st with
      | None => mret tt
      | Some hd =>
          e ← read_elem hd;
          _ ← match dealloc_func e with
              | Some f => st_modify (with_world (call_dealloc f (data_ptr e)))
              | None => mret tt
              end;
          _ ← free_elem hd;
          _ ← update_state p_list (set_p_head (next e));
          flush_loop fuel p_list
      end
  end.

Definition linked_list_flush (list_data : ptr) : ST (heap W) linked_list_err_type :=
  match list_data with
  | None => mret eLINKED_LIST_INVALID_HANDLE
  | Some p_list =>
      fuel ← st_get (λ h : heap W, S (size (h_elem h)));
      _ ← flush_loop fuel p_list;
      _ ← update_state p_list (set_p_tail None);
      mret eLINKED_LIST_SUCCESS
  end.

Definition linked_list_destroy (list_data : ptr) : ST (heap W) linked_list_err_type :=
  match list_data with
  | None => mret eLINKED_LIST_INVALID_HANDLE
  | Some var =>
      p ← read_cell var;
      _ ← linked_list_flush p;
      _ ← match p with Some l => free_state l | None => mret tt end;
      _ ← write_cell var None;
      mret eLINKED_LIST_SUCCESS
  end.

(** The body of the match in [linked_list_search]: unlink and free [tmp]. *)
Definition search_unlink (p_list tmp : loc) (data_p : ptr) : ST (heap W) unit :=
  e ← read_elem tmp;
  _ ← match prev e with
      | None => update_state p_list (set_p_head (next e))
      | Some p => update_elem p (set_next (next e))
      end;
  e ← read_elem tmp;
  _ ← match next e with
      | None => update_state p_list (set_p_tail (prev e))
      | Some n => update_elem n (set_prev (prev e))
      end;
  _ ← update_elem tmp (λ e, set_prev None (set_next None e));
  e ← read_elem tmp;
  _ ← match data_p, dealloc_func e with
      | None, Some f => st_modify (with_world (call_dealloc f (data_ptr e)))
      | _, _ => mret tt
      end;
  free_elem tmp.

(** [if (NULL != data_p) *data_p = v;] *)
Definition copy_out (data_p v : ptr) : ST (heap W) unit :=
  match data_p with Some out => write_cell out v | None => mret tt end.

(** What [linked_list_search] does with a match: copy the data out, unlink. *)
Definition search_found (p_list tmp : loc) (e : list_element) (data_p : ptr)
    (rm_if_found : bool) : ST (heap W) unit :=
  _ ← copy_out data_p (Some (data_ptr e));
  if rm_if_found then search_unlink p_list tmp data_p else mret tt.

(** The loop of [linked_list_search]; the comparison callback may change the
    callers' state. *)
Fixpoint search_loop (fuel : nat) (p_list : loc) (data_p : ptr)
    (equal : loc → W → bool * W) (rm_if_found : bool) (tmp : ptr) : ST (heap W) unit :=
  match tmp, fuel with
  | None, _ => mret tt
  | Some _, O => st_fault
  | Some t, S fuel =>
      e ← read_elem t;
      found ← st_get (λ h : heap W, (equal (data_ptr e) (h_world h)).1);
      _ ← st_modify (with_world (λ w, (equal (data_ptr e) w).2));
      if found : bool then search_found p_list t e data_p rm_if_found
      else search_loop fuel p_list data_p equal rm_if_found (next e)
  end.

(** [equal] is the callback applied to the caller's [data_0]; NULL is [None]. *)
Definition linked_list_search (list_data data_p : ptr)
    (equal : option (loc → W → bool * W)) (rm_if_found : bool) : ST (heap W) linked_list_err_type :=
  match list_data, equal with
  | Some p_list, Some equal =>
      st ← read_state p_list;
      match p_tail st with
      | None => mret eLINKED_LIST_UNAVAILABLE_RESOURCE
      | Some _ =>
          _ ← copy_out data_p None;
          fuel ← st_get (λ h : heap W, S (size (h_elem h)));
          _ ← search_loop fuel p_list data_p equal rm_if_found (p_head st);
          mret eLINKED_LIST_SUCCESS
      end
  | _, _ => mret eLINKED_LIST_INVALID_HANDLE
  end.
End operations.

(** ** What the list stands for *)

Record node := Node { n_data : loc; n_dealloc : ptr }.
Abbreviation cell := (loc * node)%type.

(** The promised behaviour, on the sequence from head to tail. *)
Module Spec.
Section spec.
Context {W : Type} `{!Deallocators W}.

Definition add (nd : node) (xs : list node) : list node := nd :: xs.

(** Removal is at the tail: the oldest element. *)
Definition remove (xs : list node) : option (node * list node) :=
  match reverse xs with
  | [] => None
  | nd :: ys => Some (nd, reverse ys)
  end.

Definition drop_node (nd : node) (w : W) : W :=
  match n_dealloc nd with Some f => call_dealloc f (n_data nd) w | None => w end.

(** Flushing deallocates every element, newest first. *)
Definition flush (xs : list node) (w : W) : W := foldl (λ w nd, drop_node nd w) w xs.

(** Search from the head: the elements before the hit, the hit, those after. *)
Fixpoint search (equal : loc → W → bool * W) (xs : list node) (w : W) :
    option (list node * node * list node) * W :=
  match xs with
  | [] => (None, w)
  | nd :: ys =>
      let '(b, w) := equal (n_data nd) w in
      if b then (Some ([], nd, ys), w)
      else match search equal ys w with
           | (Some (pre, hit, post), w) => (Some (nd :: pre, hit, post), w)
           | (None, w) => (None, w)
           end
  end.

(** [linked_list_search] as a function of the sequence: the datum found, the
    sequence left, the callers' state; a removed element that is not handed to
    the caller ([copied = false]) is deallocated. *)
Definition search_op (equal : loc → W → bool * W) (copied rm : bool) (xs : list node) (w : W) :
    ptr * list node * W :=
  match search equal xs w with
  | (None, w) => (None, xs, w)
  | (Some (pre, hit, post), w) =>
      (Some (n_data hit), if rm then pre ++ post else xs,
       if rm && negb copied then drop_node hit w else w)
  end.
End spec.
End Spec.

(** ** Representation *)

(** [dlseg m p pr cs nx lst]: from [p], whose predecessor is [pr], the elements
    at the addresses of [cs] are linked both ways; [nx] follows the last one,
    whose address is [lst]. *)
Fixpoint dlseg (m : gmap loc list_element) (p pr : ptr) (cs : list cell) (nx lst : ptr) : Prop :=
  match cs with
  | [] => p = nx ∧ lst = pr
  | (l, nd) :: cs =>
      p = Some l ∧
      ∃ q, m !! l = Some (Elem q pr (n_data nd) (n_dealloc nd)) ∧ dlseg m q (Some l) cs nx lst
  end.

(** The header at [l] holds a well-linked list whose elements are [cs]. *)
Definition list_at {W} (h : heap W) (l : loc) (cs : list cell) : Prop :=
  ∃ hd tl, h_state h !! l = Some (LState hd tl) ∧
    dlseg (h_elem h) hd None cs None tl ∧ NoDup cs.*1.

(** Between [h] and [h'] only the header [l], the elements of [F] and the
    variables of [C] may differ. *)
Definition only_changes {W} (l : loc) (F C : gset loc) (h h' : heap W) : Prop :=
  (∀ k, k ≠ l → h_state h' !! k = h_state h !! k) ∧
  (∀ k, k ∉ F → h_elem h' !! k = h_elem h !! k) ∧
  (∀ c, c ∉ C → h_cell h' !! c = h_cell h !! c).

Definition footprint (cs : list cell) : gset loc := list_to_set cs.*1.

(** ** Lemmas on segments *)

Lemma dlseg_frame m m' p pr cs nx lst :
  (∀ k, k ∈ cs.*1 → m' !! k = m !! k) →
  dlseg m p pr cs nx lst → dlseg m' p pr cs nx lst.
Proof.
  revert p pr. induction cs as [|[l nd] cs IH]; intros p pr Hm; cbn; [done|].
  intros (-> & q & Hl & Hs). split; [done|]. exists q. split.
  - rewrite Hm; [done|]. cbn. apply list_elem_of_here.
  - apply IH; [|done]. intros k Hk. apply Hm. by apply list_elem_of_further.
Qed.

Lemma dlseg_insert m p pr cs nx lst k e :
  k ∉ cs.*1 → dlseg m p pr cs nx lst → dlseg (<[k := e]> m) p pr cs nx lst.
Proof.
  intros Hk. apply dlseg_frame. intros j Hj. apply lookup_insert_ne. naive_solver.
Qed.

Lemma dlseg_delete m p pr cs nx lst k :
  k ∉ cs.*1 → dlseg m p pr cs nx lst → dlseg (delete k m) p pr cs nx lst.
Proof.
  intros Hk. apply dlseg_frame. intros j Hj. apply lookup_delete_ne. naive_solver.
Qed.

Lemma dlseg_app m p pr cs1 cs2 nx lst :
  dlseg m p pr (cs1 ++ cs2) nx lst ↔
  ∃ q r, dlseg m p pr cs1 q r ∧ dlseg m q r cs2 nx lst.
Proof.
  revert p pr. induction cs1 as [|[l nd] cs1 IH]; intros p pr; cbn.
  - split; [intros H; by exists p, pr|]. by intros (q & r & (-> & ->) & H).
  - setoid_rewrite IH. naive_solver.
Qed.

Lemma dlseg_snoc m p pr cs l nd nx lst :
  dlseg m p pr (cs ++ [(l, nd)]) nx lst ↔
  lst = Some l ∧ ∃ r, dlseg m p pr cs (Some l) r ∧
    m !! l = Some (Elem nx r (n_data nd) (n_dealloc nd)).
Proof. rewrite dlseg_app. cbn. naive_solver. Qed.

(** The element before the end of a segment that starts a list. *)
Lemma dlseg_last_None m p cs nx lst :
  dlseg m p None cs nx lst → (lst = None ↔ cs = []).
Proof.
  destruct cs as [|[l nd] cs _] using rev_ind; cbn; [naive_solver|].
  rewrite dlseg_snoc. intros (-> & _). split; [done|]. by destruct cs.
Qed.

Lemma dlseg_last_Some m p cs nx k :
  dlseg m p None cs nx (Some k) →
  ∃ cs' nd r, cs = cs' ++ [(k, nd)] ∧ dlseg m p None cs' (Some k) r ∧
    m !! k = Some (Elem nx r (n_data nd) (n_dealloc nd)).
Proof.
  destruct cs as [|[l nd] cs _] using rev_ind; cbn; [naive_solver|].
  rewrite dlseg_snoc. intros (Hk & r & H & Hl). simplify_eq. eauto 10.
Qed.

Lemma dlseg_first_None m pr cs lst :
  dlseg m None pr cs None lst → cs = [].
Proof. destruct cs as [|[l nd] cs]; cbn; naive_solver. Qed.

(** Redirecting the last element's [next]. *)
Lemma dlseg_set_next m p cs nx k e nx' :
  NoDup cs.*1 → dlseg m p None cs nx (Some k) → m !! k = Some e →
  dlseg (<[k := set_next nx' e]> m) p None cs nx' (Some k).
Proof.
  intros Hnd (cs' & nd & r & -> & Hs & Hk)%dlseg_last_Some He.
  simplify_map_eq. rewrite fmap_app, NoDup_app in Hnd. cbn in Hnd.
  apply dlseg_snoc. split; [done|]. exists r. split.
  - apply dlseg_insert; [|done]. intros Hin. destruct Hnd as (_ & Hn & _).
    eapply Hn; [done|]. by apply list_elem_of_singleton.
  - by rewrite lookup_insert_eq.
Qed.

(** Redirecting the first element's [prev]. *)
Lemma dlseg_set_prev m k pr cs nx lst e pr' :
  NoDup cs.*1 → cs ≠ [] → dlseg m (Some k) pr cs nx lst → m !! k = Some e →
  dlseg (<[k := set_prev pr' e]> m) (Some k) pr' cs nx lst.
Proof.
  destruct cs as [|[l nd] cs]; [done|]. cbn.
  intros [Hl Hnd]%NoDup_cons _ ([= <-] & q & Hk & Hs) He. simplify_map_eq.
  split; [done|]. exists q. split; [done|].
  by apply dlseg_insert.
Qed.

Lemma dlseg_lookup m p pr cs nx lst l nd :
  dlseg m p pr cs nx lst → (l, nd) ∈ cs → ∃ e, m !! l = Some e.
Proof.
  revert p pr. induction cs as [|[l' nd'] cs IH]; intros p pr; cbn; [by intros _ ?%elem_of_nil|].
  intros (-> & q & Hl & Hs). rewrite elem_of_cons. naive_solver.
Qed.

Lemma dlseg_size m p pr cs nx lst :
  NoDup cs.*1 → dlseg m p pr cs nx lst → length cs ≤ size m.
Proof.
  intros Hnd Hs. rewrite <- (length_fmap fst), <- (size_list_to_set (C := gset loc)), <- size_dom; [|done].
  apply subseteq_size. intros l. rewrite elem_of_list_to_set, list_elem_of_fmap.
  intros ([l' nd] & -> & Hin). destruct (dlseg_lookup _ _ _ _ _ _ _ _ Hs Hin) as [e He].
  apply elem_of_dom. eauto.
Qed.

(** A list whose header and elements are untouched is still there. *)
Lemma only_changes_list_at {W} (h h' : heap W) l F C l' cs :
  only_changes l F C h h' → l' ≠ l → footprint cs ## F →
  list_at h l' cs → list_at h' l' cs.
Proof.
  intros (Hst & Hel & _) Hne Hd (hd & tl & Hl & Hs & Hnd).
  exists hd, tl. split_and!; [by rewrite Hst| |done].
  eapply dlseg_frame; [|done]. intros k Hk. apply Hel.
  unfold footprint in Hd. set_solver.
Qed.

(** ** Running the memory operations *)

Section running.
Context {W : Type} `{Allocator}.
Implicit Types h : heap W.

Lemma run_read_elem h l e : h_elem h !! l = Some e → read_elem l h = Some (e, h).
Proof. exact (st_read_some (λ h, h_elem h !! l) h e). Qed.

Lemma run_read_state h l s : h_state h !! l = Some s → read_state l h = Some (s, h).
Proof. exact (st_read_some (λ h, h_state h !! l) h s). Qed.

Lemma run_read_cell h c v : h_cell h !! c = Some v → read_cell c h = Some (v, h).
Proof. exact (st_read_some (λ h, h_cell h !! c) h v). Qed.

Lemma run_update_elem h l e f :
  h_elem h !! l = Some e → update_elem l f h = Some (tt, with_elem (<[l := f e]>) h).
Proof. intros Hl. unfold update_elem. by rewrite (st_bind_some _ _ _ _ _ (run_read_elem _ _ _ Hl)). Qed.

Lemma run_update_state h l s f :
  h_state h !! l = Some s → update_state l f h = Some (tt, with_state (<[l := f s]>) h).
Proof. intros Hl. unfold update_state. by rewrite (st_bind_some _ _ _ _ _ (run_read_state _ _ _ Hl)). Qed.

Lemma run_write_cell h c v v' :
  h_cell h !! c = Some v → write_cell c v' h = Some (tt, with_cell (<[c := v']>) h).
Proof. intros Hc. unfold write_cell. by rewrite (st_bind_some _ _ _ _ _ (run_read_cell _ _ _ Hc)). Qed.

Lemma run_free_elem h l e :
  h_elem h !! l = Some e → free_elem l h = Some (tt, with_elem (delete l) h).
Proof. intros Hl. unfold free_elem. by rewrite (st_bind_some _ _ _ _ _ (run_read_elem _ _ _ Hl)). Qed.

Lemma run_free_state h l s :
  h_state h !! l = Some s → free_state l h = Some (tt, with_state (delete l) h).
Proof. intros Hl. unfold free_state. by rewrite (st_bind_some _ _ _ _ _ (run_read_state _ _ _ Hl)). Qed.

Lemma only_changes_refl l F C h : only_changes l F C h h.
Proof. done. Qed.

Lemma only_changes_trans l F1 F2 C1 C2 h1 h2 h3 :
  only_changes l F1 C1 h1 h2 → only_changes l F2 C2 h2 h3 →
  only_changes l (F1 ∪ F2) (C1 ∪ C2) h1 h3.
Proof.
  intros (Hs1 & He1 & Hc1) (Hs2 & He2 & Hc2). split_and!; intros k Hk.
  - by rewrite Hs2, Hs1.
  - rewrite He2, He1; set_solver.
  - rewrite Hc2, Hc1; set_solver.
Qed.

Lemma only_changes_weaken l F1 F2 C1 C2 h1 h2 :
  F1 ⊆ F2 → C1 ⊆ C2 → only_changes l F1 C1 h1 h2 → only_changes l F2 C2 h1 h2.
Proof. intros HF HC (Hs & He & Hc). split_and!; [done| |]; intros k Hk; [apply He|apply Hc]; set_solver. Qed.

End running.

(** Execute the first memory operation of the computation in the goal. *)
Ltac run1 :=
  st_steps;
  first
    [ erewrite st_bind_some; [|eapply run_read_elem; cbn; first [eassumption | by simplify_map_eq]]
    | erewrite st_bind_some; [|eapply run_read_state; cbn; first [eassumption | by simplify_map_eq]]
    | erewrite st_bind_some; [|eapply run_update_elem; cbn; first [eassumption | by simplify_map_eq]]
    | erewrite st_bind_some; [|eapply run_update_state; cbn; first [eassumption | by simplify_map_eq]]
    | erewrite st_bind_some; [|eapply run_write_cell; cbn; first [eassumption | by simplify_map_eq]]
    | erewrite st_bind_some; [|eapply run_read_cell; cbn; first [eassumption | by simplify_map_eq]]
    | erewrite st_bind_some; [|eapply run_free_elem; cbn; first [eassumption | by simplify_map_eq]]
    | erewrite st_bind_some; [|eapply run_free_state; cbn; first [eassumption | by simplify_map_eq]]
    | erewrite st_bind_some; [|reflexivity] ];
  cbn [p_head p_tail next prev data_ptr dealloc_func set_next set_prev set_p_head set_p_tail].

Lemma dlseg_cons m p pr l nd cs nx lst :
  dlseg m p pr ((l, nd) :: cs) nx lst ↔
  p = Some l ∧ ∃ q, m !! l = Some (Elem q pr (n_data nd) (n_dealloc nd)) ∧
    dlseg m q (Some l) cs nx lst.
Proof. done. Qed.

Lemma dlseg_nil m p pr nx lst : dlseg m p pr [] nx lst ↔ p = nx ∧ lst = pr.
Proof. done. Qed.

Lemma dlseg_first_Some m pr cs k tl :
  dlseg m (Some k) pr cs None tl → ∃ nd cs', cs = (k, nd) :: cs' ∧ is_Some (m !! k).
Proof. destruct cs as [|[k' nd] cs']; cbn; naive_solver. Qed.

#[local] Arguments dlseg : simpl never.

Lemma footprint_nil : footprint [] = ∅.
Proof. done. Qed.
Lemma footprint_cons l nd cs : footprint ((l, nd) :: cs) = {[l]} ∪ footprint cs.
Proof. done. Qed.
Lemma footprint_app cs1 cs2 : footprint (cs1 ++ cs2) = footprint cs1 ∪ footprint cs2.
Proof. unfold footprint. by rewrite fmap_app, list_to_set_app_L. Qed.
Create Rewrite HintDb footprint.
#[export] Hint Rewrite footprint_nil footprint_cons footprint_app : footprint.

(** Lookups in the updated heap at an address outside the frame. *)
Ltac solve_changes :=
  unfold only_changes; split; [|split]; intros ? ?; cbn; autorewrite with footprint in *;
  repeat first [rewrite lookup_insert_ne by set_solver | rewrite lookup_delete_ne by set_solver];
  done.

Section properties.
Context {W : Type} `{Allocator} `{!Deallocators W}.
Implicit Types h : heap W.

Lemma alloc_not_elem h e :
  alloc (h_calls h) (live h) = Some e → h_elem h !! e = None ∧ h_state h !! e = None.
Proof.
  intros Ha%alloc_fresh. unfold live in Ha. split; apply not_elem_of_dom; set_solver.
Qed.

Lemma list_at_fresh h l cs e :
  list_at h l cs → h_elem h !! e = None → e ∉ cs.*1.
Proof.
  intros (hd & tl & _ & Hs & _) He ([e' nd] & -> & Hin)%list_elem_of_fmap.
  destruct (dlseg_lookup _ _ _ _ _ _ _ _ Hs Hin). naive_solver.
Qed.

(** [linked_list_add] on a well-linked list: when the allocator yields an
    element, the new element becomes the head and the list stays well-linked
    both ways; when it yields NULL the call reports a general failure and the
    list is untouched.  No other list, element or variable changes. *)
Theorem linked_list_add_spec h l obj f cs :
  list_at h l cs →
  match alloc (h_calls h) (live h) with
  | None => ∃ h', linked_list_add (Some l) (Some obj) f h = Some (eLINKED_LIST_FAILURE_GENERAL, h') ∧
      list_at h' l cs ∧ only_changes l ∅ ∅ h h' ∧ h_world h' = h_world h
  | Some e => ∃ h', linked_list_add (Some l) (Some obj) f h = Some (eLINKED_LIST_SUCCESS, h') ∧
      list_at h' l ((e, Node obj f) :: cs) ∧ only_changes l ({[e]} ∪ footprint cs) ∅ h h' ∧
      h_world h' = h_world h
  end.
Proof.
  intros Hat. pose proof Hat as (hd & tl & Hl & Hs & Hnd).
  destruct (alloc (h_calls h) (live h)) as [e|] eqn:Ha; unfold linked_list_add, malloc;
    rewrite st_bind_run, Ha; [|eexists; split; [done|]; split; [by exists hd, tl|done]].
  destruct (alloc_not_elem _ _ Ha) as [He _]. pose proof (list_at_fresh _ _ _ _ Hat He) as Hfr.
  run1. run1. run1. run1. destruct hd as [k|].
  - destruct (dlseg_first_Some _ _ _ _ _ Hs) as (nd & cs' & -> & ek & Hk).
    assert (k ≠ e) by congruence. run1.
    eexists. split; [done|]. split; [|split; [solve_changes|done]].
    exists (Some e), tl. cbn. split; [by simplify_map_eq|]. split; [|by constructor].
    apply dlseg_cons. split; [done|]. eexists. split; [by simplify_map_eq|].
    rewrite insert_insert_eq. eapply dlseg_set_prev; [done|done| |by simplify_map_eq].
    by apply dlseg_insert.
  - apply dlseg_first_None in Hs as ->. run1. eexists. split; [done|].
    split; [|split; [solve_changes|done]].
    exists (Some e), (Some e). cbn. split; [by simplify_map_eq|]. split; [|constructor; [done|constructor]].
    apply dlseg_cons. split; [done|]. eexists. split; [by simplify_map_eq|done].
Qed.

Lemma Spec_remove_cases (cs : list cell) :
  match Spec.remove cs.*2 with
  | None => cs = []
  | Some (nd, ys) => ∃ k cs', cs = cs' ++ [(k, nd)] ∧ ys = cs'.*2
  end.
Proof.
  unfold Spec.remove. destruct cs as [|[k nd] cs' _] using rev_ind; [done|].
  rewrite fmap_app. cbn [fmap list_fmap snd]. rewrite reverse_snoc.
  exists k, cs'. by rewrite reverse_involutive.
Qed.

(** [linked_list_remove] takes the tail (the oldest element): its datum is
    written to [*data_obj], its node is freed, the rest stays well-linked; on
    the empty list it reports an unavailable resource and changes nothing. *)
Theorem linked_list_remove_spec h l out v cs :
  list_at h l cs → h_cell h !! out = Some v →
  match Spec.remove cs.*2 with
  | None => linked_list_remove (Some l) (Some out) h = Some (eLINKED_LIST_UNAVAILABLE_RESOURCE, h)
  | Some (nd, ys) => ∃ h' k cs',
      linked_list_remove (Some l) (Some out) h = Some (eLINKED_LIST_SUCCESS, h') ∧
      cs = cs' ++ [(k, nd)] ∧ ys = cs'.*2 ∧
      list_at h' l cs' ∧ h_cell h' !! out = Some (Some (n_data nd)) ∧ h_elem h' !! k = None ∧
      only_changes l (footprint cs) {[out]} h h' ∧ h_world h' = h_world h
  end.
Proof.
  intros (hd & tl & Hl & Hs & Hnd) Hout. pose proof (Spec_remove_cases cs) as Hc.
  destruct (Spec.remove cs.*2) as [[nd ys]|]; unfold linked_list_remove.
  2:{ subst cs. apply dlseg_nil in Hs as [-> ->]. by run1. }
  destruct Hc as (k & cs' & -> & ->). apply dlseg_snoc in Hs as (-> & r & Hs & Hk).
  rewrite fmap_app, NoDup_app in Hnd. destruct Hnd as (Hnd & Hdis & _). cbn in Hdis.
  assert (k ∉ cs'.*1) as Hk' by (intros Hin; apply (Hdis k Hin), list_elem_of_here).
  run1. run1. run1. destruct r as [t|].
  - destruct (dlseg_last_Some _ _ _ _ _ Hs) as (cs'' & nd' & r' & -> & Hs' & Ht).
    assert (t ∈ (cs'' ++ [(t, nd')]).*1) by (rewrite fmap_app; set_solver).
    assert (t ≠ k) by naive_solver.
    run1. run1. run1. eexists _, k, _. split; [done|]. do 2 (split; [done|]).
    split; [|split; [cbn; by simplify_map_eq|split; [cbn; by simplify_map_eq|split; [|done]]]].
    2:{ solve_changes. }
    exists hd, (Some t). cbn. split; [by simplify_map_eq|]. split; [|done].
    apply dlseg_delete; [done|]. by eapply dlseg_set_next.
  - apply dlseg_last_None in Hs as Hn. destruct Hn as [Hn _]. specialize (Hn eq_refl) as ->.
    apply dlseg_nil in Hs as [-> _].
    run1. run1. run1. eexists _, k, []. split; [done|]. do 2 (split; [done|]).
    split; [|split; [cbn; by simplify_map_eq|split; [cbn; by simplify_map_eq|split; [solve_changes|done]]]].
    exists None, None. cbn. split; [by simplify_map_eq|]. done.
Qed.

Lemma flush_loop_spec l tl fuel h hd pr cs lst :
  length cs < fuel →
  h_state h !! l = Some (LState hd tl) →
  dlseg (h_elem h) hd pr cs None lst → NoDup cs.*1 →
  ∃ h', flush_loop fuel l h = Some (tt, h') ∧
    h_state h' !! l = Some (LState None tl) ∧
    h_world h' = Spec.flush cs.*2 (h_world h) ∧
    (∀ k, k ∈ footprint cs → h_elem h' !! k = None) ∧
    only_changes l (footprint cs) ∅ h h'.
Proof.
  revert fuel h hd pr. induction cs as [|[k nd] cs IH]; intros [|fuel] h hd pr Hf Hl Hs Hnd; [lia| |cbn in Hf; lia|].
  - apply dlseg_nil in Hs as [-> ->]. cbn [flush_loop]. run1. eexists. split; [done|].
    split_and!; [done|done|set_solver|done..].
  - apply dlseg_cons in Hs as (-> & q & Hk & Hs). apply NoDup_cons in Hnd as [Hk' Hnd].
    cbn [flush_loop]. run1. run1.
    set (h1 := with_world (Spec.drop_node nd) h).
    assert ((match n_dealloc nd with
             | Some f => st_modify (with_world (call_dealloc f (n_data nd)))
             | None => mret tt end) h = Some (tt, h1)) as Hd.
    { unfold h1, Spec.drop_node. destruct (n_dealloc nd); [done|]. by destruct h. }
    rewrite (st_bind_some _ _ _ _ _ Hd). run1. run1.
    set (h2 := with_state (<[l := LState q tl]>) (with_elem (delete k) h1)).
    destruct (IH fuel h2 q (Some k)) as (h' & Hrun & Hst & Hw & Hgone & Hch).
    { cbn in Hf. lia. } { cbn. by simplify_map_eq. } { cbn. by apply dlseg_delete. } { done. }
    exists h'. split; [done|]. split; [done|]. split; [done|].
    destruct Hch as (Hc1 & Hc2 & Hc3). split.
    + intros j. rewrite footprint_cons, elem_of_union, elem_of_singleton.
      destruct (decide (j ∈ footprint cs)); [eauto|]. intros [->|?]; [|done].
      rewrite Hc2 by done. cbn. by simplify_map_eq.
    + split; [|split]; intros j Hj.
      * rewrite Hc1 by done. cbn. by simplify_map_eq.
      * rewrite footprint_cons in Hj. rewrite Hc2 by set_solver. cbn. rewrite lookup_delete_ne by set_solver. done.
      * by rewrite Hc3.
Qed.

(** [linked_list_flush] terminates and empties the list: every element is
    freed, and every non-NULL deallocator is called on its datum exactly once,
    from the head to the tail. *)
Theorem linked_list_flush_spec h l cs :
  list_at h l cs →
  ∃ h', linked_list_flush (Some l) h = Some (eLINKED_LIST_SUCCESS, h') ∧
    list_at h' l [] ∧ h_world h' = Spec.flush cs.*2 (h_world h) ∧
    (∀ k, k ∈ footprint cs → h_elem h' !! k = None) ∧
    only_changes l (footprint cs) ∅ h h'.
Proof.
  intros (hd & tl & Hl & Hs & Hnd). unfold linked_list_flush. run1.
  destruct (flush_loop_spec l tl (S (size (h_elem h))) h hd None cs tl)
    as (h' & Hrun & Hst & Hw & Hgone & Hch); [|done..|].
  { apply Nat.lt_succ_r. by eapply dlseg_size. }
  rewrite (st_bind_some _ _ _ _ _ Hrun). run1. eexists. split; [done|].
  split; [exists None, None; cbn; split_and!; [by simplify_map_eq|done|constructor]|].
  split; [done|]. split; [done|].
  destruct Hch as (Hc1 & Hc2 & Hc3). split; [|done]. intros j Hj. cbn. rewrite lookup_insert_ne by done. auto.
Qed.

Lemma search_loop_run l data_p equal rm fuel h tmp pr cs lst :
  dlseg (h_elem h) tmp pr cs None lst → length cs ≤ fuel →
  search_loop fuel l data_p equal rm tmp h =
  let '(r, w) := Spec.search equal cs.*2 (h_world h) in
  match r with
  | None => Some (tt, with_world (λ _, w) h)
  | Some (pre, hit, post) =>
      match cs !! length pre with
      | Some (t, _) => (e ← read_elem t; search_found l t e data_p rm) (with_world (λ _, w) h)
      | None => None
      end
  end.
Proof.
  revert fuel h tmp pr. induction cs as [|[k nd] cs IH]; intros fuel h tmp pr Hs Hf.
  - apply dlseg_nil in Hs as [-> _]. cbn. destruct fuel, h; done.
  - apply dlseg_cons in Hs as (-> & q & Hk & Hs). destruct fuel as [|fuel]; [cbn in Hf; lia|].
    cbn [search_loop fmap list_fmap Spec.search]. run1. run1. run1. cbn [snd].
    destruct (equal (n_data nd) (h_world h)) as [b w] eqn:Heq. cbn [fst].
    destruct b.
    + cbn. erewrite st_bind_some; [|apply run_read_elem; cbn; exact Hk].
      f_equal. unfold with_world. by rewrite Heq.
    + rewrite (IH fuel _ q (Some k)); [|done|cbn in Hf; lia].
      cbn [h_world with_world]. rewrite Heq. cbn [snd].
      destruct (Spec.search equal (snd <$> cs) w) as [[[[pre hit] post]|] w']; [|done].
      cbn. destruct (cs !! length pre) as [[t ?]|]; done.
Qed.

(** The two halves around an element, with its neighbours. *)
Lemma dlseg_split m hd cs1 t nd cs2 tl :
  dlseg m hd None (cs1 ++ (t, nd) :: cs2) None tl →
  ∃ q r, dlseg m hd None cs1 (Some t) r ∧
    m !! t = Some (Elem q r (n_data nd) (n_dealloc nd)) ∧
    dlseg m q (Some t) cs2 None tl.
Proof. intros (p & r & H1 & (-> & q & H2 & H3))%dlseg_app. eauto. Qed.

Lemma nodup_split (cs1 cs2 : list cell) t nd :
  NoDup (cs1 ++ (t, nd) :: cs2).*1 →
  NoDup (cs1 ++ cs2).*1 ∧ NoDup (cs1.*1) ∧ NoDup (cs2.*1) ∧ (t ∉ cs1.*1) ∧ (t ∉ cs2.*1) ∧
  (∀ k : loc, k ∈ cs1.*1 → k ∉ cs2.*1).
Proof.
  rewrite !fmap_app. cbn. rewrite !NoDup_app, NoDup_cons. set_solver.
Qed.

Lemma dlseg_last_elem m hd cs nx k :
  dlseg m hd None cs nx (Some k) → k ∈ cs.*1 ∧ is_Some (m !! k).
Proof.
  intros (cs' & nd & r & -> & _ & Hk)%dlseg_last_Some. rewrite fmap_app. set_solver.
Qed.

(** What unlinking does to the segments, by cases on the neighbours. *)
Lemma dlseg_unlink_next m hd cs t r q :
  NoDup cs.*1 → dlseg m hd None cs (Some t) r →
  match r with
  | None => cs = [] ∧ hd = Some t
  | Some p => p ∈ cs.*1 ∧ ∃ e, m !! p = Some e ∧ dlseg (<[p := set_next q e]> m) hd None cs q (Some p)
  end.
Proof.
  intros Hnd Hs. destruct r as [p|].
  - destruct (dlseg_last_elem _ _ _ _ _ Hs) as [? [e He]]. split; [done|].
    exists e. split; [done|]. by eapply dlseg_set_next.
  - destruct (dlseg_last_None _ _ _ _ _ Hs) as [Hn _]. specialize (Hn eq_refl) as ->.
    by apply dlseg_nil in Hs as [-> _].
Qed.

Lemma dlseg_unlink_prev m q t r cs tl :
  NoDup cs.*1 → dlseg m q (Some t) cs None tl →
  match q with
  | None => cs = [] ∧ tl = Some t
  | Some n => n ∈ cs.*1 ∧ ∃ e, m !! n = Some e ∧ dlseg (<[n := set_prev r e]> m) q r cs None tl
  end.
Proof.
  intros Hnd Hs. destruct q as [n|].
  - destruct (dlseg_first_Some _ _ _ _ _ Hs) as (nd & cs' & -> & e & He).
    split; [set_solver|]. exists e. split; [done|]. by eapply dlseg_set_prev.
  - pose proof (dlseg_first_None _ _ _ _ Hs) as ->. by apply dlseg_nil in Hs as [_ ->].
Qed.

Definition after_unlink (data_p : ptr) (nd : node) (w : W) : W :=
  match data_p with None => Spec.drop_node nd w | Some _ => w end.

Lemma run_search_dealloc h data_p nd :
  (match data_p, n_dealloc nd with
   | None, Some f => st_modify (with_world (call_dealloc f (n_data nd)))
   | _, _ => mret tt
   end : ST (heap W) unit) h = Some (tt, with_world (after_unlink data_p nd) h).
Proof. unfold after_unlink, Spec.drop_node. by destruct data_p, (n_dealloc nd), h. Qed.


(** The end of the unlinking: deallocation, [free], and the two segments. *)
Ltac finish_unlink :=
  cbn [data_ptr dealloc_func set_prev set_next];
  rewrite (st_bind_some _ _ _ _ _ (run_search_dealloc _ _ _));
  erewrite run_free_elem by (cbn; by simplify_map_eq);
  eexists; split; [done|];
  split; [|split; [cbn; by simplify_map_eq|split; [done|solve_changes]]];
  eexists _, _; cbn; split; [by simplify_map_eq|]; split; [|done];
  apply dlseg_delete; [set_solver|]; apply dlseg_insert; [set_solver|].

Lemma search_unlink_spec h l cs1 t nd cs2 data_p :
  list_at h l (cs1 ++ (t, nd) :: cs2) →
  ∃ h', search_unlink l t data_p h = Some (tt, h') ∧
    list_at h' l (cs1 ++ cs2) ∧ h_elem h' !! t = None ∧
    h_world h' = after_unlink data_p nd (h_world h) ∧
    only_changes l (footprint (cs1 ++ (t, nd) :: cs2)) ∅ h h'.
Proof.
  intros (hd & tl & Hl & Hs & Hnd).
  destruct (dlseg_split _ _ _ _ _ _ _ Hs) as (q & r & Hs1 & Ht & Hs2).
  destruct (nodup_split _ _ _ _ Hnd) as (Hnd' & Hnd1 & Hnd2 & Ht1 & Ht2 & Hdis).
  pose proof (dlseg_unlink_next _ _ _ _ _ q Hnd1 Hs1) as Hn.
  pose proof (dlseg_unlink_prev _ _ _ r _ _ Hnd2 Hs2) as Hp.
  unfold search_unlink. destruct r as [p|], q as [n|].
  - destruct Hn as (Hp1 & ep & Hpe & Hn), Hp as (Hn2 & en & Hne & Hp).
    assert (p ≠ t) by set_solver. assert (n ≠ t) by set_solver. assert (p ≠ n) by set_solver.
    do 6 run1. finish_unlink. apply dlseg_app. exists (Some n), (Some p). split.
    + by apply dlseg_insert; [set_solver|].
    + rewrite insert_insert_ne by done. by apply dlseg_insert; [set_solver|].
  - destruct Hn as (Hp1 & ep & Hpe & Hn), Hp as [-> ->]. assert (p ≠ t) by set_solver.
    do 6 run1. finish_unlink. by rewrite app_nil_r.
  - destruct Hn as [-> ->], Hp as (Hn2 & en & Hne & Hp). assert (n ≠ t) by set_solver.
    do 6 run1. finish_unlink. done.
  - destruct Hn as [-> ->], Hp as [-> ->].
    do 6 run1. finish_unlink. done.
Qed.

(** The outcome of a search, on the sequence of cells. *)
Lemma Spec_search_split equal (cs : list cell) (w w' : W) pre hit post :
  Spec.search equal cs.*2 w = (Some (pre, hit, post), w') →
  ∃ cs1 t cs2, cs = cs1 ++ (t, hit) :: cs2 ∧ pre = cs1.*2 ∧ post = cs2.*2.
Proof.
  revert w pre. induction cs as [|[k nd] cs IH]; intros w pre; cbn; [done|].
  destruct (equal (n_data nd) w) as [[] w1].
  - intros [= <- <- <- <-]. by exists [], k, cs.
  - destruct (Spec.search equal (snd <$> cs) w1) as [[[[pre1 hit1] post1]|] w2] eqn:Hs; [|done].
    intros [= <- <- <- <-]. destruct (IH _ _ Hs) as (cs1 & t & cs2 & -> & -> & ->).
    by exists ((k, nd) :: cs1), t, cs2.
Qed.


Definition out_cells (data_p : ptr) : gset loc :=
  match data_p with Some out => {[out]} | None => ∅ end.

Lemma run_copy_out h data_p v :
  (∀ out, data_p = Some out → is_Some (h_cell h !! out)) →
  ∃ h', copy_out data_p v h = Some (tt, h') ∧ h_elem h' = h_elem h ∧ h_state h' = h_state h ∧ h_world h' = h_world h ∧
    (∀ out, data_p = Some out → h_cell h' !! out = Some v) ∧
    ∀ c, c ∉ out_cells data_p → h_cell h' !! c = h_cell h !! c.
Proof.
  unfold copy_out. destruct data_p as [out|]; intros Hout.
  - destruct (Hout out eq_refl) as [v0 Hv]. erewrite run_write_cell by done.
    eexists. split; [done|]. split_and!; [done..| |].
    + intros ? [= <-]. cbn. by simplify_map_eq.
    + intros c Hc. cbn in *. by rewrite lookup_insert_ne by set_solver.
  - by exists h.
Qed.

Lemma list_at_alive h l cs k : list_at h l cs → k ∈ footprint cs → is_Some (h_elem h !! k).
Proof.
  intros (hd & tl & _ & Hs & _). unfold footprint. rewrite elem_of_list_to_set, list_elem_of_fmap.
  intros ([k' nd] & -> & (cs1 & cs2 & ->)%list_elem_of_split).
  destruct (dlseg_split _ _ _ _ _ _ _ Hs) as (q & r & _ & Ht & _). by eexists.
Qed.

Lemma search_found_spec h l cs1 t nd cs2 data_p rm :
  list_at h l (cs1 ++ (t, nd) :: cs2) →
  (∀ out, data_p = Some out → is_Some (h_cell h !! out)) →
  ∃ h', (e ← read_elem t; search_found l t e data_p rm) h = Some (tt, h') ∧
    list_at h' l (if rm then cs1 ++ cs2 else cs1 ++ (t, nd) :: cs2) ∧
    h_world h' = (if rm then after_unlink data_p nd (h_world h) else h_world h) ∧
    (∀ out, data_p = Some out → h_cell h' !! out = Some (Some (n_data nd))) ∧
    (rm = true → h_elem h' !! t = None) ∧
    only_changes l (footprint (cs1 ++ (t, nd) :: cs2)) (out_cells data_p) h h'.
Proof.
  intros Hat Hout. pose proof Hat as (hd & tl & Hl & Hs & Hnd).
  destruct (dlseg_split _ _ _ _ _ _ _ Hs) as (q & r & _ & Ht & _). run1.
  destruct (run_copy_out h data_p (Some (n_data nd)) Hout) as (h1 & Hw & He & Hst & Hwd & Hc & Hoc).
  unfold search_found. cbn [data_ptr]. rewrite (st_bind_some _ _ _ _ _ Hw).
  assert (list_at h1 l (cs1 ++ (t, nd) :: cs2)) as Hat1.
  { exists hd, tl. by rewrite He, Hst. }
  destruct rm.
  - destruct (search_unlink_spec h1 l cs1 t nd cs2 data_p Hat1) as (h2 & Hrun & Hat2 & Hfree & Hw2 & Hch).
    rewrite Hrun. exists h2. split; [done|]. split; [done|]. split; [by rewrite Hw2, Hwd|].
    destruct Hch as (H1 & H2 & H3). split; [|split; [done|split; [|split]]].
    + intros out Ho. rewrite H3 by set_solver. auto.
    + intros k Hk. by rewrite H1, Hst.
    + intros k Hk. by rewrite H2, He.
    + intros c Hcc. rewrite H3 by set_solver. auto.
  - exists h1. split; [done|]. split; [done|]. split; [done|]. split; [done|]. split; [done|].
    split; [|split]; intros k Hk; [by rewrite Hst|by rewrite He|auto].
Qed.

(** C37: [linked_list_search] on a non-empty list calls the comparison on the
    elements from the head up to the first match, copies the match out (NULL
    if there is none), and, when asked to, unlinks and frees exactly that
    element, deallocating its datum only if it was not copied out: of the
    elements the list had, those alive afterwards are those it still has, at
    their addresses. *)
Theorem linked_list_search_spec h l data_p equal rm cs :
  list_at h l cs → cs ≠ [] →
  (∀ out, data_p = Some out → is_Some (h_cell h !! out)) →
  ∃ h' cs' found,
    linked_list_search (Some l) data_p (Some equal) rm h = Some (eLINKED_LIST_SUCCESS, h') ∧
    list_at h' l cs' ∧
    Spec.search_op equal (bool_decide (data_p ≠ None)) rm cs.*2 (h_world h)
      = (found, cs'.*2, h_world h') ∧
    (∀ out, data_p = Some out → h_cell h' !! out = Some found) ∧
    cs' `sublist_of` cs ∧ (∀ k, k ∈ footprint cs → is_Some (h_elem h' !! k) ↔ k ∈ footprint cs') ∧
    only_changes l (footprint cs) (out_cells data_p) h h'.
Proof.
  intros Hat Hne Hout. pose proof Hat as (hd & tl & Hl & Hs & Hnd).
  unfold linked_list_search. run1. destruct tl as [tl|].
  2:{ pose proof (dlseg_last_None _ _ _ _ _ Hs) as [Hn _]. by specialize (Hn eq_refl). }
  destruct (run_copy_out h data_p None Hout) as (h1 & Hw & He & Hst & Hwd & Hc & Hoc).
  rewrite (st_bind_some _ _ _ _ _ Hw). run1.
  rewrite He, st_bind_run, (search_loop_run l data_p equal rm _ h1 hd None cs (Some tl));
    [|by rewrite He|apply Nat.le_le_succ_r; by eapply dlseg_size].
  rewrite Hwd. unfold Spec.search_op.
  destruct (Spec.search equal cs.*2 (h_world h)) as [[[[pre hit] post]|] w] eqn:Hse.
  - destruct (Spec_search_split _ _ _ _ _ _ _ Hse) as (cs1 & t & cs2 & -> & -> & ->).
    rewrite length_fmap, list_lookup_middle by done.
    destruct (search_found_spec (with_world (λ _, w) h1) l cs1 t hit cs2 data_p rm)
      as (h2 & Hrun & Hat2 & Hw2 & Hc2 & Hf2 & Hch2).
    { exists hd, (Some tl). cbn. by rewrite He, Hst. } { cbn. naive_solver. }
    rewrite Hrun. eexists h2, _, _. split; [done|]. split; [done|]. split; [|split; [done|split; [|split]]].
    + rewrite Hw2. unfold after_unlink. destruct rm, data_p; cbn; by rewrite ?fmap_app.
    + destruct rm; [|done]. by apply sublist_app, sublist_cons.
    + intros k Hk. pose proof (λ k, list_at_alive _ _ _ k Hat2) as Ha2. destruct rm; [|by split; auto].
      unfold footprint in Hk. rewrite elem_of_list_to_set, fmap_app, elem_of_app in Hk. cbn in Hk.
      split; [|apply Ha2]. intros Hs'. unfold footprint. rewrite elem_of_list_to_set, fmap_app, elem_of_app.
      rewrite elem_of_cons in Hk. destruct Hk as [?|[->|?]]; [by left| |by right].
      rewrite (Hf2 eq_refl) in Hs'. by destruct Hs'.
    + destruct Hch2 as (H1 & H2 & H3). split; [|split].
      * intros k Hk. by rewrite H1; cbn; rewrite ?Hst.
      * intros k Hk. by rewrite H2; cbn; rewrite ?He.
      * intros c Hcc. by rewrite H3; cbn; auto.
  - eexists _, cs, None. split; [done|].
    match goal with |- list_at ?h2 _ _ ∧ _ => assert (list_at h2 l cs) as Hat2 by (exists hd, (Some tl); cbn; by rewrite He, Hst) end.
    split; [exact Hat2|]. split; [done|]. split; [done|]. split; [done|].
    split; [intros k Hk; split; [done|intros _; by apply (list_at_alive _ _ _ _ Hat2)]|].
    split; [|split]; intros k Hk; cbn; rewrite ?Hst, ?He; auto.
Qed.

(** Searching an empty list reports an unavailable resource and leaves
    [*data_p] as it was. *)
Theorem linked_list_search_empty h l data_p equal rm :
  list_at h l [] →
  linked_list_search (Some l) data_p (Some equal) rm h = Some (eLINKED_LIST_UNAVAILABLE_RESOURCE, h).
Proof.
  intros (hd & tl & Hl & Hs & _). apply dlseg_nil in Hs as [-> ->].
  unfold linked_list_search. by run1.
Qed.

(** [linked_list_init] stores a fresh empty list, or fails without effect. *)
Theorem linked_list_init_spec h out v :
  h_cell h !! out = Some v →
  match alloc (h_calls h) (live h) with
  | None => ∃ h', linked_list_init (Some out) h = Some (eLINKED_LIST_FAILURE_GENERAL, h') ∧
      h_cell h' = h_cell h ∧ h_state h' = h_state h ∧ h_elem h' = h_elem h
  | Some l => ∃ h', linked_list_init (Some out) h = Some (eLINKED_LIST_SUCCESS, h') ∧
      h_state h !! l = None ∧ h_cell h' !! out = Some (Some l) ∧ list_at h' l [] ∧
      only_changes l ∅ {[out]} h h'
  end.
Proof.
  intros Hout. destruct (alloc (h_calls h) (live h)) as [l|] eqn:Ha; unfold linked_list_init, malloc;
    rewrite st_bind_run, Ha; [|by eexists].
  destruct (alloc_not_elem _ _ Ha) as [_ Hl]. run1. run1. eexists. split; [done|].
  split; [done|]. split; [cbn; by simplify_map_eq|]. split; [|solve_changes].
  exists None, None. cbn. split; [by simplify_map_eq|]. split; [done|constructor].
Qed.

(** [linked_list_destroy] frees the header and every element of the list,
    runs the deallocators as a flush does, and resets the caller's handle to
    NULL; nothing else in memory is freed. *)
Theorem linked_list_destroy_spec h var l cs :
  h_cell h !! var = Some (Some l) → list_at h l cs →
  ∃ h', linked_list_destroy (Some var) h = Some (eLINKED_LIST_SUCCESS, h') ∧
    h_state h' = delete l (h_state h) ∧ h_cell h' = <[var := None]> (h_cell h) ∧
    (∀ k, h_elem h' !! k = if decide (k ∈ footprint cs) then None else h_elem h !! k) ∧
    h_world h' = Spec.flush cs.*2 (h_world h).
Proof.
  intros Hv Hat. unfold linked_list_destroy. run1.
  destruct (linked_list_flush_spec h l cs Hat) as (h1 & Hrun & (hd & tl & Hl & _) & Hw & Hg & H1 & H2 & H3).
  rewrite (st_bind_some _ _ _ _ _ Hrun). run1.
  erewrite st_bind_some; [|eapply run_write_cell; cbn; rewrite H3; done].
  eexists. split; [done|]. cbn. split_and!; [| | |done].
  - apply map_eq. intros k. destruct (decide (k = l)) as [->|]; [by rewrite !lookup_delete_eq|].
    rewrite !lookup_delete_ne by done. auto.
  - f_equal. apply map_eq. intros k. apply H3. set_solver.
  - intros k. destruct (decide _); auto.
Qed.

(** [linked_list_empty] answers 1 exactly on the empty list. *)
Theorem linked_list_empty_spec h l cs :
  list_at h l cs → linked_list_empty (Some l) h = Some (b2i (bool_decide (cs = [])), h).
Proof.
  intros (hd & tl & Hl & Hs & _). unfold linked_list_empty. run1. f_equal. f_equal.
  destruct hd as [k|].
  - by destruct (dlseg_first_Some _ _ _ _ _ Hs) as (nd & cs' & -> & _).
  - apply dlseg_first_None in Hs as ->. done.
Qed.
End properties.

(** ** Calls with NULL arguments *)

Section null_arguments.
Context {W : Type} `{Allocator} `{!Deallocators W}.

(** every function of the file answers a NULL handle or output parameter
    with its error code, in the order the code tests them, and touches no
    memory. *)
Theorem linked_list_null_arguments (h : heap W) l obj f data_p equal rm :
  linked_list_init None h = Some (eLINKED_LIST_INVALID_PARAMETER, h) ∧
  linked_list_destroy None h = Some (eLINKED_LIST_INVALID_HANDLE, h) ∧
  linked_list_add None obj f h = Some (eLINKED_LIST_INVALID_HANDLE, h) ∧
  linked_list_add (Some l) None f h = Some (eLINKED_LIST_INVALID_PARAMETER, h) ∧
  linked_list_remove None data_p h = Some (eLINKED_LIST_INVALID_HANDLE, h) ∧
  linked_list_remove (Some l) None h = Some (eLINKED_LIST_INVALID_PARAMETER, h) ∧
  linked_list_flush None h = Some (eLINKED_LIST_INVALID_HANDLE, h) ∧
  linked_list_search None data_p equal rm h = Some (eLINKED_LIST_INVALID_HANDLE, h) ∧
  linked_list_search (Some l) data_p None rm h = Some (eLINKED_LIST_INVALID_HANDLE, h) ∧
  linked_list_empty None h = Some (-3, h)%Z.
Proof. by destruct obj, data_p, equal. Qed.
End null_arguments.

(** ** A concrete memory *)

(** The allocator that hands out increasing addresses from 100. *)
#[export] Instance demo_allocator : Allocator.
Proof.
  refine {| alloc n live :=
    let l := Pos.of_succ_nat (n + 99) in if decide (l ∈ live) then None else Some l |}.
  intros n live l. cbn. case_decide; naive_solver.
Defined.

(** Deallocators that record the calls made, latest first. *)
#[export] Instance demo_deallocators : Deallocators (list (loc * loc)) :=
  λ f d w, (f, d) :: w.

Definition demo_heap : heap (list (loc * loc)) :=
  Heap {[1%positive := LState (Some 2%positive) (Some 3%positive); 9%positive := LState None None]}
    {[2%positive := Elem (Some 3%positive) None 20%positive (Some 77%positive);
      3%positive := Elem None (Some 2%positive) 30%positive None]}
    {[4%positive := None; 5%positive := Some 1%positive]} 0 [].

Definition demo_cells : list cell :=
  [(2%positive, Node 20 (Some 77%positive)); (3%positive, Node 30 None)].

Lemma demo_list_at : list_at demo_heap 1 demo_cells.
Proof.
  exists (Some 2%positive), (Some 3%positive). split; [reflexivity|]. split.
  - apply dlseg_cons. split; [done|]. eexists. split; [reflexivity|].
    apply dlseg_cons. split; [done|]. eexists. split; [reflexivity|]. by apply dlseg_nil.
  - cbn. repeat constructor; set_solver.
Qed.

Lemma linked_list_add_spec_witness :
  ∃ h', linked_list_add (Some 1%positive) (Some 40%positive) None demo_heap
          = Some (eLINKED_LIST_SUCCESS, h') ∧
    list_at h' 1 ((100%positive, Node 40 None) :: demo_cells) ∧
    only_changes 1 ({[100%positive]} ∪ footprint demo_cells) ∅ demo_heap h' ∧
    h_world h' = h_world demo_heap.
Proof. exact (linked_list_add_spec demo_heap 1 40 None demo_cells demo_list_at). Defined.

Lemma linked_list_remove_spec_witness :
  ∃ h' k cs', linked_list_remove (Some 1%positive) (Some 4%positive) demo_heap
          = Some (eLINKED_LIST_SUCCESS, h') ∧
    demo_cells = cs' ++ [(k, Node 30 None)] ∧ [Node 20 (Some 77%positive)] = cs'.*2 ∧
    list_at h' 1 cs' ∧ h_cell h' !! 4%positive = Some (Some 30%positive) ∧ h_elem h' !! k = None ∧
    only_changes 1 (footprint demo_cells) {[4%positive]} demo_heap h' ∧
    h_world h' = h_world demo_heap.
Proof. exact (linked_list_remove_spec demo_heap 1 4 None demo_cells demo_list_at eq_refl). Defined.

Lemma linked_list_flush_spec_witness :
  ∃ h', linked_list_flush (Some 1%positive) demo_heap = Some (eLINKED_LIST_SUCCESS, h') ∧
    list_at h' 1 [] ∧ h_world h' = [(77, 20)%positive] ∧
    (∀ k, k ∈ footprint demo_cells → h_elem h' !! k = None) ∧
    only_changes 1 (footprint demo_cells) ∅ demo_heap h'.
Proof. exact (linked_list_flush_spec demo_heap 1 demo_cells demo_list_at). Defined.

Lemma linked_list_destroy_spec_witness :
  ∃ h', linked_list_destroy (Some 5%positive) demo_heap = Some (eLINKED_LIST_SUCCESS, h') ∧
    h_state h' = delete 1%positive (h_state demo_heap) ∧
    h_cell h' = <[5%positive := None]> (h_cell demo_heap) ∧
    (∀ k, h_elem h' !! k = if decide (k ∈ footprint demo_cells) then None else h_elem demo_heap !! k) ∧
    h_world h' = [(77, 20)%positive].
Proof. exact (linked_list_destroy_spec demo_heap 5 1 demo_cells eq_refl demo_list_at). Defined.

(** Look for the datum 30, copy it out and remove it. *)
Definition demo_equal (d : loc) (w : list (loc * loc)) : bool * list (loc * loc) :=
  (bool_decide (d = 30%positive), w).

Lemma linked_list_search_spec_witness :
  ∃ h' cs' found,
    linked_list_search (Some 1%positive) (Some 4%positive) (Some demo_equal) true demo_heap
      = Some (eLINKED_LIST_SUCCESS, h') ∧
    list_at h' 1 cs' ∧
    (Some 30%positive, [Node 20 (Some 77%positive)], []) = (found, cs'.*2, h_world h') ∧
    (∀ out, Some 4%positive = Some out → h_cell h' !! out = Some found) ∧
    cs' `sublist_of` demo_cells ∧ (∀ k, k ∈ footprint demo_cells → is_Some (h_elem h' !! k) ↔ k ∈ footprint cs') ∧
    only_changes 1 (footprint demo_cells) {[4%positive]} demo_heap h'.
Proof.
  apply (linked_list_search_spec demo_heap 1 (Some 4%positive) demo_equal true demo_cells demo_list_at).
  - discriminate.
  - intros out [= <-]. eexists. reflexivity.
Defined.
