(* ===== verification/MsgQueue.v ===== *)
(** * The message queue of gps/utils/msg_q.c

    The queue keeps its messages in a list of linked_list.c, a mutex, a
    condition variable and the [unblocked] flag.  The functions are written
    against [ListStore], the interface the list promises; [heap_ListStore]
    discharges it with the pointer-level list.  [step] interleaves the calls of
    any number of threads, a receiver being suspended in [pthread_cond_wait]. *)

From S2P Require Import Prelude LinkedList.

(** ** What the queue needs from the list *)

Class ListStore (H W : Type) := {
  ls_init : ptr → ST H linked_list_err_type;
  ls_destroy : ptr → ST H linked_list_err_type;
  ls_add : ptr → ptr → ptr → ST H linked_list_err_type;
  ls_remove : ptr → ptr → ST H linked_list_err_type;
  ls_empty : ptr → ST H Z;
  ls_flush : ptr → ST H linked_list_err_type;
  ls_calloc : ST H ptr;
  ls_free : loc → ST H unit;
  ls_var : H → loc → option ptr;
  ls_world : H → W;
  ls_drop : node → W → W;
  ls_at : H → loc → list node → Prop;

  ls_at_fun h l xs ys : ls_at h l xs → ls_at h l ys → xs = ys;
  ls_add_law h l xs obj d : ls_at h l xs →
    ∃ r h', ls_add (Some l) (Some obj) d h = Some (r, h') ∧
      (∀ c, ls_var h' c = ls_var h c) ∧ ls_world h' = ls_world h ∧
      ((r = eLINKED_LIST_SUCCESS ∧ ls_at h' l (Spec.add (Node obj d) xs)) ∨
       (r = eLINKED_LIST_FAILURE_GENERAL ∧ ls_at h' l xs));
  ls_remove_law h l xs out : ls_at h l xs → is_Some (ls_var h out) →
    match Spec.remove xs with
    | None => ls_remove (Some l) (Some out) h = Some (eLINKED_LIST_UNAVAILABLE_RESOURCE, h)
    | Some (nd, ys) => ∃ h', ls_remove (Some l) (Some out) h = Some (eLINKED_LIST_SUCCESS, h') ∧
        ls_at h' l ys ∧ ls_var h' out = Some (Some (n_data nd)) ∧
        (∀ c, c ≠ out → ls_var h' c = ls_var h c) ∧ ls_world h' = ls_world h
    end;
  ls_empty_law h l xs : ls_at h l xs → ls_empty (Some l) h = Some (b2i (bool_decide (xs = [])), h);
  ls_flush_law h l xs : ls_at h l xs →
    ∃ h', ls_flush (Some l) h = Some (eLINKED_LIST_SUCCESS, h') ∧ ls_at h' l [] ∧
      (∀ c, ls_var h' c = ls_var h c) ∧ ls_world h' = foldl (λ w nd, ls_drop nd w) (ls_world h) xs;
  ls_init_law h out : is_Some (ls_var h out) →
    ∃ r h', ls_init (Some out) h = Some (r, h') ∧ (∀ c, c ≠ out → ls_var h' c = ls_var h c) ∧
      ((r = eLINKED_LIST_SUCCESS ∧ ∃ l, ls_var h' out = Some (Some l) ∧ ls_at h' l []) ∨
       (r = eLINKED_LIST_FAILURE_GENERAL ∧ ls_var h' out = ls_var h out));
  ls_destroy_law h var l xs : ls_var h var = Some (Some l) → ls_at h l xs →
    ∃ h', ls_destroy (Some var) h = Some (eLINKED_LIST_SUCCESS, h') ∧ ls_var h' var = Some None ∧
      (∀ c, c ≠ var → ls_var h' c = ls_var h c) ∧
      ls_world h' = foldl (λ w nd, ls_drop nd w) (ls_world h) xs;
  ls_write : loc → ptr → ST H unit;
  ls_write_law h c v : is_Some (ls_var h c) →
    ∃ h', ls_write c v h = Some (tt, h') ∧ ls_var h' c = Some v ∧
      (∀ c', c' ≠ c → ls_var h' c' = ls_var h c') ∧
      (∀ l xs, ls_at h l xs → ls_at h' l xs) ∧ ls_world h' = ls_world h;
  ls_calloc_law h : ∃ p h', ls_calloc h = Some (p, h') ∧
    match p with
    | None => ∀ c, ls_var h' c = ls_var h c
    | Some q => ls_var h q = None ∧ ls_var h' q = Some None ∧
        (∀ c, c ≠ q → ls_var h' c = ls_var h c)
    end;
  ls_free_law h c : is_Some (ls_var h c) →
    ∃ h', ls_free c h = Some (tt, h') ∧ ls_var h' c = None ∧
      (∀ c', c' ≠ c → ls_var h' c' = ls_var h c') ∧ ls_world h' = ls_world h
}.

(** ** Data *)

(** [msq_q_err_type] *)
Inductive msq_q_err_type :=
| eMSG_Q_SUCCESS
| eMSG_Q_FAILURE_GENERAL
| eMSG_Q_INVALID_PARAMETER
| eMSG_Q_INVALID_HANDLE
| eMSG_Q_UNAVAILABLE_RESOURCE
| eMSG_Q_INSUFFICIENT_BUFFER.

#[export] Instance msq_q_err_type_eq_dec : EqDecision msq_q_err_type.
Proof. solve_decision. Defined.

Definition convert_linked_list_err_type (v : linked_list_err_type) : msq_q_err_type :=
  match v with
  | eLINKED_LIST_SUCCESS => eMSG_Q_SUCCESS
  | eLINKED_LIST_INVALID_PARAMETER => eMSG_Q_INVALID_PARAMETER
  | eLINKED_LIST_INVALID_HANDLE => eMSG_Q_INVALID_HANDLE
  | eLINKED_LIST_UNAVAILABLE_RESOURCE => eMSG_Q_UNAVAILABLE_RESOURCE
  | eLINKED_LIST_INSUFFICIENT_BUFFER => eMSG_Q_INSUFFICIENT_BUFFER
  | eLINKED_LIST_FAILURE_GENERAL => eMSG_Q_FAILURE_GENERAL
  end.

(** A thread suspended in [msg_q_rcv]: its identity and its [msg_obj]. *)
Abbreviation waiter := (nat * loc)%type.

(** [struct msg_q].  Its first member, [msg_list], is the variable at the
    object's own address.  [list_mutex] is whether the mutex is held; the
    condition variable is the threads asleep in [pthread_cond_wait] and those
    released from it that have not run yet. *)
Record msg_q := MsgQ {
  list_mutex : bool;
  asleep : list waiter;
  woken : list waiter;
  unblocked : Z
}.

Record qmem (H : Type) := QMem { q_heap : H; q_objs : gmap loc msg_q }.
Arguments QMem {H} _ _.
Arguments q_heap {H} _.
Arguments q_objs {H} _.

(** How a call of [msg_q_rcv] leaves the processor. *)
Inductive rcv_outcome :=
| Returned (rv : msq_q_err_type)
| Waiting.

Section operations.
Context {H W : Type} `{!ListStore H W}.

Definition lift {A} (m : ST H A) : ST (qmem H) A := λ s,
  match m (q_heap s) with
  | Some (a, h) => Some (a, QMem h (q_objs s))
  | None => None
  end.

Definition read_q (q : loc) : ST (qmem H) msg_q := st_read (λ s : qmem H, q_objs s !! q).
Definition write_q (q : loc) (f : msg_q → msg_q) : ST (qmem H) unit :=
  o ← read_q q; st_modify (λ s : qmem H, QMem (q_heap s) (<[q := f o]> (q_objs s))).
(** The [void *] at an address: [p_msg_q->msg_list], [*msg_q_data]. *)
Definition msg_list (q : loc) : ST (qmem H) ptr := st_read (λ s : qmem H, ls_var (q_heap s) q).

(** Locking a mutex that is held would block the caller: no result. *)
Definition pthread_mutex_lock (q : loc) : ST (qmem H) unit :=
  o ← read_q q;
  if list_mutex o then st_fault
  else write_q q (λ o, MsgQ true (asleep o) (woken o) (unblocked o)).
Definition pthread_mutex_unlock (q : loc) : ST (qmem H) unit :=
  write_q q (λ o, MsgQ false (asleep o) (woken o) (unblocked o)).

(** The thread that [pthread_cond_signal] releases is the scheduler's choice:
    [pick] indexes the sleeping threads. *)
Definition cond_signal (pick : nat) (o : msg_q) : msg_q :=
  match asleep o !! (pick mod length (asleep o)) with
  | None => o
  | Some t => MsgQ (list_mutex o) (delete (pick mod length (asleep o)) (asleep o))
                (woken o ++ [t]) (unblocked o)
  end.
Definition cond_broadcast (o : msg_q) : msg_q :=
  MsgQ (list_mutex o) [] (woken o ++ asleep o) (unblocked o).
(** [pthread_cond_wait] releases the mutex and suspends the thread. *)
Definition cond_wait (t : waiter) (o : msg_q) : msg_q :=
  MsgQ false (asleep o ++ [t]) (woken o) (unblocked o).

(** [free] of a queue object, its first word included. *)
Definition free_queue (q : loc) : ST (qmem H) unit :=
  _ ← lift (ls_free q);
  st_modify (λ s : qmem H, QMem (q_heap s) (delete q (q_objs s))).

(** [mutex_rc] and [cond_rc] are what [pthread_mutex_init] and
    [pthread_cond_init] return. *)
Definition msg_q_init (mutex_rc cond_rc : Z) (msg_q_data : ptr) : ST (qmem H) msq_q_err_type :=
  match msg_q_data with
  | None => mret eMSG_Q_INVALID_PARAMETER
  | Some out =>
      tmp ← lift ls_calloc;
      match tmp with
      | None => mret eMSG_Q_FAILURE_GENERAL
      | Some q =>
          _ ← st_modify (λ s : qmem H, QMem (q_heap s) (<[q := MsgQ false [] [] 0]> (q_objs s)));
          r ← lift (ls_init (Some q));
          if decide (r ≠ eLINKED_LIST_SUCCESS) then
            _ ← free_queue q; mret eMSG_Q_FAILURE_GENERAL
          else if truth mutex_rc then
            _ ← lift (ls_destroy (Some q)); _ ← free_queue q; mret eMSG_Q_FAILURE_GENERAL
          else if truth cond_rc then
            _ ← lift (ls_destroy (Some q)); _ ← free_queue q; mret eMSG_Q_FAILURE_GENERAL
          else
            _ ← write_q q (λ o, MsgQ (list_mutex o) (asleep o) (woken o) 0);
            _ ← lift (ls_write out (Some q));
            mret eMSG_Q_SUCCESS
      end
  end.

Definition msg_q_destroy (msg_q_data : ptr) : ST (qmem H) msq_q_err_type :=
  match msg_q_data with
  | None => mret eMSG_Q_INVALID_HANDLE
  | Some var =>
      p ← msg_list var;
      match p with
      | None => st_fault
      | Some q =>
          _ ← lift (ls_destroy (Some q));
          _ ← write_q q (λ o, MsgQ (list_mutex o) (asleep o) (woken o) 0);
          _ ← free_queue q;
          _ ← lift (ls_write var None);
          mret eMSG_Q_SUCCESS
      end
  end.

Definition msg_q_snd (pick : nat) (msg_q_data msg_obj dealloc : ptr) :
    ST (qmem H) msq_q_err_type :=
  match msg_q_data, msg_obj with
  | None, _ => mret eMSG_Q_INVALID_HANDLE
  | Some _, None => mret eMSG_Q_INVALID_PARAMETER
  | Some q, Some _ =>
      _ ← pthread_mutex_lock q;
      o ← read_q q;
      if truth (unblocked o) then
        _ ← pthread_mutex_unlock q;
        mret eMSG_Q_UNAVAILABLE_RESOURCE
      else
        l ← msg_list q;
        r ← lift (ls_add l msg_obj dealloc);
        _ ← write_q q (cond_signal pick);
        _ ← pthread_mutex_unlock q;
        mret (convert_linked_list_err_type r)
  end.

(** One evaluation of the [while] condition of [msg_q_rcv], mutex held, and
    what follows it. *)
Definition rcv_check (t : nat) (q msg_obj : loc) : ST (qmem H) rcv_outcome :=
  l ← msg_list q;
  e ← lift (ls_empty l);
  o ← read_q q;
  if truth e && negb (truth (unblocked o)) then
    _ ← write_q q (cond_wait (t, msg_obj));
    mret Waiting
  else
    r ← lift (ls_remove l (Some msg_obj));
    _ ← pthread_mutex_unlock q;
    mret (Returned (convert_linked_list_err_type r)).

Definition msg_q_rcv (t : nat) (msg_q_data msg_obj : ptr) : ST (qmem H) rcv_outcome :=
  match msg_q_data, msg_obj with
  | None, _ => mret (Returned eMSG_Q_INVALID_HANDLE)
  | Some _, None => mret (Returned eMSG_Q_INVALID_PARAMETER)
  | Some q, Some out =>
      _ ← pthread_mutex_lock q;
      o ← read_q q;
      if truth (unblocked o) then
        _ ← pthread_mutex_unlock q;
        mret (Returned eMSG_Q_UNAVAILABLE_RESOURCE)
      else rcv_check t q out
  end.

(** The rest of a suspended call, the [i]-th of those released:
    [pthread_cond_wait] re-acquires the mutex and returns, and the loop
    condition is evaluated again. *)
Definition msg_q_rcv_resume (i : nat) (q : loc) : ST (qmem H) rcv_outcome :=
  o ← read_q q;
  match woken o !! i with
  | Some (t, out) =>
      _ ← write_q q (λ o, MsgQ (list_mutex o) (asleep o) (delete i (woken o)) (unblocked o));
      _ ← pthread_mutex_lock q;
      rcv_check t q out
  | None => st_fault
  end.

Definition msg_q_flush (msg_q_data : ptr) : ST (qmem H) msq_q_err_type :=
  match msg_q_data with
  | None => mret eMSG_Q_INVALID_HANDLE
  | Some q =>
      _ ← pthread_mutex_lock q;
      l ← msg_list q;
      r ← lift (ls_flush l);
      _ ← pthread_mutex_unlock q;
      mret (convert_linked_list_err_type r)
  end.

Definition msg_q_unblock (msg_q_data : ptr) : ST (qmem H) msq_q_err_type :=
  match msg_q_data with
  | None => mret eMSG_Q_INVALID_HANDLE
  | Some q =>
      _ ← pthread_mutex_lock q;
      o ← read_q q;
      if truth (unblocked o) then
        _ ← pthread_mutex_unlock q;
        mret eMSG_Q_UNAVAILABLE_RESOURCE
      else
        _ ← write_q q (λ o, MsgQ (list_mutex o) (asleep o) (woken o) 1);
        _ ← write_q q cond_broadcast;
        _ ← pthread_mutex_unlock q;
        mret eMSG_Q_SUCCESS
  end.

(** A spurious wake-up: [pthread_cond_wait] may return unsignalled. *)
Definition cond_spurious (i : nat) (o : msg_q) : msg_q :=
  match asleep o !! i with
  | None => o
  | Some t => MsgQ (list_mutex o) (delete i (asleep o)) (woken o ++ [t]) (unblocked o)
  end.

(** ** Interleaving *)

(** The memory, with two ghost sequences: the messages accepted by
    [msg_q_snd], and those that left the queue, received or flushed. *)
Record sys := Sys { s_mem : qmem H; g_sent : list loc; g_gone : list loc }.

(** What a finished [msg_q_rcv] handed over. *)
Definition received (out : loc) (r : rcv_outcome) (m : qmem H) : list loc :=
  match r, ls_var (q_heap m) out with
  | Returned eMSG_Q_SUCCESS, Some (Some d) => [d]
  | _, _ => []
  end.

(** Which variable the [i]-th released receiver will fill. *)
Definition resume_out (i : nat) (q : loc) (m : qmem H) : loc :=
  match q_objs m !! q with
  | Some o => match woken o !! i with Some (_, out) => out | None => q end
  | None => q
  end.

(** The messages in the queue, oldest first, read off the list it holds. *)
Definition pending (xs : list node) : list loc := reverse (n_data <$> xs).

(** Calls by any threads, in any order; receivers use a variable of their own. *)
Inductive step (q : loc) : sys → sys → Prop :=
| step_snd s pick obj d r m :
    msg_q_snd pick (Some q) (Some obj) d (s_mem s) = Some (r, m) →
    step q s (Sys m (g_sent s ++ if decide (r = eMSG_Q_SUCCESS) then [obj] else []) (g_gone s))
| step_rcv s t out r m :
    out ≠ q → is_Some (ls_var (q_heap (s_mem s)) out) →
    msg_q_rcv t (Some q) (Some out) (s_mem s) = Some (r, m) →
    step q s (Sys m (g_sent s) (g_gone s ++ received out r m))
| step_resume s i r m :
    msg_q_rcv_resume i q (s_mem s) = Some (r, m) →
    step q s (Sys m (g_sent s) (g_gone s ++ received (resume_out i q (s_mem s)) r m))
| step_spurious s i m :
    write_q q (cond_spurious i) (s_mem s) = Some (tt, m) →
    step q s (Sys m (g_sent s) (g_gone s))
| step_flush s l xs r m :
    ls_var (q_heap (s_mem s)) q = Some (Some l) → ls_at (q_heap (s_mem s)) l xs →
    msg_q_flush (Some q) (s_mem s) = Some (r, m) →
    step q s (Sys m (g_sent s) (g_gone s ++ pending xs))
| step_unblock s r m :
    msg_q_unblock (Some q) (s_mem s) = Some (r, m) →
    step q s (Sys m (g_sent s) (g_gone s)).

(** ** Representation *)

(** [queue_at m q xs a w u]: at [q] there is a queue holding [xs], its mutex is
    free, [a] sleep in it, [w] have been released, [u] is its flag; every
    suspended receiver's variable is live and is not the queue's own. *)
Definition queue_at (m : qmem H) (q : loc) (xs : list node) (a w : list waiter) (u : Z) : Prop :=
  q_objs m !! q = Some (MsgQ false a w u) ∧
  (∃ l, ls_var (q_heap m) q = Some (Some l) ∧ ls_at (q_heap m) l xs) ∧
  Forall (λ t, t.2 ≠ q ∧ is_Some (ls_var (q_heap m) t.2)) (a ++ w).

(** Where the queue starts. *)
Definition starts (q : loc) (s : sys) : Prop :=
  queue_at (s_mem s) q [] [] [] 0 ∧ g_sent s = [] ∧ g_gone s = [].
End operations.

(** ** Facts about single calls *)

Lemma pending_remove xs :
  match Spec.remove xs with
  | None => xs = []
  | Some (nd, ys) => pending xs = n_data nd :: pending ys ∧ length xs = S (length ys)
  end.
Proof.
  unfold Spec.remove, pending. destruct xs as [|x xs _] using rev_ind; [done|].
  rewrite reverse_snoc, fmap_app. cbn. rewrite reverse_snoc, reverse_involutive, length_app.
  cbn. split; [done|lia].
Qed.

Section proofs.
Context {H W : Type} `{!ListStore H W}.
Implicit Types m : qmem H.

Lemma run_lift {A} (c : ST H A) m a h :
  c (q_heap m) = Some (a, h) → lift c m = Some (a, QMem h (q_objs m)).
Proof. unfold lift. by intros ->. Qed.

Lemma run_read_q m q o : q_objs m !! q = Some o → read_q q m = Some (o, m).
Proof. exact (st_read_some (λ s : qmem H, q_objs s !! q) m o). Qed.

Lemma run_write_q m q o f :
  q_objs m !! q = Some o → write_q q f m = Some (tt, QMem (q_heap m) (<[q := f o]> (q_objs m))).
Proof. intros Hq. unfold write_q. by rewrite (st_bind_some _ _ _ _ _ (run_read_q _ _ _ Hq)). Qed.

Lemma run_msg_list m q l : ls_var (q_heap m) q = Some l → msg_list q m = Some (l, m).
Proof. exact (st_read_some (λ s : qmem H, ls_var (q_heap s) q) m l). Qed.

Lemma run_lock m q a w u :
  q_objs m !! q = Some (MsgQ false a w u) →
  pthread_mutex_lock q m = Some (tt, QMem (q_heap m) (<[q := MsgQ true a w u]> (q_objs m))).
Proof.
  intros Hq. unfold pthread_mutex_lock. rewrite (st_bind_some _ _ _ _ _ (run_read_q _ _ _ Hq)).
  cbn. by rewrite (run_write_q _ _ _ _ Hq).
Qed.

Lemma run_unlock m q b a w u :
  q_objs m !! q = Some (MsgQ b a w u) →
  pthread_mutex_unlock q m = Some (tt, QMem (q_heap m) (<[q := MsgQ false a w u]> (q_objs m))).
Proof. intros Hq. unfold pthread_mutex_unlock. by rewrite (run_write_q _ _ _ _ Hq). Qed.
End proofs.

(** Execute the first action of the computation in the goal. *)
Ltac qrun :=
  st_steps;
  first
    [ erewrite st_bind_some; [|eapply run_lock; cbn; first [eassumption | by simplify_map_eq]]
    | erewrite st_bind_some; [|eapply run_unlock; cbn; first [eassumption | by simplify_map_eq]]
    | erewrite st_bind_some; [|eapply run_read_q; cbn; first [eassumption | by simplify_map_eq]]
    | erewrite st_bind_some; [|eapply run_write_q; cbn; first [eassumption | by simplify_map_eq]]
    | erewrite st_bind_some; [|eapply run_msg_list; cbn; first [eassumption | by simplify_map_eq]]
    | erewrite st_bind_some; [|eapply run_lift; cbn; eassumption] ];
  cbn [q_heap q_objs list_mutex asleep woken unblocked].

Section specs.
Context {H W : Type} `{!ListStore H W}.
Implicit Types m : qmem H.

(** The threads of a signalled condition variable. *)
Definition signalled (pick : nat) (a w : list waiter) : list waiter * list waiter :=
  match a !! (pick mod length a) with
  | None => (a, w)
  | Some t => (delete (pick mod length a) a, w ++ [t])
  end.

Lemma cond_signal_eq pick b a w u :
  cond_signal pick (MsgQ b a w u) = MsgQ b (signalled pick a w).1 (signalled pick a w).2 u.
Proof. unfold cond_signal, signalled. cbn. by destruct (a !! _). Qed.

(** Releasing a thread only moves it. *)
Lemma wake_perm (a w : list waiter) i t :
  a !! i = Some t → delete i a ++ (w ++ [t]) ≡ₚ a ++ w.
Proof.
  intros Ht. rewrite app_assoc, (Permutation_app_comm _ [t]).
  change (t :: (delete i a ++ w) ≡ₚ a ++ w). change ((t :: delete i a) ++ w ≡ₚ a ++ w).
  apply Permutation_app; [|done]. symmetry. by apply delete_Permutation.
Qed.

Lemma signalled_perm pick a w :
  (signalled pick a w).1 ++ (signalled pick a w).2 ≡ₚ a ++ w.
Proof.
  unfold signalled. destruct (a !! _) as [t|] eqn:Ht; [|done]. by apply wake_perm.
Qed.

Lemma signalled_sleepers pick a w :
  (signalled pick a w).1 ≠ [] → length (signalled pick a w).2 = S (length w).
Proof.
  unfold signalled. destruct (a !! _) as [t|] eqn:Ht; cbn; [rewrite length_app; cbn; lia|].
  intros Ha. apply lookup_ge_None in Ht.
  pose proof (Nat.mod_upper_bound pick (length a)). destruct a; [done|]. cbn in *. lia.
Qed.

Lemma waiters_mono (h h' : H) q (ws : list waiter) :
  (∀ c, is_Some (ls_var h c) → is_Some (ls_var h' c)) →
  Forall (λ t, t.2 ≠ q ∧ is_Some (ls_var h t.2)) ws →
  Forall (λ t, t.2 ≠ q ∧ is_Some (ls_var h' t.2)) ws.
Proof. intros Hv Hws. eapply Forall_impl; [exact Hws|]. naive_solver. Qed.

Lemma queue_at_intro h objs q l xs a w u (h0 : H) ws :
  objs !! q = Some (MsgQ false a w u) → ls_var h q = Some (Some l) → ls_at h l xs →
  (∀ c, is_Some (ls_var h0 c) → is_Some (ls_var h c)) →
  Forall (λ t, t.2 ≠ q ∧ is_Some (ls_var h0 t.2)) ws → a ++ w ≡ₚ ws →
  queue_at (QMem h objs) q xs a w u.
Proof.
  intros Hq Hl Hat Hv Hws Hp. split; [done|]. split; [eauto|]. rewrite Hp. by eapply waiters_mono.
Qed.

Lemma msg_q_snd_spec m q xs a w pick obj d :
  queue_at m q xs a w 0 →
  ∃ r m', msg_q_snd pick (Some q) (Some obj) d m = Some (r, m') ∧
    (∀ c, ls_var (q_heap m') c = ls_var (q_heap m) c) ∧
    ((r = eMSG_Q_SUCCESS ∧
      queue_at m' q (Node obj d :: xs) (signalled pick a w).1 (signalled pick a w).2 0) ∨
     (r = eMSG_Q_FAILURE_GENERAL ∧
      queue_at m' q xs (signalled pick a w).1 (signalled pick a w).2 0)).
Proof.
  intros (Hq & (l & Hl & Hat) & Hws). unfold msg_q_snd. qrun. qrun. cbn. qrun.
  destruct (ls_add_law (q_heap m) l xs obj d Hat) as (r & h' & Hadd & Hv & _ & Hr).
  qrun. qrun. rewrite cond_signal_eq. qrun. eexists _, _. split; [done|]. split; [exact Hv|].
  assert (∀ ys, ls_at h' l ys → queue_at (QMem h' (<[q:=MsgQ false (signalled pick a w).1 (signalled pick a w).2 0]>
     (<[q:=MsgQ true (signalled pick a w).1 (signalled pick a w).2 0]> (<[q:=MsgQ true a w 0]> (q_objs m)))))
     q ys (signalled pick a w).1 (signalled pick a w).2 0) as Hqa.
  { intros ys Hys. eapply queue_at_intro; [by simplify_map_eq|by rewrite Hv|done| |done|apply signalled_perm].
    intros c. by rewrite Hv. }
  destruct Hr as [[-> Hat']|[-> Hat']]; [left|right]; by split; auto.
Qed.

Lemma msg_q_snd_unblocked m q xs a w u pick obj d :
  queue_at m q xs a w u → u ≠ 0%Z →
  ∃ m', msg_q_snd pick (Some q) (Some obj) d m = Some (eMSG_Q_UNAVAILABLE_RESOURCE, m') ∧
    q_heap m' = q_heap m ∧ queue_at m' q xs a w u.
Proof.
  intros (Hq & (l & Hl & Hat) & Hws) Hu%truth_true. unfold msg_q_snd. qrun. qrun. rewrite Hu.
  qrun. eexists. split; [done|]. split; [done|].
  by eapply queue_at_intro; [by simplify_map_eq|done..].
Qed.

(** The loop condition and what follows, from a state whose mutex is held. *)
Lemma rcv_check_spec m q l xs a w u t out :
  q_objs m !! q = Some (MsgQ true a w u) → ls_var (q_heap m) q = Some (Some l) →
  ls_at (q_heap m) l xs → out ≠ q → is_Some (ls_var (q_heap m) out) →
  Forall (λ t, t.2 ≠ q ∧ is_Some (ls_var (q_heap m) t.2)) (a ++ w) →
  ∃ r m', rcv_check t q out m = Some (r, m') ∧
    match Spec.remove xs with
    | Some (nd, ys) => r = Returned eMSG_Q_SUCCESS ∧ queue_at m' q ys a w u ∧
        ls_var (q_heap m') out = Some (Some (n_data nd))
    | None =>
        if truth u then r = Returned eMSG_Q_UNAVAILABLE_RESOURCE ∧ queue_at m' q xs a w u
        else r = Waiting ∧ queue_at m' q xs (a ++ [(t, out)]) w u
    end.
Proof.
  intros Hq Hl Hat Hne Hout Hws. unfold rcv_check. qrun.
  pose proof (ls_empty_law _ _ _ Hat) as He. qrun. qrun. rewrite truth_b2i.
  pose proof (pending_remove xs) as Hrem. pose proof (ls_remove_law _ _ _ _ Hat Hout) as Hlaw.
  destruct (Spec.remove xs) as [[nd ys]|].
  - rewrite bool_decide_false by (intros ->; cbn in Hrem; lia). cbn.
    destruct Hlaw as (h' & Hrun & Hat' & Ho & Hv & _). qrun. qrun.
    eexists _, _. split; [done|]. split; [done|]. split; [|done].
    eapply queue_at_intro; [by simplify_map_eq|by rewrite Hv|done| |done|done].
    intros c Hc. destruct (decide (c = out)) as [->|]; [by rewrite Ho|by rewrite Hv].
  - subst xs. rewrite bool_decide_true by done. cbn. destruct (truth u) eqn:Hu; cbn.
    + qrun. qrun. eexists _, _. split; [done|]. split; [done|].
      by eapply queue_at_intro; [by simplify_map_eq|done..].
    + qrun. eexists _, _. split; [done|]. split; [done|].
      eapply (queue_at_intro _ _ _ _ _ _ _ _ (q_heap m) ((t, out) :: a ++ w));
        [by simplify_map_eq|done|done|done|by constructor|].
      by rewrite <- (Permutation_app_comm [(t, out)] a).
Qed.

Lemma msg_q_rcv_unblocked m q xs a w u t out :
  queue_at m q xs a w u → u ≠ 0%Z →
  ∃ m', msg_q_rcv t (Some q) (Some out) m = Some (Returned eMSG_Q_UNAVAILABLE_RESOURCE, m') ∧
    q_heap m' = q_heap m ∧ queue_at m' q xs a w u.
Proof.
  intros (Hq & (l & Hl & Hat) & Hws) Hu%truth_true. unfold msg_q_rcv. qrun. qrun. rewrite Hu.
  qrun. eexists. split; [done|]. split; [done|].
  by eapply queue_at_intro; [by simplify_map_eq|done..].
Qed.

Lemma msg_q_rcv_spec m q xs a w t out :
  queue_at m q xs a w 0 → out ≠ q → is_Some (ls_var (q_heap m) out) →
  ∃ r m', msg_q_rcv t (Some q) (Some out) m = Some (r, m') ∧
    match Spec.remove xs with
    | Some (nd, ys) => r = Returned eMSG_Q_SUCCESS ∧ queue_at m' q ys a w 0 ∧
        ls_var (q_heap m') out = Some (Some (n_data nd))
    | None => r = Waiting ∧ queue_at m' q xs (a ++ [(t, out)]) w 0
    end.
Proof.
  intros (Hq & (l & Hl & Hat) & Hws) Hne Hout. unfold msg_q_rcv. qrun. qrun. cbn.
  edestruct (rcv_check_spec (QMem (q_heap m) (<[q:=MsgQ true a w 0]> (q_objs m))) q l xs a w 0 t out)
    as (r & m' & Hrun & Hr); [by cbn; simplify_map_eq|done..|].
  eauto.
Qed.

Lemma msg_q_rcv_resume_spec m q xs a w u i t out :
  queue_at m q xs a w u → w !! i = Some (t, out) →
  ∃ r m', msg_q_rcv_resume i q m = Some (r, m') ∧ resume_out i q m = out ∧
    match Spec.remove xs with
    | Some (nd, ys) => r = Returned eMSG_Q_SUCCESS ∧ queue_at m' q ys a (delete i w) u ∧
        ls_var (q_heap m') out = Some (Some (n_data nd))
    | None =>
        if truth u then r = Returned eMSG_Q_UNAVAILABLE_RESOURCE ∧ queue_at m' q xs a (delete i w) u
        else r = Waiting ∧ queue_at m' q xs (a ++ [(t, out)]) (delete i w) u
    end.
Proof.
  intros (Hq & (l & Hl & Hat) & Hws) Hi. unfold msg_q_rcv_resume, resume_out. rewrite Hq. cbn [woken].
  rewrite Hi. qrun. rewrite Hi. qrun. qrun.
  rewrite (delete_Permutation w i _ Hi), <- Permutation_middle in Hws.
  inversion_clear Hws as [|? ? [Hne Hout] Hws'].
  edestruct (rcv_check_spec (QMem (q_heap m) (<[q:=MsgQ true a (delete i w) u]>
    (<[q:=MsgQ false a (delete i w) u]> (q_objs m)))) q l xs a (delete i w) u t out)
    as (r & m' & Hrun & Hr); [by cbn; simplify_map_eq|done..|].
  eauto.
Qed.

Lemma msg_q_flush_spec m q xs a w u :
  queue_at m q xs a w u →
  ∃ m', msg_q_flush (Some q) m = Some (eMSG_Q_SUCCESS, m') ∧ queue_at m' q [] a w u ∧
    ls_world (q_heap m') = foldl (λ s nd, ls_drop nd s) (ls_world (q_heap m)) xs.
Proof.
  intros (Hq & (l & Hl & Hat) & Hws). unfold msg_q_flush. qrun. qrun.
  destruct (ls_flush_law _ _ _ Hat) as (h' & Hrun & Hat' & Hv & Hw). qrun. qrun.
  eexists. split; [done|]. split; [|done].
  eapply queue_at_intro; [by simplify_map_eq|by rewrite Hv|done| |done|done].
  intros c. by rewrite Hv.
Qed.

Lemma msg_q_unblock_spec m q xs a w u :
  queue_at m q xs a w u →
  ∃ m', msg_q_unblock (Some q) m
        = Some (if truth u then eMSG_Q_UNAVAILABLE_RESOURCE else eMSG_Q_SUCCESS, m') ∧
    q_heap m' = q_heap m ∧
    if truth u then queue_at m' q xs a w u else queue_at m' q xs [] (w ++ a) 1.
Proof.
  intros (Hq & (l & Hl & Hat) & Hws). unfold msg_q_unblock. qrun. qrun. destruct (truth u) eqn:Hu.
  - qrun. eexists. split; [done|]. split; [done|].
    by eapply queue_at_intro; [by simplify_map_eq|done..].
  - qrun. qrun. unfold cond_broadcast. cbn. qrun. eexists. split; [done|]. split; [done|].
    eapply queue_at_intro; [by simplify_map_eq|done..|]. cbn. apply Permutation_app_comm.
Qed.

(** ** The invariant of the interleaved system *)

(** The queue is well formed; messages are neither lost, duplicated nor
    reordered; a sleeping receiver means the queue is not unblocked and every
    pending message has a released receiver coming for it. *)
Definition sys_ok (q : loc) (s : sys) : Prop :=
  ∃ xs a w u, queue_at (s_mem s) q xs a w u ∧
    g_sent s = g_gone s ++ pending xs ∧
    (a ≠ [] → u = 0%Z ∧ length xs ≤ length w).

Lemma sys_ok_init q s : starts q s → sys_ok q s.
Proof.
  intros (Hq & Hs & Hg). exists [], [], [], 0%Z. rewrite Hs, Hg. by split.
Qed.

Lemma sys_ok_intro q m sent gone xs a w u :
  queue_at m q xs a w u → sent = gone ++ pending xs →
  (a ≠ [] → u = 0%Z ∧ length xs ≤ length w) → sys_ok q (Sys m sent gone).
Proof. intros. by exists xs, a, w, u. Qed.

Lemma snd_ok q s pick obj d r m :
  sys_ok q s → msg_q_snd pick (Some q) (Some obj) d (s_mem s) = Some (r, m) →
  sys_ok q (Sys m (g_sent s ++ if decide (r = eMSG_Q_SUCCESS) then [obj] else []) (g_gone s)).
Proof.
  intros (xs & a & w & u & Hq & Hg & Hw) Hrun. destruct (decide (u = 0%Z)) as [->|Hu].
  - destruct (msg_q_snd_spec _ _ _ _ _ pick obj d Hq) as (r' & m' & Hrun' & _ & Hr). simplify_eq.
    assert ((signalled pick a w).1 ≠ [] → length xs ≤ length w) as Hle.
    { intros Hne. apply Hw. intros ->. by apply Hne. }
    pose proof (signalled_sleepers pick a w) as Hsl.
    destruct Hr as [[-> Hq']|[-> Hq']].
    + eapply sys_ok_intro; [exact Hq'| |cbn; intros Hne; specialize (Hle Hne); specialize (Hsl Hne); lia].
      rewrite Hg, decide_True by done. unfold pending. by rewrite fmap_cons, reverse_cons, app_assoc.
    + eapply sys_ok_intro; [exact Hq'| |intros Hne; specialize (Hle Hne); specialize (Hsl Hne); lia].
      by rewrite decide_False, app_nil_r.
  - destruct (msg_q_snd_unblocked _ _ _ _ _ _ pick obj d Hq Hu) as (m' & Hrun' & _ & Hq'). simplify_eq.
    rewrite decide_False, app_nil_r by done. by eapply sys_ok_intro.
Qed.

(** What a receiver that evaluates the loop condition does to the invariant. *)
Lemma rcv_ok q m sent gone xs a w u t out r m' :
  queue_at m q xs a w u → sent = gone ++ pending xs →
  (a ≠ [] → u = 0%Z ∧ length xs ≤ S (length w)) →
  match Spec.remove xs with
  | Some (nd, ys) => r = Returned eMSG_Q_SUCCESS ∧ queue_at m' q ys a w u ∧
      ls_var (q_heap m') out = Some (Some (n_data nd))
  | None =>
      if truth u then r = Returned eMSG_Q_UNAVAILABLE_RESOURCE ∧ queue_at m' q xs a w u
      else r = Waiting ∧ queue_at m' q xs (a ++ [(t, out)]) w u
  end →
  sys_ok q (Sys m' sent (gone ++ received out r m')).
Proof.
  intros Hq Hg Hw Hr. pose proof (pending_remove xs) as Hrem.
  destruct (Spec.remove xs) as [[nd ys]|].
  - destruct Hr as (-> & Hq' & Ho), Hrem as [Hp Hlen]. unfold received. rewrite Ho.
    eapply sys_ok_intro; [done| |].
    + rewrite Hg, Hp. by rewrite <- app_assoc.
    + intros Hne. specialize (Hw Hne). lia.
  - subst xs. destruct (truth u) eqn:Hu; destruct Hr as [-> Hq']; cbn; rewrite app_nil_r.
    + eapply sys_ok_intro; [done|done|]. intros Hne. destruct (Hw Hne). cbn. lia.
    + eapply sys_ok_intro; [done|done|]. intros _. cbn. split; [|lia].
      destruct (decide (u = 0%Z)); [done|]. by apply truth_true in n; rewrite n in Hu.
Qed.

Lemma queue_at_fun m q xs a w u xs' a' w' u' :
  queue_at m q xs a w u → queue_at m q xs' a' w' u' → xs = xs' ∧ a = a' ∧ w = w' ∧ u = u'.
Proof.
  intros (Hq & (l & Hl & Hat) & _) (Hq' & (l' & Hl' & Hat') & _). simplify_eq.
  split; [by eapply ls_at_fun|done].
Qed.

Lemma step_ok q s s' : sys_ok q s → step q s s' → sys_ok q s'.
Proof.
  intros Hok Hstep. destruct Hstep as
    [s pick obj d r m Hrun|s t out r m Hne Hout Hrun|s i r m Hrun|s i m Hrun|s l xs r m Hl Hat Hrun|s r m Hrun].
  - by eapply snd_ok.
  - destruct Hok as (xs & a & w & u & Hq & Hg & Hw). destruct (decide (u = 0%Z)) as [->|Hu].
    + destruct (msg_q_rcv_spec _ _ _ _ _ t out Hq Hne Hout) as (r' & m' & Hrun' & Hr). simplify_eq.
      eapply (rcv_ok q _ _ _ xs a w 0 t); [exact Hq|done| |exact Hr]. intros Ha. specialize (Hw Ha). lia.
    + destruct (msg_q_rcv_unblocked _ _ _ _ _ _ t out Hq Hu) as (m' & Hrun' & _ & Hq'). simplify_eq.
      cbn. rewrite app_nil_r. by eapply sys_ok_intro.
  - destruct Hok as (xs & a & w & u & Hq & Hg & Hw).
    destruct (w !! i) as [[t out]|] eqn:Hi.
    + destruct (msg_q_rcv_resume_spec _ _ _ _ _ _ _ _ _ Hq Hi) as (r' & m' & Hrun' & Ho & Hr). simplify_eq.
      pose proof (length_delete w i (mk_is_Some _ _ Hi)) as Hd.
      assert (0 < length w) by (apply lookup_lt_Some in Hi; lia).
      eapply (rcv_ok q (QMem (q_heap (s_mem s)) (<[q:=MsgQ false a (delete i w) u]> (q_objs (s_mem s)))) _ _ xs a (delete i w) u t);
        [|done| |exact Hr].
      * destruct Hq as (Hq & Hl & Hws). split; [cbn; by simplify_map_eq|]. split; [done|].
        rewrite Forall_app in Hws |- *. destruct Hws. split; [done|]. by apply Forall_delete.
      * intros Ha. specialize (Hw Ha). lia.
    + destruct Hq as (Hq & _). unfold msg_q_rcv_resume in Hrun.
      by rewrite (st_bind_some _ _ _ _ _ (run_read_q _ _ _ Hq)) in Hrun; cbn in Hrun; rewrite Hi in Hrun.
  - destruct Hok as (xs & a & w & u & (Hq & Hl & Hws) & Hg & Hw).
    rewrite (run_write_q _ _ _ _ Hq) in Hrun. simplify_eq. unfold cond_spurious. cbn.
    destruct (a !! i) as [t|] eqn:Hi.
    + eapply (sys_ok_intro _ _ _ _ xs (delete i a) (w ++ [t]) u); [|done|].
      * split; [cbn; by simplify_map_eq|]. split; [done|]. by rewrite (wake_perm _ _ _ _ Hi).
      * intros Ha. rewrite length_app. cbn. destruct Hw as [-> ?]; [|split; [done|lia]]. by intros ->.
    + eapply (sys_ok_intro _ _ _ _ xs a w u); [|done|done].
      split; [cbn; by simplify_map_eq|done].
  - destruct Hok as (xs' & a & w & u & Hq & Hg & Hw).
    assert (xs = xs') as ->.
    { destruct Hq as (_ & (l' & Hl' & Hat') & _). simplify_eq. by eapply ls_at_fun. }
    destruct (msg_q_flush_spec _ _ _ _ _ _ Hq) as (m' & Hrun' & Hq' & _). simplify_eq.
    eapply sys_ok_intro; [done|by rewrite app_nil_r|]. intros Ha. destruct (Hw Ha). cbn. split; [done|lia].
  - destruct Hok as (xs & a & w & u & Hq & Hg & Hw).
    destruct (msg_q_unblock_spec _ _ _ _ _ _ Hq) as (m' & Hrun' & _ & Hq'). simplify_eq.
    destruct (truth u); by eapply sys_ok_intro.
Qed.

Lemma reachable_ok q s : reachable (step q) (starts q) s → sys_ok q s.
Proof. apply invariant_reachable; [apply sys_ok_init|intros ? ?; apply step_ok]. Qed.

(** C13: in every interleaving of calls the messages leave the queue exactly in
    the order [msg_q_snd] accepted them: those accepted are those received or
    flushed followed by those pending, and the queue stays well formed with its
    mutex free. *)
Theorem msg_q_fifo q s :
  reachable (step q) (starts q) s →
  ∃ xs a w u, queue_at (s_mem s) q xs a w u ∧ g_sent s = g_gone s ++ pending xs.
Proof. intros (xs & a & w & u & ? & ? & _)%reachable_ok. eauto 10. Qed.

(** C14: no wake-up is lost: whenever a message is pending, or the queue has
    been unblocked, while receivers are suspended, one of them has already been
    released, and each released receiver returns when it next runs. *)
Theorem msg_q_no_lost_wakeup q s xs a w u :
  reachable (step q) (starts q) s →
  queue_at (s_mem s) q xs a w u →
  xs ≠ [] ∨ u ≠ 0%Z → a ++ w ≠ [] →
  w ≠ [] ∧ ∀ i, i < length w → ∃ rv m, msg_q_rcv_resume i q (s_mem s) = Some (Returned rv, m).
Proof.
  intros (xs' & a' & w' & u' & Hq' & _ & Hw)%reachable_ok Hq Hor Hsus.
  destruct (queue_at_fun _ _ _ _ _ _ _ _ _ _ Hq Hq') as (<- & <- & <- & <-). split.
  - intros ->. rewrite app_nil_r in Hsus. destruct (Hw Hsus) as [-> Hlen]. destruct xs; [naive_solver|].
    cbn in Hlen. lia.
  - intros i [[t out] Hi]%lookup_lt_is_Some.
    destruct (msg_q_rcv_resume_spec _ _ _ _ _ _ _ _ _ Hq Hi) as (r & m' & Hrun & _ & Hr).
    pose proof (pending_remove xs) as Hrem. destruct (Spec.remove xs) as [[nd ys]|].
    + destruct Hr as (-> & _). eauto.
    + subst xs. destruct (truth u) eqn:Hu; destruct Hr as [-> _]; [eauto|].
      destruct Hor as [?|Hu'%truth_true]; congruence.
Qed.

(** once unblocked, no thread is asleep in the queue, a send is refused, and
    a receive returns at once with the resource unavailable, even if messages
    are left; neither changes the list. *)
Theorem msg_q_unblocked_refuses q s xs a w u pick t obj d out :
  reachable (step q) (starts q) s →
  queue_at (s_mem s) q xs a w u → u ≠ 0%Z →
  a = [] ∧
  (∃ m, msg_q_snd pick (Some q) (Some obj) d (s_mem s) = Some (eMSG_Q_UNAVAILABLE_RESOURCE, m) ∧
     q_heap m = q_heap (s_mem s) ∧ queue_at m q xs a w u) ∧
  (∃ m, msg_q_rcv t (Some q) (Some out) (s_mem s) = Some (Returned eMSG_Q_UNAVAILABLE_RESOURCE, m) ∧
     q_heap m = q_heap (s_mem s) ∧ queue_at m q xs a w u).
Proof.
  intros (xs' & a' & w' & u' & Hq' & _ & Hw)%reachable_ok Hq Hu.
  destruct (queue_at_fun _ _ _ _ _ _ _ _ _ _ Hq Hq') as (<- & <- & <- & <-).
  split; [destruct a; [done|]; by destruct Hw|].
  split; [by apply msg_q_snd_unblocked|by apply msg_q_rcv_unblocked].
Qed.

(** no call deadlocks on the queue's mutex: in every reachable state each
    function returns or suspends in [pthread_cond_wait], and leaves the mutex
    free, on every path. *)
Theorem msg_q_calls_return q s pick t obj d out :
  reachable (step q) (starts q) s → out ≠ q → is_Some (ls_var (q_heap (s_mem s)) out) →
  let free m := ∃ xs a w u, queue_at m q xs a w u in
  (∃ r m, msg_q_snd pick (Some q) (Some obj) d (s_mem s) = Some (r, m) ∧ free m) ∧
  (∃ r m, msg_q_rcv t (Some q) (Some out) (s_mem s) = Some (r, m) ∧ free m) ∧
  (∃ r m, msg_q_flush (Some q) (s_mem s) = Some (r, m) ∧ free m) ∧
  (∃ r m, msg_q_unblock (Some q) (s_mem s) = Some (r, m) ∧ free m).
Proof.
  intros (xs & a & w & u & Hq & _)%reachable_ok Hne Hout free. split; [|split; [|split]].
  - destruct (decide (u = 0%Z)) as [->|Hu].
    + destruct (msg_q_snd_spec _ _ _ _ _ pick obj d Hq) as (r & m & ? & _ & [[_ ?]|[_ ?]]);
        unfold free; eauto 10.
    + destruct (msg_q_snd_unblocked _ _ _ _ _ _ pick obj d Hq Hu) as (m & ? & _ & ?).
      unfold free. eauto 10.
  - destruct (decide (u = 0%Z)) as [->|Hu].
    + destruct (msg_q_rcv_spec _ _ _ _ _ t out Hq Hne Hout) as (r & m & ? & Hr).
      unfold free. destruct (Spec.remove xs) as [[nd ys]|]; naive_solver.
    + destruct (msg_q_rcv_unblocked _ _ _ _ _ _ t out Hq Hu) as (m & ? & _ & ?). unfold free. eauto 10.
  - destruct (msg_q_flush_spec _ _ _ _ _ _ Hq) as (m & ? & ? & _). unfold free. eauto 10.
  - destruct (msg_q_unblock_spec _ _ _ _ _ _ Hq) as (m & ? & _ & Hq'). unfold free.
    destruct (truth u); eauto 10.
Qed.

(** ** Creation and destruction *)

Lemma run_free_queue m q o (h' : H) :
  ls_free q (q_heap m) = Some (tt, h') → q_objs m !! q = Some o →
  free_queue q m = Some (tt, QMem h' (delete q (q_objs m))).
Proof. intros Hf Hq. unfold free_queue. by rewrite (st_bind_some _ _ _ _ _ (run_lift _ _ _ _ Hf)). Qed.

(** [msg_q_init] either stores a handle to an empty, blocked queue with its
    mutex free, or, whichever of the allocation, the list, the mutex or the
    condition variable failed, reports a general failure having released all
    it acquired. *)
Theorem msg_q_init_spec m mutex_rc cond_rc out :
  is_Some (ls_var (q_heap m) out) →
  (∀ q, is_Some (q_objs m !! q) → is_Some (ls_var (q_heap m) q)) →
  ∃ r m', msg_q_init mutex_rc cond_rc (Some out) m = Some (r, m') ∧
    ((r = eMSG_Q_SUCCESS ∧ mutex_rc = 0%Z ∧ cond_rc = 0%Z ∧
      ∃ q, ls_var (q_heap m') out = Some (Some q) ∧ queue_at m' q [] [] [] 0) ∨
     (r = eMSG_Q_FAILURE_GENERAL ∧ q_objs m' = q_objs m ∧
      ∀ c, ls_var (q_heap m') c = ls_var (q_heap m) c)).
Proof.
  intros Hout Hok. unfold msg_q_init.
  destruct (ls_calloc_law (q_heap m)) as (p & h1 & Hc & Hp). qrun.
  destruct p as [q|]; [|eexists _, _; split; [done|]; right; by split; [|split]].
  destruct Hp as (Hfr & Hq1 & Hv1).
  assert (q_objs m !! q = None) as Hnone.
  { apply eq_None_not_Some. intros Hs%Hok. by rewrite Hfr in Hs; destruct Hs. }
  assert (out ≠ q) as Hne by (intros ->; rewrite Hfr in Hout; by destruct Hout).
  st_steps. rewrite st_bind_run. cbn.
  destruct (ls_init_law h1 q ltac:(eauto)) as (r & h2 & Hi & Hv2 & Hr). qrun.
  (* giving the object back restores the variables and the objects *)
  assert (∀ h3, ls_var h3 q = Some None → (∀ c, c ≠ q → ls_var h3 c = ls_var h2 c) →
    ∃ m', (_ ← free_queue q; mret eMSG_Q_FAILURE_GENERAL)
            (QMem h3 (<[q := MsgQ false [] [] 0]> (q_objs m)))
      = Some (eMSG_Q_FAILURE_GENERAL, m') ∧ q_objs m' = q_objs m ∧
      ∀ c, ls_var (q_heap m') c = ls_var (q_heap m) c) as Hfail.
  { intros h3 Hq3 Hv3. destruct (ls_free_law h3 q ltac:(eauto)) as (h4 & Hf & Hq4 & Hv4 & _).
    erewrite st_bind_some; [|eapply run_free_queue; cbn; [exact Hf|by simplify_map_eq]].
    eexists. split; [done|]. split; [by apply delete_insert_id|]. intros c. cbn.
    destruct (decide (c = q)) as [->|]; [by rewrite Hfr, Hq4|].
    by rewrite Hv4, Hv3, Hv2, Hv1 by done. }
  destruct Hr as [[-> (l & Hql & Hat)]|[-> Hq2]].
  - rewrite decide_False by naive_solver.
    destruct (ls_destroy_law h2 q l [] Hql Hat) as (h3 & Hd & Hq3 & Hv3 & _).
    destruct (truth mutex_rc) eqn:Hm; [|destruct (truth cond_rc) eqn:Hcd].
    + qrun. destruct (Hfail h3 Hq3 Hv3) as (m' & Hrun & ?). rewrite Hrun. eauto 10.
    + qrun. destruct (Hfail h3 Hq3 Hv3) as (m' & Hrun & ?). rewrite Hrun. eauto 10.
    + qrun. destruct (ls_write_law h2 out (Some q)) as (h4 & Hw & Ho & Hv4 & Hat4 & _).
      { rewrite Hv2, Hv1 by done. done. }
      qrun. eexists _, _. split; [done|]. left. split; [done|].
      assert (∀ z, truth z = false → z = 0%Z) as Hz.
      { intros z Htz. destruct (decide (z = 0%Z)) as [|Hn%truth_true]; congruence. }
      split; [auto|]. split; [auto|]. exists q. split; [done|].
      split; [cbn; by simplify_map_eq|]. split; [|constructor]. exists l. cbn.
      rewrite Hv4 by done. auto.
  - rewrite decide_True by done.
    destruct (Hfail h2 ltac:(congruence) ltac:(done)) as (m' & Hrun & ?).
    rewrite Hrun. eauto 10.
Qed.

(** [msg_q_destroy] on a queue no thread is suspended in: the pending
    messages are deallocated newest first, the object is freed and the handle
    reset to NULL. *)
Theorem msg_q_destroy_spec m q var xs u :
  queue_at m q xs [] [] u → var ≠ q → ls_var (q_heap m) var = Some (Some q) →
  ∃ m', msg_q_destroy (Some var) m = Some (eMSG_Q_SUCCESS, m') ∧
    q_objs m' = delete q (q_objs m) ∧ ls_var (q_heap m') q = None ∧
    ls_var (q_heap m') var = Some None ∧
    ls_world (q_heap m') = foldl (λ w nd, ls_drop nd w) (ls_world (q_heap m)) xs.
Proof.
  intros (Hq & (l & Hl & Hat) & _) Hne Hvar. unfold msg_q_destroy. qrun.
  destruct (ls_destroy_law _ _ _ _ Hl Hat) as (h1 & Hd & Hq1 & Hv1 & Hw1). qrun. qrun.
  destruct (ls_free_law h1 q ltac:(eauto)) as (h2 & Hf & Hq2 & Hv2 & Hw2).
  erewrite st_bind_some; [|eapply run_free_queue; cbn; [exact Hf|by simplify_map_eq]].
  destruct (ls_write_law h2 var None) as (h3 & Hw & Ho & Hv3 & _ & Hw3).
  { rewrite Hv2, Hv1, Hvar by done. eauto. }
  qrun. eexists. split; [done|]. cbn. split; [by rewrite delete_insert_eq|].
  split; [by rewrite Hv3|]. split; [done|congruence].
Qed.
End specs.

(** ** The pointer-level list keeps the promise *)

Lemma dlseg_fun m p pr cs cs' lst lst' :
  dlseg m p pr cs None lst → dlseg m p pr cs' None lst' → cs = cs'.
Proof.
  revert p pr cs'. induction cs as [|[k nd] cs IH]; intros p pr cs' Hs Hs'.
  - apply dlseg_nil in Hs as [-> _]. by apply dlseg_first_None in Hs' as ->.
  - apply dlseg_cons in Hs as (-> & q & Hk & Hs).
    destruct cs' as [|[k' nd'] cs']; [by apply dlseg_nil in Hs' as [? _]|].
    apply dlseg_cons in Hs' as ([= <-] & q' & Hk' & Hs'). simplify_eq.
    destruct nd, nd'; cbn in *; simplify_eq. f_equal. by eapply IH.
Qed.

Section instance.
Context {W : Type} `{Allocator} `{!Deallocators W}.

Definition seq_at (h : heap W) (l : loc) (xs : list node) : Prop :=
  ∃ cs, list_at h l cs ∧ cs.*2 = xs.

#[export] Program Instance heap_ListStore : ListStore (heap W) W := {
  ls_init := linked_list_init;
  ls_destroy := linked_list_destroy;
  ls_add := linked_list_add;
  ls_remove := linked_list_remove;
  ls_empty := linked_list_empty;
  ls_flush := linked_list_flush;
  ls_calloc := calloc_cell;
  ls_free := free_cell;
  ls_write := write_cell;
  ls_var h c := h_cell h !! c;
  ls_world := h_world;
  ls_drop := Spec.drop_node;
  ls_at := seq_at
}.
Next Obligation.
  intros h l xs ys (cs & (hd & tl & Hl & Hs & _) & <-) (cs' & (hd' & tl' & Hl' & Hs' & _) & <-).
  simplify_eq. f_equal. by eapply dlseg_fun.
Qed.
Next Obligation.
  intros h l xs obj d (cs & Hat & <-). pose proof (linked_list_add_spec h l obj d cs Hat) as Hadd.
  destruct (alloc _ _) as [e|]; destruct Hadd as (h' & Hrun & Hat' & (_ & _ & Hc) & Hw);
    eexists _, _; (split; [done|]); (split; [intros c; by apply Hc|]); (split; [done|]);
    [left|right]; (split; [done|]); by eexists.
Qed.
Next Obligation.
  intros h l xs out (cs & Hat & <-) [v Hv].
  pose proof (linked_list_remove_spec h l out v cs Hat Hv) as Hrem.
  destruct (Spec.remove cs.*2) as [[nd ys]|]; [|done].
  destruct Hrem as (h' & k & cs' & Hrun & _ & -> & Hat' & Ho & _ & (_ & _ & Hc) & Hw).
  exists h'. split; [done|]. split; [by eexists|]. split; [done|]. split; [|done].
  intros c Hne. apply Hc. set_solver.
Qed.
Next Obligation.
  intros h l xs (cs & Hat & <-). rewrite (linked_list_empty_spec h l cs Hat). do 3 f_equal.
  apply bool_decide_ext. destruct cs; cbn; naive_solver.
Qed.
Next Obligation.
  intros h l xs (cs & Hat & <-).
  destruct (linked_list_flush_spec h l cs Hat) as (h' & Hrun & Hat' & Hw & _ & (_ & _ & Hc)).
  exists h'. split; [done|]. split; [by eexists|]. split; [intros c; by apply Hc|done].
Qed.
Next Obligation.
  intros h out [v Hv]. pose proof (linked_list_init_spec h out v Hv) as Hi.
  destruct (alloc _ _) as [l|].
  - destruct Hi as (h' & Hrun & _ & Ho & Hat & (_ & _ & Hc)). eexists _, h'. split; [done|].
    split; [intros c Hne; apply Hc; set_solver|]. left. split; [done|]. exists l. split; [done|]. by eexists.
  - destruct Hi as (h' & Hrun & Hc & _). eexists _, h'. split; [done|]. rewrite Hc.
    split; [done|]. by right.
Qed.
Next Obligation.
  intros h var l xs Hv (cs & Hat & <-).
  destruct (linked_list_destroy_spec h var l cs Hv Hat) as (h' & Hrun & Hst & Hc & He & Hw).
  exists h'. split; [done|]. rewrite Hc. split; [by simplify_map_eq|]. split; [|done].
  intros c Hne. by simplify_map_eq.
Qed.
Next Obligation.
  intros h c v [v0 Hv]. rewrite (run_write_cell _ _ _ _ Hv). eexists. split; [done|]. cbn.
  split; [by simplify_map_eq|]. split; [intros c' Hne; by simplify_map_eq|]. split; [|done].
  intros l xs (cs & (hd & tl & Hat) & <-). exists cs. split; [|done]. by exists hd, tl.
Qed.
Next Obligation.
  intros h. unfold calloc_cell, malloc. rewrite st_bind_run.
  destruct (alloc (h_calls h) (live h)) as [q|] eqn:Ha; [|by eexists _, _].
  eexists _, _. split; [done|]. cbn. apply alloc_fresh in Ha.
  assert (h_cell h !! q = None) as Hq by (apply not_elem_of_dom; unfold live in Ha; set_solver).
  split; [done|]. split; [by simplify_map_eq|]. intros c Hne. by simplify_map_eq.
Qed.
Next Obligation.
  intros h c [v Hv]. unfold free_cell. rewrite (st_bind_some _ _ _ _ _ (run_read_cell _ _ _ Hv)).
  eexists. split; [done|]. cbn. split; [by simplify_map_eq|]. split; [|done].
  intros c' Hne. by simplify_map_eq.
Qed.
End instance.

(** ** A concrete queue *)

Section demo.
Local Open Scope positive_scope.

(** The queue at 50 holds the empty list at 9; 4 and 5 are variables. *)
Definition demo_q0 : qmem (heap (list (loc * loc))) :=
  QMem (Heap {[9 := LState None None]} ∅ {[50 := Some 9; 4 := None; 5 := Some 50]} 0 [])
    {[50 := MsgQ false [] [] 0%Z]}.

Definition after {A M} (r : option (A * M)) (m : M) : M :=
  match r with Some (_, m') => m' | None => m end.

(** A receiver that suspends, a message, and the end of the queue. *)
Definition demo_q1 := after (msg_q_rcv 7 (Some 50) (Some 4) demo_q0) demo_q0.
Definition demo_q2 := after (msg_q_snd 0 (Some 50) (Some 20) (Some 77) demo_q1) demo_q1.
Definition demo_q3 := after (msg_q_unblock (Some 50) demo_q2) demo_q2.

Lemma demo_at0 : queue_at demo_q0 50 [] [] [] 0.
Proof.
  split; [reflexivity|]. split; [|constructor].
  exists 9. split; [reflexivity|]. exists []. split; [|done].
  exists None, None. split; [reflexivity|]. split; [done|constructor].
Qed.

Lemma demo_at2_list : ls_at (q_heap demo_q2) 9 [Node 20 (Some 77)].
Proof.
  exists [(100, Node 20 (Some 77))]. split; [|done]. exists (Some 100), (Some 100).
  split; [reflexivity|]. split; [|cbn; repeat constructor; set_solver].
  apply dlseg_cons. split; [done|]. exists None. split; [reflexivity|]. by apply dlseg_nil.
Qed.

Lemma demo_at2 : queue_at demo_q2 50 [Node 20 (Some 77)] [] [(7%nat, 4)] 0.
Proof.
  split; [reflexivity|]. split.
  - exists 9. split; [reflexivity|exact demo_at2_list].
  - constructor; [|constructor]. split; [done|]. eexists. reflexivity.
Qed.

Lemma demo_at3 : queue_at demo_q3 50 [Node 20 (Some 77)] [] [(7%nat, 4)] 1.
Proof.
  split; [reflexivity|]. split.
  - exists 9. split; [reflexivity|exact demo_at2_list].
  - constructor; [|constructor]. split; [done|]. eexists. reflexivity.
Qed.

Definition demo_sys2 := Sys demo_q2 [20] [].
Definition demo_sys3 := Sys demo_q3 [20] [].

Lemma demo_reach2 : reachable (step 50) (starts 50) demo_sys2.
Proof.
  eapply reachable_step; [eapply reachable_step; [exists (Sys demo_q0 [] []); split; [|reflexivity]|]|].
  - split; [exact demo_at0|done].
  - refine (step_rcv 50 (Sys demo_q0 [] []) 7 4 Waiting demo_q1 _ _ _);
      [done|eexists; reflexivity|reflexivity].
  - refine (step_snd 50 (Sys demo_q1 [] []) 0 20 (Some 77) eMSG_Q_SUCCESS demo_q2 _). reflexivity.
Qed.

Lemma demo_reach3 : reachable (step 50) (starts 50) demo_sys3.
Proof.
  eapply reachable_step; [exact demo_reach2|].
  refine (step_unblock 50 demo_sys2 eMSG_Q_SUCCESS demo_q3 _). reflexivity.
Qed.

Lemma msg_q_fifo_witness :
  ∃ xs a w u, queue_at demo_q2 50 xs a w u ∧ [20] = ([] ++ pending xs)%list.
Proof. exact (msg_q_fifo 50 demo_sys2 demo_reach2). Defined.

Lemma msg_q_no_lost_wakeup_witness :
  [(7%nat, 4)] ≠ [] ∧
  ∀ i, (i < 1)%nat → ∃ rv m, msg_q_rcv_resume i 50 demo_q2 = Some (Returned rv, m).
Proof.
  apply (msg_q_no_lost_wakeup 50 demo_sys2 _ _ _ _ demo_reach2 demo_at2); [by left|done].
Defined.

Lemma msg_q_unblocked_refuses_witness :
  @nil waiter = [] ∧
  (∃ m, msg_q_snd 0 (Some 50) (Some 30) None demo_q3 = Some (eMSG_Q_UNAVAILABLE_RESOURCE, m) ∧
     q_heap m = q_heap demo_q3 ∧ queue_at m 50 [Node 20 (Some 77)] [] [(7%nat, 4)] 1) ∧
  (∃ m, msg_q_rcv 8 (Some 50) (Some 4) demo_q3 = Some (Returned eMSG_Q_UNAVAILABLE_RESOURCE, m) ∧
     q_heap m = q_heap demo_q3 ∧ queue_at m 50 [Node 20 (Some 77)] [] [(7%nat, 4)] 1).
Proof.
  apply (msg_q_unblocked_refuses 50 demo_sys3 _ _ _ _ _ _ _ _ _ demo_reach3 demo_at3). done.
Defined.

Lemma msg_q_calls_return_witness :
  let free m := ∃ xs a w u, queue_at m 50 xs a w u in
  (∃ r m, msg_q_snd 0 (Some 50) (Some 30) None demo_q2 = Some (r, m) ∧ free m) ∧
  (∃ r m, msg_q_rcv 8 (Some 50) (Some 5) demo_q2 = Some (r, m) ∧ free m) ∧
  (∃ r m, msg_q_flush (Some 50) demo_q2 = Some (r, m) ∧ free m) ∧
  (∃ r m, msg_q_unblock (Some 50) demo_q2 = Some (r, m) ∧ free m).
Proof.
  apply (msg_q_calls_return 50 demo_sys2 0 8 30 None 5 demo_reach2); [done|eexists; reflexivity].
Defined.

Lemma msg_q_init_spec_witness :
  ∃ r m', msg_q_init 0 12 (Some 4) demo_q0 = Some (r, m') ∧
    ((r = eMSG_Q_SUCCESS ∧ 0%Z = 0%Z ∧ 12%Z = 0%Z ∧
      ∃ q, ls_var (q_heap m') 4 = Some (Some q) ∧ queue_at m' q [] [] [] 0) ∨
     (r = eMSG_Q_FAILURE_GENERAL ∧ q_objs m' = q_objs demo_q0 ∧
      ∀ c, ls_var (q_heap m') c = ls_var (q_heap demo_q0) c)).
Proof.
  apply (msg_q_init_spec demo_q0 0 12 4); [eexists; reflexivity|].
  intros q [o Hq]. unfold demo_q0 in Hq. cbn in Hq.
  apply lookup_singleton_Some in Hq as [<- _]. eexists. reflexivity.
Defined.

Definition demo_q4 := after (msg_q_snd 0 (Some 50) (Some 20) (Some 77) demo_q0) demo_q0.

Lemma msg_q_destroy_spec_witness :
  ∃ m', msg_q_destroy (Some 5) demo_q4 = Some (eMSG_Q_SUCCESS, m') ∧
    q_objs m' = delete 50 (q_objs demo_q4) ∧ ls_var (q_heap m') 50 = None ∧
    ls_var (q_heap m') 5 = Some None ∧ ls_world (q_heap m') = [(77, 20)].
Proof.
  refine (msg_q_destroy_spec demo_q4 50 5 [Node 20 (Some 77)] 0 _ _ _); [|done|reflexivity].
  split; [reflexivity|]. split; [|constructor].
  exists 9. split; [reflexivity|exact demo_at2_list].
Defined.
End demo.
