(* ===== verification/Agps.v ===== *)
(** * The AGPS resource state machine of gps/libloc_api_50001/loc_eng_agps.{h,cpp}

    Subscribers are objects in a store: the list of an [AgpsStateMachine] holds
    their addresses, is searched with the callbacks of the file and may be
    changed through a pointer found in it.  The list is the sequence that
    linked_list.c implements ([LinkedList.Spec], by [linked_list_search_spec]
    and its companions); [Abs] is the specification on plain subscriber values,
    and the machine refines it. *)

From S2P Require Import Prelude LinkedList.
Local Open Scope Z_scope.

(** ** Data *)

(** [AgpsRsrcStatus] *)
Inductive AgpsRsrcStatus :=
| RSRC_SUBSCRIBE
| RSRC_UNSUBSCRIBE
| RSRC_GRANTED
| RSRC_RELEASED
| RSRC_DENIED
| RSRC_STATUS_MAX.

Definition INADDR_NONE : Z := 4294967295.
Definition SSID_BUF_SIZE : nat := 33.

Definition GPS_REQUEST_AGPS_DATA_CONN : Z := 1.
Definition GPS_RELEASE_AGPS_DATA_CONN : Z := 2.

Definition AGPS_TYPE_INVALID : Z := -1.

Definition GPSONE_LOC_API_IF_REQUEST_SUCCESS : Z := 240.
Definition GPSONE_LOC_API_IF_RELEASE_SUCCESS : Z := 241.
Definition GPSONE_LOC_API_IF_FAILURE : Z := 242.

Definition LOC_ENG_IF_REQUEST_SENDER_ID_QUIPC : Z := 0.
Definition LOC_ENG_IF_REQUEST_SENDER_ID_MSAPM : Z := 1.
Definition LOC_ENG_IF_REQUEST_SENDER_ID_GPSONE_DAEMON : Z := 2.

(** The characters of a C string up to its NUL. *)
Fixpoint c_string (bs : list Z) : list Z :=
  match bs with
  | [] => []
  | b :: bs => if b =? 0 then [] else b :: c_string bs
  end.

(** What [strlcpy] leaves in a buffer of [n] characters, its NUL excluded. *)
Definition strlcpy (n : nat) (src : list Z) : list Z := take (n - 1) (c_string src).

(** [0 == strncmp(a, b, n)] *)
Fixpoint strncmp_eq (n : nat) (a b : list Z) : bool :=
  match n, a, b with
  | S n, x :: a, y :: b => if x =? y then if x =? 0 then true else strncmp_eq n a b else false
  | S _, _, _ => false
  | O, _, _ => true
  end.

(** The three subclasses of [Subscriber]; [ID] is the inherited field.  The
    [mStateMachine] of a subscriber is the machine it is given to. *)
Inductive Subscriber :=
| BITSubscriber (ID : Z) (ipv6Addr : list Z)
| ATLSubscriber (ID : Z) (mLocAdapter : loc) (mBackwardCompatibleMode : bool)
| WIFISubscriber (ID : Z) (mSSID mPassword : option (list Z)) (senderId : Z) (mIsInactive : bool).

Definition ID (s : Subscriber) : Z :=
  match s with BITSubscriber i _ | ATLSubscriber i _ _ | WIFISubscriber i _ _ _ _ => i end.

(** The constructors; [uninit] is what the memory of [ipv6Addr] held. *)
Definition new_BITSubscriber (uninit : list Z) (ipv4 : Z) (ipv6 : option (list Z)) : Subscriber :=
  BITSubscriber (int32 ipv4)
    (match ipv6 with None => <[0%nat := 0]> uninit | Some a => take 16 a end).
Definition new_ATLSubscriber (id : Z) (adapter : loc) (compatibleMode : bool) : Subscriber :=
  ATLSubscriber id adapter compatibleMode.
Definition new_WIFISubscriber (ssid password : option (list Z)) (sender_id : Z) : Subscriber :=
  WIFISubscriber sender_id (strlcpy SSID_BUF_SIZE <$> ssid) (strlcpy SSID_BUF_SIZE <$> password)
    sender_id false.

Definition clone (s : Subscriber) : Subscriber :=
  match s with
  | BITSubscriber i v6 => new_BITSubscriber [] i (Some v6)
  | ATLSubscriber i a c => new_ATLSubscriber i a c
  | WIFISubscriber _ ssid pw sender _ => new_WIFISubscriber ssid pw sender
  end.

(** The virtual [equals].  A [BITSubscriber] casts its argument; reading the
    address of an object of another class is outside it ([None]). *)
Definition equals (this s : Subscriber) : option bool :=
  match this with
  | BITSubscriber i v6 =>
      if negb (i =? ID s) then Some false
      else if negb (INADDR_NONE =? uint32 i) then Some true
      else match s with BITSubscriber _ v6' => Some (strncmp_eq 16 v6 v6') | _ => None end
  | _ => Some (ID this =? ID s)
  end.

Definition waitForCloseComplete (s : Subscriber) : bool :=
  match s with WIFISubscriber _ _ _ _ _ => true | _ => false end.
Definition setInactive (s : Subscriber) : Subscriber :=
  match s with WIFISubscriber i a b c _ => WIFISubscriber i a b c true | _ => s end.
Definition isInactive (s : Subscriber) : bool :=
  match s with WIFISubscriber _ _ _ _ b => b | _ => false end.

(** A character buffer on the stack: [None] is an indeterminate character. *)
Abbreviation buffer := (list (option Z)).
Definition write_at (buf : buffer) (bs : list Z) : buffer := (Some <$> bs) ++ drop (length bs) buf.

Definition setIPAddresses (s : Subscriber) (v4 : option Z) (v6 : buffer) : option Z * buffer :=
  match s with
  | BITSubscriber i a => (Some i, write_at v6 a)
  | ATLSubscriber _ _ _ => (Some (int32 INADDR_NONE), write_at v6 [0])
  | WIFISubscriber _ _ _ _ _ => (v4, v6)
  end.
Definition setWifiInfo (s : Subscriber) (ssid password : buffer) : buffer * buffer :=
  let put o buf := write_at buf (match o with Some a => strlcpy SSID_BUF_SIZE a ++ [0] | None => [0] end) in
  match s with
  | WIFISubscriber _ a b _ _ => (put a ssid, put b password)
  | _ => (write_at ssid [0], write_at password [0])
  end.

(** [AGpsExtStatus] as handed to the framework. *)
Record AGpsExtStatus := ExtStatus {
  type : Z;
  status : Z;
  ipv4_addr : option Z;
  ipv6_addr : buffer;
  ssid : buffer;
  password : buffer
}.

(** The calls the machine makes to the outside, in order. *)
Inductive action :=
| DataConn (sender_id status : Z)
| AtlClose (adapter : loc) (handle is_succ : Z)
| AtlOpen (adapter : loc) (handle is_succ : Z) (apn : option (list Z)) (bear agpsType : Z)
| Servicer (req : AGpsExtStatus).

(** [struct Notification]; without a receiver the group decides. *)
Inductive group := BROADCAST_ALL | BROADCAST_ACTIVE | BROADCAST_INACTIVE | NO_GROUP.
Record Notification := Notif {
  rcver : ptr;
  groupID : group;
  rsrcStatus : AgpsRsrcStatus;
  postNotifyDelete : bool
}.
Definition to_group (g : group) (st : AgpsRsrcStatus) (del : bool) := Notif None g st del.
Definition to_rcver (s : loc) (st : AgpsRsrcStatus) (del : bool) := Notif (Some s) NO_GROUP st del.

(** The objects behind the pointers, the calls made, and whether an object was
    accessed that is not there. *)
Record world := World {
  objs : gmap loc Subscriber;
  acts : list action;
  ub : bool
}.
Definition set_ub (w : world) : world := World (objs w) (acts w) true.
Definition act (a : action) (w : world) : world := World (objs w) (acts w ++ [a]) (ub w).

(** [deleteObj], the only deallocator the machine registers. *)
Definition deleteObj : loc := 1%positive.
#[export] Instance agps_deallocators : Deallocators world := λ f d w,
  if decide (f = deleteObj) then
    match objs w !! d with
    | Some _ => World (delete d (objs w)) (acts w) (ub w)
    | None => set_ub w
    end
  else set_ub w.

Inductive AgpsState := AgpsReleasedState | AgpsPendingState | AgpsAcquiredState | AgpsReleasingState.

Record AgpsStateMachine := Machine {
  mType : Z;
  mStatePtr : AgpsState;
  mSubscribers : list node;
  mAPN : option (list Z);
  mAPNLen : Z;
  mBearer : Z;
  mEnforceSingleSubscriber : bool;
  env : world
}.

Definition with_env (f : world → world) (m : AgpsStateMachine) : AgpsStateMachine :=
  Machine (mType m) (mStatePtr m) (mSubscribers m) (mAPN m) (mAPNLen m) (mBearer m)
    (mEnforceSingleSubscriber m) (f (env m)).
Definition with_list (f : list node → list node) (m : AgpsStateMachine) : AgpsStateMachine :=
  Machine (mType m) (mStatePtr m) (f (mSubscribers m)) (mAPN m) (mAPNLen m) (mBearer m)
    (mEnforceSingleSubscriber m) (env m).
Definition with_statePtr (st : AgpsState) (m : AgpsStateMachine) : AgpsStateMachine :=
  Machine (mType m) st (mSubscribers m) (mAPN m) (mAPNLen m) (mBearer m)
    (mEnforceSingleSubscriber m) (env m).

(** What subscribers read of their machine: [getType], [getAPN], [getBearer]. *)
Record nif := Nif { getType : Z; getAPN : option (list Z); getBearer : Z }.
Definition cfg (m : AgpsStateMachine) : nif := Nif (mType m) (mAPN m) (mBearer m).

(** ** Subscribers and notifications *)

(** What a subscriber of the class does with a status that is for it. *)
Definition status_actions (c : nif) (s : Subscriber) (st : AgpsRsrcStatus) :
    option (list action) :=
  match s with
  | BITSubscriber _ _ =>
      match st with
      | RSRC_UNSUBSCRIBE | RSRC_RELEASED =>
          Some [DataConn LOC_ENG_IF_REQUEST_SENDER_ID_GPSONE_DAEMON GPSONE_LOC_API_IF_RELEASE_SUCCESS]
      | RSRC_DENIED => Some [DataConn LOC_ENG_IF_REQUEST_SENDER_ID_GPSONE_DAEMON GPSONE_LOC_API_IF_FAILURE]
      | RSRC_GRANTED =>
          Some [DataConn LOC_ENG_IF_REQUEST_SENDER_ID_GPSONE_DAEMON GPSONE_LOC_API_IF_REQUEST_SUCCESS]
      | _ => None
      end
  | ATLSubscriber i adapter compat =>
      let type := if compat then AGPS_TYPE_INVALID else getType c in
      match st with
      | RSRC_UNSUBSCRIBE | RSRC_RELEASED => Some [AtlClose adapter i 1]
      | RSRC_DENIED => Some [AtlOpen adapter i 0 (getAPN c) (getBearer c) type]
      | RSRC_GRANTED => Some [AtlOpen adapter i 1 (getAPN c) (getBearer c) type]
      | _ => None
      end
  | WIFISubscriber _ _ _ senderId _ =>
      match st with
      | RSRC_UNSUBSCRIBE => Some []
      | RSRC_RELEASED => Some [DataConn senderId GPSONE_LOC_API_IF_RELEASE_SUCCESS]
      | RSRC_DENIED => Some [DataConn senderId GPSONE_LOC_API_IF_FAILURE]
      | RSRC_GRANTED => Some [DataConn senderId GPSONE_LOC_API_IF_REQUEST_SUCCESS]
      | _ => None
      end
  end.

(** The group test of [Subscriber::forMe]. *)
Definition in_group (g : group) (s : Subscriber) : bool :=
  match g with
  | BROADCAST_ALL => true
  | BROADCAST_ACTIVE => negb (isInactive s)
  | BROADCAST_INACTIVE => isInactive s
  | NO_GROUP => false
  end.

(** [s1->forMe(n)] *)
Definition forMe (n : Notification) (s1 : loc) (w : world) : bool * world :=
  match objs w !! s1 with
  | None => (false, set_ub w)
  | Some s =>
      match rcver n with
      | None => (in_group (groupID n) s, w)
      | Some r =>
          match objs w !! r with
          | None => (false, set_ub w)
          | Some t => match equals s t with Some b => (b, w) | None => (false, set_ub w) end
          end
      end
  end.

(** [s1->notifyRsrcStatus(n)], the three overrides. *)
Definition notifyRsrcStatus (c : nif) (n : Notification) (s1 : loc) (w : world) :
    bool * world :=
  match forMe n s1 w with
  | (false, w) => (false, w)
  | (true, w) =>
      match objs w !! s1 with
      | None => (false, set_ub w)
      | Some s =>
          match status_actions c s (rsrcStatus n) with
          | None => (false, w)
          | Some l => (true, foldl (λ w a, act a w) w l)
          end
      end
  end.

(** The comparison callbacks given to [linked_list_search]. *)
Definition hasSubscriber (n : Notification) (fromList : loc) (w : world) : bool * world :=
  forMe n fromList w.
Definition notifySubscriber (c : nif) (n : Notification) (fromList : loc) (w : world) :
    bool * world :=
  let '(b, w) := notifyRsrcStatus c n fromList w in (b && postNotifyDelete n, w).

(** ** The methods of [AgpsStateMachine] that the states use *)

Abbreviation AM := (ST AgpsStateMachine).

(** [linked_list_search] on the machine's list; the datum found, if any. *)
Definition search (equal : loc → world → bool * world) (copied rm : bool) : AM ptr := λ m,
  let '(found, xs, w) := Spec.search_op equal copied rm (mSubscribers m) (env m) in
  Some (found, with_list (λ _, xs) (with_env (λ _, w) m)).

Fixpoint notify_loop (fuel : nat) (n : Notification) : AM unit :=
  match fuel with
  | O => st_fault
  | S fuel =>
      c ← st_get cfg;
      s ← search (notifySubscriber c n) true true;
      match s with
      | None => mret tt
      | Some _ => notify_loop fuel n
      end
  end.

Definition notifySubscribers (n : Notification) : AM unit :=
  m ← st_get id;
  if postNotifyDelete n then notify_loop (S (length (mSubscribers m))) n
  else _ ← search (notifySubscriber (cfg m) n) false false; mret tt.

(** [new]: a fresh address. *)
Definition new_object (s : Subscriber) : AM loc := λ m,
  let l := fresh (dom (objs (env m))) in
  Some (l, with_env (λ w, World (<[l := s]> (objs w)) (acts w) (ub w)) m).

Definition deref (s : loc) : AM Subscriber := st_read (λ m, objs (env m) !! s).

Definition addSubscriber (subscriber : loc) : AM unit :=
  s ← search (hasSubscriber (to_rcver subscriber RSRC_STATUS_MAX false)) true false;
  match s with
  | Some _ => mret tt
  | None =>
      o ← deref subscriber;
      c ← new_object (clone o);
      st_modify (with_list (Spec.add (Node c (Some deleteObj))))
  end.

Definition undef (n : nat) : buffer := replicate n None.

Definition nifRequest (ty action : Z) (s : option Subscriber) : AGpsExtStatus :=
  match s with
  | None =>
      ExtStatus ty action (Some (int32 INADDR_NONE)) (write_at (undef 16) [0])
        (write_at (undef SSID_BUF_SIZE) [0]) (write_at (undef SSID_BUF_SIZE) [0])
  | Some s =>
      let '(v4, v6) := setIPAddresses s None (undef 16) in
      let '(id, pw) := setWifiInfo s (undef SSID_BUF_SIZE) (undef SSID_BUF_SIZE) in
      ExtStatus ty action v4 v6 id pw
  end.

Definition sendRsrcRequest (action : Z) : AM unit :=
  s ← search (hasSubscriber (to_group BROADCAST_ACTIVE RSRC_STATUS_MAX false)) true false;
  if eqb (bool_decide (s = None)) (GPS_RELEASE_AGPS_DATA_CONN =? action) then
    o ← match s with None => mret None | Some p => o ← deref p; mret (Some o) end;
    st_modify (λ m, with_env (act (Servicer (nifRequest (mType m) action o))) m)
  else mret tt.

Definition hasSubscribers : AM bool := st_get (λ m, negb (bool_decide (mSubscribers m = []))).

Definition hasActiveSubscribers : AM bool :=
  s ← search (hasSubscriber (to_group BROADCAST_ACTIVE RSRC_STATUS_MAX false)) true false;
  mret (negb (bool_decide (s = None))).

Definition dropAllSubscribers : AM unit := st_modify (λ m,
  with_list (λ _, []) (with_env (Spec.flush (mSubscribers m)) m)).

(** [subscriber->notifyRsrcStatus(n)] called directly. *)
Definition notify_one (n : Notification) (s : loc) : AM bool := λ m,
  let '(b, w) := notifyRsrcStatus (cfg m) n s (env m) in Some (b, with_env (λ _, w) m).

(** [subscriber->setInactive()] *)
Definition set_inactive (s : loc) : AM unit :=
  o ← deref s;
  st_modify (with_env (λ w, World (<[s := setInactive o]> (objs w)) (acts w) (ub w))).

(** ** The four states *)

Definition released_onRsrcEvent (event : AgpsRsrcStatus) (data : ptr) : AM AgpsState :=
  match event, data with
  | RSRC_SUBSCRIBE, Some s =>
      _ ← addSubscriber s;
      _ ← sendRsrcRequest GPS_REQUEST_AGPS_DATA_CONN;
      mret AgpsPendingState
  | RSRC_UNSUBSCRIBE, Some s =>
      _ ← notify_one (to_rcver s event false) s;
      mret AgpsReleasedState
  | (RSRC_SUBSCRIBE | RSRC_UNSUBSCRIBE), None => st_fault
  | _, _ => mret AgpsReleasedState
  end.

(** The body that [AgpsPendingState] and [AgpsAcquiredState] share. *)
Definition unsubscribe_active (self : AgpsState) (s : loc) : AM AgpsState :=
  o ← deref s;
  _ ← (if waitForCloseComplete o then set_inactive s
       else notifySubscribers (to_rcver s RSRC_UNSUBSCRIBE true));
  h ← hasSubscribers;
  if negb h then
    _ ← sendRsrcRequest GPS_RELEASE_AGPS_DATA_CONN;
    mret AgpsReleasedState
  else
    a ← hasActiveSubscribers;
    if negb a then
      _ ← sendRsrcRequest GPS_RELEASE_AGPS_DATA_CONN;
      mret AgpsReleasingState
    else mret self.

Definition pending_onRsrcEvent (event : AgpsRsrcStatus) (data : ptr) : AM AgpsState :=
  match event, data with
  | RSRC_SUBSCRIBE, Some s => _ ← addSubscriber s; mret AgpsPendingState
  | RSRC_UNSUBSCRIBE, Some s => unsubscribe_active AgpsPendingState s
  | (RSRC_SUBSCRIBE | RSRC_UNSUBSCRIBE), None => st_fault
  | RSRC_GRANTED, _ =>
      _ ← notifySubscribers (to_group BROADCAST_ACTIVE event false);
      mret AgpsAcquiredState
  | RSRC_DENIED, _ =>
      _ ← notifySubscribers (to_group BROADCAST_ALL event true);
      mret AgpsReleasedState
  | _, _ => mret AgpsPendingState
  end.

Definition acquired_onRsrcEvent (event : AgpsRsrcStatus) (data : ptr) : AM AgpsState :=
  match event, data with
  | RSRC_SUBSCRIBE, Some s =>
      _ ← notify_one (to_rcver s RSRC_GRANTED false) s;
      _ ← addSubscriber s;
      mret AgpsAcquiredState
  | RSRC_UNSUBSCRIBE, Some s => unsubscribe_active AgpsAcquiredState s
  | (RSRC_SUBSCRIBE | RSRC_UNSUBSCRIBE), None => st_fault
  | RSRC_RELEASED, _ =>
      _ ← notifySubscribers (to_group BROADCAST_ALL event true);
      mret AgpsReleasedState
  | _, _ => mret AgpsAcquiredState
  end.

Definition releasing_onRsrcEvent (event : AgpsRsrcStatus) (data : ptr) : AM AgpsState :=
  match event, data with
  | RSRC_SUBSCRIBE, Some s => _ ← addSubscriber s; mret AgpsReleasingState
  | RSRC_UNSUBSCRIBE, Some s =>
      o ← deref s;
      _ ← (if waitForCloseComplete o then set_inactive s
           else notifySubscribers (to_rcver s event true));
      h ← hasSubscribers;
      mret (if negb h then AgpsReleasedState else AgpsReleasingState)
  | (RSRC_SUBSCRIBE | RSRC_UNSUBSCRIBE), None => st_fault
  | (RSRC_DENIED | RSRC_RELEASED), _ =>
      _ ← notifySubscribers (to_group BROADCAST_INACTIVE event true);
      h ← hasSubscribers;
      if h : bool then
        _ ← sendRsrcRequest GPS_REQUEST_AGPS_DATA_CONN;
        mret AgpsPendingState
      else mret AgpsReleasedState
  | _, _ => mret AgpsReleasingState
  end.

(** The virtual call [mStatePtr->onRsrcEvent(event, data)]. *)
Definition state_onRsrcEvent (event : AgpsRsrcStatus) (data : ptr) : AM unit :=
  st ← st_get mStatePtr;
  next ← match st with
         | AgpsReleasedState => released_onRsrcEvent event data
         | AgpsPendingState => pending_onRsrcEvent event data
         | AgpsAcquiredState => acquired_onRsrcEvent event data
         | AgpsReleasingState => releasing_onRsrcEvent event data
         end;
  st_modify (with_statePtr next).

(** ** The machine's interface *)

Definition new_AgpsStateMachine (ty bearer0 : Z) (single : bool) (w : world) : AgpsStateMachine :=
  Machine ty AgpsReleasedState [] None 0 bearer0 single w.

(** The copy reads [len] characters; [len + 1] must not wrap. *)
Definition setAPN (apn : option (list Z)) (len : Z) : AM unit :=
  match apn with
  | None => st_modify (λ m, Machine (mType m) (mStatePtr m) (mSubscribers m) None 0 (mBearer m)
      (mEnforceSingleSubscriber m) (env m))
  | Some a =>
      if (Z.of_nat (length a) <? len) || (uint32 (len + 1) <? len + 1) then st_fault
      else st_modify (λ m, Machine (mType m) (mStatePtr m) (mSubscribers m)
        (Some (take (Z.to_nat len) a ++ [0])) len (mBearer m) (mEnforceSingleSubscriber m) (env m))
  end.

Definition setBearer (bearer : Z) : AM unit := st_modify (λ m,
  Machine (mType m) (mStatePtr m) (mSubscribers m) (mAPN m) (mAPNLen m) bearer
    (mEnforceSingleSubscriber m) (env m)).

Definition onRsrcEvent (event : AgpsRsrcStatus) : AM unit :=
  match event with
  | RSRC_GRANTED | RSRC_RELEASED | RSRC_DENIED => state_onRsrcEvent event None
  | _ => mret tt
  end.

(** [notifySubscriber(&n, s)] called directly, its result dropped. *)
Definition notify_direct (n : Notification) (s : loc) : AM unit := λ m,
  Some (tt, with_env (λ w, (notifySubscriber (cfg m) n s w).2) m).

Definition subscribeRsrc (subscriber : loc) : AM unit :=
  h ← hasSubscribers;
  m ← st_get id;
  if mEnforceSingleSubscriber m && h then
    notify_direct (to_group BROADCAST_ALL RSRC_DENIED true) subscriber
  else state_onRsrcEvent RSRC_SUBSCRIBE (Some subscriber).

Definition unsubscribeRsrc (subscriber : loc) : AM bool :=
  s ← search (hasSubscriber (to_rcver subscriber RSRC_STATUS_MAX false)) true false;
  match s with
  | Some s => _ ← state_onRsrcEvent RSRC_UNSUBSCRIBE (Some s); mret true
  | None => mret false
  end.

(** The callers in loc_eng.cpp build the subscriber on their stack. *)
Definition with_stack {A} (s : Subscriber) (f : loc → AM A) : AM A :=
  p ← new_object s;
  a ← f p;
  _ ← st_modify (with_env (λ w, World (delete p (objs w)) (acts w) (ub w)));
  mret a.

(** ** The specification on subscriber values *)

Module Abs.
Record machine := SM { state : AgpsState; subs : list Subscriber; acts : list action }.

Definition equalsb (t s : Subscriber) : bool := default false (equals t s).

Inductive target := ToOne (s : Subscriber) | ToGroup (g : group).
Definition is_for (tg : target) (t : Subscriber) : bool :=
  match tg with ToOne s => equalsb t s | ToGroup g => in_group g t end.

Definition told (c : nif) (tg : target) (st : AgpsRsrcStatus) (t : Subscriber) : list action :=
  if is_for tg t then default [] (status_actions c t st) else [].

(** Tell the subscribers concerned, in order; they stay or leave. *)
Definition notify (c : nif) (tg : target) (st : AgpsRsrcStatus) (del : bool) (a : machine) : machine :=
  SM (state a) (if del then filter (λ t, is_for tg t = false) (subs a) else subs a)
    (acts a ++ concat (told c tg st <$> subs a)).

Definition add (s : Subscriber) (a : machine) : machine :=
  if existsb (λ t, equalsb t s) (subs a) then a else SM (state a) (clone s :: subs a) (acts a).

Definition active (a : machine) : option Subscriber :=
  head (filter (λ t, isInactive t = false) (subs a)).

Definition request (c : nif) (what : Z) (a : machine) : machine :=
  if (eqb (bool_decide (active a = None)) (GPS_RELEASE_AGPS_DATA_CONN =? what))
  then SM (state a) (subs a) (acts a ++ [Servicer (nifRequest (getType c) what (active a))]) else a.

Definition goto (st : AgpsState) (a : machine) : machine := SM st (subs a) (acts a).

Definition subscribe (c : nif) (single : bool) (s : Subscriber) (a : machine) : machine :=
  if single && negb (bool_decide (subs a = [])) then
    SM (state a) (subs a) (acts a ++ default [] (status_actions c s RSRC_DENIED))
  else match state a with
  | AgpsReleasedState => goto AgpsPendingState (request c GPS_REQUEST_AGPS_DATA_CONN (add s a))
  | AgpsPendingState | AgpsReleasingState => add s a
  | AgpsAcquiredState =>
      add s (SM (state a) (subs a) (acts a ++ default [] (status_actions c s RSRC_GRANTED)))
  end.

(** The subscriber at position [i] leaves, or waits for the close to complete. *)
Definition leave (c : nif) (i : nat) (t : Subscriber) (a : machine) : machine :=
  if waitForCloseComplete t then SM (state a) (<[i := setInactive t]> (subs a)) (acts a)
  else notify c (ToOne t) RSRC_UNSUBSCRIBE true a.

Definition settle (c : nif) (a : machine) : machine :=
  if bool_decide (subs a = []) then
    goto AgpsReleasedState (request c GPS_RELEASE_AGPS_DATA_CONN a)
  else if bool_decide (active a = None) then
    goto AgpsReleasingState (request c GPS_RELEASE_AGPS_DATA_CONN a)
  else a.

Definition unsubscribe (c : nif) (s : Subscriber) (a : machine) : bool * machine :=
  match list_find (λ t, equalsb t s = true) (subs a) with
  | None => (false, a)
  | Some (i, t) =>
      (true,
       match state a with
       | AgpsReleasedState =>
           SM (state a) (subs a) (acts a ++ default [] (status_actions c t RSRC_UNSUBSCRIBE))
       | AgpsPendingState | AgpsAcquiredState => settle c (leave c i t a)
       | AgpsReleasingState =>
           let a := leave c i t a in
           if bool_decide (subs a = []) then goto AgpsReleasedState a else a
       end)
  end.

(** The framework's answers. *)
Definition event (c : nif) (ev : AgpsRsrcStatus) (a : machine) : machine :=
  match ev, state a with
  | RSRC_GRANTED, AgpsPendingState =>
      goto AgpsAcquiredState (notify c (ToGroup BROADCAST_ACTIVE) ev false a)
  | RSRC_DENIED, AgpsPendingState | RSRC_RELEASED, AgpsAcquiredState =>
      goto AgpsReleasedState (notify c (ToGroup BROADCAST_ALL) ev true a)
  | (RSRC_DENIED | RSRC_RELEASED), AgpsReleasingState =>
      let a := notify c (ToGroup BROADCAST_INACTIVE) ev true a in
      if bool_decide (subs a = []) then goto AgpsReleasedState a
      else goto AgpsPendingState (request c GPS_REQUEST_AGPS_DATA_CONN a)
  | _, _ => a
  end.
End Abs.

(** ** Correspondence *)

(** A subscriber as its constructor makes it; the ID of one that is not a
    [BITSubscriber] is not the address [INADDR_NONE]. *)
Definition ok_sub (s : Subscriber) : Prop :=
  match s with
  | BITSubscriber i v6 => int32 i = i ∧ length v6 = 16%nat
  | ATLSubscriber i _ _ => uint32 i ≠ INADDR_NONE
  | WIFISubscriber i _ _ senderId _ => i = senderId ∧ uint32 i ≠ INADDR_NONE
  end.

(** The list holds the addresses of distinct live objects, whose values are
    those of the specification; nothing dead was accessed. *)
Definition stores (m : AgpsStateMachine) (vs : list Subscriber) : Prop :=
  Forall2 (λ nd v, n_dealloc nd = Some deleteObj ∧ objs (env m) !! n_data nd = Some v)
    (mSubscribers m) vs ∧
  NoDup (n_data <$> mSubscribers m) ∧ ub (env m) = false.

Definition abstracts (m : AgpsStateMachine) (a : Abs.machine) : Prop :=
  stores m (Abs.subs a) ∧ mStatePtr m = Abs.state a ∧ acts (env m) = Abs.acts a.

(** What every method leaves alone: the configuration and the objects that
    are not in the list; and no method frees an object. *)
Definition keeps (m m' : AgpsStateMachine) : Prop :=
  cfg m' = cfg m ∧ mEnforceSingleSubscriber m' = mEnforceSingleSubscriber m ∧
  (∀ p o, p ∉ (n_data <$> mSubscribers m) → objs (env m) !! p = Some o →
    (p ∉ (n_data <$> mSubscribers m')) ∧ objs (env m') !! p = Some o) ∧
  (∀ p, is_Some (objs (env m) !! p) → is_Some (objs (env m') !! p)).

(** ** Subscriber values *)

Lemma strncmp_eq_refl n a : (n ≤ length a)%nat → strncmp_eq n a a = true.
Proof.
  revert a. induction n as [|n IH]; intros [|x a] Hn; cbn in *; [done..|lia|].
  rewrite Z.eqb_refl. destruct (x =? 0); [done|]. apply IH. lia.
Qed.

Lemma equals_defined t s : ok_sub s → equals t s = Some (Abs.equalsb t s).
Proof.
  intros Hs. unfold Abs.equalsb, equals. destruct t as [i v6|i a c|i a b sd x]; [|done..].
  destruct (Z.eqb_spec i (ID s)) as [->|]; [|done]. cbn [negb].
  destruct (Z.eqb_spec INADDR_NONE (uint32 (ID s))) as [He|]; [|done]. cbn [negb].
  destruct s as [j v6'|j a c|j a b sd x]; cbn [ID] in He; unfold ok_sub in Hs; naive_solver.
Qed.

Lemma equalsb_refl s : ok_sub s → Abs.equalsb s s = true.
Proof.
  intros Hs. unfold Abs.equalsb, equals. destruct s as [i v6|i a c|i a b sd x]; cbn [ID];
    rewrite Z.eqb_refl; [|done..].
  cbn [negb]. destruct (INADDR_NONE =? uint32 i); [|done]. cbn [negb default].
  unfold ok_sub in Hs. apply strncmp_eq_refl. lia.
Qed.

Lemma ok_sub_clone s : ok_sub s → ok_sub (clone s).
Proof.
  destruct s as [i v6|i a c|i a b sd x]; unfold ok_sub, clone; cbn [new_BITSubscriber new_ATLSubscriber new_WIFISubscriber].
  - intros [Hi Hl]. rewrite length_take, Hi. split; [done|lia].
  - done.
  - naive_solver.
Qed.

Lemma ok_sub_setInactive s : ok_sub s → ok_sub (setInactive s).
Proof. by destruct s. Qed.

Lemma foldl_act l w :
  foldl (λ w a, act a w) w l = World (objs w) (acts w ++ l) (ub w).
Proof.
  revert w. induction l as [|a l IH]; intros w; cbn; [destruct w; by rewrite app_nil_r|].
  rewrite IH. cbn. by rewrite <- app_assoc.
Qed.

(** ** Searching the list *)

(** [n], sent while the objects are [os], is for [tg]. *)
Definition aims (os : gmap loc Subscriber) (n : Notification) (tg : Abs.target) : Prop :=
  match rcver n with
  | None => tg = Abs.ToGroup (groupID n)
  | Some r => ∃ s, os !! r = Some s ∧ ok_sub s ∧ tg = Abs.ToOne s
  end.

Lemma forMe_value n l v w tg :
  objs w !! l = Some v → aims (objs w) n tg → forMe n l w = (Abs.is_for tg v, w).
Proof.
  unfold forMe, aims. intros ->. destruct (rcver n) as [r|]; [|by intros ->].
  intros (s & -> & Hs & ->). by rewrite (equals_defined v s Hs).
Qed.

Definition notifies (st : AgpsRsrcStatus) : bool :=
  match st with RSRC_SUBSCRIBE | RSRC_STATUS_MAX => false | _ => true end.

Lemma notifyRsrcStatus_value c n l v w tg :
  objs w !! l = Some v → aims (objs w) n tg → notifies (rsrcStatus n) = true →
  notifyRsrcStatus c n l w =
    (Abs.is_for tg v, World (objs w) (acts w ++ Abs.told c tg (rsrcStatus n) v) (ub w)).
Proof.
  intros Hl Ht Hn. unfold notifyRsrcStatus, Abs.told. rewrite (forMe_value _ _ _ _ _ Hl Ht).
  destruct (Abs.is_for tg v); [|destruct w; by rewrite app_nil_r].
  rewrite Hl. destruct (status_actions c v (rsrcStatus n)) as [l'|] eqn:Ha.
  - by rewrite foldl_act.
  - by destruct v, (rsrcStatus n).
Qed.

Section find.
Context (f : Subscriber → bool) (equal : loc → world → bool * world).

(** A comparison without effects finds the first value it accepts. *)
Lemma search_pure (w : world) xs vs :
  Forall2 (λ nd v, equal (n_data nd) w = (f v, w)) xs vs →
  match list_find (λ v, f v = true) vs with
  | None => Spec.search equal xs w = (None, w)
  | Some (i, v) => ∃ nd pre post, xs !! i = Some nd ∧
      Spec.search equal xs w = (Some (pre, nd, post), w)
  end.
Proof.
  induction 1 as [|nd v xs vs He _ IH]; [done|]. cbn. rewrite He.
  destruct (f v) eqn:Hf.
  - rewrite decide_True by done. by exists nd, [], xs.
  - rewrite decide_False by done. destruct (list_find _ vs) as [[i v']|]; cbn.
    + destruct IH as (nd' & pre & post & Hi & ->). by exists nd', (nd :: pre), post.
    + by rewrite IH.
Qed.
End find.

Lemma list_find_existsb (f : Subscriber → bool) vs :
  (list_find (λ v, f v = true) vs = None ↔ existsb f vs = false).
Proof.
  induction vs as [|v vs IH]; [done|]. cbn. destruct (f v) eqn:Hf.
  - by rewrite decide_True.
  - rewrite decide_False by done. rewrite <- IH. by destruct (list_find _ vs) as [[]|].
Qed.

(** [linked_list_search(mSubscribers, &s, hasSubscriber, &n, false)] *)
Lemma search_hasSubscriber m vs n tg :
  stores m vs → aims (objs (env m)) n tg →
  search (hasSubscriber n) true false m =
    Some (match list_find (λ v, Abs.is_for tg v = true) vs with
          | None => None
          | Some (i, _) => n_data <$> mSubscribers m !! i
          end, m).
Proof.
  intros (Hvs & _ & _) Ht. unfold search, Spec.search_op.
  pose proof (search_pure (Abs.is_for tg) (hasSubscriber n) (env m) (mSubscribers m) vs) as Hs.
  assert (Forall2 (λ nd v, hasSubscriber n (n_data nd) (env m) = (Abs.is_for tg v, env m))
    (mSubscribers m) vs) as Hf.
  { eapply Forall2_impl; [exact Hvs|]. intros nd v [_ Hl]. by apply forMe_value. }
  specialize (Hs Hf). destruct (list_find _ vs) as [[i v]|].
  - destruct Hs as (nd & pre & post & Hi & ->). rewrite Hi. by destruct m.
  - rewrite Hs. by destruct m.
Qed.

Lemma stores_lookup m vs i v :
  stores m vs → vs !! i = Some v →
  ∃ nd, mSubscribers m !! i = Some nd ∧ n_dealloc nd = Some deleteObj ∧
    objs (env m) !! n_data nd = Some v.
Proof.
  intros (Hvs & _) Hi. destruct (Forall2_lookup_r _ _ _ _ _ Hvs Hi) as (nd & ? & ? & ?). eauto.
Qed.

(** ** Notifying *)

(** With the flag [del] cleared the search visits every element. *)
Lemma search_tell c n tg (w : world) xs vs :
  Forall2 (λ nd v, objs w !! n_data nd = Some v) xs vs →
  aims (objs w) n tg → notifies (rsrcStatus n) = true → postNotifyDelete n = false →
  Spec.search (notifySubscriber c n) xs w =
    (None, World (objs w) (acts w ++ concat (Abs.told c tg (rsrcStatus n) <$> vs)) (ub w)).
Proof.
  intros Hvs Ht Hn Hd. revert w vs Hvs Ht.
  induction xs as [|nd xs IH]; intros w vs Hvs Ht; inversion Hvs as [|? v ? vs' Hl Hvs']; subst.
  - cbn. destruct w; cbn. by rewrite app_nil_r.
  - cbn [Spec.search]. unfold notifySubscriber at 1.
    rewrite (notifyRsrcStatus_value _ _ _ _ _ _ Hl Ht Hn), Hd, andb_false_r.
    rewrite (IH _ vs') by done. cbn. by rewrite <- app_assoc.
Qed.

(** With it set the search stops at the first subscriber concerned. *)
Lemma search_tell_first c n tg (w : world) xs vs :
  Forall2 (λ nd v, objs w !! n_data nd = Some v) xs vs →
  aims (objs w) n tg → notifies (rsrcStatus n) = true → postNotifyDelete n = true →
  (Forall (λ v, Abs.is_for tg v = false) vs ∧ Spec.search (notifySubscriber c n) xs w = (None, w)) ∨
  ∃ pre nd post vpre v vpost, xs = pre ++ nd :: post ∧ vs = vpre ++ v :: vpost ∧
    length pre = length vpre ∧
    Forall (λ v, Abs.is_for tg v = false) vpre ∧ Abs.is_for tg v = true ∧
    Spec.search (notifySubscriber c n) xs w =
      (Some (pre, nd, post), World (objs w) (acts w ++ Abs.told c tg (rsrcStatus n) v) (ub w)).
Proof.
  intros Hvs Ht Hn Hd. induction Hvs as [|nd v xs vs Hl Hvs IH]; [by left|]. cbn [Spec.search].
  unfold notifySubscriber at 1 3.
  rewrite (notifyRsrcStatus_value _ _ _ _ _ _ Hl Ht Hn), Hd, andb_true_r.
  destruct (Abs.is_for tg v) eqn:Hf.
  - right. by exists [], nd, xs, [], v, vs.
  - unfold Abs.told. rewrite Hf, app_nil_r. replace (World _ _ _) with w by by destruct w.
    destruct IH as [[Hall ->]|(pre & nd' & post & vpre & v' & vpost & -> & -> & Hlen & Hpre & Hv' & ->)].
    + left. split; [by constructor|done].
    + right. exists (nd :: pre), nd', post, (v :: vpre), v', vpost.
      split; [done|]. split; [done|]. split; [cbn; lia|]. split; [by constructor|]. split; [done|].
      unfold Abs.told. by rewrite Hv'.
Qed.

Lemma told_none c tg st vs :
  Forall (λ v, Abs.is_for tg v = false) vs → concat (Abs.told c tg st <$> vs) = [].
Proof. induction 1 as [|v vs Hv _ IH]; [done|]. cbn. unfold Abs.told at 1. by rewrite Hv. Qed.

(** The loop of [notifySubscribers] visits the subscribers concerned in order,
    and unlinks exactly those. *)
Lemma notify_loop_run n tg fuel m vs :
  stores m vs → aims (objs (env m)) n tg →
  notifies (rsrcStatus n) = true → postNotifyDelete n = true → (length vs < fuel)%nat →
  ∃ xs', xs' `sublist_of` mSubscribers m ∧
    let m' := with_list (λ _, xs') (with_env (λ w, World (objs w)
      (acts w ++ concat (Abs.told (cfg m) tg (rsrcStatus n) <$> vs)) (ub w)) m) in
    notify_loop fuel n m = Some (tt, m') ∧ stores m' (filter (λ v, Abs.is_for tg v = false) vs).
Proof.
  intros Hst Ht Hn Hd. revert m vs Hst Ht. induction fuel as [|fuel IH]; intros m vs Hst Ht Hlt; [lia|].
  pose proof Hst as (Hvs & Hnd & Hub). cbn [notify_loop].
  rewrite st_bind_run. unfold st_get. cbn beta iota. rewrite st_bind_run. unfold search, Spec.search_op.
  assert (Forall2 (λ nd v, objs (env m) !! n_data nd = Some v) (mSubscribers m) vs) as Hvs1.
  { eapply Forall2_impl; [exact Hvs|]. naive_solver. }
  destruct (search_tell_first (cfg m) n tg (env m) _ vs Hvs1 Ht Hn Hd)
    as [[Hall Hs]|(pre & nd & post & vpre & v & vpost & Hxs & -> & Hlen & Hpre & Hv & Hs)].
  - rewrite Hs. exists (mSubscribers m). split; [done|]. rewrite told_none by done.
    assert (filter (λ v, Abs.is_for tg v = false) vs = vs) as ->.
    { clear -Hall. induction Hall as [|v vs Hv _ IH]; [done|]. by rewrite filter_cons_True, IH. }
    unfold with_list, with_env. cbn. rewrite app_nil_r.
    split; [|destruct m as [? ? ? ? ? ? ? []]; exact Hst].
    by destruct m as [? ? ? ? ? ? ? []].
  - rewrite Hs. cbn [andb negb].
    set (m1 := with_list (λ _, pre ++ post) (with_env (λ w, World (objs w)
       (acts w ++ Abs.told (cfg m) tg (rsrcStatus n) v) (ub w)) m)).
    assert (stores m1 (vpre ++ vpost)) as Hst1.
    { rewrite Hxs in Hvs, Hnd. apply Forall2_app_inv in Hvs as [Hvp Hvq]; [|done].
      inversion Hvq; subst. split; [by apply Forall2_app|]. split; [|done].
      cbn. rewrite fmap_app, fmap_cons in Hnd. rewrite fmap_app.
      apply NoDup_app in Hnd as (Hn1 & Hn2 & Hn3). apply NoDup_cons in Hn3 as [_ Hn3].
      apply NoDup_app. split; [done|]. split; [|done]. intros x Hx Hx'. eapply Hn2; [done|]. set_solver. }
    rewrite length_app in Hlt. cbn in Hlt.
    destruct (IH m1 (vpre ++ vpost) Hst1 Ht) as (xs' & Hsub & Hrun & Hst').
    { rewrite length_app. lia. }
    exists xs'. split.
    { rewrite Hxs. etrans; [exact Hsub|]. cbn. apply sublist_app; [done|]. by apply sublist_cons. }
    assert (concat (Abs.told (cfg m) tg (rsrcStatus n) <$> vpre ++ v :: vpost) =
      Abs.told (cfg m) tg (rsrcStatus n) v ++ concat (Abs.told (cfg m) tg (rsrcStatus n) <$> vpre ++ vpost)) as Hc.
    { rewrite !fmap_app, fmap_cons, !concat_app. cbn. by rewrite (told_none _ _ _ vpre). }
    rewrite Hc. assert (filter (λ v, Abs.is_for tg v = false) (vpre ++ v :: vpost) =
      filter (λ v, Abs.is_for tg v = false) (vpre ++ vpost)) as ->.
    { rewrite !filter_app, filter_cons_False by congruence. done. }
    subst m1. unfold with_list, with_env in *. cbn in Hrun, Hst' |- *.
    rewrite <- !app_assoc in Hrun, Hst'. by split.
Qed.

(** ** The methods refine the specification *)

(** [op], run in [m], returns [r] and leaves a machine that stores [a]. *)
Definition refines {A} (op : AM A) (m : AgpsStateMachine) (r : A) (a : Abs.machine) : Prop :=
  ∃ m', op m = Some (r, m') ∧ abstracts m' a ∧ keeps m m'.

Lemma keeps_refl m : keeps m m.
Proof. by split; [|split; [|split]]. Qed.

Lemma keeps_trans m1 m2 m3 : keeps m1 m2 → keeps m2 m3 → keeps m1 m3.
Proof.
  intros (Hc & Hs & Hp & Hd) (Hc' & Hs' & Hp' & Hd'). split; [congruence|]. split; [congruence|].
  split; [|auto]. intros p o Hn Ho. destruct (Hp p o Hn Ho). auto.
Qed.

Lemma refines_ret {A} m (r : A) a : abstracts m a → refines (mret r) m r a.
Proof. intros Ha. exists m. split; [done|]. split; [done|apply keeps_refl]. Qed.

Lemma refines_bind {A B} (op : AM A) (f : A → AM B) m r r' a a' :
  refines op m r a →
  (∀ m', abstracts m' a → keeps m m' → refines (f r) m' r' a') →
  refines (op ≫= f) m r' a'.
Proof.
  intros (m1 & Hrun & Ha1 & Hk1) Hf. destruct (Hf m1 Ha1 Hk1) as (m2 & Hrun2 & Ha2 & Hk2).
  exists m2. rewrite (st_bind_some _ _ _ _ _ Hrun). split; [done|]. split; [done|].
  by eapply keeps_trans.
Qed.

Lemma refines_get {A B} (g : AgpsStateMachine → A) (f : A → AM B) m r a :
  refines (f (g m)) m r a → refines (st_get g ≫= f) m r a.
Proof. done. Qed.

Lemma refines_deref {B} (f : Subscriber → AM B) m p s r a :
  objs (env m) !! p = Some s → refines (f s) m r a → refines (deref p ≫= f) m r a.
Proof.
  intros Hp (m' & Hrun & Ha). exists m'. split; [|done]. unfold deref.
  by rewrite (st_bind_some _ _ _ s m) by (unfold st_read; by rewrite Hp).
Qed.

(** Changing the environment's record of calls only. *)
Lemma refines_acts m a l :
  abstracts m a →
  let m' := with_env (λ w, World (objs w) (acts w ++ l) (ub w)) m in
  abstracts m' (Abs.SM (Abs.state a) (Abs.subs a) (Abs.acts a ++ l)) ∧ keeps m m'.
Proof.
  intros (Hst & Hs & Hac) m'. split.
  - split; [exact Hst|]. split; [done|]. cbn. by rewrite Hac.
  - by split; [|split; [|split]].
Qed.

Lemma notifySubscribers_run m a n tg :
  abstracts m a → aims (objs (env m)) n tg → notifies (rsrcStatus n) = true →
  ∃ m', notifySubscribers n m = Some (tt, m') ∧ objs (env m') = objs (env m) ∧
    abstracts m' (Abs.notify (cfg m) tg (rsrcStatus n) (postNotifyDelete n) a) ∧ keeps m m'.
Proof.
  intros (Hst & Hs & Hac) Ht Hn. unfold notifySubscribers. rewrite st_bind_run.
  unfold st_get, Abs.notify. cbn beta iota.
  pose proof Hst as (Hvs & Hnd & Hub). destruct (postNotifyDelete n) eqn:Hd.
  - destruct (notify_loop_run n tg (S (length (mSubscribers m))) m _ Hst Ht Hn Hd)
      as (xs' & Hsub & Hrun & Hst').
    { apply Forall2_length in Hvs. lia. }
    cbn zeta in *. eexists. split; [exact Hrun|]. split; [done|]. split.
    + split; [exact Hst'|]. split; [done|]. cbn. by rewrite Hac.
    + split; [done|]. split; [done|]. split; [|done]. intros p o Hp Ho. cbn. split; [|done].
      intros Hin. apply Hp. eapply elem_of_sublist; [exact Hin|]. by apply fmap_sublist.
  - unfold search, Spec.search_op. rewrite st_bind_run, (search_tell (cfg m) n tg (env m) _ (Abs.subs a)); [|..|done].
    + eexists. split; [done|]. split; [done|].
      split; [|by split; [|split; [|split]]]. split; [exact Hst|]. split; [done|]. cbn. by rewrite Hac.
    + eapply Forall2_impl; [exact Hvs|]. naive_solver.
    + done.
    + done.
Qed.

Lemma notifySubscribers_refines m a n tg :
  abstracts m a → aims (objs (env m)) n tg → notifies (rsrcStatus n) = true →
  refines (notifySubscribers n) m tt (Abs.notify (cfg m) tg (rsrcStatus n) (postNotifyDelete n) a).
Proof.
  intros Ha Ht Hn. destruct (notifySubscribers_run m a n tg Ha Ht Hn) as (m' & ? & _ & ? & ?).
  by exists m'.
Qed.

(** Searching for a subscriber and going on with what was found. *)
Lemma refines_search {B} n tg (f : ptr → AM B) m a r a' :
  abstracts m a → aims (objs (env m)) n tg →
  (list_find (λ v, Abs.is_for tg v = true) (Abs.subs a) = None → refines (f None) m r a') →
  (∀ i v p, list_find (λ v, Abs.is_for tg v = true) (Abs.subs a) = Some (i, v) →
     n_data <$> mSubscribers m !! i = Some p → objs (env m) !! p = Some v →
     refines (f (Some p)) m r a') →
  refines (search (hasSubscriber n) true false ≫= f) m r a'.
Proof.
  intros (Hst & _) Ht H0 H1.
  enough (refines (f (match list_find (λ v, Abs.is_for tg v = true) (Abs.subs a) with
      | None => None | Some (i, _) => n_data <$> mSubscribers m !! i end)) m r a') as (m' & Hr & ?).
  { exists m'. by rewrite (st_bind_some _ _ _ _ _ (search_hasSubscriber m _ n tg Hst Ht)). }
  destruct (list_find _ _) as [[i v]|] eqn:Hf; [|auto].
  pose proof Hf as (Hi & _)%list_find_Some. destruct (stores_lookup _ _ _ _ Hst Hi) as (nd & Hnd & _ & Ho).
  rewrite Hnd. eapply H1; [done| |exact Ho]. by rewrite Hnd.
Qed.

Lemma active_find a :
  Abs.active a = snd <$> list_find (λ v, Abs.is_for (Abs.ToGroup BROADCAST_ACTIVE) v = true) (Abs.subs a).
Proof.
  unfold Abs.active. induction (Abs.subs a) as [|v vs IH]; [done|]. cbn [list_find].
  destruct (isInactive v) eqn:Hv.
  - rewrite decide_False by (cbn; by rewrite Hv). rewrite filter_cons_False, IH by congruence.
    by destruct (list_find _ vs) as [[]|].
  - rewrite decide_True by (cbn; by rewrite Hv). by rewrite filter_cons_True.
Qed.

(** Adding a new object to the store and to the list. *)
Lemma add_clone_refines m a s :
  abstracts m a →
  refines (c ← new_object (clone s); st_modify (with_list (Spec.add (Node c (Some deleteObj)))))
    m tt (Abs.SM (Abs.state a) (clone s :: Abs.subs a) (Abs.acts a)).
Proof.
  intros ((Hvs & Hnd & Hub) & Hs & Hac). eexists. split; [done|].
  set (l := fresh (dom (objs (env m)))).
  assert (objs (env m) !! l = None) as Hl by (apply not_elem_of_dom, is_fresh).
  assert (∀ p o, objs (env m) !! p = Some o → p ≠ l) as Hne by congruence.
  split; [split; [split; [|split]|split]|split; [|split; [|split]]]; [..|done|done|done|done| |].
  - cbn. constructor; [cbn; by simplify_map_eq|]. eapply Forall2_impl; [exact Hvs|].
    intros nd v [Hd Hv]. split; [done|]. rewrite lookup_insert_ne; [done|]. by eapply not_eq_sym, Hne.
  - cbn. constructor; [|done]. intros (nd & Heq & Hin)%list_elem_of_fmap.
    apply list_elem_of_lookup in Hin as [i Hi].
    destruct (Forall2_lookup_l _ _ _ _ _ Hvs Hi) as (v & _ & _ & Hv).
    cbn in Heq. by eapply Hne.
  - done.
  - intros p o Hp Ho. cbn. specialize (Hne _ _ Ho).
    split; [set_solver|by rewrite lookup_insert_ne by done].
  - intros p Hp. cbn. rewrite lookup_insert_is_Some'. by right.
Qed.

Lemma addSubscriber_refines m a p s :
  abstracts m a → objs (env m) !! p = Some s → ok_sub s →
  refines (addSubscriber p) m tt (Abs.add s a).
Proof.
  intros Ha Hp Hs. unfold addSubscriber, Abs.add.
  eapply (refines_search _ (Abs.ToOne s)); [exact Ha|by exists s|..].
  - intros Hf%list_find_existsb.
    change (existsb (λ t, Abs.equalsb t s) (Abs.subs a) = false) in Hf. rewrite Hf.
    eapply refines_deref; [exact Hp|]. by apply add_clone_refines.
  - intros i v q Hf _ _. destruct (existsb _ _) eqn:He; [by apply refines_ret|].
    apply list_find_existsb in He. cbn [Abs.is_for] in Hf. congruence.
Qed.

Lemma sendRsrcRequest_refines m a what :
  abstracts m a → refines (sendRsrcRequest what) m tt (Abs.request (cfg m) what a).
Proof.
  intros Ha. unfold sendRsrcRequest, Abs.request. rewrite active_find.
  eapply (refines_search _ (Abs.ToGroup BROADCAST_ACTIVE)); [exact Ha|done|..].
  - intros ->. cbn [fmap option_fmap option_map]. rewrite !bool_decide_true by done.
    destruct (eqb _ _); [|by apply refines_ret]. eexists. split; [done|]. by apply refines_acts.
  - intros i v q Hf _ Hq. rewrite Hf. cbn [fmap option_fmap option_map snd].
    rewrite !bool_decide_false by done. destruct (eqb _ _); [|by apply refines_ret].
    destruct (refines_acts m a [Servicer (nifRequest (mType m) what (Some v))] Ha) as [Ha' Hk'].
    eexists. split; [|split; [exact Ha'|exact Hk']].
    rewrite st_bind_run. unfold deref. rewrite st_bind_run. unfold st_read. by rewrite Hq.
Qed.

Lemma hasSubscribers_value m a :
  abstracts m a → negb (bool_decide (mSubscribers m = [])) = negb (bool_decide (Abs.subs a = [])).
Proof.
  intros ((Hvs & _) & _). f_equal. apply bool_decide_ext. split; intros He.
  - rewrite He in Hvs. by inversion Hvs.
  - rewrite He in Hvs. by inversion Hvs.
Qed.

Lemma hasActiveSubscribers_refines m a :
  abstracts m a →
  refines hasActiveSubscribers m (negb (bool_decide (Abs.active a = None))) a.
Proof.
  intros Ha. unfold hasActiveSubscribers. rewrite active_find.
  eapply (refines_search _ (Abs.ToGroup BROADCAST_ACTIVE)); [exact Ha|done|..].
  - intros ->. by apply refines_ret.
  - intros i v q -> _ _. by apply refines_ret.
Qed.

(** Telling one subscriber directly. *)
Lemma notify_self m a p s n :
  abstracts m a → objs (env m) !! p = Some s → aims (objs (env m)) n (Abs.ToOne s) ∨
    aims (objs (env m)) n (Abs.ToGroup BROADCAST_ALL) → ok_sub s → notifies (rsrcStatus n) = true →
  notifyRsrcStatus (cfg m) n p (env m) =
    (true, World (objs (env m))
       (acts (env m) ++ default [] (status_actions (cfg m) s (rsrcStatus n))) (ub (env m))).
Proof.
  intros Ha Hp [Ht|Ht] Hs Hn; rewrite (notifyRsrcStatus_value _ _ _ _ _ _ Hp Ht Hn);
    unfold Abs.told; cbn [Abs.is_for in_group]; [by rewrite equalsb_refl|done].
Qed.

Lemma notify_one_refines m a p s st :
  abstracts m a → objs (env m) !! p = Some s → ok_sub s → notifies st = true →
  refines (notify_one (to_rcver p st false) p) m true
    (Abs.SM (Abs.state a) (Abs.subs a) (Abs.acts a ++ default [] (status_actions (cfg m) s st))).
Proof.
  intros Ha Hp Hs Hn. unfold refines, notify_one. cbn beta.
  rewrite (notify_self m a p s) by (done || (left; by exists s)). eexists.
  split; [done|]. by apply refines_acts.
Qed.

Lemma notify_direct_refines m a p s st :
  abstracts m a → objs (env m) !! p = Some s → ok_sub s → notifies st = true →
  refines (notify_direct (to_group BROADCAST_ALL st true) p) m tt
    (Abs.SM (Abs.state a) (Abs.subs a) (Abs.acts a ++ default [] (status_actions (cfg m) s st))).
Proof.
  intros Ha Hp Hs Hn. unfold refines, notify_direct, notifySubscriber, with_env. cbn beta.
  rewrite (notify_self m a p s) by (done || by right). eexists.
  split; [done|]. by apply refines_acts.
Qed.

Lemma set_inactive_refines m a i p s :
  abstracts m a → n_data <$> mSubscribers m !! i = Some p → Abs.subs a !! i = Some s →
  objs (env m) !! p = Some s →
  refines (set_inactive p) m tt (Abs.SM (Abs.state a) (<[i := setInactive s]> (Abs.subs a)) (Abs.acts a)).
Proof.
  intros ((Hvs & Hnd & Hub) & Hs & Hac) Hi Hv Hp. unfold set_inactive.
  eapply refines_deref; [exact Hp|]. eexists. split; [done|].
  destruct (mSubscribers m !! i) as [nd|] eqn:Hin; [|done]. injection Hi as <-.
  split; [split; [split; [|split]|split]|split; [|split; [|split]]]; cbn; [|done..| |].
  - apply Forall2_same_length_lookup_2; [by rewrite length_insert; eapply Forall2_length|].
    intros j nd' v' Hj Hv'. destruct (decide (j = i)) as [->|Hne].
    + rewrite list_lookup_insert_eq in Hv' by (by eapply lookup_lt_Some). simplify_eq.
      destruct (Forall2_lookup_lr _ _ _ _ _ _ Hvs Hin Hv). split; [done|]. by rewrite lookup_insert_eq.
    + rewrite list_lookup_insert_ne in Hv' by done.
      destruct (Forall2_lookup_lr _ _ _ _ _ _ Hvs Hj Hv'). split; [done|].
      rewrite lookup_insert_ne; [done|]. intros Heq. apply Hne.
      eapply (NoDup_lookup (n_data <$> mSubscribers m)); [done| |].
      * by rewrite list_lookup_fmap, Hj.
      * by rewrite list_lookup_fmap, Hin; cbn; rewrite Heq.
  - intros q o Hq Ho. split; [done|]. rewrite lookup_insert_ne; [done|]. intros <-. apply Hq.
    apply list_elem_of_fmap. exists nd. split; [done|]. by eapply list_elem_of_lookup_2.
  - intros q Hq. rewrite lookup_insert_is_Some'. by right.
Qed.

(** ** The state machine refines the specification *)

Definition subs_ok (a : Abs.machine) : Prop := Forall ok_sub (Abs.subs a).

Lemma goto_self a : Abs.goto (Abs.state a) a = a.
Proof. by destruct a. Qed.

Lemma refines_goto next m a :
  abstracts m a → refines (st_modify (with_statePtr next)) m tt (Abs.goto next a).
Proof.
  intros (Hst & _ & Hac). eexists. split; [done|]. split; [by split|]. by split; [|split; [|split]].
Qed.

(** The dispatch on the current state, and the transition. *)
Lemma state_refines ev d m a next b :
  abstracts m a →
  refines (match mStatePtr m with
           | AgpsReleasedState => released_onRsrcEvent ev d
           | AgpsPendingState => pending_onRsrcEvent ev d
           | AgpsAcquiredState => acquired_onRsrcEvent ev d
           | AgpsReleasingState => releasing_onRsrcEvent ev d
           end) m next b →
  refines (state_onRsrcEvent ev d) m tt (Abs.goto next b).
Proof.
  intros Ha Hr. unfold state_onRsrcEvent. apply refines_get. eapply refines_bind; [exact Hr|].
  intros m' Ha' _. by apply refines_goto.
Qed.

Lemma keeps_cfg m m' : keeps m m' → cfg m' = cfg m.
Proof. by intros (? & _). Qed.

Lemma keeps_object m m' p o :
  keeps m m' → p ∉ (n_data <$> mSubscribers m) → objs (env m) !! p = Some o →
  objs (env m') !! p = Some o.
Proof. intros (_ & _ & Hk & _) Hp Ho. by destruct (Hk p o Hp Ho). Qed.

Lemma leave_refines m a i q t :
  abstracts m a → n_data <$> mSubscribers m !! i = Some q → Abs.subs a !! i = Some t →
  objs (env m) !! q = Some t → ok_sub t →
  refines (if waitForCloseComplete t then set_inactive q
           else notifySubscribers (to_rcver q RSRC_UNSUBSCRIBE true)) m tt (Abs.leave (cfg m) i t a).
Proof.
  intros Ha Hi Ht Hq Hok. unfold Abs.leave. destruct (waitForCloseComplete t).
  - by eapply set_inactive_refines.
  - apply (notifySubscribers_refines m a (to_rcver q RSRC_UNSUBSCRIBE true) (Abs.ToOne t)); [done|by exists t|done].
Qed.

Lemma unsubscribe_active_refines self m a i q t :
  abstracts m a → Abs.state a = self → n_data <$> mSubscribers m !! i = Some q →
  Abs.subs a !! i = Some t → objs (env m) !! q = Some t → ok_sub t →
  ∃ next b, refines (unsubscribe_active self q) m next b ∧
    Abs.goto next b = Abs.settle (cfg m) (Abs.leave (cfg m) i t a).
Proof.
  intros Ha <- Hi Ht Hq Hok. set (b := Abs.leave (cfg m) i t a).
  assert (Abs.state b = Abs.state a) as Hsb.
  { unfold b, Abs.leave. by destruct (waitForCloseComplete t). }
  assert (∀ what (next : AgpsState) m', abstracts m' b → keeps m m' →
    refines (A := AgpsState) (_ ← sendRsrcRequest what; mret next) m' next (Abs.request (cfg m) what b)) as Hreq.
  { intros what next m' Hb Hk. rewrite <- (keeps_cfg _ _ Hk).
    eapply refines_bind; [by apply sendRsrcRequest_refines|]. intros m2 Hb2 _. by apply refines_ret. }
  assert (∀ next c, (∀ m1, abstracts m1 b → keeps m m1 →
      refines (if negb (negb (bool_decide (Abs.subs b = []))) then
                 _ ← sendRsrcRequest GPS_RELEASE_AGPS_DATA_CONN; mret AgpsReleasedState
               else
                 x ← hasActiveSubscribers;
                 if negb x then
                   _ ← sendRsrcRequest GPS_RELEASE_AGPS_DATA_CONN; mret AgpsReleasingState
                 else mret (Abs.state a)) m1 next c) →
    refines (unsubscribe_active (Abs.state a) q) m next c) as Hlift.
  { intros next c Hr. unfold unsubscribe_active. eapply refines_deref; [exact Hq|].
    eapply refines_bind; [by apply leave_refines|]. intros m1 Hb1 Hk1.
    apply refines_get. rewrite (hasSubscribers_value _ _ Hb1). by apply Hr. }
  unfold Abs.settle. destruct (bool_decide (Abs.subs b = [])); cbn [negb] in Hlift.
  { eexists _, _. split; [|done]. apply Hlift. intros m1 Hb1 Hk1. by apply Hreq. }
  destruct (bool_decide (Abs.active b = None)) eqn:Hact.
  - eexists _, _. split; [|done]. apply Hlift. intros m1 Hb1 Hk1.
    eapply refines_bind; [by apply hasActiveSubscribers_refines|]. intros m2 Hb2 Hk2.
    rewrite Hact. apply Hreq; [done|]. by eapply keeps_trans.
  - exists (Abs.state a), b. split; [|rewrite <- Hsb; apply goto_self]. apply Hlift. intros m1 Hb1 Hk1.
    eapply refines_bind; [by apply hasActiveSubscribers_refines|]. intros m2 Hb2 Hk2.
    rewrite Hact. by apply refines_ret.
Qed.

(** [subscribeRsrc] on an object outside the list. *)
Lemma subscribeRsrc_refines m a p s :
  abstracts m a → objs (env m) !! p = Some s → ok_sub s → p ∉ (n_data <$> mSubscribers m) →
  refines (subscribeRsrc p) m tt (Abs.subscribe (cfg m) (mEnforceSingleSubscriber m) s a).
Proof.
  intros Ha Hp Hs Hout. unfold subscribeRsrc, Abs.subscribe.
  apply refines_get, refines_get. rewrite (hasSubscribers_value _ _ Ha). cbn [id].
  destruct (mEnforceSingleSubscriber m && _); [by apply notify_direct_refines|].
  pose proof Ha as (Hst & Hs' & Hac).
  destruct (Abs.state a) eqn:Hsa.
  - eapply state_refines; [exact Ha|]. rewrite Hs'. unfold released_onRsrcEvent.
    eapply refines_bind; [by apply addSubscriber_refines|]. intros m1 Ha1 Hk1.
    rewrite <- (keeps_cfg _ _ Hk1).
    eapply refines_bind; [by apply sendRsrcRequest_refines|]. intros m2 Ha2 Hk2. by apply refines_ret.
  - rewrite <- (goto_self (Abs.add s a)).
    replace (Abs.state (Abs.add s a)) with AgpsPendingState by (unfold Abs.add; by destruct existsb).
    eapply state_refines; [exact Ha|]. rewrite Hs'. unfold pending_onRsrcEvent.
    eapply refines_bind; [by apply addSubscriber_refines|]. intros m1 Ha1 _. by apply refines_ret.
  - set (a1 := Abs.SM _ _ _). rewrite <- (goto_self (Abs.add s a1)).
    replace (Abs.state (Abs.add s a1)) with AgpsAcquiredState by (unfold Abs.add; by destruct existsb).
    eapply state_refines; [exact Ha|]. rewrite Hs'. unfold acquired_onRsrcEvent.
    eapply refines_bind; [by apply notify_one_refines|]. intros m1 Ha1 Hk1. rewrite Hsa in Ha1.
    eapply refines_bind; [eapply addSubscriber_refines; [exact Ha1|by eapply keeps_object|done]|].
    intros m2 Ha2 _. by apply refines_ret.
  - rewrite <- (goto_self (Abs.add s a)).
    replace (Abs.state (Abs.add s a)) with AgpsReleasingState by (unfold Abs.add; by destruct existsb).
    eapply state_refines; [exact Ha|]. rewrite Hs'. unfold releasing_onRsrcEvent.
    eapply refines_bind; [by apply addSubscriber_refines|]. intros m1 Ha1 _. by apply refines_ret.
Qed.

Lemma state_unsubscribe_refines m a i q t :
  abstracts m a → n_data <$> mSubscribers m !! i = Some q → Abs.subs a !! i = Some t →
  objs (env m) !! q = Some t → ok_sub t →
  refines (state_onRsrcEvent RSRC_UNSUBSCRIBE (Some q)) m tt
    (match Abs.state a with
     | AgpsReleasedState =>
         Abs.SM (Abs.state a) (Abs.subs a)
           (Abs.acts a ++ default [] (status_actions (cfg m) t RSRC_UNSUBSCRIBE))
     | AgpsPendingState | AgpsAcquiredState => Abs.settle (cfg m) (Abs.leave (cfg m) i t a)
     | AgpsReleasingState =>
         let a := Abs.leave (cfg m) i t a in
         if bool_decide (Abs.subs a = []) then Abs.goto AgpsReleasedState a else a
     end).
Proof.
  intros Ha Hi Ht Hq Hok. pose proof Ha as (_ & Hs & _). destruct (Abs.state a) eqn:Hsa.
  - rewrite <- (goto_self (Abs.SM _ _ _)). eapply state_refines; [exact Ha|]. rewrite Hs.
    unfold released_onRsrcEvent. eapply refines_bind; [by apply notify_one_refines|].
    intros m1 Ha1 _. rewrite Hsa in Ha1. by apply refines_ret.
  - destruct (unsubscribe_active_refines AgpsPendingState m a i q t) as (next & b & Hr & <-); [done..|].
    eapply state_refines; [exact Ha|]. by rewrite Hs.
  - destruct (unsubscribe_active_refines AgpsAcquiredState m a i q t) as (next & b & Hr & <-); [done..|].
    eapply state_refines; [exact Ha|]. by rewrite Hs.
  - assert (Abs.state (Abs.leave (cfg m) i t a) = AgpsReleasingState) as Hl.
    { unfold Abs.leave. by destruct (waitForCloseComplete t). }
    cbn zeta. set (b := Abs.leave (cfg m) i t a).
    enough (refines (state_onRsrcEvent RSRC_UNSUBSCRIBE (Some q)) m tt
      (Abs.goto (if bool_decide (Abs.subs b = []) then AgpsReleasedState else AgpsReleasingState) b)) as Hr.
    { destruct (bool_decide _); [done|]. rewrite <- Hl in Hr. by rewrite goto_self in Hr. }
    eapply state_refines; [exact Ha|]. rewrite Hs. unfold releasing_onRsrcEvent.
    eapply refines_deref; [exact Hq|]. eapply refines_bind; [by apply leave_refines|].
    intros m1 Ha1 _. apply refines_get. rewrite (hasSubscribers_value _ _ Ha1), negb_involutive.
    by apply refines_ret.
Qed.

Lemma unsubscribeRsrc_refines m a p s :
  abstracts m a → subs_ok a → objs (env m) !! p = Some s → ok_sub s →
  refines (unsubscribeRsrc p) m (Abs.unsubscribe (cfg m) s a).1 (Abs.unsubscribe (cfg m) s a).2.
Proof.
  intros Ha Hok Hp Hs. unfold unsubscribeRsrc, Abs.unsubscribe.
  eapply (refines_search _ (Abs.ToOne s)); [exact Ha|by exists s|..]; cbn [Abs.is_for].
  - intros ->. by apply refines_ret.
  - intros i t q -> Hi Hq. cbn [fst snd]. pose proof Ha as ((Hvs & _) & _).
    destruct (mSubscribers m !! i) as [nd|] eqn:Hnd; [|done].
    assert (Abs.subs a !! i = Some t) as Ht.
    { destruct (Forall2_lookup_l _ _ _ _ _ Hvs Hnd) as (v & Hv & _ & Ho). by simplify_eq/=. }
    eapply refines_bind; [eapply state_unsubscribe_refines; [exact Ha|by rewrite Hnd|done..|]|].
    { by eapply Forall_lookup_1. }
    intros m1 Ha1 _. by apply refines_ret.
Qed.

Lemma notify_group_refines m a g ev del (next : AgpsState) :
  abstracts m a → notifies ev = true →
  refines (_ ← notifySubscribers (to_group g ev del); mret next) m next
    (Abs.notify (cfg m) (Abs.ToGroup g) ev del a).
Proof.
  intros Ha Hn. eapply refines_bind.
  - by apply (notifySubscribers_refines m a (to_group g ev del) (Abs.ToGroup g)).
  - intros m1 Ha1 _. by apply refines_ret.
Qed.

Lemma releasing_answer_refines m a ev :
  abstracts m a → ev = RSRC_DENIED ∨ ev = RSRC_RELEASED →
  let b := Abs.notify (cfg m) (Abs.ToGroup BROADCAST_INACTIVE) ev true a in
  ∃ next c, refines (releasing_onRsrcEvent ev None) m next c ∧
    Abs.goto next c = if bool_decide (Abs.subs b = []) then Abs.goto AgpsReleasedState b
      else Abs.goto AgpsPendingState (Abs.request (cfg m) GPS_REQUEST_AGPS_DATA_CONN b).
Proof.
  intros Ha Hev b.
  assert (refines (notifySubscribers (to_group BROADCAST_INACTIVE ev true)) m tt b) as Hnot.
  { by apply (notifySubscribers_refines m a (to_group BROADCAST_INACTIVE ev true)
      (Abs.ToGroup BROADCAST_INACTIVE)); [done..|destruct Hev as [->| ->]]. }
  assert (∀ next c, (∀ m1, abstracts m1 b → keeps m m1 →
      refines (if negb (bool_decide (Abs.subs b = [])) then
                 _ ← sendRsrcRequest GPS_REQUEST_AGPS_DATA_CONN; mret AgpsPendingState
               else mret AgpsReleasedState) m1 next c) →
    refines (releasing_onRsrcEvent ev None) m next c) as Hlift.
  { intros next c Hr. destruct Hev as [-> | ->]; unfold releasing_onRsrcEvent;
      (eapply refines_bind; [exact Hnot|]); intros m1 Hb1 Hk1; apply refines_get;
      rewrite (hasSubscribers_value _ _ Hb1); by apply Hr. }
  destruct (bool_decide (Abs.subs b = [])); eexists _, _; (split; [|done]); apply Hlift;
    intros m1 Hb1 Hk1; [by apply refines_ret|].
  cbn [negb]. rewrite <- (keeps_cfg _ _ Hk1).
  eapply refines_bind; [by apply sendRsrcRequest_refines|]. intros m2 Ha2 _. by apply refines_ret.
Qed.

(** An event the current state ignores. *)
Lemma state_stays ev d m a :
  abstracts m a →
  (match Abs.state a with
   | AgpsReleasedState => released_onRsrcEvent ev d
   | AgpsPendingState => pending_onRsrcEvent ev d
   | AgpsAcquiredState => acquired_onRsrcEvent ev d
   | AgpsReleasingState => releasing_onRsrcEvent ev d
   end) = mret (Abs.state a) →
  refines (state_onRsrcEvent ev d) m tt a.
Proof.
  intros Ha Hd. rewrite <- (goto_self a). eapply state_refines; [exact Ha|].
  pose proof Ha as (_ & -> & _). rewrite Hd. by apply refines_ret.
Qed.

Lemma onRsrcEvent_refines m a ev :
  abstracts m a → refines (onRsrcEvent ev) m tt (Abs.event (cfg m) ev a).
Proof.
  intros Ha. pose proof Ha as (_ & Hs & _). unfold onRsrcEvent, Abs.event.
  destruct ev; try by apply refines_ret.
  all: destruct (Abs.state a) eqn:Hsa; try by (apply state_stays; [done|by rewrite Hsa]).
  - eapply state_refines; [exact Ha|]. rewrite Hs. by apply notify_group_refines.
  - eapply state_refines; [exact Ha|]. rewrite Hs. by apply notify_group_refines.
  - destruct (releasing_answer_refines m a RSRC_RELEASED Ha ltac:(by right)) as (next & c & Hr & <-).
    eapply state_refines; [exact Ha|]. by rewrite Hs.
  - eapply state_refines; [exact Ha|]. rewrite Hs. by apply notify_group_refines.
  - destruct (releasing_answer_refines m a RSRC_DENIED Ha ltac:(by left)) as (next & c & Hr & <-).
    eapply state_refines; [exact Ha|]. by rewrite Hs.
Qed.

(** *** Calls as the engine makes them, with the subscriber on the stack *)

Lemma with_stack_refines {A} (f : loc → AM A) m a s (r : A) a' :
  abstracts m a →
  (∀ p m1, abstracts m1 a → cfg m1 = cfg m → mEnforceSingleSubscriber m1 = mEnforceSingleSubscriber m →
     objs (env m1) !! p = Some s → p ∉ (n_data <$> mSubscribers m1) → refines (f p) m1 r a') →
  ∃ m', with_stack s f m = Some (r, m') ∧ abstracts m' a' ∧
    cfg m' = cfg m ∧ mEnforceSingleSubscriber m' = mEnforceSingleSubscriber m ∧
    (∀ p, is_Some (objs (env m) !! p) → is_Some (objs (env m') !! p)).
Proof.
  intros ((Hvs & Hnd & Hub) & Hs & Hac) Hf. unfold with_stack. rewrite st_bind_run. unfold new_object.
  set (p := fresh (dom (objs (env m)))).
  assert (objs (env m) !! p = None) as Hp by (apply not_elem_of_dom, is_fresh).
  set (m1 := with_env _ m). cbn beta iota.
  assert (p ∉ (n_data <$> mSubscribers m)) as Hpl.
  { intros (nd & Heq & Hin)%list_elem_of_fmap. apply list_elem_of_lookup in Hin as [i Hi].
    destruct (Forall2_lookup_l _ _ _ _ _ Hvs Hi) as (v & _ & _ & Hv). congruence. }
  assert (abstracts m1 a) as Ha1.
  { split; [split; [|by split]|by split]. cbn. eapply Forall2_impl; [exact Hvs|]. intros nd v [Hd Hv].
    split; [done|]. rewrite lookup_insert_ne; congruence. }
  destruct (Hf p m1 Ha1) as (m2 & Hrun & ((Hvs2 & Hnd2 & Hub2) & Hs2 & Hac2) & Hc2 & Hsg2 & Hk2 & Hd2); [done|done| |done|].
  { cbn. by rewrite lookup_insert_eq. }
  rewrite (st_bind_some _ _ _ _ _ Hrun). eexists. split; [done|].
  destruct (Hk2 p s Hpl) as [Hpl2 _]; [cbn; by rewrite lookup_insert_eq|].
  split; [|split; [done|split; [done|]]].
  2:{ intros q Hq. cbn. rewrite lookup_delete_ne by (intros <-; rewrite Hp in Hq; by destruct Hq).
      apply Hd2. cbn. rewrite lookup_insert_is_Some'. by right. }
  split; [split; [|by split]|by split]. cbn.
  apply Forall2_same_length_lookup_2; [by eapply Forall2_length|]. intros i nd v Hi Hv.
  destruct (Forall2_lookup_lr _ _ _ _ _ _ Hvs2 Hi Hv) as [Hd Ho]. split; [done|].
  rewrite lookup_delete_ne; [done|]. intros Heq. apply Hpl2. apply list_elem_of_fmap. exists nd.
  split; [done|]. by eapply list_elem_of_lookup_2.
Qed.

(** ** The machine as a system *)

Inductive call :=
| Subscribe (s : Subscriber)
| Unsubscribe (s : Subscriber)
| Event (ev : AgpsRsrcStatus)
| SetAPN (apn : option (list Z)) (len : Z)
| SetBearer (bearer : Z)
| DropAll.               (* when the modem is back, loc_eng_handle_engine_up *)

(** The calls of loc_eng.cpp and of the framework. *)
Definition run_call (c : call) : AM unit :=
  match c with
  | Subscribe s => with_stack s subscribeRsrc
  | Unsubscribe s => _ ← with_stack s unsubscribeRsrc; mret tt
  | Event ev => onRsrcEvent ev
  | SetAPN apn len => setAPN apn len
  | SetBearer b => setBearer b
  | DropAll => dropAllSubscribers
  end.

Definition valid_call (c : call) : Prop :=
  match c with
  | Subscribe s | Unsubscribe s => ok_sub s
  | SetAPN (Some a) len => 0 <= len <= Z.of_nat (length a) ∧ len + 1 < 2 ^ 32
  | _ => True
  end.

Definition agps_step (m m' : AgpsStateMachine) : Prop :=
  ∃ c, valid_call c ∧ run_call c m = Some (tt, m').
Definition agps_init (m : AgpsStateMachine) : Prop :=
  ∃ ty bearer0 single, m = new_AgpsStateMachine ty bearer0 single (World ∅ [] false).

Definition abs_call (c : nif) (single : bool) (k : call) (a : Abs.machine) : Abs.machine :=
  match k with
  | Subscribe s => Abs.subscribe c single s a
  | Unsubscribe s => (Abs.unsubscribe c s a).2
  | Event ev => Abs.event c ev a
  | DropAll => Abs.SM (Abs.state a) [] (Abs.acts a)
  | _ => a
  end.

(** What the calls change in the configuration. *)
Definition cfg_call (k : call) (c : nif) : nif :=
  match k with
  | SetAPN apn len => Nif (getType c) ((λ a, take (Z.to_nat len) a ++ [0]) <$> apn) (getBearer c)
  | SetBearer b => Nif (getType c) (getAPN c) b
  | _ => c
  end.

Lemma flush_stores xs vs (w : world) :
  Forall2 (λ nd v, n_dealloc nd = Some deleteObj ∧ objs w !! n_data nd = Some v) xs vs →
  NoDup (n_data <$> xs) →
  acts (Spec.flush xs w) = acts w ∧ ub (Spec.flush xs w) = ub w ∧
  ∀ p, objs (Spec.flush xs w) !! p = if decide (p ∈ n_data <$> xs) then None else objs w !! p.
Proof.
  intros Hvs. revert w Hvs. unfold Spec.flush.
  induction xs as [|nd xs IH] in vs |- *; intros w Hvs Hnd;
    inversion Hvs as [|? v ? vs' [Hd Ho] Hvs']; subst; [done|].
  cbn [foldl]. apply NoDup_cons in Hnd as [Hnin Hnd]. fold (fmap n_data xs) in *.
  assert (Spec.drop_node nd w = World (delete (n_data nd) (objs w)) (acts w) (ub w)) as ->.
  { unfold Spec.drop_node, call_dealloc, agps_deallocators. rewrite Hd, decide_True by done. by rewrite Ho. }
  destruct (IH vs' (World (delete (n_data nd) (objs w)) (acts w) (ub w))) as (Hac & Hub & Hob); [|done|].
  - cbn. apply Forall2_same_length_lookup_2; [by eapply Forall2_length|]. intros i nd' v' Hi Hv'.
    destruct (Forall2_lookup_lr _ _ _ _ _ _ Hvs' Hi Hv') as [? ?]. split; [done|].
    rewrite lookup_delete_ne; [done|]. intros Heq. apply Hnin. rewrite Heq.
    apply list_elem_of_fmap. exists nd'. split; [done|]. by eapply list_elem_of_lookup_2.
  - split; [done|]. split; [done|]. intros p. rewrite Hob. cbn.
    destruct (decide (p = n_data nd)) as [->|Hne].
    + rewrite lookup_delete_eq. rewrite (decide_True (P := _ ∈ _ :: _)) by by left. by case_decide.
    + rewrite lookup_delete_ne by done. repeat case_decide; set_solver.
Qed.

Lemma run_call_refines m a k :
  abstracts m a → subs_ok a → valid_call k →
  ∃ m', run_call k m = Some (tt, m') ∧
    abstracts m' (abs_call (cfg m) (mEnforceSingleSubscriber m) k a) ∧
    mEnforceSingleSubscriber m' = mEnforceSingleSubscriber m ∧
    (k ≠ DropAll → ∀ p, is_Some (objs (env m) !! p) → is_Some (objs (env m') !! p)) ∧
    cfg m' = cfg_call k (cfg m).
Proof.
  intros Ha Hok Hv. destruct k as [s|s|ev|apn len|b|]; cbn [run_call abs_call].
  - destruct (with_stack_refines subscribeRsrc m a s tt
      (Abs.subscribe (cfg m) (mEnforceSingleSubscriber m) s a) Ha) as (m' & ? & ? & ? & ? & ?).
    { intros p m1 Ha1 Hc Hs Hp Hout. rewrite <- Hc, <- Hs. by apply subscribeRsrc_refines. }
    by exists m'.
  - destruct (with_stack_refines unsubscribeRsrc m a s (Abs.unsubscribe (cfg m) s a).1
      (Abs.unsubscribe (cfg m) s a).2 Ha) as (m' & Hrun & ? & ? & ? & ?).
    { intros p m1 Ha1 Hc Hs Hp Hout. rewrite <- Hc. by apply unsubscribeRsrc_refines. }
    exists m'. by rewrite (st_bind_some _ _ _ _ _ Hrun).
  - destruct (onRsrcEvent_refines m a ev Ha) as (m' & ? & ? & ? & ? & ? & ?). by exists m'.
  - unfold setAPN. destruct Ha as (Hst & Hs & Hac). destruct apn as [l|].
    + destruct Hv as [Hl Hw]. unfold uwrap. rewrite Z.mod_small by lia.
      rewrite (proj2 (Z.ltb_ge _ _)), Z.ltb_irrefl by lia. cbn [orb].
      eexists. split; [done|]. by split; [|split].
    + eexists. split; [done|]. by split; [|split].
  - destruct Ha as (Hst & Hs & Hac). eexists. split; [done|]. by split; [|split].
  - destruct Ha as ((Hvs & Hnd & Hub) & Hst & Hac). eexists. split; [done|].
    destruct (flush_stores _ _ _ Hvs Hnd) as (Hac' & Hub' & _).
    split; [|by split]. split; [split; [constructor|split; [constructor|cbn; congruence]]|].
    split; [done|cbn; congruence].
Qed.

(** ** The invariant of the specification *)

Definition wanting (st : AgpsState) : bool :=
  match st with AgpsPendingState | AgpsAcquiredState => true | _ => false end.

(** Well-formed subscribers, no two of them equal, at most one if the machine
    enforces it; none is left in the released state, an active one is in a
    state that wants the connection, and the releasing state waits for some,
    unless they were dropped ([dropped]). *)
Definition inv (single dropped : bool) (a : Abs.machine) : Prop :=
  subs_ok a ∧
  ForallOrdPairs (λ s t, Abs.equalsb t s = false) (Abs.subs a) ∧
  (single = true → (length (Abs.subs a) ≤ 1)%nat) ∧
  match Abs.state a with
  | AgpsReleasedState => Abs.subs a = []
  | AgpsReleasingState => dropped = false → Abs.subs a ≠ []
  | _ => Abs.active a ≠ None ∨ (dropped = true ∧ Abs.subs a = [])
  end.

Lemma equalsb_clone t s : ok_sub s → Abs.equalsb t (clone s) = Abs.equalsb t s.
Proof.
  intros Hs. unfold Abs.equalsb. f_equal.
  destruct s as [i v6|i a c|i a b sd x]; unfold ok_sub in Hs.
  - destruct Hs as [Hi Hl]. unfold clone, new_BITSubscriber. by rewrite Hi, take_ge by lia.
  - done.
  - destruct Hs as [-> _]. done.
Qed.

Lemma equalsb_setInactive t s :
  Abs.equalsb t (setInactive s) = Abs.equalsb t s ∧ Abs.equalsb (setInactive t) s = Abs.equalsb t s.
Proof. by destruct t, s. Qed.

Lemma FOP_filter {A} (R : A → A → Prop) (P : A → Prop) `{∀ x, Decision (P x)} l :
  ForallOrdPairs R l → ForallOrdPairs R (filter P l).
Proof.
  induction 1 as [|x l Hx _ IH]; [constructor|]. rewrite filter_cons.
  destruct (decide (P x)); [|done]. constructor; [|done].
  apply Forall_forall. intros y Hy. apply list_elem_of_filter in Hy as [_ Hy].
  by eapply Forall_forall in Hx.
Qed.

Lemma FOP_setInactive i t vs :
  vs !! i = Some t → ForallOrdPairs (λ s t, Abs.equalsb t s = false) vs →
  ForallOrdPairs (λ s t, Abs.equalsb t s = false) (<[i := setInactive t]> vs).
Proof.
  intros Hi Hp. revert i Hi. induction Hp as [|v vs Hv Hp IH]; intros [|i] Hi; [done..| |]; cbn in *.
  - simplify_eq. constructor; [|done]. eapply Forall_impl; [exact Hv|]. intros u Hu.
    by rewrite (proj1 (equalsb_setInactive u t)).
  - constructor; [|by apply IH]. apply Forall_insert; [done|].
    rewrite (proj2 (equalsb_setInactive t v)). exact (Forall_lookup_1 _ _ _ _ Hv Hi).
Qed.

Lemma active_none a : Abs.active a = None ↔ Forall (λ t, isInactive t = true) (Abs.subs a).
Proof.
  rewrite active_find. destruct (list_find _ _) as [[i v]|] eqn:Hf; cbn.
  - apply list_find_Some in Hf as (Hi & Hv & _). split; [done|]. intros Hall.
    pose proof (Forall_lookup_1 _ _ _ _ Hall Hi) as Hx. cbn in Hx, Hv. by rewrite Hx in Hv.
  - apply list_find_None in Hf. split; [|done]. intros _. eapply Forall_impl; [exact Hf|].
    intros v Hv. cbn in Hv. by destruct (isInactive v).
Qed.

Lemma isInactive_clone s : isInactive (clone s) = false.
Proof. by destruct s. Qed.

Lemma add_inv s a :
  ok_sub s → subs_ok a → ForallOrdPairs (λ s t, Abs.equalsb t s = false) (Abs.subs a) →
  subs_ok (Abs.add s a) ∧ ForallOrdPairs (λ s t, Abs.equalsb t s = false) (Abs.subs (Abs.add s a)) ∧
  Abs.subs (Abs.add s a) ≠ [] ∧ Abs.state (Abs.add s a) = Abs.state a ∧
  (Abs.active a ≠ None ∨ Abs.subs a = [] → Abs.active (Abs.add s a) ≠ None).
Proof.
  intros Hs Hok Hp. unfold Abs.add. destruct (existsb _ _) eqn:He.
  - assert (Abs.subs a ≠ []) as Hne by (intros Hn; by rewrite Hn in He).
    split; [done|]. split; [done|]. split; [done|]. split; [done|]. naive_solver.
  - split; [constructor; [by apply ok_sub_clone|done]|]. split; [constructor; [|done]|].
    { apply Forall_forall. intros t Ht. rewrite equalsb_clone by done.
      destruct (Abs.equalsb t s) eqn:Hts; [|done]. rewrite <- He. symmetry. apply existsb_exists.
      exists t. split; [by apply list_elem_of_In|done]. }
    split; [done|]. split; [done|]. intros _ Hn. apply active_none in Hn. cbn in Hn.
    apply Forall_cons in Hn as [Hn _]. by rewrite isInactive_clone in Hn.
Qed.

Lemma notify_inv c tg st del a :
  subs_ok a → ForallOrdPairs (λ s t, Abs.equalsb t s = false) (Abs.subs a) →
  subs_ok (Abs.notify c tg st del a) ∧
  ForallOrdPairs (λ s t, Abs.equalsb t s = false) (Abs.subs (Abs.notify c tg st del a)) ∧
  (length (Abs.subs (Abs.notify c tg st del a)) ≤ length (Abs.subs a))%nat.
Proof.
  intros Hok Hp. unfold Abs.notify, subs_ok. destruct del; cbn; [|done].
  split; [|split; [by apply FOP_filter|apply length_filter]].
  apply Forall_forall. intros v Hv. apply list_elem_of_filter in Hv as [_ Hv].
  unfold subs_ok in Hok. by eapply Forall_forall in Hok.
Qed.

Lemma leave_inv c i t a :
  Abs.subs a !! i = Some t →
  subs_ok a → ForallOrdPairs (λ s t, Abs.equalsb t s = false) (Abs.subs a) →
  let b := Abs.leave c i t a in
  subs_ok b ∧ ForallOrdPairs (λ s t, Abs.equalsb t s = false) (Abs.subs b) ∧
  (length (Abs.subs b) ≤ length (Abs.subs a))%nat ∧ Abs.state b = Abs.state a.
Proof.
  intros Hi Hok Hp b. unfold b, Abs.leave. destruct (waitForCloseComplete t); cbn.
  - split; [|split; [by apply FOP_setInactive|split; [by rewrite length_insert|done]]].
    apply Forall_insert; [done|]. apply ok_sub_setInactive. by eapply Forall_lookup_1 in Hok.
  - destruct (notify_inv c (Abs.ToOne t) RSRC_UNSUBSCRIBE true a Hok Hp) as (? & ? & ?). done.
Qed.

Lemma request_same c what a :
  Abs.subs (Abs.request c what a) = Abs.subs a ∧ Abs.state (Abs.request c what a) = Abs.state a.
Proof. unfold Abs.request. by destruct (eqb _ _). Qed.

Lemma all_gone c st a : Abs.subs (Abs.notify c (Abs.ToGroup BROADCAST_ALL) st true a) = [].
Proof. apply list_filter_none. apply Forall_forall. intros v _. done. Qed.

Lemma no_inactive_left c st a :
  let b := Abs.notify c (Abs.ToGroup BROADCAST_INACTIVE) st true a in
  Abs.subs b ≠ [] → Abs.active b ≠ None.
Proof.
  intros b Hne Hn. apply active_none in Hn. destruct (Abs.subs b) as [|v vs] eqn:Hb; [done|].
  apply Forall_cons in Hn as [Hv _].
  assert (v ∈ Abs.subs b) as Hin by (rewrite Hb; left). apply list_elem_of_filter in Hin as [Hf _].
  cbn in Hf. congruence.
Qed.

Lemma subs_length_nil (a : Abs.machine) : bool_decide (Abs.subs a = []) = false ↔ Abs.subs a ≠ [].
Proof. apply bool_decide_eq_false. Qed.

Lemma settle_inv c single d a :
  subs_ok a → ForallOrdPairs (λ s t, Abs.equalsb t s = false) (Abs.subs a) →
  (single = true → (length (Abs.subs a) ≤ 1)%nat) → wanting (Abs.state a) = true →
  inv single d (Abs.settle c a).
Proof.
  intros Hok Hp Hl Hw. unfold Abs.settle.
  case_bool_decide as Hn; [|case_bool_decide as Hact].
  - destruct (request_same c GPS_RELEASE_AGPS_DATA_CONN a) as [Hs _].
    unfold inv, subs_ok; cbn; rewrite Hs. done.
  - destruct (request_same c GPS_RELEASE_AGPS_DATA_CONN a) as [Hs _].
    unfold inv, subs_ok; cbn; rewrite Hs. done.
  - split; [done|]. split; [done|]. split; [done|]. destruct (Abs.state a); first [done|by left].
Qed.

Lemma subscribe_inv c single d s a :
  inv single d a → ok_sub s → inv single d (Abs.subscribe c single s a).
Proof.
  intros (Hok & Hp & Hl & Hst) Hs. unfold Abs.subscribe.
  destruct (single && _) eqn:Hsg; [by split|].
  assert (single = true → Abs.subs a = []) as Hnil.
  { intros ->. cbn in Hsg. by case_bool_decide. }
  assert (∀ x, Abs.subs (Abs.add s (Abs.SM (Abs.state a) (Abs.subs a) x)) = Abs.subs (Abs.add s a)) as Hx.
  { intros x. unfold Abs.add. cbn. by destruct (existsb _ _). }
  destruct (add_inv s a Hs Hok Hp) as (Hok' & Hp' & Hne & Hsa & Hact).
  assert (single = true → (length (Abs.subs (Abs.add s a)) ≤ 1)%nat) as Hl'.
  { intros Hsi. unfold Abs.add. rewrite (Hnil Hsi). cbn. lia. }
  destruct (Abs.state a) eqn:Hst'.
  - destruct (request_same c GPS_REQUEST_AGPS_DATA_CONN (Abs.add s a)) as [Hr _].
    unfold inv, subs_ok, Abs.active; cbn; rewrite Hr. split; [done|]. split; [done|]. split; [done|].
    left. apply Hact. by right.
  - split; [done|]. split; [done|]. split; [done|]. rewrite Hsa. left. apply Hact. naive_solver.
  - set (x := Abs.acts a ++ _). specialize (Hx x). fold x.
    assert (Abs.state (Abs.add s (Abs.SM AgpsAcquiredState (Abs.subs a) x)) = AgpsAcquiredState) as Hs2.
    { unfold Abs.add. by destruct (existsb _ _). }
    unfold inv, subs_ok, Abs.active. rewrite Hs2, Hx. split; [done|]. split; [done|]. split; [done|].
    left. apply Hact. naive_solver.
  - split; [done|]. split; [done|]. split; [done|]. by rewrite Hsa.
Qed.

Lemma unsubscribe_inv c single d s a :
  inv single d a → inv single d (Abs.unsubscribe c s a).2.
Proof.
  intros Hinv. pose proof Hinv as (Hok & Hp & Hl & Hst). unfold Abs.unsubscribe.
  destruct (list_find _ _) as [[i t]|] eqn:Hf; [|done]. cbn [snd].
  apply list_find_Some in Hf as (Hi & _ & _).
  destruct (leave_inv c i t a Hi Hok Hp) as (Hok' & Hp' & Hl' & Hs').
  assert (single = true → (length (Abs.subs (Abs.leave c i t a)) ≤ 1)%nat) as Hl2.
  { intros Hsi. specialize (Hl Hsi). lia. }
  destruct (Abs.state a) eqn:Hsa.
  - by rewrite Hst in Hi.
  - apply settle_inv; [done..|]. by rewrite Hs'.
  - apply settle_inv; [done..|]. by rewrite Hs'.
  - cbn zeta. case_bool_decide as Hn.
    + unfold inv, subs_ok; cbn; rewrite Hn. split; [done|]. split; [constructor|]. split; [cbn; lia|done].
    + split; [done|]. split; [done|]. split; [done|]. by rewrite Hs'.
Qed.

Lemma event_inv c single d ev a : inv single d a → inv single d (Abs.event c ev a).
Proof.
  intros Hinv. pose proof Hinv as (Hok & Hp & Hl & Hst). unfold Abs.event.
  assert (∀ st, inv single d (Abs.goto AgpsReleasedState (Abs.notify c (Abs.ToGroup BROADCAST_ALL) st true a))) as Hall.
  { intros st. unfold inv, subs_ok. cbn [Abs.goto Abs.subs Abs.state].
    pose proof (all_gone c st a) as ->. split; [constructor|]. split; [constructor|]. split; [cbn; lia|done]. }
  assert (∀ st, let b := Abs.notify c (Abs.ToGroup BROADCAST_INACTIVE) st true a in
    inv single d (if bool_decide (Abs.subs b = []) then Abs.goto AgpsReleasedState b
      else Abs.goto AgpsPendingState (Abs.request c GPS_REQUEST_AGPS_DATA_CONN b))) as Hrel.
  { intros st b. destruct (notify_inv c (Abs.ToGroup BROADCAST_INACTIVE) st true a Hok Hp) as (Hok' & Hp' & Hl').
    fold b in Hok', Hp', Hl'.
    assert (single = true → (length (Abs.subs b) ≤ 1)%nat) as Hl2 by (intros Hsi; specialize (Hl Hsi); lia).
    case_bool_decide as Hn.
    - unfold inv, subs_ok. cbn [Abs.goto Abs.subs Abs.state]. by rewrite Hn in *.
    - destruct (request_same c GPS_REQUEST_AGPS_DATA_CONN b) as [Hr _].
      unfold inv, subs_ok, Abs.active. cbn [Abs.goto Abs.subs Abs.state]. rewrite Hr.
      split; [done|]. split; [done|]. split; [done|]. left. by apply no_inactive_left. }
  destruct ev; try done; destruct (Abs.state a) eqn:Hsa; try done; try apply Hall; try apply Hrel.
Qed.

(** Whether the subscribers were dropped since the machine was last released. *)
Definition dropped_after (k : call) (st : AgpsState) (dropped : bool) : bool :=
  (match k with DropAll => true | _ => dropped end) &&
  match st with AgpsReleasedState => false | _ => true end.

Lemma inv_dropped single d d' a :
  inv single d a → (Abs.state a ≠ AgpsReleasedState → d = true → d' = true) → inv single d' a.
Proof.
  intros (Hok & Hp & Hl & Hst) Hd. split; [done|]. split; [done|]. split; [done|].
  destruct (Abs.state a); [done|destruct Hst as [?|[? ?]]; [by left|right; auto]..|].
  intros ->. apply Hst. destruct d; [by discriminate Hd|done].
Qed.

Lemma abs_call_inv c single d k a :
  inv single d a → valid_call k →
  inv single (dropped_after k (Abs.state (abs_call c single k a)) d) (abs_call c single k a).
Proof.
  intros Hi Hv. destruct k; cbn [abs_call dropped_after].
  - apply (inv_dropped _ d); [by apply subscribe_inv|]. intros ? ->. by destruct (Abs.state _).
  - apply (inv_dropped _ d); [by apply unsubscribe_inv|]. intros ? ->. by destruct (Abs.state _).
  - apply (inv_dropped _ d); [by apply event_inv|]. intros ? ->. by destruct (Abs.state _).
  - apply (inv_dropped _ d); [done|]. intros ? ->. by destruct (Abs.state _).
  - apply (inv_dropped _ d); [done|]. intros ? ->. by destruct (Abs.state _).
  - split; [constructor|]. split; [constructor|]. split; [cbn; lia|]. cbn.
    destruct (Abs.state a); cbn; auto.
Qed.

(** ** Requests to the framework *)

Definition requests (l : list action) : list Z :=
  omap (λ x, match x with Servicer r => Some (status r) | _ => None end) l.

Definition is_event (k : call) : bool := match k with Event _ => true | _ => false end.

(** What a step must ask of the framework, from whether the connection is
    wanted before and after it. *)
Definition expected (before after by_framework : bool) : list Z :=
  match before, after, by_framework with
  | false, true, _ => [GPS_REQUEST_AGPS_DATA_CONN]
  | true, false, false => [GPS_RELEASE_AGPS_DATA_CONN]
  | _, _, _ => []
  end.

Lemma requests_app l l' : requests (l ++ l') = requests l ++ requests l'.
Proof. apply omap_app. Qed.

Lemma status_actions_quiet c s st : requests (default [] (status_actions c s st)) = [].
Proof. by destruct s, st. Qed.

Lemma told_quiet c tg st vs : requests (concat (Abs.told c tg st <$> vs)) = [].
Proof.
  induction vs as [|v vs IH]; [done|]. cbn. rewrite requests_app, IH, app_nil_r.
  unfold Abs.told. destruct (Abs.is_for tg v); [apply status_actions_quiet|done].
Qed.

(** [adds a b ps]: the calls of [b] are those of [a] and more, among them the
    requests [ps]. *)
Definition adds (a b : Abs.machine) (ps : list Z) : Prop :=
  ∃ l, Abs.acts b = Abs.acts a ++ l ∧ requests l = ps.

Lemma adds_refl a st vs : adds a (Abs.SM st vs (Abs.acts a)) [].
Proof. exists []. by rewrite app_nil_r. Qed.

Lemma adds_trans a b c ps qs : adds a b ps → adds b c qs → adds a c (ps ++ qs).
Proof.
  intros (l & Hl & <-) (l' & Hl' & <-). exists (l ++ l'). rewrite Hl', Hl, requests_app.
  by rewrite app_assoc.
Qed.

Lemma adds_notify c tg st del a : adds a (Abs.notify c tg st del a) [].
Proof. eexists. split; [done|]. apply told_quiet. Qed.

Lemma adds_status c st vs a s ev :
  adds a (Abs.SM st vs (Abs.acts a ++ default [] (status_actions c s ev))) [].
Proof. eexists. split; [done|]. apply status_actions_quiet. Qed.

Lemma adds_add s a : adds a (Abs.add s a) [].
Proof. exists []. unfold Abs.add. rewrite app_nil_r. by destruct (existsb _ _). Qed.

Lemma adds_request c a what st :
  what = GPS_REQUEST_AGPS_DATA_CONN ∧ Abs.active a ≠ None ∨
  what = GPS_RELEASE_AGPS_DATA_CONN ∧ Abs.active a = None →
  adds a (Abs.goto st (Abs.request c what a)) [what].
Proof.
  unfold Abs.request. intros [[-> Ha]|[-> Ha]]; case_bool_decide; try done; cbn [eqb];
    eexists; (split; [done|]); unfold requests, nifRequest; cbn; repeat case_match; done.
Qed.

Lemma adds_settle c a :
  wanting (Abs.state a) = true →
  adds a (Abs.settle c a) (expected true (wanting (Abs.state (Abs.settle c a))) false).
Proof.
  intros Hw. unfold Abs.settle. case_bool_decide as Hn; [|case_bool_decide as Hact].
  - apply adds_request. right. split; [done|]. apply active_none. by rewrite Hn.
  - apply adds_request. by right.
  - rewrite Hw. by destruct a; apply adds_refl.
Qed.

Lemma abs_event_requests c single d ev a : inv single d a →
  adds a (Abs.event c ev a) (expected (wanting (Abs.state a)) (wanting (Abs.state (Abs.event c ev a))) true).
Proof.
  intros (Hok & Hp & Hl & Hst).
  assert (∀ st, adds a (let b := Abs.notify c (Abs.ToGroup BROADCAST_INACTIVE) st true a in
    if bool_decide (Abs.subs b = []) then Abs.goto AgpsReleasedState b
    else Abs.goto AgpsPendingState (Abs.request c GPS_REQUEST_AGPS_DATA_CONN b))
    (expected false (wanting (Abs.state (let b := Abs.notify c (Abs.ToGroup BROADCAST_INACTIVE) st true a in
    if bool_decide (Abs.subs b = []) then Abs.goto AgpsReleasedState b
    else Abs.goto AgpsPendingState (Abs.request c GPS_REQUEST_AGPS_DATA_CONN b)))) true)) as Hrel.
  { intros st. cbn zeta. case_bool_decide as Hn; [apply (adds_notify c (Abs.ToGroup BROADCAST_INACTIVE) st true a)|].
    eapply (adds_trans _ _ _ []); [apply adds_notify|]. apply adds_request. left.
    split; [done|]. by apply no_inactive_left. }
  unfold Abs.event.
  destruct ev, (Abs.state a) eqn:Hs0; cbn [wanting] in *;
    try (apply Hrel);
    try (match goal with |- adds _ (Abs.goto _ (Abs.notify ?c ?tg ?st ?d ?a)) _ => exact (adds_notify c tg st d a) end);
    destruct a as [st vs l]; cbn in Hs0; subst st; apply (adds_refl (Abs.SM _ vs l)).
Qed.

Lemma abs_call_requests c single d k a :
  inv single d a → valid_call k →
  adds a (abs_call c single k a)
    (expected (wanting (Abs.state a)) (wanting (Abs.state (abs_call c single k a))) (is_event k)).
Proof.
  intros (Hok & Hp & Hl & Hst) Hv. destruct k as [s|s|ev|apn len|b|]; cbn [abs_call is_event].
  - unfold Abs.subscribe. destruct (single && _).
    { cbn. assert (expected (wanting (Abs.state a)) (wanting (Abs.state a)) false = []) as ->
        by by destruct (Abs.state a). apply adds_status. }
    destruct (add_inv s a Hv Hok Hp) as (_ & _ & _ & Hsa & Hact).
    destruct (Abs.state a) eqn:Hs0.
    + eapply (adds_trans _ (Abs.add s a) _ []); [apply adds_add|]. apply adds_request. left.
      split; [done|]. apply Hact. by right.
    + rewrite Hsa. apply adds_add.
    + set (a1 := Abs.SM _ _ _). assert (Abs.state (Abs.add s a1) = AgpsAcquiredState) as ->.
      { unfold Abs.add. by destruct (existsb _ _). }
      eapply (adds_trans _ a1 _ []); [apply adds_status|apply adds_add].
    + rewrite Hsa. apply adds_add.
  - unfold Abs.unsubscribe. destruct (list_find _ _) as [[i t]|] eqn:Hf; cbn [snd].
    2:{ destruct a as [st vs l]. cbn. destruct st; apply (adds_refl (Abs.SM _ vs l)). }
    apply list_find_Some in Hf as (Hi & _ & _).
    destruct (leave_inv c i t a Hi Hok Hp) as (_ & _ & _ & Hs').
    assert (adds a (Abs.leave c i t a) []) as Hleave.
    { unfold Abs.leave. destruct (waitForCloseComplete t); [apply adds_refl|apply adds_notify]. }
    destruct (Abs.state a) eqn:Hs0.
    + apply adds_status.
    + eapply (adds_trans _ _ _ []); [exact Hleave|]. apply adds_settle. by rewrite Hs'.
    + eapply (adds_trans _ _ _ []); [exact Hleave|]. apply adds_settle. by rewrite Hs'.
    + cbn zeta. destruct (bool_decide _); [exact Hleave|by rewrite Hs'].
  - by apply (abs_event_requests c single d).
  - destruct a as [[] vs l]; apply (adds_refl (Abs.SM _ vs l)).
  - destruct a as [[] vs l]; apply (adds_refl (Abs.SM _ vs l)).
  - destruct a as [[] vs l]; apply (adds_refl (Abs.SM _ vs l)).
Qed.

(** ** Theorems about the machine *)

(** The machine together with whether its subscribers were dropped since it
    was last released. *)
Definition agps_hstep (x y : AgpsStateMachine * bool) : Prop :=
  ∃ k, valid_call k ∧ run_call k x.1 = Some (tt, y.1) ∧ y.2 = dropped_after k (mStatePtr y.1) x.2.
Definition agps_hinit (x : AgpsStateMachine * bool) : Prop := agps_init x.1 ∧ x.2 = false.

Lemma hreachable_inv x :
  reachable agps_hstep agps_hinit x →
  ∃ a, abstracts x.1 a ∧ inv (mEnforceSingleSubscriber x.1) x.2 a.
Proof.
  revert x. apply invariant_reachable.
  - intros [m0 d] [(ty & b & single & ->) ->]. exists (Abs.SM AgpsReleasedState [] []).
    split; [split; [split; [constructor|by split; [constructor|]]|done]|].
    split; [constructor|]. split; [constructor|]. split; [cbn; lia|done].
  - intros [m1 d1] [m2 d2] (a & Ha & Hi) (k & Hv & Hrun & Hd). cbn [fst snd] in *.
    destruct (run_call_refines m1 a k Ha (proj1 Hi) Hv) as (m' & Hrun' & Ha' & Hs & _).
    simplify_eq. eexists. split; [exact Ha'|]. rewrite Hs. destruct Ha' as (_ & -> & _).
    by apply abs_call_inv.
Qed.

Lemma reachable_history m : reachable agps_step agps_init m → ∃ d, reachable agps_hstep agps_hinit (m, d).
Proof.
  revert m. apply invariant_reachable.
  - intros m Hm. exists false. exists (m, false). split; [by split|apply rtc_refl].
  - intros m1 m2 (d & Hr) (k & Hv & Hrun). exists (dropped_after k (mStatePtr m2) d).
    eapply reachable_step; [exact Hr|]. by exists k.
Qed.

Lemma reachable_inv m :
  reachable agps_step agps_init m →
  ∃ a d, abstracts m a ∧ inv (mEnforceSingleSubscriber m) d a.
Proof. intros (d & (a & Ha & Hi)%hreachable_inv)%reachable_history. by exists a, d. Qed.

Lemma stores_fun m vs vs' : stores m vs → stores m vs' → vs = vs'.
Proof.
  intros (Hvs & _) (Hvs' & _). revert vs' Hvs'. induction Hvs as [|nd v xs vs [_ Ho] _ IH];
    intros vs' Hvs'; inversion Hvs' as [|? v' ? ? [_ Ho']]; [done|]. simplify_eq. f_equal. by apply IH.
Qed.

(** C10: the pointer machine refines its specification on subscriber values:
    from related states every call of the engine or of the framework returns,
    leaves related states and never touches a dead object. *)
Theorem agps_refines m a k :
  abstracts m a → subs_ok a → valid_call k →
  ∃ m', run_call k m = Some (tt, m') ∧
    abstracts m' (abs_call (cfg m) (mEnforceSingleSubscriber m) k a).
Proof.
  intros Ha Hok Hv. destruct (run_call_refines m a k Ha Hok Hv) as (m' & ? & ? & _). by exists m'.
Qed.

(** C11: in every reachable state the list holds distinct live subscribers, no
    two of them equal and at most one if the machine enforces it; a released
    machine has none.  As long as the engine has not dropped the subscribers
    since the machine was last released ([dropped] is false; it drops them
    when the modem comes back), a releasing machine has some, and a machine
    that requested or holds the connection has an active one; after a drop
    such a machine has an active one or none at all. *)
Theorem agps_invariant m dropped :
  reachable agps_hstep agps_hinit (m, dropped) →
  ∃ vs, stores m vs ∧ ForallOrdPairs (λ s t, equals t s = Some false) vs ∧
    (mEnforceSingleSubscriber m = true → (length vs ≤ 1)%nat) ∧
    match mStatePtr m with
    | AgpsReleasedState => vs = []
    | AgpsReleasingState => dropped = false → vs ≠ []
    | _ => Exists (λ t, isInactive t = false) vs ∨ (dropped = true ∧ vs = [])
    end.
Proof.
  intros (a & (Hst & Hs & _) & Hok & Hp & Hl & Hm)%hreachable_inv. cbn [fst snd] in *. exists (Abs.subs a).
  split; [done|]. split; [|split; [done|]].
  - clear -Hok Hp. unfold subs_ok in Hok. induction Hp as [|s vs Hs _ IH]; [constructor|].
    apply Forall_cons in Hok as [Hok1 Hok]. constructor; [|by apply IH].
    eapply Forall_impl; [exact Hs|]. intros t Ht. by rewrite equals_defined, Ht.
  - rewrite Hs. assert (Abs.active a ≠ None → Exists (λ t, isInactive t = false) (Abs.subs a)) as Hex.
    { intros Hact.
      destruct (Exists_dec (λ t, isInactive t = false) (Abs.subs a)) as [|Hno]; [done|].
      destruct Hact. apply active_none. apply Forall_forall. intros t Ht.
      destruct (isInactive t) eqn:Hi; [done|]. destruct Hno. apply Exists_exists. eauto. }
    destruct (Abs.state a); [done|destruct Hm as [Hm|Hm]; auto..|done].
Qed.

(** C12: the machine asks the framework for the connection exactly when a call
    makes it wanted, and releases it exactly when a client's call ends that; a
    framework answer that ends it is not followed by a release. *)
Theorem agps_request_protocol m k m' :
  reachable agps_step agps_init m → valid_call k → run_call k m = Some (tt, m') →
  ∃ l, acts (env m') = acts (env m) ++ l ∧
    requests l = expected (wanting (mStatePtr m)) (wanting (mStatePtr m')) (is_event k).
Proof.
  intros (a & d & Ha & Hi)%reachable_inv Hv Hrun.
  destruct (run_call_refines m a k Ha (proj1 Hi) Hv) as (m2 & Hrun' & Ha' & _). simplify_eq.
  destruct (abs_call_requests (cfg m) _ d k a Hi Hv) as (l & Hl & Hr).
  destruct Ha as (_ & -> & ->), Ha' as (_ & -> & ->). by exists l.
Qed.

(** a notification reaches every subscriber it is for, once and in list
    order; with [postNotifyDelete] exactly those leave the list, yet none is
    deallocated, since the search hands each of them to the caller. *)
Theorem notifySubscribers_spec m vs n tg :
  stores m vs → aims (objs (env m)) n tg → notifies (rsrcStatus n) = true →
  ∃ m', notifySubscribers n m = Some (tt, m') ∧
    stores m' (if postNotifyDelete n then filter (λ t, Abs.is_for tg t = false) vs else vs) ∧
    acts (env m') = acts (env m) ++ concat ((λ t, default [] (status_actions (cfg m) t (rsrcStatus n)))
                                              <$> filter (λ t, Abs.is_for tg t = true) vs) ∧
    objs (env m') = objs (env m) ∧ mStatePtr m' = mStatePtr m.
Proof.
  intros Hst Ht Hn. set (a := Abs.SM (mStatePtr m) vs (acts (env m))).
  destruct (notifySubscribers_run m a n tg) as (m' & Hrun & Ho & (Hst' & Hs' & Hac') & _); [by split|done..|].
  exists m'. split; [done|]. split; [done|]. split; [|done]. rewrite Hac'. cbn. f_equal.
  clear. induction vs as [|v vs IH]; [done|]. rewrite filter_cons. cbn. rewrite IH. unfold Abs.told.
  by destruct (Abs.is_for tg v).
Qed.

(** Answers of the framework. *)
Definition tell_all (c : nif) (st : AgpsRsrcStatus) (vs : list Subscriber) : list action :=
  concat ((λ t, default [] (status_actions c t st)) <$> vs).

Lemma told_filter c tg st vs :
  concat (Abs.told c tg st <$> vs) = tell_all c st (filter (λ t, Abs.is_for tg t = true) vs).
Proof.
  unfold tell_all. induction vs as [|v vs IH]; [done|]. rewrite filter_cons. cbn. rewrite IH.
  unfold Abs.told. by destruct (Abs.is_for tg v).
Qed.

Lemma filter_all (P : Subscriber → Prop) `{∀ x, Decision (P x)} (vs : list Subscriber) : (∀ x, P x) → filter P vs = vs.
Proof. intros HP. induction vs as [|v vs IH]; [done|]. by rewrite filter_cons_True, IH. Qed.

(** while a request is pending a grant is passed to every active subscriber
    and keeps them all, a denial is passed to every subscriber and releases
    them; a forced release of the acquired connection is passed to every
    subscriber and releases them. *)
Theorem agps_answers m vs :
  stores m vs →
  (mStatePtr m = AgpsPendingState →
    (∃ m', onRsrcEvent RSRC_GRANTED m = Some (tt, m') ∧ mStatePtr m' = AgpsAcquiredState ∧ stores m' vs ∧
      acts (env m') = acts (env m) ++
        tell_all (cfg m) RSRC_GRANTED (filter (λ t, negb (isInactive t) = true) vs)) ∧
    (∃ m', onRsrcEvent RSRC_DENIED m = Some (tt, m') ∧ mStatePtr m' = AgpsReleasedState ∧ stores m' [] ∧
      acts (env m') = acts (env m) ++ tell_all (cfg m) RSRC_DENIED vs)) ∧
  (mStatePtr m = AgpsAcquiredState →
    ∃ m', onRsrcEvent RSRC_RELEASED m = Some (tt, m') ∧ mStatePtr m' = AgpsReleasedState ∧ stores m' [] ∧
      acts (env m') = acts (env m) ++ tell_all (cfg m) RSRC_RELEASED vs).
Proof.
  intros Hst. set (a := Abs.SM (mStatePtr m) vs (acts (env m))).
  assert (abstracts m a) as Ha by by split.
  assert (∀ ev, ∃ m', onRsrcEvent ev m = Some (tt, m') ∧ abstracts m' (Abs.event (cfg m) ev a)) as Hev.
  { intros ev. destruct (onRsrcEvent_refines m a ev Ha) as (m' & ? & ? & _). by exists m'. }
  unfold Abs.event in Hev. cbn [a Abs.state] in Hev. split; intros Hs; rewrite Hs in Hev; [split|].
  - destruct (Hev RSRC_GRANTED) as (m' & Hrun & Hst' & Hs' & Hac'). exists m'. split; [done|].
    split; [done|]. split; [done|]. rewrite Hac'. cbn. by rewrite told_filter.
  - destruct (Hev RSRC_DENIED) as (m' & Hrun & Hst' & Hs' & Hac'). exists m'. split; [done|].
    split; [done|]. cbn [Abs.goto Abs.subs] in Hst'. rewrite all_gone in Hst'. split; [done|].
    rewrite Hac'. cbn. rewrite told_filter. cbn. by rewrite filter_all.
  - destruct (Hev RSRC_RELEASED) as (m' & Hrun & Hst' & Hs' & Hac'). exists m'. split; [done|].
    split; [done|]. cbn [Abs.goto Abs.subs] in Hst'. rewrite all_gone in Hst'. split; [done|].
    rewrite Hac'. cbn. rewrite told_filter. cbn. by rewrite filter_all.
Qed.

(** No call but the drop frees a subscriber: one that left the list is leaked. *)
Lemma agps_calls_free_nothing m k m' p :
  reachable agps_step agps_init m → valid_call k → k ≠ DropAll → run_call k m = Some (tt, m') →
  is_Some (objs (env m) !! p) → is_Some (objs (env m') !! p).
Proof.
  intros (a & d & Ha & Hi)%reachable_inv Hv Hk Hrun.
  destruct (run_call_refines m a k Ha (proj1 Hi) Hv) as (m2 & Hrun' & _ & _ & Hd & _). simplify_eq. by apply Hd.
Qed.

(** when the modem restarts, the engine drops the subscribers of a machine:
    all of them are deallocated, once each, but the state is kept, so a machine
    that holds the connection keeps it, no client being able to release it. *)
Theorem dropAllSubscribers_spec m vs :
  stores m vs →
  ∃ m', dropAllSubscribers m = Some (tt, m') ∧ stores m' [] ∧ mStatePtr m' = mStatePtr m ∧
    acts (env m') = acts (env m) ∧
    (∀ p, objs (env m') !! p = if decide (p ∈ n_data <$> mSubscribers m) then None else objs (env m) !! p) ∧
    ∀ p s, objs (env m') !! p = Some s → ok_sub s → unsubscribeRsrc p m' = Some (false, m').
Proof.
  intros (Hvs & Hnd & Hub). eexists. split; [done|].
  destruct (flush_stores _ _ _ Hvs Hnd) as (Hac & Hub' & Hob). cbn.
  split; [split; [constructor|split; [constructor|cbn; congruence]]|].
  split; [done|]. split; [done|]. split; [done|]. intros p s _ _. done.
Qed.

(** ** A machine as its owner sees it

    Its configuration and its specification.  The engine drops the subscribers
    of a machine without a change of its state, which [inv] excludes; every
    method runs as specified from any state all the same. *)

Record link := Link { l_cfg : nif; l_single : bool; l_machine : Abs.machine }.

Definition linked (m : AgpsStateMachine) (l : link) : Prop :=
  cfg m = l_cfg l ∧ mEnforceSingleSubscriber m = l_single l ∧ abstracts m (l_machine l) ∧ subs_ok (l_machine l).

Definition link_call (k : call) (l : link) : link :=
  Link (cfg_call k (l_cfg l)) (l_single l) (abs_call (l_cfg l) (l_single l) k (l_machine l)).
Definition link_drop (l : link) : link :=
  Link (l_cfg l) (l_single l) (Abs.SM (Abs.state (l_machine l)) [] (Abs.acts (l_machine l))).
Definition new_link (ty bearer0 : Z) (single : bool) : link :=
  Link (Nif ty None bearer0) single (Abs.SM AgpsReleasedState [] []).

Lemma subs_ok_sub (a b : Abs.machine) : subs_ok a → (∀ t, t ∈ Abs.subs b → t ∈ Abs.subs a) → subs_ok b.
Proof. unfold subs_ok. rewrite !Forall_forall. auto. Qed.

Lemma subs_ok_notify c tg st del a : subs_ok a → subs_ok (Abs.notify c tg st del a).
Proof.
  intros Ha. apply (subs_ok_sub a); [done|]. intros t. unfold Abs.notify. destruct del; [|done].
  by intros [_ ?]%list_elem_of_filter.
Qed.

Lemma subs_ok_request c what a : subs_ok a → subs_ok (Abs.request c what a).
Proof. unfold subs_ok. by rewrite (proj1 (request_same c what a)). Qed.

Lemma subs_ok_add s a : ok_sub s → subs_ok a → subs_ok (Abs.add s a).
Proof. intros Hs Ha. unfold Abs.add. break_if; [done|]. constructor; [by apply ok_sub_clone|done]. Qed.

Lemma subs_ok_leave c i t a : Abs.subs a !! i = Some t → subs_ok a → subs_ok (Abs.leave c i t a).
Proof.
  intros Hi Ha. unfold Abs.leave. break_if; [|by apply subs_ok_notify].
  apply Forall_insert; [done|]. apply ok_sub_setInactive. by eapply Forall_lookup_1 in Ha.
Qed.

Hint Resolve subs_ok_notify subs_ok_request subs_ok_add subs_ok_leave : msm.

Lemma subs_ok_call c single k a : subs_ok a → valid_call k → subs_ok (abs_call c single k a).
Proof.
  intros Ha Hk. destruct k as [s|s|ev| | |]; cbn [abs_call]; try done.
  - unfold Abs.subscribe. break_if; [done|]. break_match; auto with msm.
    by apply subs_ok_request, subs_ok_add.
  - unfold Abs.unsubscribe. destruct (list_find _ _) as [[i t]|] eqn:Hf; [|done]. cbn [snd].
    apply list_find_Some in Hf as (Hi & _ & _).
    pose proof (subs_ok_leave c i t a Hi Ha) as Hl.
    assert (subs_ok (Abs.settle c (Abs.leave c i t a))) as Hs.
    { unfold Abs.settle. repeat break_if; [by apply subs_ok_request..|done]. }
    destruct (Abs.state a); [done..|]. cbn zeta. by break_if.
  - unfold Abs.event. pose proof (λ tg del, subs_ok_notify c tg ev del a Ha) as Hn.
    destruct ev, (Abs.state a); try done; try apply Hn; cbn zeta; break_if; try apply Hn;
      by apply subs_ok_request, Hn.
  - constructor.
Qed.

Lemma linked_call m l k :
  linked m l → valid_call k → ∃ m', run_call k m = Some (tt, m') ∧ linked m' (link_call k l).
Proof.
  intros (Hcl & Hsl & Ha & Hok) Hk. destruct (run_call_refines m _ k Ha Hok Hk) as (m' & Hrun & Ha' & Hs & _ & Hc).
  exists m'. unfold link_call. rewrite <- Hcl, <- Hsl. split; [done|]. split; [done|]. split; [done|]. split; [done|by apply subs_ok_call].
Qed.

Lemma linked_unsubscribe m l s :
  linked m l → ok_sub s →
  ∃ m', with_stack s unsubscribeRsrc m = Some ((Abs.unsubscribe (l_cfg l) s (l_machine l)).1, m') ∧
    linked m' (link_call (Unsubscribe s) l).
Proof.
  intros Hl Hs. destruct (linked_call m l (Unsubscribe s) Hl Hs) as (m' & Hrun & Hl').
  destruct Hl as (<- & _ & Ha & Hok).
  destruct (with_stack_refines unsubscribeRsrc m _ s (Abs.unsubscribe (cfg m) s (l_machine l)).1
    (Abs.unsubscribe (cfg m) s (l_machine l)).2 Ha) as (m2 & Hrun2 & _).
  { intros p m1 Ha1 Hc Hs1 Hp Hout. rewrite <- Hc. by apply unsubscribeRsrc_refines. }
  cbn [run_call] in Hrun. rewrite (st_bind_some _ _ _ _ _ Hrun2) in Hrun. injection Hrun as ->.
  by exists m'.
Qed.

Lemma linked_drop m l : linked m l → ∃ m', dropAllSubscribers m = Some (tt, m') ∧ linked m' (link_drop l).
Proof.
  intros (Hc & Hsg & ((Hvs & Hnd & Hub) & Hst & Hac) & _). eexists. split; [done|].
  destruct (flush_stores _ _ _ Hvs Hnd) as (Hac' & Hub' & _).
  split; [done|]. split; [done|]. split; [|constructor].
  split; [split; [constructor|split; [constructor|cbn; congruence]]|]. split; [done|cbn; congruence].
Qed.

Lemma linked_new ty bearer0 single :
  linked (new_AgpsStateMachine ty bearer0 single (World ∅ [] false)) (new_link ty bearer0 single).
Proof.
  split; [done|]. split; [done|]. split; [|constructor].
  split; [|done]. split; [constructor|]. split; [constructor|done].
Qed.

(** ** A concrete machine *)

Definition demo_run (k : call) (m : AgpsStateMachine) : AgpsStateMachine :=
  match run_call k m with Some (_, m') => m' | None => m end.

Definition demo_atl : Subscriber := new_ATLSubscriber 5 9%positive false.
Definition demo_bit : Subscriber := new_BITSubscriber (replicate 16 7) 167772161 None.
Definition demo_m0 : AgpsStateMachine := new_AgpsStateMachine 1 0 false (World ∅ [] false).
Definition demo_m1 : AgpsStateMachine := demo_run (Subscribe demo_atl) demo_m0.
Definition demo_pending : AgpsStateMachine := demo_run (Subscribe demo_bit) demo_m1.
Definition demo_acquired : AgpsStateMachine := demo_run (Event RSRC_GRANTED) demo_pending.

Lemma demo_step k m m' : valid_call k → run_call k m = Some (tt, m') → agps_step m m'.
Proof. intros Hv Hr. by exists k. Qed.

Lemma demo_ok : ok_sub demo_atl ∧ ok_sub demo_bit.
Proof. split; [vm_compute; discriminate|split; reflexivity]. Qed.

Lemma demo_reachable_pending : reachable agps_step agps_init demo_pending.
Proof.
  apply (reachable_step _ _ demo_m1); [apply (reachable_step _ _ demo_m0)|].
  - exists demo_m0. split; [by eexists _, _, _|reflexivity].
  - apply (demo_step (Subscribe demo_atl)); [apply demo_ok|vm_compute; reflexivity].
  - apply (demo_step (Subscribe demo_bit)); [apply demo_ok|vm_compute; reflexivity].
Qed.

Lemma demo_stores_pending : stores demo_pending [demo_bit; demo_atl].
Proof.
  split; [|split; [|reflexivity]].
  - vm_compute. repeat constructor.
  - apply (bool_decide_unpack _). vm_compute. reflexivity.
Qed.

Lemma demo_stores_acquired : stores demo_acquired [demo_bit; demo_atl].
Proof.
  split; [|split; [|reflexivity]].
  - vm_compute. repeat constructor.
  - apply (bool_decide_unpack _). vm_compute. reflexivity.
Qed.

Lemma agps_refines_witness :
  ∃ m', run_call (Unsubscribe demo_atl) demo_pending = Some (tt, m') ∧
    abstracts m' (abs_call (cfg demo_pending) false (Unsubscribe demo_atl)
      (Abs.SM AgpsPendingState [demo_bit; demo_atl] (acts (env demo_pending)))).
Proof.
  apply (agps_refines demo_pending).
  - split; [exact demo_stores_pending|by split].
  - constructor; [apply demo_ok|]. constructor; [apply demo_ok|constructor].
  - apply demo_ok.
Defined.

Lemma demo_history_pending : reachable agps_hstep agps_hinit (demo_pending, false).
Proof.
  apply (reachable_step _ _ (demo_m1, false)); [apply (reachable_step _ _ (demo_m0, false))|].
  - exists (demo_m0, false). split; [split; [by eexists _, _, _|done]|reflexivity].
  - exists (Subscribe demo_atl). split; [apply demo_ok|by vm_compute].
  - exists (Subscribe demo_bit). split; [apply demo_ok|by vm_compute].
Qed.
(** The modem restarts while the request is pending. *)
Definition demo_dropped : AgpsStateMachine := demo_run DropAll demo_pending.
Lemma demo_history_dropped : reachable agps_hstep agps_hinit (demo_dropped, true).
Proof.
  apply (reachable_step _ _ (demo_pending, false)); [apply demo_history_pending|].
  exists DropAll. split; [done|by vm_compute].
Qed.

Lemma agps_invariant_witness :
  (∃ vs, stores demo_pending vs ∧ Exists (λ t, isInactive t = false) vs) ∧
  mStatePtr demo_dropped = AgpsPendingState ∧ ∃ vs, stores demo_dropped vs ∧
    (Exists (λ t, isInactive t = false) vs ∨ (true = true ∧ vs = [])).
Proof.
  destruct (agps_invariant demo_pending false demo_history_pending) as (vs & Hs & _ & _ & Hv).
  destruct (agps_invariant demo_dropped true demo_history_dropped) as (vs' & Hs' & _ & _ & Hv').
  split; [|split; [vm_compute; reflexivity|]].
  - exists vs. split; [exact Hs|]. destruct Hv as [Hv|[Hv _]]; [exact Hv|discriminate].
  - exists vs'. split; [exact Hs'|exact Hv'].
Defined.

Lemma agps_request_protocol_witness :
  ∃ l, acts (env demo_acquired) = acts (env demo_pending) ++ l ∧ requests l = [].
Proof.
  apply (agps_request_protocol demo_pending (Event RSRC_GRANTED) demo_acquired demo_reachable_pending I).
  vm_compute. reflexivity.
Defined.

Lemma notifySubscribers_spec_witness :
  ∃ m', notifySubscribers (to_group BROADCAST_ALL RSRC_DENIED true) demo_pending = Some (tt, m') ∧
    stores m' [] ∧
    acts (env m') = acts (env demo_pending) ++
      [DataConn 2 GPSONE_LOC_API_IF_FAILURE; AtlOpen 9 5 0 None 0 1] ∧
    objs (env m') = objs (env demo_pending) ∧ mStatePtr m' = AgpsPendingState.
Proof.
  exact (notifySubscribers_spec demo_pending _ (to_group BROADCAST_ALL RSRC_DENIED true)
    (Abs.ToGroup BROADCAST_ALL) demo_stores_pending eq_refl eq_refl).
Defined.

Lemma agps_answers_witness :
  (∃ m', onRsrcEvent RSRC_GRANTED demo_pending = Some (tt, m') ∧ mStatePtr m' = AgpsAcquiredState ∧
     stores m' [demo_bit; demo_atl] ∧
     acts (env m') = acts (env demo_pending) ++
       [DataConn 2 GPSONE_LOC_API_IF_REQUEST_SUCCESS; AtlOpen 9 5 1 None 0 1]) ∧
  (∃ m', onRsrcEvent RSRC_DENIED demo_pending = Some (tt, m') ∧ mStatePtr m' = AgpsReleasedState ∧
     stores m' [] ∧
     acts (env m') = acts (env demo_pending) ++
       [DataConn 2 GPSONE_LOC_API_IF_FAILURE; AtlOpen 9 5 0 None 0 1]).
Proof. exact (proj1 (agps_answers demo_pending _ demo_stores_pending) eq_refl). Defined.

Lemma dropAllSubscribers_spec_witness :
  ∃ m', dropAllSubscribers demo_acquired = Some (tt, m') ∧ stores m' [] ∧
    mStatePtr m' = AgpsAcquiredState ∧ acts (env m') = acts (env demo_acquired) ∧
    (∀ p, objs (env m') !! p = if decide (p ∈ n_data <$> mSubscribers demo_acquired) then None
                               else objs (env demo_acquired) !! p) ∧
    ∀ p s, objs (env m') !! p = Some s → ok_sub s → unsubscribeRsrc p m' = Some (false, m').
Proof. exact (dropAllSubscribers_spec demo_acquired _ demo_stores_acquired). Defined.
