(* ===== verification/AgpsStates.v ===== *)
(** * The state objects of a connection machine: loc_eng_agps.cpp

    [Agps.v] lets a machine hold its state as a value.  In the code a state is
    an object with pointers to the objects of the four states, set up by the
    constructor of the machine and freed by its destructor.  Here the objects
    are in a store: from each of them every pointer leads to the object of the
    state it is named after, so that values are enough, and the destructor
    frees the four of them, once each, from any state. *)

From S2P Require Import Prelude LinkedList Agps.
Local Open Scope Z_scope.

(** ** Objects *)

Record state_object := StateObject {
  so_class : AgpsState;
  mReleasedState : ptr;
  mAcquiredState : ptr;
  mPendingState : ptr;
  mReleasingState : ptr
}.

(** [mStatePtr] of the machine, and the store. *)
Record states := States { state_ptr : ptr; objects : gmap loc state_object }.
Abbreviation SM := (ST states).

Definition member (f : state_object → ptr) (p : ptr) : SM ptr :=
  st_read (λ g, p ← p; o ← objects g !! p; Some (f o)).
Definition set_member (f : state_object → state_object) (p : ptr) : SM unit := λ g,
  p ← p; o ← objects g !! p; Some (tt, States (state_ptr g) (<[p := f o]> (objects g))).

Definition to_released (q : ptr) (o : state_object) : state_object :=
  StateObject (so_class o) q (mAcquiredState o) (mPendingState o) (mReleasingState o).
Definition to_acquired (q : ptr) (o : state_object) : state_object :=
  StateObject (so_class o) (mReleasedState o) q (mPendingState o) (mReleasingState o).
Definition to_pending (q : ptr) (o : state_object) : state_object :=
  StateObject (so_class o) (mReleasedState o) (mAcquiredState o) q (mReleasingState o).
Definition to_releasing (q : ptr) (o : state_object) : state_object :=
  StateObject (so_class o) (mReleasedState o) (mAcquiredState o) (mPendingState o) q.

(** [new] of a state at the address [p]: the base class clears the pointers,
    the class sets its own. *)
Definition AgpsState_null (c : AgpsState) : state_object := StateObject c None None None None.
Definition new_state (c : AgpsState) (own : ptr → state_object → state_object) (p : loc) : SM ptr := λ g,
  Some (Some p, States (state_ptr g) (<[p := own (Some p) (AgpsState_null c)]> (objects g))).
Definition new_AgpsReleasedState : loc → SM ptr := new_state AgpsReleasedState to_released.
Definition new_AgpsPendingState : loc → SM ptr := new_state AgpsPendingState to_pending.
Definition new_AgpsAcquiredState : loc → SM ptr := new_state AgpsAcquiredState to_acquired.
Definition new_AgpsReleasingState : loc → SM ptr := new_state AgpsReleasingState to_releasing.

(** [delete]: a null pointer is ignored, a dead object is a fault. *)
Definition delete_state (p : ptr) : SM unit := λ g,
  match p with
  | None => Some (tt, g)
  | Some p => _ ← objects g !! p; Some (tt, States (state_ptr g) (delete p (objects g)))
  end.

(** ** The constructor and the destructor *)

(** [addr] is where [new] puts the object of each state. *)
Definition construct_states (addr : AgpsState → loc) : SM unit :=
  released ← new_AgpsReleasedState (addr AgpsReleasedState);
  _ ← st_modify (λ g, States released (objects g));
  let mStatePtr := st_get state_ptr in
  (* setting up mReleasedState *)
  pending ← new_AgpsPendingState (addr AgpsPendingState);
  s ← mStatePtr; _ ← set_member (to_pending pending) s;
  acquired ← new_AgpsAcquiredState (addr AgpsAcquiredState);
  s ← mStatePtr; _ ← set_member (to_acquired acquired) s;
  releasing ← new_AgpsReleasingState (addr AgpsReleasingState);
  s ← mStatePtr; _ ← set_member (to_releasing releasing) s;
  (* setting up mAcquiredState *)
  a ← member mAcquiredState s; _ ← set_member (to_released s) a;
  q ← member mPendingState s; _ ← set_member (to_pending q) a;
  q ← member mReleasingState s; _ ← set_member (to_releasing q) a;
  (* setting up mPendingState *)
  p ← member mPendingState s; q ← member mAcquiredState s; _ ← set_member (to_acquired q) p;
  _ ← set_member (to_released s) p;
  q ← member mReleasingState s; _ ← set_member (to_releasing q) p;
  (* setting up mReleasingState *)
  r ← member mReleasingState s; _ ← set_member (to_released s) r;
  q ← member mPendingState s; _ ← set_member (to_pending q) r;
  q ← member mAcquiredState s; set_member (to_acquired q) r.

Definition destroy_states : SM unit :=
  s ← st_get state_ptr;
  acquiredState ← member mAcquiredState s;
  releasedState ← member mReleasedState s;
  pendingState ← member mPendingState s;
  releasingState ← member mReleasingState s;
  _ ← delete_state acquiredState;
  _ ← delete_state releasedState;
  _ ← delete_state pendingState;
  delete_state releasingState.

(** The machine: [delete_AgpsStateMachine] after [dropAllSubscribers] the list
    is empty and its destruction frees the list alone. *)
Definition delete_AgpsStateMachine (m : AgpsStateMachine) (g : states) : option (AgpsStateMachine * states) :=
  '(_, m) ← dropAllSubscribers m;
  '(_, g) ← destroy_states g;
  Some (Machine (mType m) (mStatePtr m) (mSubscribers m) None (mAPNLen m) (mBearer m)
          (mEnforceSingleSubscriber m) (env m), g).

(** ** Wiring *)

(** The pointer of an object to the object of a state. *)
Definition pointer_to (c : AgpsState) (o : state_object) : ptr :=
  match c with
  | AgpsReleasedState => mReleasedState o
  | AgpsAcquiredState => mAcquiredState o
  | AgpsPendingState => mPendingState o
  | AgpsReleasingState => mReleasingState o
  end.

(** Each state has its object, with a pointer to that of each state. *)
Definition wired (addr : AgpsState → loc) (h : gmap loc state_object) : Prop :=
  ∀ c, ∃ o, h !! addr c = Some o ∧ so_class o = c ∧ ∀ c', pointer_to c' o = Some (addr c').

Section facts.
Context (addr : AgpsState → loc) (distinct : Inj (=) (=) addr).
Implicit Types h : gmap loc state_object.

Definition object_of (c : AgpsState) : state_object :=
  StateObject c (Some (addr AgpsReleasedState)) (Some (addr AgpsAcquiredState)) (Some (addr AgpsPendingState))
    (Some (addr AgpsReleasingState)).
Definition all_objects h : gmap loc state_object :=
  <[addr AgpsReleasedState := object_of AgpsReleasedState]>
  (<[addr AgpsAcquiredState := object_of AgpsAcquiredState]>
  (<[addr AgpsPendingState := object_of AgpsPendingState]>
  (<[addr AgpsReleasingState := object_of AgpsReleasingState]> h))).

Lemma run_member f p h g o : objects g = h → h !! p = Some o → member f (Some p) g = Some (f o, g).
Proof. intros <- Ho. unfold member, st_read. cbn [mbind option_bind]. by rewrite Ho. Qed.

Lemma run_set f p g o :
  objects g !! p = Some o → set_member f (Some p) g = Some (tt, States (state_ptr g) (<[p := f o]> (objects g))).
Proof. intros Ho. unfold set_member. cbn [mbind option_bind]. by rewrite Ho. Qed.

Lemma addr_ne c c' : c ≠ c' → addr c ≠ addr c'.
Proof. intros Hne Heq. by apply distinct in Heq. Qed.

(** The machine's constructor runs, in the state it starts in, and leaves the
    rest of the store alone. *)
Lemma construct_states_run g :
  ∃ g', construct_states addr g = Some (tt, g') ∧ state_ptr g' = Some (addr AgpsReleasedState) ∧
    objects g' = all_objects (objects g).
Proof.
  destruct g as [s h].
  pose proof (addr_ne AgpsReleasedState AgpsAcquiredState ltac:(done)).
  pose proof (addr_ne AgpsReleasedState AgpsPendingState ltac:(done)).
  pose proof (addr_ne AgpsReleasedState AgpsReleasingState ltac:(done)).
  pose proof (addr_ne AgpsAcquiredState AgpsPendingState ltac:(done)).
  pose proof (addr_ne AgpsAcquiredState AgpsReleasingState ltac:(done)).
  pose proof (addr_ne AgpsPendingState AgpsReleasingState ltac:(done)).
  unfold construct_states, all_objects, object_of. revert H H0 H1 H2 H3 H4.
  generalize (addr AgpsReleasedState) (addr AgpsAcquiredState) (addr AgpsPendingState) (addr AgpsReleasingState).
  intros r a p l Hra Hrp Hrl Hap Hal Hpl. unfold new_AgpsReleasedState, new_AgpsPendingState,
    new_AgpsAcquiredState, new_AgpsReleasingState, new_state, AgpsState_null.
  repeat (rewrite st_bind_run; unfold member, set_member, st_read;
    cbn [st_modify st_get mret ST_ret mbind option_bind objects state_ptr mReleasedState mAcquiredState mPendingState
      mReleasingState to_released to_acquired to_pending to_releasing so_class];
    simplify_map_eq).
  eexists. split; [done|]. split; [done|]. apply map_eq. intros q. cbn [objects].
  destruct (decide (q = r)) as [->|]; [by simplify_map_eq|]. destruct (decide (q = a)) as [->|]; [by simplify_map_eq|].
  destruct (decide (q = p)) as [->|]; [by simplify_map_eq|]. destruct (decide (q = l)) as [->|]; by simplify_map_eq.
Qed.

(** From every state, and only by pointers that are set. *)
Lemma construct_states_wired g :
  ∃ g', construct_states addr g = Some (tt, g') ∧ state_ptr g' = Some (addr AgpsReleasedState) ∧
    wired addr (objects g') ∧ ∀ q, (∀ c, q ≠ addr c) → objects g' !! q = objects g !! q.
Proof.
  destruct (construct_states_run g) as (g' & Hrun & Hs & Ho). exists g'. split; [done|]. split; [done|].
  rewrite Ho. unfold all_objects. split.
  - intros c. exists (object_of c). split; [|split; [by destruct c|by intros []]].
    destruct c; repeat first [by rewrite lookup_insert_eq | rewrite lookup_insert_ne by by apply addr_ne].
  - intros q Hq. rewrite !lookup_insert_ne by (symmetry; apply Hq). done.
Qed.

(** Whatever the state, the destructor reaches the four objects and frees each
    of them once. *)
Lemma destroy_states_run g c :
  wired addr (objects g) → state_ptr g = Some (addr c) →
  ∃ g', destroy_states g = Some (tt, g') ∧ (∀ c', objects g' !! addr c' = None) ∧
    ∀ q, (∀ c', q ≠ addr c') → objects g' !! q = objects g !! q.
Proof.
  intros Hw Hs. destruct (Hw c) as (o & Ho & _ & Hp).
  pose proof (Hp AgpsReleasedState) as Hr. pose proof (Hp AgpsAcquiredState) as Ha.
  pose proof (Hp AgpsPendingState) as Hpe. pose proof (Hp AgpsReleasingState) as Hl. cbn [pointer_to] in *.
  assert (∀ c', is_Some (objects g !! addr c')) as Hlive by (intros c'; destruct (Hw c') as (o' & -> & _); by eexists).
  assert (∀ c' h' st, (∃ o', h' !! addr c' = Some o') → delete_state (Some (addr c')) (States st h') =
    Some (tt, States st (delete (addr c') h'))) as Hdel.
  { intros c' h' st (o' & Ho'). unfold delete_state. cbn [objects]. by rewrite Ho'. }
  unfold destroy_states. rewrite st_bind_run. unfold st_get. cbn beta iota. rewrite Hs.
  do 4 (rewrite (st_bind_some _ _ _ _ _ (run_member _ _ _ _ _ eq_refl Ho))). rewrite Ha, Hr, Hpe, Hl.
  destruct g as [st h]. cbn [objects] in *.
  assert (∀ c1 c2 h', c1 ≠ c2 → (∃ o', h' !! addr c1 = Some o') → ∃ o', delete (addr c2) h' !! addr c1 = Some o') as Hkeep.
  { intros c1 c2 h' Hne (o' & Ho'). exists o'. rewrite lookup_delete_ne; [done|]. by apply addr_ne. }
  pose proof (Hdel AgpsAcquiredState h st (Hlive _)) as H1.
  pose proof (Hdel AgpsReleasedState (delete (addr AgpsAcquiredState) h) st) as H2.
  pose proof (Hdel AgpsPendingState (delete (addr AgpsReleasedState) (delete (addr AgpsAcquiredState) h)) st) as H3.
  st_step H1. st_step (H2 ltac:(repeat (apply Hkeep; [done|]); apply Hlive)).
  st_step (H3 ltac:(repeat (apply Hkeep; [done|]); apply Hlive)).
  rewrite Hdel by (repeat (apply Hkeep; [done|]); apply Hlive).
  eexists. split; [done|]. cbn [objects]. split.
  - intros c'. rewrite !lookup_delete_None. destruct c'; auto.
  - intros q Hq. by rewrite !lookup_delete_ne by (symmetry; apply Hq).
Qed.

(** The destructor of a machine gives back its subscribers, its states and its
    APN, once each, in whatever state it is. *)
Lemma delete_AgpsStateMachine_run m vs g :
  stores m vs → wired addr (objects g) → state_ptr g = Some (addr (mStatePtr m)) →
  ∃ m' g', delete_AgpsStateMachine m g = Some (m', g') ∧ mSubscribers m' = [] ∧ mAPN m' = None ∧
    (∀ p, objs (env m') !! p = if decide (p ∈ n_data <$> mSubscribers m) then None else objs (env m) !! p) ∧
    ∀ c, objects g' !! addr c = None.
Proof.
  intros (Hvs & Hnd & Hub) Hw Hs. destruct (destroy_states_run g _ Hw Hs) as (g' & Hrun & Hfree & _).
  destruct (flush_stores _ _ _ Hvs Hnd) as (_ & _ & Hob).
  unfold delete_AgpsStateMachine. cbn [dropAllSubscribers st_modify mbind option_bind]. rewrite Hrun.
  eexists _, g'. split; [done|]. split; [done|]. split; [done|]. split; [exact Hob|exact Hfree].
Qed.
End facts.

(** ** A concrete machine *)

Definition demo_addr (c : AgpsState) : loc :=
  match c with AgpsReleasedState => 1 | AgpsPendingState => 2 | AgpsAcquiredState => 3 | AgpsReleasingState => 4 end.
#[local] Instance demo_addr_inj : Inj (=) (=) demo_addr.
Proof. by intros [] []. Qed.

Example demo_destroyed :
  (_ ← construct_states demo_addr; destroy_states) (States None ∅) = Some (tt, States (Some 1%positive) ∅).
Proof. reflexivity. Qed.
