(* ===== verification/DmnPipe.v ===== *)
(** * Messages over named pipes: loc_eng_dmn_conn_glue_pipe.c and _glue_msg.c

    A pipe is a queue of bytes; how much of a [read] or [write] the kernel
    performs is its choice ([Kernel], bounded as read(2) and write(2) say).  A
    message starts with its own size, a [size_t] of the 32-bit ARM this tree is
    built for. *)

From S2P Require Import Prelude.
Local Open Scope Z_scope.

(** ** The system calls *)

(** The results of the [n]-th call: -1, or the number of bytes transferred. *)
Class Kernel := {
  k_write : nat → Z → Z;
  k_read : nat → Z → Z → Z;
  k_write_ok : ∀ n sz, 0 <= sz → -1 <= k_write n sz <= sz;
  k_read_ok : ∀ n avail sz, 0 <= avail → 0 <= sz → -1 <= k_read n avail sz <= Z.min avail sz
}.

Inductive syscall :=
| Mkfifo (path : string) (mode : Z)
| Open (path : string) (mode : Z)
| Close (fd : Z)
| Unlink (path : string)
| Chmod (path : string) (mode : Z)
| Chown (path : string) (uid gid : Z)
| SetLk (fd : Z).

(** [pipes] are those the process has open, by descriptor, with the bytes in
    them. *)
Record os := OS {
  pipes : gmap Z (list Z);
  calls : nat;
  sys_log : list syscall
}.

Definition log_call (c : syscall) : ST os unit :=
  st_modify (λ s, OS (pipes s) (calls s) (sys_log s ++ [c])).

(** [open] gives a descriptor, or -1, for a pipe that may hold bytes; [close]
    gives it back. *)
Definition sys_open (path : string) (mode fd : Z) (content : list Z) : ST os Z :=
  _ ← log_call (Open path mode);
  _ ← st_modify (λ s, OS (if fd <? 0 then pipes s else <[fd := content]> (pipes s)) (calls s) (sys_log s));
  mret fd.
Definition sys_close (fd : Z) : ST os unit :=
  _ ← log_call (Close fd); st_modify (λ s, OS (delete fd (pipes s)) (calls s) (sys_log s)).

(** A buffer of [n] bytes written at [off]; outside the buffer it is a fault. *)
Definition poke (buf : list Z) (off : nat) (bs : list Z) : option (list Z) :=
  if decide (off + length bs ≤ length buf)%nat
  then Some (take off buf ++ bs ++ drop (off + length bs) buf) else None.

Definition of_option {S A} (o : option A) : ST S A :=
  match o with Some a => mret a | None => st_fault end.

Definition sizeof_size_t : nat := 4.

(** Little-endian bytes of an unsigned number, and back. *)
Fixpoint to_le (n : nat) (x : Z) : list Z :=
  match n with O => [] | S n => x mod 256 :: to_le n (x / 256) end.
Fixpoint of_le (bs : list Z) : Z :=
  match bs with [] => 0 | b :: bs => b + 256 * of_le bs end.

Section operations.
Context `{Kernel}.

(** ** loc_eng_dmn_conn_glue_pipe.c *)

(** [mkfifo_rc] and [eexist] are what [mkfifo] answers, [fd] what [open] does,
    on a pipe that holds [content]. *)
Definition loc_eng_dmn_conn_glue_pipeget (mkfifo_rc : Z) (eexist : bool) (fd : Z) (content : list Z)
    (pipe_name : string) (mode : Z) : ST os Z :=
  _ ← log_call (Mkfifo pipe_name 438);
  if (mkfifo_rc =? -1) && negb eexist then mret mkfifo_rc
  else sys_open pipe_name mode fd content.

Definition loc_eng_dmn_conn_glue_piperemove (pipe_name : option string) (fd : Z) : ST os Z :=
  _ ← sys_close fd;
  _ ← (match pipe_name with Some p => log_call (Unlink p) | None => mret tt end);
  mret 0.

(** [write] of [sz] bytes of [buf]. *)
Definition loc_eng_dmn_conn_glue_pipewrite (fd : Z) (buf : list Z) (sz : Z) : ST os Z := λ s,
  if decide (sz <= Z.of_nat (length buf)) then
    match pipes s !! fd with
    | None => Some (-1, OS (pipes s) (S (calls s)) (sys_log s))
    | Some q =>
        let n := k_write (calls s) sz in
        Some (int32 n, OS (<[fd := q ++ take (Z.to_nat n) buf]> (pipes s)) (S (calls s)) (sys_log s))
    end
  else None.

(** [read] of at most [sz] bytes to offset [off] of [buf]. *)
Definition loc_eng_dmn_conn_glue_piperead (fd : Z) (buf : list Z) (off : nat) (sz : Z) :
    ST os (Z * list Z) := λ s,
  match pipes s !! fd with
  | None => Some ((-1, buf), OS (pipes s) (S (calls s)) (sys_log s))
  | Some q =>
      let n := k_read (calls s) (Z.of_nat (length q)) sz in
      match poke buf off (take (Z.to_nat n) q) with
      | None => None
      | Some buf' =>
          Some ((int32 n, buf'),
            OS (<[fd := drop (Z.to_nat n) q]> (pipes s)) (S (calls s)) (sys_log s))
      end
  end.

Definition loc_eng_dmn_conn_glue_pipeunblock (fcntl_rc fd : Z) : ST os Z :=
  _ ← log_call (SetLk fd); mret fcntl_rc.

(** ** loc_eng_dmn_conn_glue_msg.c *)

Definition loc_eng_dmn_conn_glue_msgget (mkfifo_rc : Z) (eexist : bool) (fd : Z)
    (content : list Z) (q_path : string) (mode : Z) : ST os Z :=
  loc_eng_dmn_conn_glue_pipeget mkfifo_rc eexist fd content q_path mode.

Definition loc_eng_dmn_conn_glue_msgremove (q_path : option string) (msgqid : Z) : ST os Z :=
  loc_eng_dmn_conn_glue_piperemove q_path msgqid.

(** [pmsg->msgsz] *)
Definition msgsz_of (buf : list Z) : Z := of_le (take sizeof_size_t buf).

(** The caller's buffer is stamped with the size and handed back. *)
Definition loc_eng_dmn_conn_glue_msgsnd (msgqid : Z) (msgp : list Z) (msgsz : Z) :
    ST os (Z * list Z) :=
  buf ← of_option (poke msgp 0 (to_le sizeof_size_t msgsz));
  result ← loc_eng_dmn_conn_glue_pipewrite msgqid buf msgsz;
  if negb (result =? int32 msgsz) then mret (-1, buf) else mret (result, buf).

Definition loc_eng_dmn_conn_glue_msgrcv (msgqid : Z) (msgp : list Z) (msgbufsz : Z) :
    ST os (Z * list Z) :=
  '(result, buf) ← loc_eng_dmn_conn_glue_piperead msgqid msgp 0 (Z.of_nat sizeof_size_t);
  if negb (uint32 result =? Z.of_nat sizeof_size_t) then mret (-1, buf)
  else if msgbufsz <? msgsz_of buf then mret (-1, buf)
  else
    let rest := uint32 (msgsz_of buf - Z.of_nat sizeof_size_t) in
    '(result, buf') ← loc_eng_dmn_conn_glue_piperead msgqid buf sizeof_size_t rest;
    if negb (result =? int32 rest) then mret (-1, buf')
    else mret (int32 (msgsz_of buf'), buf').

Definition loc_eng_dmn_conn_glue_msgunblock (fcntl_rc msgqid : Z) : ST os Z :=
  loc_eng_dmn_conn_glue_pipeunblock fcntl_rc msgqid.

(** The [do ... while(length)] loop; [fuel] bounds its iterations. *)
Fixpoint loc_eng_dmn_conn_glue_msgflush (fuel : nat) (msgqid : Z) (buf : list Z) : ST os Z :=
  match fuel with
  | O => st_fault
  | S fuel =>
      '(length, buf) ← loc_eng_dmn_conn_glue_piperead msgqid buf 0 128;
      if truth length then loc_eng_dmn_conn_glue_msgflush fuel msgqid buf else mret length
  end.
End operations.

(** ** Numbers and buffers *)

Lemma length_to_le n x : length (to_le n x) = n.
Proof. revert x. induction n as [|n IH]; intros x; cbn; [done|]. by rewrite IH. Qed.

Lemma of_to_le n x : 0 <= x < 256 ^ Z.of_nat n → of_le (to_le n x) = x.
Proof.
  revert x. induction n as [|n IH]; intros x Hx.
  - cbn in *. lia.
  - cbn [to_le of_le]. rewrite IH.
    + pose proof (Z.div_mod x 256). lia.
    + rewrite Nat2Z.inj_succ, Z.pow_succ_r in Hx by lia. split; [apply Z.div_pos; lia|].
      apply Z.div_lt_upper_bound; lia.
Qed.

Lemma poke_some buf off bs :
  (off + length bs ≤ length buf)%nat →
  poke buf off bs = Some (take off buf ++ bs ++ drop (off + length bs) buf).
Proof. intros Hl. unfold poke. by rewrite decide_True. Qed.

Lemma poke_length buf off bs buf' : poke buf off bs = Some buf' → length buf' = length buf.
Proof.
  unfold poke. case_decide as Hl; [|done]. intros [= <-].
  rewrite !length_app, length_take, length_drop. lia.
Qed.

Lemma msgsz_of_poke buf n buf' :
  0 <= n < 2 ^ 32 → poke buf 0 (to_le sizeof_size_t n) = Some buf' → msgsz_of buf' = n.
Proof.
  intros Hn. unfold poke. case_decide; [|done]. intros [= <-]. unfold msgsz_of.
  exact (of_to_le 4 n Hn).
Qed.

(** ** One message *)

Section proofs.
Context `{Kernel}.
Implicit Types (s : os) (q buf : list Z).

Definition stamp (msgp : list Z) (msgsz : Z) : list Z :=
  to_le sizeof_size_t msgsz ++ drop sizeof_size_t msgp.

Lemma length_stamp msgp msgsz :
  (sizeof_size_t ≤ length msgp)%nat → length (stamp msgp msgsz) = length msgp.
Proof. intros Hl. unfold stamp. rewrite length_app, length_to_le, length_drop. lia. Qed.

Lemma run_poke_stamp msgp msgsz s :
  (sizeof_size_t ≤ length msgp)%nat →
  of_option (poke msgp 0 (to_le sizeof_size_t msgsz)) s = Some (stamp msgp msgsz, s).
Proof.
  intros Hl. rewrite poke_some by (rewrite length_to_le; lia). rewrite length_to_le. done.
Qed.

Lemma int32_small x : 0 <= x < 2 ^ 31 → int32 x = x.
Proof. intros Hx. apply swrap_id; lia. Qed.

Lemma int32_inj_small x y : -1 <= x < 2 ^ 31 → -1 <= y < 2 ^ 31 → (int32 x =? int32 y) = (x =? y).
Proof. intros Hx Hy. by rewrite !swrap_id by lia. Qed.

Lemma piperead_eq s fd q buf off sz :
  pipes s !! fd = Some q →
  loc_eng_dmn_conn_glue_piperead fd buf off sz s =
    let n := k_read (calls s) (Z.of_nat (length q)) sz in
    match poke buf off (take (Z.to_nat n) q) with
    | None => None
    | Some buf' => Some ((int32 n, buf'),
        OS (<[fd := drop (Z.to_nat n) q]> (pipes s)) (S (calls s)) (sys_log s))
    end.
Proof. intros Hq. unfold loc_eng_dmn_conn_glue_piperead. by rewrite Hq. Qed.

(** A read that fits the buffer. *)
Lemma run_piperead s fd q buf off sz :
  pipes s !! fd = Some q → (off + Z.to_nat sz ≤ length buf)%nat → 0 <= sz < 2 ^ 31 →
  ∃ n, n = k_read (calls s) (Z.of_nat (length q)) sz ∧ -1 <= n <= Z.min (Z.of_nat (length q)) sz ∧
    loc_eng_dmn_conn_glue_piperead fd buf off sz s =
      Some ((n, take off buf ++ take (Z.to_nat n) q ++ drop (off + Z.to_nat n) buf),
            OS (<[fd := drop (Z.to_nat n) q]> (pipes s)) (S (calls s)) (sys_log s)).
Proof.
  intros Hq Hl Hsz. unfold loc_eng_dmn_conn_glue_piperead. rewrite Hq.
  pose proof (k_read_ok (calls s) (Z.of_nat (length q)) sz ltac:(lia) ltac:(lia)) as Hn.
  set (n := k_read _ _ _) in *. exists n. split; [done|]. split; [done|].
  rewrite poke_some by (rewrite length_take; lia).
  rewrite swrap_id by lia. rewrite length_take, Nat.min_l by lia. done.
Qed.

(** [msgsnd] stamps the message with its size; it reports the size if the
    whole message entered the pipe and -1 if only a part did, and never
    touches another pipe. *)
Theorem msgsnd_spec s fd q msgp msgsz :
  pipes s !! fd = Some q →
  Z.of_nat sizeof_size_t <= msgsz <= Z.of_nat (length msgp) → msgsz < 2 ^ 31 →
  ∃ r n s', loc_eng_dmn_conn_glue_msgsnd fd msgp msgsz s = Some ((r, stamp msgp msgsz), s') ∧
    pipes s' = <[fd := q ++ take n (stamp msgp msgsz)]> (pipes s) ∧
    ((r = msgsz ∧ n = Z.to_nat msgsz) ∨ (r = -1 ∧ (n < Z.to_nat msgsz)%nat)).
Proof.
  intros Hq Hsz Hmax. unfold sizeof_size_t in Hsz. unfold loc_eng_dmn_conn_glue_msgsnd.
  rewrite (st_bind_some _ _ _ _ _ (run_poke_stamp msgp msgsz s ltac:(unfold sizeof_size_t; lia))).
  unfold loc_eng_dmn_conn_glue_pipewrite. rewrite st_bind_run.
  rewrite decide_True by (rewrite length_stamp; unfold sizeof_size_t; lia). rewrite Hq.
  pose proof (k_write_ok (calls s) msgsz ltac:(lia)) as Hn. set (n := k_write _ _) in *.
  rewrite int32_inj_small by lia. destruct (Z.eqb_spec n msgsz) as [Heq|Hne]; cbn [negb];
    eexists _, (Z.to_nat n), _; (split; [done|]); (split; [done|]).
  - left. rewrite swrap_id by lia. by rewrite Heq.
  - right. split; [done|lia].
Qed.

(** Every [read] transfers what is there, up to the count. *)
Definition reads_whole : Prop :=
  ∀ n avail sz, 0 <= avail → 0 <= sz → k_read n avail sz = Z.min avail sz.

Lemma msgsz_of_prefix n q rest :
  (sizeof_size_t ≤ n)%nat → (n ≤ length q)%nat → msgsz_of (take n q ++ rest) = msgsz_of q.
Proof.
  intros Hn Hl. unfold msgsz_of, sizeof_size_t in *. f_equal.
  rewrite take_app_le by (rewrite length_take; lia). rewrite take_take. f_equal. lia.
Qed.

Lemma read_both (q buf : list Z) n m :
  (n + m ≤ length q)%nat → (n + m ≤ length buf)%nat →
  take n (take n q ++ drop n buf) ++ take m (drop n q) ++ drop (n + m) (take n q ++ drop n buf) =
  take (n + m) q ++ drop (n + m) buf.
Proof.
  intros Hq Hb. rewrite take_app_length' by (rewrite length_take; lia).
  rewrite (assoc_L (++)), take_take_drop. f_equal.
  rewrite drop_app_ge by (rewrite length_take; lia). rewrite drop_drop, length_take. f_equal. lia.
Qed.

Lemma msgrcv_run s fd q buf :
  pipes s !! fd = Some q → (sizeof_size_t ≤ length buf)%nat → Z.of_nat (length buf) < 2 ^ 31 →
  Z.of_nat sizeof_size_t <= msgsz_of q ∨ (length q < sizeof_size_t)%nat →
  ∃ r buf' s', loc_eng_dmn_conn_glue_msgrcv fd buf (Z.of_nat (length buf)) s = Some ((r, buf'), s') ∧
    length buf' = length buf ∧
    ((r = -1 ∧ (∃ n, pipes s' = <[fd := drop n q]> (pipes s)) ∧
      ¬ (reads_whole ∧ Z.of_nat sizeof_size_t <= msgsz_of q <= Z.of_nat (length buf) ∧
           msgsz_of q <= Z.of_nat (length q))) ∨
     (r = msgsz_of q ∧ r <= Z.of_nat (length q) ∧
      buf' = take (Z.to_nat r) q ++ drop (Z.to_nat r) buf ∧
      pipes s' = <[fd := drop (Z.to_nat r) q]> (pipes s))).
Proof.
  intros Hq Hl Hmax Hmsg. unfold loc_eng_dmn_conn_glue_msgrcv. unfold sizeof_size_t in Hl, Hmsg |- *.
  destruct (run_piperead s fd q buf 0 4 Hq) as (n & Hnk & Hn & Hrun); [lia..|].
  rewrite take_0, app_nil_l in Hrun. cbn [Nat.add] in Hrun.
  rewrite (st_bind_some _ _ _ _ _ Hrun). clear Hrun.
  set (s1 := OS _ _ _). set (buf1 := take (Z.to_nat n) q ++ drop (Z.to_nat n) buf).
  assert (length buf1 = length buf) as Hl1.
  { unfold buf1. rewrite length_app, length_take, length_drop. lia. }
  destruct (Z.eqb_spec (uint32 n) (Z.of_nat 4)) as [Hn4|Hn4]; cbn [negb].
  2:{ eexists _, _, _. split; [done|]. split; [done|]. left. split; [done|].
      split; [by exists (Z.to_nat n)|]. intros (Hw & Hfit & Hall). rewrite Hw in Hnk by lia.
      apply Hn4. rewrite uwrap_id; lia. }
  assert (n = 4) as ->.
  { destruct (decide (n = -1)) as [->|]; [done|]. rewrite uwrap_id in Hn4; lia. }
  assert (msgsz_of buf1 = msgsz_of q) as Hms.
  { apply msgsz_of_prefix; unfold sizeof_size_t; lia. }
  rewrite Hms. destruct Hmsg as [Hmsg|]; [|lia].
  destruct (Z.ltb_spec (Z.of_nat (length buf)) (msgsz_of q)) as [Hbig|Hfit].
  { eexists _, _, _. split; [done|]. split; [done|]. left. split; [done|].
    split; [by exists 4%nat|lia]. }
  rewrite uwrap_id by lia.
  assert (pipes s1 !! fd = Some (drop 4 q)) as Hq1 by (cbn; by rewrite lookup_insert_eq).
  destruct (run_piperead s1 fd (drop 4 q) buf1 4 (msgsz_of q - Z.of_nat 4) Hq1) as (k & Hkk & Hk & Hrun); [lia..|].
  rewrite (st_bind_some _ _ _ _ _ Hrun). clear Hrun. rewrite length_drop in Hk, Hkk.
  set (buf2 := take 4 buf1 ++ _).
  assert (length buf2 = length buf) as Hl2.
  { unfold buf2. rewrite !length_app, !length_take, !length_drop. lia. }
  assert (pipes (OS (<[fd:=drop (Z.to_nat k) (drop 4 q)]> (pipes s1)) (S (calls s1)) (sys_log s1)) =
    <[fd := drop (4 + Z.to_nat k) q]> (pipes s)) as Hp.
  { cbn. by rewrite insert_insert_eq, drop_drop. }
  rewrite (swrap_id 32 (msgsz_of q - Z.of_nat 4)) by lia.
  destruct (Z.eqb_spec k (msgsz_of q - Z.of_nat 4)) as [->|Hne]; cbn [negb].
  2:{ eexists _, _, _. split; [done|]. split; [done|]. left. split; [done|].
      split; [by eexists|]. intros (Hw & _ & Hall). rewrite Hw in Hkk; lia. }
  assert (buf2 = take (Z.to_nat (msgsz_of q)) q ++ drop (Z.to_nat (msgsz_of q)) buf) as Hb2.
  { unfold buf2, buf1. replace (Z.to_nat (msgsz_of q)) with (4 + Z.to_nat (msgsz_of q - Z.of_nat 4))%nat by lia.
    apply read_both; lia. }
  assert (msgsz_of buf2 = msgsz_of q) as Hm2.
  { rewrite Hb2. apply msgsz_of_prefix; unfold sizeof_size_t; lia. }
  eexists _, _, _. split; [done|]. split; [done|]. right. rewrite Hm2, swrap_id by lia.
  split; [done|]. split; [lia|]. split; [done|]. rewrite Hp. do 2 f_equal. lia.
Qed.

(** [msgrcv] on a pipe whose next message claims at least its own header
    never writes outside the buffer; it returns either the next message, whole
    and removed from the pipe, or -1, which needs a short read, a message that
    is not all there or one that exceeds the buffer. *)
Theorem msgrcv_spec s fd q buf :
  pipes s !! fd = Some q → (sizeof_size_t ≤ length buf)%nat → Z.of_nat (length buf) < 2 ^ 31 →
  Z.of_nat sizeof_size_t <= msgsz_of q ∨ (length q < sizeof_size_t)%nat →
  ∃ r buf' s', loc_eng_dmn_conn_glue_msgrcv fd buf (Z.of_nat (length buf)) s = Some ((r, buf'), s') ∧
    length buf' = length buf ∧
    ((r = -1 ∧ (∃ n, pipes s' = <[fd := drop n q]> (pipes s)) ∧
      ¬ (reads_whole ∧ Z.of_nat sizeof_size_t <= msgsz_of q <= Z.of_nat (length buf) ∧
           msgsz_of q <= Z.of_nat (length q))) ∨
     (r = msgsz_of q ∧ r <= Z.of_nat (length q) ∧
      buf' = take (Z.to_nat r) q ++ drop (Z.to_nat r) buf ∧
      pipes s' = <[fd := drop (Z.to_nat r) q]> (pipes s))).
Proof. apply msgrcv_run. Qed.

(** A message that claims to be shorter than its header makes the count of the
    second [read] wrap: what follows in the pipe overruns the buffer. *)
Lemma msgrcv_short_header_overruns s fd q buf :
  reads_whole →
  pipes s !! fd = Some q → (sizeof_size_t ≤ length buf)%nat →
  0 <= msgsz_of q < Z.of_nat sizeof_size_t → (length buf < length q)%nat → Z.of_nat (length q) < 2 ^ 31 →
  loc_eng_dmn_conn_glue_msgrcv fd buf (Z.of_nat (length buf)) s = None.
Proof.
  intros Hr Hq Hl Hms Hlong Hmax. unfold loc_eng_dmn_conn_glue_msgrcv. unfold sizeof_size_t in *.
  rewrite st_bind_run, (piperead_eq _ _ _ _ _ _ Hq), Hr by lia. cbn zeta.
  rewrite Z.min_r by lia. rewrite poke_some by (rewrite length_take; lia).
  cbn beta iota. cbn [app Nat.add]. change (int32 (Z.of_nat 4)) with 4. change (uint32 4 =? Z.of_nat 4) with true. cbn [negb].
  rewrite take_0, app_nil_l.
  set (buf1 := _ ++ drop _ buf).
  assert (msgsz_of buf1 = msgsz_of q) as Hm.
  { unfold msgsz_of, buf1, sizeof_size_t. f_equal. apply take_app_length'. rewrite length_take. lia. }
  assert (length buf1 = length buf) as Hl1.
  { unfold buf1. rewrite length_app, length_take, length_drop. lia. }
  rewrite Hm. destruct (Z.ltb_spec (Z.of_nat (length buf)) (msgsz_of q)); [lia|].
  rewrite st_bind_run. erewrite piperead_eq by (cbn; by rewrite lookup_insert_eq).
  cbn zeta. rewrite Hr by (unfold uwrap; first [lia|apply Z.mod_pos_bound; lia]).
  assert (uint32 (msgsz_of q - Z.of_nat 4) = 2 ^ 32 + msgsz_of q - 4) as ->.
  { unfold uwrap. symmetry. apply Z.mod_unique with (-1); lia. }
  rewrite Z.min_l by (rewrite length_drop; lia).
  unfold poke. rewrite decide_False; [done|]. rewrite length_take, !length_drop. lia.
Qed.
End proofs.

(** ** Sequences of messages, when each transfer is complete *)

Section whole.
Context `{Kernel}.
Hypothesis whole_write : ∀ n sz, 0 <= sz → k_write n sz = sz.
Hypothesis whole_read : reads_whole.

(** Send each message of a list; receive [k] messages into fresh copies of [buf]. *)
Fixpoint send_all (fd : Z) (ms : list (list Z)) : ST os (list Z) :=
  match ms with
  | [] => mret []
  | m :: ms =>
      '(r, _) ← loc_eng_dmn_conn_glue_msgsnd fd m (Z.of_nat (length m));
      rs ← send_all fd ms; mret (r :: rs)
  end.
Fixpoint recv_all (k : nat) (fd : Z) (buf : list Z) : ST os (list (Z * list Z)) :=
  match k with
  | O => mret []
  | S k =>
      x ← loc_eng_dmn_conn_glue_msgrcv fd buf (Z.of_nat (length buf));
      xs ← recv_all k fd buf; mret (x :: xs)
  end.

Definition framed (m : list Z) : list Z := stamp m (Z.of_nat (length m)).
Definition message_ok (bufsz : nat) (m : list Z) : Prop :=
  (sizeof_size_t ≤ length m ≤ bufsz)%nat.

Lemma length_framed m : (sizeof_size_t ≤ length m)%nat → length (framed m) = length m.
Proof. apply length_stamp. Qed.

Lemma msgsz_framed m rest :
  (sizeof_size_t ≤ length m)%nat → Z.of_nat (length m) < 2 ^ 31 →
  msgsz_of (framed m ++ rest) = Z.of_nat (length m).
Proof.
  intros Hl Hm. unfold msgsz_of, framed, stamp. rewrite <- app_assoc.
  rewrite take_app_length' by (by rewrite length_to_le). apply of_to_le. unfold sizeof_size_t. lia.
Qed.

Lemma msgsnd_whole s fd q m :
  pipes s !! fd = Some q → (sizeof_size_t ≤ length m)%nat → Z.of_nat (length m) < 2 ^ 31 →
  ∃ s', loc_eng_dmn_conn_glue_msgsnd fd m (Z.of_nat (length m)) s =
      Some ((Z.of_nat (length m), framed m), s') ∧ pipes s' = <[fd := q ++ framed m]> (pipes s).
Proof.
  intros Hq Hl Hm. unfold loc_eng_dmn_conn_glue_msgsnd.
  rewrite (st_bind_some _ _ _ _ _ (run_poke_stamp m _ s Hl)). fold (framed m).
  unfold loc_eng_dmn_conn_glue_pipewrite. rewrite st_bind_run.
  rewrite decide_True by (rewrite length_framed; lia). rewrite Hq, whole_write by lia.
  rewrite Z.eqb_refl. cbn [negb]. rewrite int32_small by lia. eexists. split; [done|].
  cbn [pipes]. by rewrite take_ge by (rewrite length_framed; lia).
Qed.

Lemma msgrcv_whole s fd m rest buf :
  pipes s !! fd = Some (framed m ++ rest) → message_ok (length buf) m → Z.of_nat (length buf) < 2 ^ 31 →
  ∃ s', loc_eng_dmn_conn_glue_msgrcv fd buf (Z.of_nat (length buf)) s =
      Some ((Z.of_nat (length m), framed m ++ drop (length m) buf), s') ∧
    pipes s' = <[fd := rest]> (pipes s).
Proof.
  intros Hq [Hl1 Hl2] Hmax. pose proof (length_framed m Hl1) as Hlen.
  pose proof (msgsz_framed m rest Hl1 ltac:(lia)) as Hms.
  destruct (msgrcv_run s fd _ buf Hq) as (r & buf' & s' & Hrun & _ & Hr); [lia|done|lia|].
  destruct Hr as [(_ & _ & Hno)|(-> & _ & -> & Hp)].
  - destruct Hno. split; [done|]. rewrite Hms, length_app, Hlen. lia.
  - rewrite Hms, Nat2Z.id in *. exists s'.
    by rewrite take_app_length' in Hrun by done; rewrite drop_app_length' in Hp by done.
Qed.

(** C26: when the kernel transfers whole messages, what is sent over a pipe is
    received in the same order, each message intact behind its size. *)
Theorem messages_roundtrip s fd buf ms :
  pipes s !! fd = Some [] → Forall (message_ok (length buf)) ms → Z.of_nat (length buf) < 2 ^ 31 →
  ∃ s1 s2, send_all fd ms s = Some ((λ m, Z.of_nat (length m)) <$> ms, s1) ∧
    recv_all (length ms) fd buf s1 =
      Some ((λ m, (Z.of_nat (length m), framed m ++ drop (length m) buf)) <$> ms, s2) ∧
    pipes s2 !! fd = Some [].
Proof.
  intros Hq Hms Hmax.
  assert (∀ s q, pipes s !! fd = Some q → ∃ s1, send_all fd ms s =
    Some ((λ m, Z.of_nat (length m)) <$> ms, s1) ∧ pipes s1 !! fd = Some (q ++ concat (framed <$> ms))) as Hsend.
  { clear Hq s. induction Hms as [|m ms [Hm1 Hm2] _ IH]; intros s q Hq.
    - exists s. by rewrite app_nil_r.
    - destruct (msgsnd_whole s fd q m Hq Hm1 ltac:(lia)) as (s1 & Hrun & Hp1).
      destruct (IH s1 (q ++ framed m)) as (s2 & Hrun2 & Hp2); [by rewrite Hp1, lookup_insert_eq|].
      exists s2. cbn. rewrite (st_bind_some _ _ _ _ _ Hrun), (st_bind_some _ _ _ _ _ Hrun2).
      split; [done|]. by rewrite Hp2, <- app_assoc. }
  assert (∀ s, pipes s !! fd = Some (concat (framed <$> ms)) → ∃ s2, recv_all (length ms) fd buf s =
      Some ((λ m, (Z.of_nat (length m), framed m ++ drop (length m) buf)) <$> ms, s2) ∧
      pipes s2 !! fd = Some []) as Hrecv.
  { clear Hq Hsend s. induction Hms as [|m ms Hm _ IH]; intros s Hq; [by exists s|].
    destruct (msgrcv_whole s fd m (concat (map framed ms)) buf Hq Hm Hmax) as (s1 & Hrun & Hp1).
    destruct (IH s1) as (s2 & Hrun2 & Hp2); [by rewrite Hp1, lookup_insert_eq|].
    exists s2. cbn. by rewrite (st_bind_some _ _ _ _ _ Hrun), (st_bind_some _ _ _ _ _ Hrun2). }
  destruct (Hsend s [] Hq) as (s1 & Hrun1 & Hp1). destruct (Hrecv s1 Hp1) as (s2 & Hrun2 & Hp2).
  by exists s1, s2.
Qed.

(** flushing a pipe whose reads are complete ends once the pipe is empty,
    after at most one [read] per byte and one more; it then answers 0, not the
    number of bytes it discarded. *)
Theorem msgflush_spec fuel s fd q buf :
  pipes s !! fd = Some q → length buf = 128%nat → (length q < fuel)%nat →
  ∃ s', loc_eng_dmn_conn_glue_msgflush fuel fd buf s = Some (0, s') ∧ pipes s' = <[fd := []]> (pipes s).
Proof.
  revert s q buf. induction fuel as [|fuel IH]; intros s q buf Hq Hl Hf; [lia|]. cbn.
  destruct (run_piperead s fd q buf 0 128 Hq) as (n & -> & Hn & Hrun); [lia..|].
  rewrite whole_read in Hn, Hrun by lia. set (n := Z.min _ _) in *.
  rewrite (st_bind_some _ _ _ _ _ Hrun). destruct (truth n) eqn:Ht.
  - apply truth_true in Ht. set (s1 := OS _ _ _). set (buf1 := _ ++ _).
    destruct (IH s1 (drop (Z.to_nat n) q) buf1) as (s' & Hr & Hp).
    + cbn. by rewrite lookup_insert_eq.
    + unfold buf1. rewrite !length_app, !length_take, !length_drop. lia.
    + rewrite length_drop. lia.
    + exists s'. split; [done|]. rewrite Hp. cbn. by rewrite insert_insert_eq.
  - assert (n = 0) as Hn0 by (destruct (decide (n = 0)) as [|Hne%truth_true]; congruence).
    assert (q = []) as Hq0 by (destruct q; [done|]; unfold n in Hn0; cbn [length] in Hn0; lia).
    eexists. split; [by rewrite Hn0|]. cbn [pipes]. by rewrite Hq0, drop_nil.
Qed.
End whole.

(** When every [read] fails the flush never ends. *)
Lemma msgflush_spins `{Kernel} fuel s fd q buf :
  (∀ n avail sz, k_read n avail sz = -1) → pipes s !! fd = Some q → (0 < length buf)%nat →
  loc_eng_dmn_conn_glue_msgflush fuel fd buf s = None.
Proof.
  intros Hr. revert s q buf. induction fuel as [|fuel IH]; intros s q buf Hq Hl; [done|]. cbn.
  rewrite st_bind_run, (piperead_eq _ _ _ _ _ _ Hq), Hr. cbn zeta.
  change (Z.to_nat (-1)) with 0%nat. rewrite take_0, poke_some by (cbn; lia). change (int32 (-1)) with (-1). cbn [truth Z.eqb negb].
  eapply IH; [cbn; by rewrite lookup_insert_eq|]. rewrite !length_app, length_drop. cbn. lia.
Qed.

(** ** A concrete kernel *)

(** Everything is transferred. *)
#[export] Program Instance demo_kernel : Kernel := {
  k_write _ sz := sz;
  k_read _ avail sz := Z.min avail sz
}.
Next Obligation. lia. Qed.
Next Obligation. lia. Qed.

(** A kernel that transfers at most six bytes. *)
Program Definition short_kernel : Kernel := {|
  k_write _ sz := Z.min 6 sz;
  k_read _ avail sz := Z.min 6 (Z.min avail sz)
|}.
Next Obligation. lia. Qed.
Next Obligation. lia. Qed.

Definition demo_os (q : list Z) : os := OS {[3 := q]} 0 [].

Lemma msgsnd_spec_witness :
  ∃ r n s', @loc_eng_dmn_conn_glue_msgsnd short_kernel 3 [0; 0; 0; 0; 5; 6; 7; 8] 8 (demo_os [])
      = Some ((r, [8; 0; 0; 0; 5; 6; 7; 8]), s') ∧
    pipes s' = <[3 := [] ++ take n [8; 0; 0; 0; 5; 6; 7; 8]]> (pipes (demo_os [])) ∧
    ((r = 8 ∧ n = Z.to_nat 8) ∨ (r = -1 ∧ (n < Z.to_nat 8)%nat)).
Proof.
  apply (@msgsnd_spec short_kernel (demo_os []) 3 [] [0; 0; 0; 0; 5; 6; 7; 8] 8);
    [reflexivity|vm_compute; intuition (discriminate || lia)|lia].
Defined.

Lemma msgrcv_spec_witness :
  ∃ r buf' s', loc_eng_dmn_conn_glue_msgrcv 3 (replicate 8 0) (Z.of_nat (length (replicate 8 0)))
      (demo_os [6; 0; 0; 0; 1; 2; 9]) = Some ((r, buf'), s') ∧
    length buf' = 8%nat ∧
    ((r = -1 ∧ (∃ n, pipes s' = <[3 := drop n [6; 0; 0; 0; 1; 2; 9]]> (pipes (demo_os [6; 0; 0; 0; 1; 2; 9]))) ∧
      ¬ (reads_whole ∧ 4 <= msgsz_of [6; 0; 0; 0; 1; 2; 9] <= 8 ∧ msgsz_of [6; 0; 0; 0; 1; 2; 9] <= 7)) ∨
     (r = 6 ∧ r <= 7 ∧
      buf' = take (Z.to_nat r) [6; 0; 0; 0; 1; 2; 9] ++ drop (Z.to_nat r) (replicate 8 0) ∧
      pipes s' = <[3 := drop (Z.to_nat r) [6; 0; 0; 0; 1; 2; 9]]> (pipes (demo_os [6; 0; 0; 0; 1; 2; 9])))).
Proof.
  apply (msgrcv_spec (demo_os [6; 0; 0; 0; 1; 2; 9]) 3 [6; 0; 0; 0; 1; 2; 9] (replicate 8 0));
    [reflexivity|vm_compute; intuition (discriminate || lia)|vm_compute; intuition (discriminate || lia)|left; vm_compute; intuition (discriminate || lia)].
Defined.

Lemma messages_roundtrip_witness :
  ∃ s1 s2, send_all 3 [[0; 0; 0; 0; 5]; [0; 0; 0; 0]] (demo_os []) = Some ([5; 4], s1) ∧
    recv_all 2 3 (replicate 6 9) s1 = Some ([(5, [5; 0; 0; 0; 5; 9]); (4, [4; 0; 0; 0; 9; 9])], s2) ∧
    pipes s2 !! 3 = Some [].
Proof.
  apply (@messages_roundtrip demo_kernel (λ _ _ _, eq_refl) (λ _ _ _ _ _, eq_refl) (demo_os []) 3 (replicate 6 9)
    [[0; 0; 0; 0; 5]; [0; 0; 0; 0]]);
    [reflexivity|repeat constructor; vm_compute; intuition (discriminate || lia)|vm_compute; intuition (discriminate || lia)].
Defined.

Lemma msgflush_spec_witness :
  ∃ s', loc_eng_dmn_conn_glue_msgflush 4 3 (replicate 128 0) (demo_os [1; 2; 3]) = Some (0, s') ∧
    pipes s' = <[3 := []]> (pipes (demo_os [1; 2; 3])).
Proof.
  apply (@msgflush_spec demo_kernel (λ _ _ _ _ _, eq_refl) 4 (demo_os [1; 2; 3]) 3 [1; 2; 3] (replicate 128 0));
    [reflexivity|reflexivity|vm_compute; intuition (discriminate || lia)].
Defined.
