(* ===== verification/EngPipe.v ===== *)
(** * Messages of the engine over a pipe: loc_eng_msg.cpp

    The functions with which another process would exchange messages with the
    engine over a named pipe, on the pipes of DmnPipe.v.  A raw message starts
    with a [struct msgbuf] of eight bytes: its size and an identifier.  No
    other file of the tree calls them. *)

From S2P Require Import Prelude DmnPipe.
Local Open Scope Z_scope.

Definition LOC_ENG_MSG_REQ_Q_PATH : string := "/data/misc/gpsone_d/loc_eng_msg_req_q".
Definition O_RDWR : Z := 2.
Definition sizeof_pointer : nat := 4.
Definition sizeof_msgbuf : nat := 8.

Section operations.
Context `{Kernel}.

(** The result and what is stored through [p_req_msgq]. *)
Definition loc_eng_msgget (mkfifo_rc : Z) (eexist : bool) (fd : Z) (content : list Z) : ST os (Z * Z) :=
  q ← loc_eng_dmn_conn_glue_msgget mkfifo_rc eexist fd content LOC_ENG_MSG_REQ_Q_PATH O_RDWR;
  mret (0, q).
Definition loc_eng_msgremove (req_msgq : Z) : ST os Z :=
  _ ← loc_eng_dmn_conn_glue_piperemove (Some LOC_ENG_MSG_REQ_Q_PATH) req_msgq; mret 0.

(** A pointer is sent and received: [msgp] holds its bytes. *)
Definition loc_eng_msgsnd (msgqid : Z) (msgp : list Z) : ST os Z :=
  loc_eng_dmn_conn_glue_pipewrite msgqid msgp (Z.of_nat sizeof_pointer).
Definition loc_eng_msgrcv (msgqid : Z) (msgp : list Z) : ST os (Z * list Z) :=
  loc_eng_dmn_conn_glue_piperead msgqid msgp 0 (Z.of_nat sizeof_pointer).

Definition loc_eng_msgsnd_raw (msgqid : Z) (msgp : list Z) (msgsz : Z) : ST os (Z * list Z) :=
  if msgsz <? Z.of_nat sizeof_msgbuf then mret (-1, msgp)
  else
    buf ← of_option (poke msgp 0 (to_le sizeof_size_t msgsz));
    result ← loc_eng_dmn_conn_glue_pipewrite msgqid buf msgsz;
    if negb (result =? int32 msgsz) then mret (-1, buf) else mret (result, buf).

Definition loc_eng_msgrcv_raw (msgqid : Z) (msgp : list Z) (msgsz : Z) : ST os (Z * list Z) :=
  if msgsz <? Z.of_nat sizeof_msgbuf then mret (-1, msgp)
  else
    '(result, buf) ← loc_eng_dmn_conn_glue_piperead msgqid msgp 0 (Z.of_nat sizeof_msgbuf);
    if negb (uint32 result =? Z.of_nat sizeof_msgbuf) then mret (-1, buf)
    else if msgsz <? msgsz_of buf then mret (-1, buf)
    else if Z.of_nat sizeof_msgbuf <? msgsz_of buf then
      let rest := msgsz_of buf - Z.of_nat sizeof_msgbuf in
      '(result, buf') ← loc_eng_dmn_conn_glue_piperead msgqid buf sizeof_msgbuf rest;
      if negb (result =? int32 rest) then mret (-1, buf') else mret (int32 (msgsz_of buf'), buf')
    else mret (int32 (msgsz_of buf), buf).

Definition loc_eng_msgflush (fuel : nat) (msgqid : Z) (buf : list Z) : ST os Z :=
  loc_eng_dmn_conn_glue_msgflush fuel msgqid buf.
Definition loc_eng_msgunblock (fcntl_rc msgqid : Z) : ST os Z :=
  loc_eng_dmn_conn_glue_pipeunblock fcntl_rc msgqid.
End operations.

(** ** Lemmas *)

Definition bytes (q : list Z) : Prop := Forall (λ b, 0 <= b < 256) q.

Lemma of_le_range q : bytes q → 0 <= of_le q < 256 ^ Z.of_nat (length q).
Proof.
  induction 1 as [|b q Hb _ IH]; cbn [of_le length]; [done|].
  rewrite Nat2Z.inj_succ, Z.pow_succ_r by lia. lia.
Qed.
Lemma msgsz_of_nonneg q : bytes q → 0 <= msgsz_of q.
Proof. intros Hq. apply of_le_range. by apply Forall_take. Qed.

Section proofs.
Context `{Kernel}.

(** What a call takes from the pipe: the header, or the whole message. *)
Definition taken (q : list Z) : nat := Nat.max sizeof_msgbuf (Z.to_nat (msgsz_of q)).

Lemma msgrcv_raw_run s fd q buf :
  pipes s !! fd = Some q → bytes q →
  (sizeof_msgbuf ≤ length buf)%nat → Z.of_nat (length buf) < 2 ^ 31 →
  ∃ r buf' s' n, loc_eng_msgrcv_raw fd buf (Z.of_nat (length buf)) s = Some ((r, buf'), s') ∧
    length buf' = length buf ∧ pipes s' = <[fd := drop n q]> (pipes s) ∧
    ((r = -1 ∧
      ¬ (reads_whole ∧ msgsz_of q <= Z.of_nat (length buf) ∧ (taken q ≤ length q)%nat)) ∨
     (r = msgsz_of q ∧ n = taken q ∧ (n ≤ length q)%nat ∧ buf' = take n q ++ drop n buf)).
Proof.
  intros Hq Hby Hl Hmax. pose proof (msgsz_of_nonneg q Hby) as Hpos.
  unfold loc_eng_msgrcv_raw, taken, sizeof_msgbuf in *.
  destruct (Z.ltb_spec (Z.of_nat (length buf)) (Z.of_nat 8)); [lia|].
  destruct (run_piperead s fd q buf 0 8 Hq) as (n & Hnk & Hn & Hrun); [lia..|].
  rewrite take_0, app_nil_l in Hrun. cbn [Nat.add] in Hrun.
  rewrite (st_bind_some _ _ _ _ _ Hrun). clear Hrun.
  set (s1 := OS _ _ _). set (buf1 := take (Z.to_nat n) q ++ drop (Z.to_nat n) buf).
  assert (length buf1 = length buf) as Hl1.
  { unfold buf1. rewrite length_app, length_take, length_drop. lia. }
  destruct (Z.eqb_spec (uint32 n) (Z.of_nat 8)) as [Hn8|Hn8]; cbn [negb].
  2:{ eexists _, _, _, (Z.to_nat n). split; [done|]. split; [done|]. split; [done|]. left. split; [done|].
      intros (Hw & Hfit & Hall). rewrite Hw in Hnk by lia. apply Hn8. rewrite uwrap_id; lia. }
  assert (n = 8) as ->.
  { destruct (decide (n = -1)) as [->|]; [done|]. rewrite uwrap_id in Hn8; lia. }
  assert (msgsz_of buf1 = msgsz_of q) as Hms.
  { apply msgsz_of_prefix; unfold sizeof_size_t; lia. }
  rewrite Hms. destruct (Z.ltb_spec (Z.of_nat (length buf)) (msgsz_of q)) as [Hbig|Hfit].
  { eexists _, _, _, 8%nat. split; [done|]. split; [done|]. split; [done|]. left. split; [done|lia]. }
  destruct (Z.ltb_spec (Z.of_nat 8) (msgsz_of q)) as [Hbody|Hnone].
  2:{ eexists _, _, _, 8%nat. split; [done|]. split; [done|]. split; [done|]. right.
      rewrite int32_small by lia. repeat (split; [lia|]). done. }
  assert (pipes s1 !! fd = Some (drop 8 q)) as Hq1 by (cbn; by rewrite lookup_insert_eq).
  destruct (run_piperead s1 fd (drop 8 q) buf1 8 (msgsz_of q - Z.of_nat 8) Hq1) as (k & Hkk & Hk & Hrun);
    [lia..|].
  rewrite (st_bind_some _ _ _ _ _ Hrun). clear Hrun. rewrite length_drop in Hk, Hkk.
  set (buf2 := take 8 buf1 ++ _).
  assert (length buf2 = length buf) as Hl2.
  { unfold buf2. rewrite !length_app, !length_take, !length_drop. lia. }
  assert (pipes (OS (<[fd:=drop (Z.to_nat k) (drop 8 q)]> (pipes s1)) (S (calls s1)) (sys_log s1)) =
    <[fd := drop (8 + Z.to_nat k) q]> (pipes s)) as Hp.
  { cbn. by rewrite insert_insert_eq, drop_drop. }
  rewrite (int32_small (msgsz_of q - Z.of_nat 8)) by lia.
  destruct (Z.eqb_spec k (msgsz_of q - Z.of_nat 8)) as [->|Hne]; cbn [negb].
  2:{ eexists _, _, _, _. split; [done|]. split; [done|]. split; [exact Hp|]. left. split; [done|].
      intros (Hw & _ & Hall). rewrite Hw in Hkk; lia. }
  assert (buf2 = take (8 + Z.to_nat (msgsz_of q - Z.of_nat 8)) q ++
    drop (8 + Z.to_nat (msgsz_of q - Z.of_nat 8)) buf) as Hb2.
  { unfold buf2, buf1. apply read_both; lia. }
  assert (msgsz_of buf2 = msgsz_of q) as Hm2.
  { rewrite Hb2. apply msgsz_of_prefix; unfold sizeof_size_t; lia. }
  eexists _, _, _, _. split; [done|]. split; [done|]. split; [exact Hp|]. right.
  rewrite Hm2, int32_small by lia. split; [done|]. split; [lia|]. split; [lia|exact Hb2].
Qed.
End proofs.

(** ** Properties *)

(** Whatever bytes are in the pipe and however little the kernel transfers,
    receiving a raw message never writes outside the buffer; it answers either
    the size of the next message, which it has taken whole (at least its
    header) and left in the buffer, or -1, which needs a short read, a message
    that is not all there or one that exceeds the buffer.  Unlike [msgrcv] of
    the daemon it also survives a size below that of the header. *)
Theorem msgrcv_raw_spec `{Kernel} s fd q buf
    (Hq : pipes s !! fd = Some q) (Hby : bytes q)
    (Hl : (sizeof_msgbuf ≤ length buf)%nat) (Hmax : Z.of_nat (length buf) < 2 ^ 31) :
  ∃ r buf' s' n, loc_eng_msgrcv_raw fd buf (Z.of_nat (length buf)) s = Some ((r, buf'), s') ∧
    length buf' = length buf ∧ pipes s' = <[fd := drop n q]> (pipes s) ∧
    ((r = -1 ∧
      ¬ (reads_whole ∧ msgsz_of q <= Z.of_nat (length buf) ∧ (taken q ≤ length q)%nat)) ∨
     (r = msgsz_of q ∧ n = taken q ∧ (n ≤ length q)%nat ∧ buf' = take n q ++ drop n buf)).
Proof. by apply msgrcv_raw_run. Qed.

(** A message sent raw is received as it was sent, behind its size, when the
    kernel transfers it whole. *)
Lemma raw_roundtrip `{Kernel} s fd m buf :
  (∀ n sz, 0 <= sz → k_write n sz = sz) → reads_whole →
  pipes s !! fd = Some [] → bytes m → (sizeof_msgbuf ≤ length m ≤ length buf)%nat →
  Z.of_nat (length buf) < 2 ^ 31 →
  ∃ s1 s2, loc_eng_msgsnd_raw fd m (Z.of_nat (length m)) s = Some ((Z.of_nat (length m), framed m), s1) ∧
    loc_eng_msgrcv_raw fd buf (Z.of_nat (length buf)) s1 =
      Some ((Z.of_nat (length m), framed m ++ drop (length m) buf), s2) ∧ pipes s2 !! fd = Some [].
Proof.
  intros Hww Hrw Hq Hm [Hl Hfit] Hmax. pose proof Hl as Hl8. unfold sizeof_msgbuf in Hl8.
  assert (sizeof_size_t ≤ length m)%nat as Hl4 by (unfold sizeof_size_t; lia).
  destruct (msgsnd_whole Hww s fd [] m Hq Hl4 ltac:(lia)) as (s1 & Hsnd & Hp1).
  assert (loc_eng_msgsnd_raw fd m (Z.of_nat (length m)) s = Some ((Z.of_nat (length m), framed m), s1)) as Hs.
  { unfold loc_eng_msgsnd_raw. rewrite (proj2 (Z.ltb_ge _ _)) by (unfold sizeof_msgbuf; lia). exact Hsnd. }
  pose proof (length_framed m Hl4) as Hlf.
  assert (msgsz_of (framed m) = Z.of_nat (length m)) as Hms.
  { pose proof (msgsz_framed m [] Hl4 ltac:(lia)) as Hf. by rewrite app_nil_r in Hf. }
  assert (pipes s1 !! fd = Some (framed m)) as Hq1 by (by rewrite Hp1, lookup_insert_eq).
  assert (bytes (framed m)) as Hbf.
  { unfold framed, stamp. apply Forall_app. split; [|by apply Forall_drop].
    generalize (Z.of_nat (length m)). unfold sizeof_size_t. intros z.
    repeat (constructor; [apply Z.mod_pos_bound; lia|]). constructor. }
  destruct (msgrcv_raw_run s1 fd (framed m) buf Hq1 Hbf) as (r & buf' & s2 & n & Hr & _ & Hp2 & Hcase);
    [unfold sizeof_msgbuf; lia|done|].
  assert (taken (framed m) = length m) as Ht.
  { unfold taken. rewrite Hms, Nat2Z.id. unfold sizeof_msgbuf. lia. }
  exists s1, s2. split; [done|]. destruct Hcase as [[_ Hno]|(-> & -> & _ & ->)].
  - destruct Hno. rewrite Hms, Ht, Hlf. split; [done|]. lia.
  - rewrite Hms, Ht in *. rewrite Hr, take_ge by lia. split; [done|].
    rewrite Hp2, lookup_insert_eq, drop_ge by lia. done.
Qed.

Lemma msgrcv_raw_spec_witness :
  ∃ r buf' s', loc_eng_msgrcv_raw 3 (replicate 10 0) 10 (demo_os [3; 0; 0; 0; 1; 2; 9; 9; 7; 7]) =
      Some ((r, buf'), s') ∧ length buf' = 10%nat ∧ r = 3.
Proof.
  destruct (msgrcv_raw_spec (demo_os [3; 0; 0; 0; 1; 2; 9; 9; 7; 7]) 3 [3; 0; 0; 0; 1; 2; 9; 9; 7; 7]
    (replicate 10 0)) as (r & buf' & s' & n & E & Hl & _ & Hr).
  - reflexivity.
  - repeat constructor; lia.
  - vm_compute. lia.
  - vm_compute. reflexivity.
  - exists r, buf', s'. split; [exact E|]. split; [exact Hl|].
    apply (f_equal (fmap (fst ∘ fst))) in E. vm_compute in E. injection E as <-. reflexivity.
Defined.
