(* ===== verification/DmnConn.v ===== *)
(** * The daemon connection: loc_eng_dmn_conn.cpp and loc_eng_dmn_conn_handler.cpp

    The server receives control messages of other processes over a pipe and
    posts requests for data connections to the location engine; it answers them
    over the pipe of the process that asked.  [ctrl_msgbuf] is laid out as the
    32-bit ARM ABI does: the size at 0, [ctrl_type] at 12, the union at 16, 112
    bytes in all. *)

From S2P Require Import Prelude LinkedList Agps DmnPipe.
Local Open Scope Z_scope.

(** ** struct ctrl_msgbuf *)

Definition GPSONE_LOC_API_IF_REQUEST : Z := 240.
Definition GPSONE_LOC_API_IF_RELEASE : Z := 241.
Definition GPSONE_LOC_API_RESPONSE : Z := 242.
Definition GPSONE_UNBLOCK : Z := 243.

Definition IF_REQUEST_TYPE_SUPL : Z := 0.
Definition IF_REQUEST_TYPE_WIFI : Z := 1.
Definition IF_REQUEST_TYPE_ANY : Z := 2.
Definition LOC_ENG_IF_REQUEST_TYPE_SUPL : Z := 0.
Definition LOC_ENG_IF_REQUEST_TYPE_WIFI : Z := 1.
Definition LOC_ENG_IF_REQUEST_TYPE_ANY : Z := 2.

Definition IF_REQUEST_SENDER_ID_QUIPC : Z := 0.
Definition IF_REQUEST_SENDER_ID_MSAPM : Z := 1.
Definition IF_REQUEST_SENDER_ID_GPSONE_DAEMON : Z := 2.

Definition sizeof_ctrl_msgbuf : nat := 112.

(** Members of a message: offsets, and values read from a buffer. *)
Definition off_ctrl_type : nat := 12.
Definition off_cmsg : nat := 16.
Definition get_bytes (buf : list Z) (off n : nat) : list Z := take n (drop off buf).
Definition get8 (buf : list Z) (off : nat) : Z := of_le (get_bytes buf off 1).
Definition get32 (buf : list Z) (off : nat) : Z := of_le (get_bytes buf off 4).

Definition ctrl_type (buf : list Z) : Z := get8 buf off_ctrl_type.
Definition response_result (buf : list Z) : Z := int32 (get32 buf off_cmsg).
Definition if_request_type (buf : list Z) : Z := get32 buf 16.
Definition if_request_sender_id (buf : list Z) : Z := get32 buf 20.
Definition if_request_ipv4_addr (buf : list Z) : Z := get32 buf 24.
Definition if_request_ipv6_addr (buf : list Z) : list Z := get_bytes buf 28 16.

(** The string a [char *] into the buffer points to; without a NUL before the
    end of the buffer reading it leaves the object. *)
Definition string_at (buf : list Z) (off : nat) : option (list Z) :=
  if existsb (Z.eqb 0) (drop off buf) then Some (c_string (drop off buf)) else None.
Definition off_ssid : nat := 44.
Definition off_password : nat := 77.

(** ** State *)

(** The messages posted to the engine. *)
Inductive engine_msg :=
| loc_eng_msg_request_bit (ifType ipv4Addr : Z) (ipv6Addr : list Z)
| loc_eng_msg_release_bit (ifType ipv4Addr : Z) (ipv6Addr : list Z)
| loc_eng_msg_request_wifi (ifType senderId : Z) (ssid password : list Z)
| loc_eng_msg_release_wifi (ifType senderId : Z) (ssid password : list Z).

Record dmn := Dmn {
  d_os : os;
  loc_api_handle : ptr;
  loc_api_server_msgqid : Z;
  loc_api_resp_msgqid : Z;
  quipc_msgqid : Z;
  msapm_msgqid : Z;
  global_loc_api_q_path : string;
  global_loc_api_resp_q_path : string;
  posted : list (loc * engine_msg)
}.

Definition GPSONE_LOC_API_Q_PATH : string := "/data/misc/gpsone_d/gpsone_loc_api_q".
Definition GPSONE_LOC_API_RESP_Q_PATH : string := "/data/misc/gpsone_d/gpsone_loc_api_resp_q".
Definition QUIPC_CTRL_Q_PATH : string := "/data/misc/gpsone_d/quipc_ctrl_q".
Definition MSAPM_CTRL_Q_PATH : string := "/data/misc/gpsone_d/msapm_ctrl_q".

Definition with_os (o : os) (s : dmn) : dmn :=
  Dmn o (loc_api_handle s) (loc_api_server_msgqid s) (loc_api_resp_msgqid s) (quipc_msgqid s)
    (msapm_msgqid s) (global_loc_api_q_path s) (global_loc_api_resp_q_path s) (posted s).
Definition with_fds (a b c d : Z) (s : dmn) : dmn :=
  Dmn (d_os s) (loc_api_handle s) a b c d (global_loc_api_q_path s) (global_loc_api_resp_q_path s)
    (posted s).
Definition with_posted (f : list (loc * engine_msg) → list (loc * engine_msg)) (s : dmn) : dmn :=
  Dmn (d_os s) (loc_api_handle s) (loc_api_server_msgqid s) (loc_api_resp_msgqid s) (quipc_msgqid s)
    (msapm_msgqid s) (global_loc_api_q_path s) (global_loc_api_resp_q_path s) (f (posted s)).

Definition in_os {A} (m : ST os A) : ST dmn A := λ s,
  match m (d_os s) with Some (a, o) => Some (a, with_os o s) | None => None end.

(** [loc_eng_msg_sender]: the engine's instance is dereferenced. *)
Definition loc_eng_msg_sender (loc_eng_data_p : ptr) (msg : engine_msg) : ST dmn unit :=
  match loc_eng_data_p with
  | None => st_fault
  | Some p => st_modify (with_posted (λ l, l ++ [(p, msg)]))
  end.

(** ** The handlers *)

Definition convert_if_type (t : Z) : option Z :=
  if t =? IF_REQUEST_TYPE_SUPL then Some LOC_ENG_IF_REQUEST_TYPE_SUPL
  else if t =? IF_REQUEST_TYPE_WIFI then Some LOC_ENG_IF_REQUEST_TYPE_WIFI
  else if t =? IF_REQUEST_TYPE_ANY then Some LOC_ENG_IF_REQUEST_TYPE_ANY
  else None.

(** The [char *] members as the message constructors copy them. *)
Definition copied_string (buf : list Z) (off : nat) : ST dmn (list Z) :=
  s ← of_option (string_at buf off); mret (strlcpy SSID_BUF_SIZE s).

Definition loc_eng_dmn_conn_loc_api_server_if_request_handler (pmsg : list Z) : ST dmn Z :=
  h ← st_get loc_api_handle;
  match h with
  | None => mret 1
  | Some _ =>
      match convert_if_type (if_request_type pmsg) with
      | None => mret (-1)
      | Some type =>
          let wifi sender :=
            ssid ← copied_string pmsg off_ssid;
            password ← copied_string pmsg off_password;
            _ ← loc_eng_msg_sender h (loc_eng_msg_request_wifi type sender ssid password);
            mret 0 in
          let id := if_request_sender_id pmsg in
          if id =? IF_REQUEST_SENDER_ID_QUIPC then wifi LOC_ENG_IF_REQUEST_SENDER_ID_QUIPC
          else if id =? IF_REQUEST_SENDER_ID_MSAPM then wifi LOC_ENG_IF_REQUEST_SENDER_ID_MSAPM
          else if id =? IF_REQUEST_SENDER_ID_GPSONE_DAEMON then
            _ ← loc_eng_msg_sender h (loc_eng_msg_request_bit type (int32 (if_request_ipv4_addr pmsg))
                  (if_request_ipv6_addr pmsg));
            mret 0
          else mret (-1)
      end
  end.

Definition loc_eng_dmn_conn_loc_api_server_if_release_handler (pmsg : list Z) : ST dmn Z :=
  h ← st_get loc_api_handle;
  match convert_if_type (if_request_type pmsg) with
  | None => mret (-1)
  | Some type =>
      let wifi sender :=
        ssid ← copied_string pmsg off_ssid;
        password ← copied_string pmsg off_password;
        _ ← loc_eng_msg_sender h (loc_eng_msg_release_wifi type sender ssid password);
        mret 0 in
      let id := if_request_sender_id pmsg in
      if id =? IF_REQUEST_SENDER_ID_QUIPC then wifi LOC_ENG_IF_REQUEST_SENDER_ID_QUIPC
      else if id =? IF_REQUEST_SENDER_ID_MSAPM then wifi LOC_ENG_IF_REQUEST_SENDER_ID_MSAPM
      else if id =? IF_REQUEST_SENDER_ID_GPSONE_DAEMON then
        _ ← loc_eng_msg_sender h (loc_eng_msg_release_bit type (int32 (if_request_ipv4_addr pmsg))
              (if_request_ipv6_addr pmsg));
        mret 0
      else mret (-1)
  end.

(** ** The server *)

(** What the system answers while the server starts: for each of the four
    queues what [mkfifo] and [open] return and what the pipe holds, and the
    group "gps" if it exists. *)
Record fifo := Fifo { f_mkfifo_rc : Z; f_eexist : bool; f_fd : Z; f_content : list Z }.
Record init_env := InitEnv {
  ie_server : fifo;
  ie_resp : fifo;
  ie_quipc : fifo;
  ie_msapm : fifo;
  ie_gps_group : option Z
}.

Definition O_RDWR : Z := 2.

Section server.
Context `{Kernel}.

Definition msgget (e : fifo) (path : string) : ST os Z :=
  loc_eng_dmn_conn_glue_msgget (f_mkfifo_rc e) (f_eexist e) (f_fd e) (f_content e) path O_RDWR.

Definition loc_api_server_proc_init (e : init_env) : ST dmn Z :=
  s ← st_get id;
  a ← in_os (msgget (ie_server e) (global_loc_api_q_path s));
  _ ← in_os (log_call (Chmod (global_loc_api_q_path s) 432));
  _ ← (match ie_gps_group e with
       | Some gid => in_os (log_call (Chown (global_loc_api_q_path s) (-1) gid))
       | None => mret tt
       end);
  b ← in_os (msgget (ie_resp e) (global_loc_api_resp_q_path s));
  c ← in_os (msgget (ie_quipc e) QUIPC_CTRL_Q_PATH);
  d ← in_os (msgget (ie_msapm e) MSAPM_CTRL_Q_PATH);
  _ ← st_modify (with_fds a b c d);
  mret 0.

Definition loc_api_server_proc_pre : ST dmn Z := mret 0.

(** [p_cmsgbuf] is what [malloc] returned: nothing, or memory with the content
    it happens to have. *)
Definition loc_api_server_proc (p_cmsgbuf : option (list Z)) : ST dmn Z :=
  match p_cmsgbuf with
  | None => mret (-1)
  | Some mem =>
      s ← st_get id;
      '(length, buf) ← in_os (loc_eng_dmn_conn_glue_msgrcv (loc_api_server_msgqid s) mem
                         (Z.of_nat sizeof_ctrl_msgbuf + 256));
      if length <=? 0 then mret 0
      else
        let t := ctrl_type buf in
        _ ← (if t =? GPSONE_LOC_API_IF_REQUEST then
               loc_eng_dmn_conn_loc_api_server_if_request_handler buf
             else if t =? GPSONE_LOC_API_IF_RELEASE then
               loc_eng_dmn_conn_loc_api_server_if_release_handler buf
             else mret 0);
        mret 0
  end.

Definition loc_api_server_proc_post : ST dmn Z :=
  s ← st_get id;
  _ ← in_os (loc_eng_dmn_conn_glue_msgremove (Some (global_loc_api_q_path s)) (loc_api_server_msgqid s));
  _ ← in_os (loc_eng_dmn_conn_glue_msgremove (Some (global_loc_api_resp_q_path s)) (loc_api_resp_msgqid s));
  _ ← in_os (loc_eng_dmn_conn_glue_msgremove (Some QUIPC_CTRL_Q_PATH) (quipc_msgqid s));
  _ ← in_os (loc_eng_dmn_conn_glue_msgremove (Some MSAPM_CTRL_Q_PATH) (msapm_msgqid s));
  mret 0.

(** [stack] is what the memory of the automatic [cmsgbuf] holds. *)
Definition loc_eng_dmn_conn_unblock_proc (stack : list Z) : ST dmn Z :=
  s ← st_get id;
  cmsgbuf ← of_option (poke stack off_ctrl_type [GPSONE_UNBLOCK]);
  _ ← in_os (loc_eng_dmn_conn_glue_msgsnd (loc_api_server_msgqid s) cmsgbuf (Z.of_nat sizeof_ctrl_msgbuf));
  mret 0.

(** What the launch does before the thread is created. *)
Definition launch_setup (loc_api_q_path resp_q_path : option string) (agps_handle : ptr) (s : dmn) : dmn :=
  Dmn (d_os s) agps_handle (loc_api_server_msgqid s) (loc_api_resp_msgqid s)
    (quipc_msgqid s) (msapm_msgqid s)
    (default (global_loc_api_q_path s) loc_api_q_path)
    (default (global_loc_api_resp_q_path s) resp_q_path) (posted s).

(** [thelper_rc] is what the launch of the thread answers. *)
Definition loc_eng_dmn_conn_loc_api_server_launch (thelper_rc : Z)
    (loc_api_q_path resp_q_path : option string) (agps_handle : ptr) : ST dmn Z :=
  _ ← st_modify (launch_setup loc_api_q_path resp_q_path agps_handle);
  mret (if negb (thelper_rc =? 0) then -1 else 0).

Definition loc_eng_dmn_conn_loc_api_server_data_conn (stack : list Z) (sender_id status : Z) : ST dmn Z :=
  s ← st_get id;
  buf ← of_option (poke stack off_ctrl_type [GPSONE_LOC_API_RESPONSE]);
  buf ← of_option (poke buf off_cmsg (to_le 4 status));
  let answer fd :=
    '(r, _) ← in_os (loc_eng_dmn_conn_glue_msgsnd fd buf (Z.of_nat sizeof_ctrl_msgbuf));
    mret (if r <? 0 then -1 else 0) in
  if sender_id =? LOC_ENG_IF_REQUEST_SENDER_ID_QUIPC then answer (quipc_msgqid s)
  else if sender_id =? LOC_ENG_IF_REQUEST_SENDER_ID_MSAPM then answer (msapm_msgqid s)
  else if sender_id =? LOC_ENG_IF_REQUEST_SENDER_ID_GPSONE_DAEMON then answer (loc_api_resp_msgqid s)
  else mret 0.
End server.

(** ** Messages as their senders build them *)

(** The members of an [if_request] message, padding included. *)
Definition if_request_fields (ctrl type sender ipv4 : Z)
    (reserved pad ipv6 ssid password tail : list Z) : list (list Z) :=
  [to_le 4 (Z.of_nat sizeof_ctrl_msgbuf); reserved; [ctrl]; pad; to_le 4 type; to_le 4 sender;
   to_le 4 ipv4; ipv6; ssid; password; tail].

Definition well_sized (reserved pad ipv6 ssid password tail : list Z) : Prop :=
  length reserved = 8%nat ∧ length pad = 3%nat ∧ length ipv6 = 16%nat ∧
  length ssid = SSID_BUF_SIZE ∧ length password = SSID_BUF_SIZE ∧ length tail = 2%nat.

(** What the server must post for a message with these members. *)
Definition expected_posts (ctrl type sender ipv4 : Z) (ipv6 ssid password : list Z) : list engine_msg :=
  if (0 <=? type) && (type <=? 2) then
    if (sender =? 0) || (sender =? 1) then
      if ctrl =? GPSONE_LOC_API_IF_REQUEST then
        [loc_eng_msg_request_wifi type sender (strlcpy SSID_BUF_SIZE ssid) (strlcpy SSID_BUF_SIZE password)]
      else if ctrl =? GPSONE_LOC_API_IF_RELEASE then
        [loc_eng_msg_release_wifi type sender (strlcpy SSID_BUF_SIZE ssid) (strlcpy SSID_BUF_SIZE password)]
      else []
    else if sender =? 2 then
      if ctrl =? GPSONE_LOC_API_IF_REQUEST then [loc_eng_msg_request_bit type (int32 ipv4) ipv6]
      else if ctrl =? GPSONE_LOC_API_IF_RELEASE then [loc_eng_msg_release_bit type (int32 ipv4) ipv6]
      else []
    else []
  else [].

Lemma field_get (fs : list (list Z)) i f rest :
  fs !! i = Some f →
  get_bytes (concat fs ++ rest) (sum_list (length <$> take i fs)) (length f) = f.
Proof.
  unfold get_bytes. revert i. induction fs as [|g fs IH]; intros [|i] Hi; [done..| |]; cbn in Hi.
  - simplify_eq. cbn. by rewrite drop_0, <- app_assoc, take_app_length.
  - cbn. rewrite <- app_assoc, drop_app_add'; [|done]. by apply IH.
Qed.

Lemma c_string_prefix a b : existsb (Z.eqb 0) a = true → c_string (a ++ b) = c_string a.
Proof.
  induction a as [|x a IH]; [done|]. cbn [existsb c_string app]. rewrite (Z.eqb_sym x).
  destruct (0 =? x); [done|]. cbn [orb]. intros Ha. by rewrite IH.
Qed.

Lemma c_string_idem a : c_string (c_string a) = c_string a.
Proof.
  induction a as [|x a IH]; [done|]. cbn [c_string]. destruct (x =? 0) eqn:Hx; [done|]. cbn [c_string]. by rewrite Hx, IH.
Qed.

Lemma existsb_prefix a b : existsb (Z.eqb 0) a = true → existsb (Z.eqb 0) (a ++ b) = true.
Proof. intros Ha. by rewrite existsb_app, Ha. Qed.

Section proofs.
Context `{Kernel}.
Hypothesis whole_read : reads_whole.
Implicit Types s : dmn.

Lemma run_in_os {A} (m : ST os A) s a o :
  m (d_os s) = Some (a, o) → in_os m s = Some (a, with_os o s).
Proof. unfold in_os. by intros ->. Qed.

Lemma run_copied_string buf off str s :
  string_at buf off = Some str → copied_string buf off s = Some (strlcpy SSID_BUF_SIZE str, s).
Proof. intros Hs. unfold copied_string, of_option. by rewrite Hs. Qed.

Lemma string_at_field buf off n str :
  get_bytes buf off n = str → existsb (Z.eqb 0) str = true →
  string_at buf off = Some (c_string str).
Proof.
  unfold string_at, get_bytes. intros <- Hs.
  rewrite <- (take_drop n (drop off buf)) at 1. rewrite existsb_prefix by done.
  rewrite <- (take_drop n (drop off buf)) at 1. by rewrite c_string_prefix.
Qed.

Lemma strlcpy_c_string n str : strlcpy n (c_string str) = strlcpy n str.
Proof. unfold strlcpy. by rewrite c_string_idem. Qed.

(** The handlers, on a buffer whose members are known. *)
Lemma handlers_post s h buf ctrl type sender ipv4 ipv6 ssid password :
  loc_api_handle s = Some h →
  if_request_type buf = type → if_request_sender_id buf = sender → if_request_ipv4_addr buf = ipv4 →
  if_request_ipv6_addr buf = ipv6 → get_bytes buf off_ssid SSID_BUF_SIZE = ssid →
  get_bytes buf off_password SSID_BUF_SIZE = password →
  existsb (Z.eqb 0) ssid = true → existsb (Z.eqb 0) password = true →
  ∃ r, (if ctrl =? GPSONE_LOC_API_IF_REQUEST then
         loc_eng_dmn_conn_loc_api_server_if_request_handler buf
       else if ctrl =? GPSONE_LOC_API_IF_RELEASE then
         loc_eng_dmn_conn_loc_api_server_if_release_handler buf
       else mret 0) s =
    Some (r, with_posted (λ l, l ++ (pair h <$> expected_posts ctrl type sender ipv4 ipv6 ssid password)) s).
Proof.
  intros Hh Ht Hse H4 H6 Hss Hpw Hs1 Hs2.
  pose proof (string_at_field _ _ _ _ Hss Hs1) as Hssid.
  pose proof (string_at_field _ _ _ _ Hpw Hs2) as Hpass.
  assert (∀ s, with_posted (λ l, l ++ []) s = s) as Hid.
  { intros []. unfold with_posted. cbn. by rewrite app_nil_r. }
  unfold loc_eng_dmn_conn_loc_api_server_if_request_handler,
    loc_eng_dmn_conn_loc_api_server_if_release_handler, expected_posts, convert_if_type.
  rewrite Ht, Hse, H4, H6.
  unfold IF_REQUEST_TYPE_SUPL, IF_REQUEST_TYPE_WIFI, IF_REQUEST_TYPE_ANY,
    LOC_ENG_IF_REQUEST_TYPE_SUPL, LOC_ENG_IF_REQUEST_TYPE_WIFI, LOC_ENG_IF_REQUEST_TYPE_ANY,
    IF_REQUEST_SENDER_ID_QUIPC, IF_REQUEST_SENDER_ID_MSAPM, IF_REQUEST_SENDER_ID_GPSONE_DAEMON,
    LOC_ENG_IF_REQUEST_SENDER_ID_QUIPC, LOC_ENG_IF_REQUEST_SENDER_ID_MSAPM.
  assert ((0 <=? type) && (type <=? 2) = (type =? 0) || (type =? 1) || (type =? 2)) as -> by lia.
  assert (∀ (r : Z) l, ∃ r', Some (r, with_posted (λ l0, l0 ++ l) s) = Some (r', with_posted (λ l0, l0 ++ l) s)) as Hex
    by (intros r l; by exists r).
  destruct (ctrl =? GPSONE_LOC_API_IF_REQUEST) eqn:Hreq;
    [|destruct (ctrl =? GPSONE_LOC_API_IF_RELEASE) eqn:Hrel].
  3:{ exists 0. repeat case_match; cbn; by rewrite Hid. }
  all: rewrite st_bind_run; unfold st_get; cbn beta iota; rewrite Hh;
    (destruct (Z.eqb_spec type 0) as [->|]; [|destruct (Z.eqb_spec type 1) as [->|];
      [|destruct (Z.eqb_spec type 2) as [->|]]]); cbn [orb];
    try (exists (-1); cbn; by rewrite Hid);
    (destruct (Z.eqb_spec sender 0) as [->|]; [|destruct (Z.eqb_spec sender 1) as [->|];
      [|destruct (Z.eqb_spec sender 2) as [->|]]]); cbn [orb];
    try (exists (-1); cbn; by rewrite Hid); exists 0; try done;
    rewrite (st_bind_some _ _ _ _ _ (run_copied_string _ _ _ _ Hssid)),
      (st_bind_some _ _ _ _ _ (run_copied_string _ _ _ _ Hpass)), !strlcpy_c_string; done.
Qed.

Lemma of_to_le_mod n x : of_le (to_le n x) = x mod 256 ^ Z.of_nat n.
Proof.
  revert x. induction n as [|n IH]; intros x.
  - cbn. by rewrite Z.mod_1_r.
  - cbn [to_le of_le]. rewrite IH, Nat2Z.inj_succ, Z.pow_succ_r by lia.
    pose proof (Z.pow_pos_nonneg 256 (Z.of_nat n)). rewrite Z.rem_mul_r; lia.
Qed.

Lemma int32_mod x : int32 (x mod 2 ^ 32) = int32 x.
Proof. unfold swrap. by rewrite Z.mod_mod by lia. Qed.

(** The members of a received message are those its sender wrote. *)
Lemma if_request_members ctrl type sender ipv4 reserved pad ipv6 ssid password tail rest :
  well_sized reserved pad ipv6 ssid password tail →
  0 <= type < 2 ^ 32 → 0 <= sender < 2 ^ 32 → 0 <= ipv4 < 2 ^ 32 →
  let buf := concat (if_request_fields ctrl type sender ipv4 reserved pad ipv6 ssid password tail) ++ rest in
  ctrl_type buf = ctrl ∧ if_request_type buf = type ∧ if_request_sender_id buf = sender ∧
  if_request_ipv4_addr buf = ipv4 ∧ if_request_ipv6_addr buf = ipv6 ∧
  get_bytes buf off_ssid SSID_BUF_SIZE = ssid ∧ get_bytes buf off_password SSID_BUF_SIZE = password.
Proof.
  intros (Hl1 & Hl2 & Hl3 & Hl4 & Hl5 & Hl6) Hty Hse Hip buf.
  assert (∀ i f, if_request_fields ctrl type sender ipv4 reserved pad ipv6 ssid password tail !! i = Some f →
    get_bytes buf (sum_list (length <$> take i
      (if_request_fields ctrl type sender ipv4 reserved pad ipv6 ssid password tail))) (length f) = f) as Hget.
  { intros i f Hi. by apply field_get. }
  clearbody buf.
  pose proof (Hget 2%nat [ctrl] eq_refl) as H2. pose proof (Hget 4%nat _ eq_refl) as H4.
  pose proof (Hget 5%nat _ eq_refl) as H5. pose proof (Hget 6%nat _ eq_refl) as H6.
  pose proof (Hget 7%nat _ eq_refl) as H7. pose proof (Hget 8%nat _ eq_refl) as H8.
  pose proof (Hget 9%nat _ eq_refl) as H9. clear Hget.
  cbn -[to_le get_bytes] in H2, H4, H5, H6, H7, H8, H9.
  let norm h := (rewrite ?length_to_le, ?Hl1, ?Hl2, ?Hl3, ?Hl4, ?Hl5 in h; cbn [Nat.add] in h) in
    norm H2; norm H4; norm H5; norm H6; norm H7; norm H8; norm H9.
  unfold ctrl_type, if_request_type, if_request_sender_id, if_request_ipv4_addr, if_request_ipv6_addr,
    get8, get32, off_ctrl_type.
  rewrite H2.
  rewrite H4, H5, H6. split; [cbn; lia|]. split; [by apply of_to_le|]. split; [by apply of_to_le|].
  split; [by apply of_to_le|]. done.
Qed.

(** a request or release that another process sends to the server becomes
    exactly one message to the engine, with the members the sender wrote, if
    type and sender are known and the strings are terminated; any other control
    message posts nothing.  The server goes on, with the message consumed. *)
Theorem loc_api_server_proc_spec s h mem ctrl type sender ipv4 reserved pad ipv6 ssid password tail rest :
  let m := concat (if_request_fields ctrl type sender ipv4 reserved pad ipv6 ssid password tail) in
  pipes (d_os s) !! loc_api_server_msgqid s = Some (m ++ rest) →
  loc_api_handle s = Some h → length mem = (sizeof_ctrl_msgbuf + 256)%nat →
  well_sized reserved pad ipv6 ssid password tail →
  0 <= ctrl < 256 → 0 <= type < 2 ^ 32 → 0 <= sender < 2 ^ 32 → 0 <= ipv4 < 2 ^ 32 →
  existsb (Z.eqb 0) ssid = true → existsb (Z.eqb 0) password = true →
  ∃ s', loc_api_server_proc (Some mem) s = Some (0, s') ∧
    posted s' = posted s ++ (pair h <$> expected_posts ctrl type sender ipv4 ipv6 ssid password) ∧
    pipes (d_os s') = <[loc_api_server_msgqid s := rest]> (pipes (d_os s)).
Proof.
  intros m Hq Hh Hmem (Hl1 & Hl2 & Hl3 & Hl4 & Hl5 & Hl6) Hct Hty Hse Hip Hs1 Hs2.
  set (fs := if_request_fields ctrl type sender ipv4 reserved pad ipv6 ssid password tail) in *.
  assert (length m = 112%nat) as Hlm.
  { unfold m, fs, if_request_fields. cbn [concat]. rewrite !length_app, !length_to_le.
    unfold SSID_BUF_SIZE in *. cbn. lia. }
  assert (framed m = m) as Hfr.
  { unfold framed, stamp. rewrite Hlm. unfold m, fs, if_request_fields. cbn [concat].
    by rewrite drop_app_length' by (by rewrite length_to_le). }
  rewrite <- Hfr in Hq.
  destruct (msgrcv_whole whole_read (d_os s) _ m rest mem Hq) as (o & Hrun & Hp);
    [unfold message_ok, sizeof_size_t; rewrite Hlm, Hmem; unfold sizeof_ctrl_msgbuf; lia|
     rewrite Hmem; unfold sizeof_ctrl_msgbuf; lia|].
  rewrite Hfr, Hlm in Hrun. set (buf := m ++ drop 112 mem) in *.
  unfold loc_api_server_proc. rewrite st_bind_run. unfold st_get. cbn beta iota. cbn [id].
  replace (Z.of_nat sizeof_ctrl_msgbuf + 256) with (Z.of_nat (length mem))
    by (rewrite Hmem; unfold sizeof_ctrl_msgbuf; lia).
  rewrite (st_bind_some _ _ _ _ _ (run_in_os _ _ _ _ Hrun)).
  change (Z.of_nat 112 <=? 0) with false. cbn iota zeta.
  pose proof (if_request_members ctrl type sender ipv4 reserved pad ipv6 ssid password tail (drop 112 mem)) as Hms.
  cbn zeta in Hms. fold fs in Hms. fold m in Hms. fold buf in Hms.
  destruct Hms as (-> & H1 & H2 & H3 & H4 & H5 & H6); [done..|].
  destruct (handlers_post (with_os o s) h buf ctrl type sender ipv4 ipv6 ssid password) as (r & Hr); [done..|].
  rewrite (st_bind_some _ _ _ _ _ Hr). eexists. split; [done|]. by cbn.
Qed.

(** Before the engine registers itself a request is refused, but a release
    dereferences the missing instance. *)
Lemma release_without_engine_faults s buf type :
  loc_api_handle s = None → convert_if_type (if_request_type buf) = Some type →
  if_request_sender_id buf = IF_REQUEST_SENDER_ID_GPSONE_DAEMON →
  loc_eng_dmn_conn_loc_api_server_if_request_handler buf s = Some (1, s) ∧
  loc_eng_dmn_conn_loc_api_server_if_release_handler buf s = None.
Proof.
  intros Hh Ht Hs. unfold loc_eng_dmn_conn_loc_api_server_if_request_handler,
    loc_eng_dmn_conn_loc_api_server_if_release_handler.
  rewrite !st_bind_run. unfold st_get. cbn beta iota. by rewrite Hh, Ht, Hs.
Qed.

Hypothesis whole_write : ∀ n sz, 0 <= sz → k_write n sz = sz.

(** The pipe a sender listens on. *)
Definition answer_fd (s : dmn) (sender_id : Z) : option Z :=
  if sender_id =? LOC_ENG_IF_REQUEST_SENDER_ID_QUIPC then Some (quipc_msgqid s)
  else if sender_id =? LOC_ENG_IF_REQUEST_SENDER_ID_MSAPM then Some (msapm_msgqid s)
  else if sender_id =? LOC_ENG_IF_REQUEST_SENDER_ID_GPSONE_DAEMON then Some (loc_api_resp_msgqid s)
  else None.

Lemma get_bytes_poke buf off bs buf' :
  poke buf off bs = Some buf' → get_bytes buf' off (length bs) = bs.
Proof.
  unfold poke. case_decide as Hl; [|done]. intros <-%(inj Some). unfold get_bytes.
  rewrite drop_app_length' by (rewrite length_take; lia). by rewrite take_app_length.
Qed.

Lemma get_bytes_poke_ne buf off bs buf' off' n :
  poke buf off bs = Some buf' → (off' + n ≤ off)%nat → get_bytes buf' off' n = get_bytes buf off' n.
Proof.
  unfold poke. case_decide as Hl; [|done]. intros <-%(inj Some) Hle. unfold get_bytes.
  rewrite drop_app_le by (rewrite length_take; lia).
  rewrite take_app_le by (rewrite length_drop, length_take; lia).
  rewrite !take_drop_commute, take_take. do 2 f_equal. lia.
Qed.

Lemma get_bytes_stamp buf sz off n :
  (sizeof_size_t ≤ off)%nat → get_bytes (stamp buf sz) off n = get_bytes buf off n.
Proof.
  intros Ho. unfold get_bytes, stamp. rewrite drop_app_ge by (rewrite length_to_le; lia).
  rewrite length_to_le, drop_drop. do 2 f_equal. lia.
Qed.

(** What the handler writes at an empty pipe is what the process reads there. *)
Lemma answer_delivered s fd stack b1 b2 status client :
  pipes (d_os s) !! fd = Some [] → length client = sizeof_ctrl_msgbuf → length b2 = sizeof_ctrl_msgbuf →
  poke stack off_ctrl_type [GPSONE_LOC_API_RESPONSE] = Some b1 → poke b1 off_cmsg (to_le 4 status) = Some b2 →
  ∃ s' buf o, ('(r, _) ← in_os (loc_eng_dmn_conn_glue_msgsnd fd b2 (Z.of_nat sizeof_ctrl_msgbuf));
               mret (if r <? 0 then -1 else 0)) s = Some (0, s') ∧
    loc_eng_dmn_conn_glue_msgrcv fd client (Z.of_nat (length client)) (d_os s') =
      Some ((Z.of_nat sizeof_ctrl_msgbuf, buf), o) ∧
    ctrl_type buf = GPSONE_LOC_API_RESPONSE ∧ response_result buf = int32 status ∧
    posted s' = posted s ∧ ∀ fd', fd' ≠ fd → pipes (d_os s') !! fd' = pipes (d_os s) !! fd'.
Proof.
  intros Hq Hcl Hlb Hb1 Hb2.
  destruct (msgsnd_whole whole_write (d_os s) fd [] b2 Hq) as (o1 & Hrun & Hp);
    [rewrite Hlb; vm_compute; first [done|lia]..|].
  destruct (msgrcv_whole whole_read o1 fd b2 [] client) as (o2 & Hrun2 & _).
  { by rewrite Hp, lookup_insert_eq, app_nil_r. }
  { unfold message_ok. rewrite Hlb, Hcl. vm_compute. lia. } { by rewrite Hcl. }
  rewrite Hlb in Hrun, Hrun2. exists (with_os o1 s). eexists _, _.
  rewrite (st_bind_some _ _ _ _ _ (run_in_os _ _ _ _ Hrun)). split; [done|]. split; [exact Hrun2|].
  rewrite drop_ge, app_nil_r by (rewrite Hcl; vm_compute; lia). unfold ctrl_type, response_result, get8, get32, framed.
  rewrite !get_bytes_stamp by (vm_compute; lia).
  rewrite (get_bytes_poke_ne _ _ _ _ _ _ Hb2) by (vm_compute; lia).
  pose proof (get_bytes_poke _ _ _ _ Hb1) as Hg1. cbn [length] in Hg1. rewrite Hg1.
  pose proof (get_bytes_poke _ _ _ _ Hb2) as Hg. rewrite length_to_le in Hg. rewrite Hg.
  rewrite of_to_le_mod, int32_mod. split; [done|]. split; [done|]. split; [done|].
  intros fd' Hne. cbn. by rewrite Hp, lookup_insert_ne.
Qed.

(** an answer to a data connection request reaches exactly the process that
    asked: its next message is a response with the status given, whatever the
    stack held; no other pipe changes, and an unknown sender is ignored. *)
Theorem data_conn_delivered s stack sender_id status client :
  length stack = sizeof_ctrl_msgbuf → length client = sizeof_ctrl_msgbuf →
  match answer_fd s sender_id with
  | None => loc_eng_dmn_conn_loc_api_server_data_conn stack sender_id status s = Some (0, s)
  | Some fd => pipes (d_os s) !! fd = Some [] →
      ∃ s' buf o, loc_eng_dmn_conn_loc_api_server_data_conn stack sender_id status s = Some (0, s') ∧
        loc_eng_dmn_conn_glue_msgrcv fd client (Z.of_nat (length client)) (d_os s') =
          Some ((Z.of_nat sizeof_ctrl_msgbuf, buf), o) ∧
        ctrl_type buf = GPSONE_LOC_API_RESPONSE ∧ response_result buf = int32 status ∧
        posted s' = posted s ∧
        ∀ fd', fd' ≠ fd → pipes (d_os s') !! fd' = pipes (d_os s) !! fd'
  end.
Proof.
  intros Hst Hcl.
  destruct (poke stack off_ctrl_type [GPSONE_LOC_API_RESPONSE]) as [b1|] eqn:Hb1.
  2:{ rewrite poke_some in Hb1; [done|]. rewrite Hst. vm_compute. lia. }
  pose proof (poke_length _ _ _ _ Hb1) as Hl1.
  destruct (poke b1 off_cmsg (to_le 4 status)) as [b2|] eqn:Hb2.
  2:{ rewrite poke_some in Hb2; [done|]. rewrite length_to_le, Hl1, Hst. vm_compute. lia. }
  pose proof (poke_length _ _ _ _ Hb2) as Hl2.
  assert (loc_eng_dmn_conn_loc_api_server_data_conn stack sender_id status s =
    match answer_fd s sender_id with
    | None => Some (0, s)
    | Some fd => ('(r, _) ← in_os (loc_eng_dmn_conn_glue_msgsnd fd b2 (Z.of_nat sizeof_ctrl_msgbuf));
                  mret (if r <? 0 then -1 else 0)) s
    end) as ->.
  { unfold loc_eng_dmn_conn_loc_api_server_data_conn, answer_fd. rewrite st_bind_run. unfold st_get.
    cbn beta iota. cbn [id]. unfold of_option. rewrite Hb1, st_bind_run.
    cbn beta iota delta [mret ST_ret]. rewrite Hb2, st_bind_run.
    cbn beta iota delta [mret ST_ret]. repeat (break_if; [done|]). done. }
  destruct (answer_fd s sender_id) as [fd|]; [|done]. intros Hq.
  eapply answer_delivered; [done|done|congruence|exact Hb1|exact Hb2].
Qed.
End proofs.

(** ** A concrete server *)

Definition demo_request : list (list Z) :=
  if_request_fields GPSONE_LOC_API_IF_REQUEST 1 0 0 (replicate 8 170) (replicate 3 170)
    (replicate 16 0) ([97; 112] ++ replicate 31 0) ([112; 119] ++ replicate 31 0) (replicate 2 170).

Definition demo_dmn (q : list Z) : dmn :=
  Dmn (OS {[3 := q; 4 := []; 5 := []]} 0 []) (Some 8%positive) 3 6 4 5
    GPSONE_LOC_API_Q_PATH GPSONE_LOC_API_RESP_Q_PATH [].

Lemma loc_api_server_proc_spec_witness :
  ∃ s', loc_api_server_proc (Some (replicate 368 170)) (demo_dmn (concat demo_request ++ [1])) = Some (0, s') ∧
    posted s' = [(8%positive, loc_eng_msg_request_wifi 1 0 [97; 112] [112; 119])] ∧
    pipes (d_os s') = <[3 := [1]]> (pipes (d_os (demo_dmn (concat demo_request ++ [1])))).
Proof.
  apply (@loc_api_server_proc_spec demo_kernel (λ _ _ _ _ _, eq_refl)
    (demo_dmn (concat demo_request ++ [1])) 8 (replicate 368 170) GPSONE_LOC_API_IF_REQUEST 1 0 0
    (replicate 8 170) (replicate 3 170) (replicate 16 0) ([97; 112] ++ replicate 31 0)
    ([112; 119] ++ replicate 31 0) (replicate 2 170) [1]);
    [reflexivity|reflexivity|reflexivity|repeat split|vm_compute; intuition discriminate..|reflexivity|reflexivity].
Defined.

Lemma data_conn_delivered_witness :
  ∃ s' buf o, loc_eng_dmn_conn_loc_api_server_data_conn (replicate 112 170) 0
      GPSONE_LOC_API_IF_FAILURE (demo_dmn []) = Some (0, s') ∧
    loc_eng_dmn_conn_glue_msgrcv 4 (replicate 112 0) (Z.of_nat (length (replicate 112 0))) (d_os s') =
      Some ((112, buf), o) ∧
    ctrl_type buf = GPSONE_LOC_API_RESPONSE ∧ response_result buf = GPSONE_LOC_API_IF_FAILURE ∧
    posted s' = [] ∧ ∀ fd', fd' ≠ 4 → pipes (d_os s') !! fd' = pipes (d_os (demo_dmn [])) !! fd'.
Proof.
  exact (@data_conn_delivered demo_kernel (λ _ _ _ _ _, eq_refl) (λ _ _ _, eq_refl) (demo_dmn [])
    (replicate 112 170) 0 GPSONE_LOC_API_IF_FAILURE (replicate 112 0) eq_refl eq_refl eq_refl).
Defined.
