(* ===== verification/ThreadHelper.v ===== *)
(** * The server thread: loc_eng_dmn_conn_thread_helper.c

    [loc_eng_dmn_conn_launch_thelper] starts a thread that runs [thelper_main]
    and waits until the thread signals that it is ready.  The two threads, and a
    third that may call [loc_eng_dmn_conn_unblock_thelper], interleave: each
    step is what a thread does between two points where the others may see the
    fields.  [thelper_main] is split at those points ([pc]). *)

From S2P Require Import Prelude.
Local Open Scope Z_scope.

(** ** State *)

(** The callbacks given to the launch; a NULL pointer is [false]. *)
Record procs := Procs { thread_proc_init : bool; thread_proc_pre : bool; thread_proc : bool; thread_proc_post : bool }.

Inductive callback := CInit | CPre | CProc | CPost.

(** Where [thelper_main] stands. *)
Inductive pc :=
| MInit          (* before thread_proc_init *)
| MInitFailed    (* thread_exit set, about to signal *)
| MReady         (* about to signal *)
| MPre           (* before thread_proc_pre *)
| MProc          (* at the top of the loop *)
| MTest          (* at the loop condition *)
| MPost          (* after the loop *)
| MDone.         (* returned *)

#[export] Instance pc_eq_dec : EqDecision pc.
Proof. solve_decision. Defined.

(** Where the launching thread stands. *)
Inductive lpc :=
| LLaunch                (* before the launch *)
| LWait                  (* about to enter thelper_signal_wait *)
| LAsleep                (* in pthread_cond_wait *)
| LWoken                 (* released from it *)
| LReturned (rv : Z).    (* the launch returned *)

Record thelper := Thelper {
  thread_exit : Z;
  thread_ready : Z;
  main_pc : option pc;      (* None: no thread *)
  launch_pc : lpc;
  ran : list callback       (* the callbacks run so far *)
}.

(** ** The functions *)

Definition set_exit (x : Z) (t : thelper) : thelper :=
  Thelper x (thread_ready t) (main_pc t) (launch_pc t) (ran t).
Definition at_main (p : pc) (t : thelper) : thelper :=
  Thelper (thread_exit t) (thread_ready t) (Some p) (launch_pc t) (ran t).
Definition at_launch (p : lpc) (t : thelper) : thelper :=
  Thelper (thread_exit t) (thread_ready t) (main_pc t) p (ran t).
Definition log (c : callback) (t : thelper) : thelper :=
  Thelper (thread_exit t) (thread_ready t) (main_pc t) (launch_pc t) (ran t ++ [c]).

(** [cond_rc] and [mutex_rc] are what the initialisers return. *)
Definition thelper_signal_init (cond_rc mutex_rc : Z) (t : thelper) : Z * thelper :=
  let t := Thelper 0 0 (main_pc t) (launch_pc t) (ran t) in
  if truth cond_rc then (cond_rc, t) else (mutex_rc, t).

Definition thelper_signal_destroy (cond_rc mutex_rc : Z) : Z :=
  let ret_result := if truth cond_rc then cond_rc else 0 in
  if truth mutex_rc then mutex_rc else ret_result.

(** [pthread_cond_signal]: the only thread that can sleep is the launcher. *)
Definition cond_signal (t : thelper) : thelper :=
  match launch_pc t with LAsleep => at_launch LWoken t | _ => t end.

Definition thelper_signal_ready (t : thelper) : thelper :=
  cond_signal (Thelper (thread_exit t) 1 (main_pc t) (launch_pc t) (ran t)).

Definition thelper_signal_block (t : thelper) : Z * thelper :=
  (thread_ready t, Thelper (thread_exit t) 0 (main_pc t) (launch_pc t) (ran t)).

(** [thelper_signal_wait] up to [pthread_cond_wait], and what follows it. *)
Definition thelper_signal_wait (t : thelper) : thelper :=
  if negb (truth (thread_ready t)) && negb (truth (thread_exit t)) then at_launch LAsleep t
  else at_launch LWoken t.
Definition thelper_signal_wait_result (t : thelper) : Z := if truth (thread_exit t) then -1 else 0.

(** One step of [thelper_main]; [r] is what the callback it calls returns. *)
Definition thelper_main (ps : procs) (r : Z) (t : thelper) : option thelper :=
  match main_pc t with
  | Some MInit =>
      Some (if thread_proc_init ps then
              let t := log CInit t in
              if r <? 0 then at_main MInitFailed (set_exit 1 t) else at_main MReady t
            else at_main MReady t)
  | Some MInitFailed => Some (at_main MDone (thelper_signal_ready t))
  | Some MReady => Some (at_main MPre (thelper_signal_ready t))
  | Some MPre =>
      Some (if thread_proc_pre ps then
              let t := log CPre t in
              if r <? 0 then at_main MDone (set_exit 1 t) else at_main MProc t
            else at_main MProc t)
  | Some MProc =>
      Some (if thread_proc ps then
              let t := log CProc t in
              at_main MTest (if r <? 0 then set_exit 1 t else t)
            else at_main MTest t)
  | Some MTest => Some (if thread_exit t =? 0 then at_main MProc t else at_main MPost t)
  | Some MPost => Some (at_main MDone (if thread_proc_post ps then log CPost t else t))
  | Some MDone | None => None
  end.

(** One step of [loc_eng_dmn_conn_launch_thelper]; [rc] is the result of
    creating the thread, 0 when [create_thread_cb] is given. *)
Definition loc_eng_dmn_conn_launch_thelper (rc : Z) (t : thelper) : option thelper :=
  match launch_pc t with
  | LLaunch =>
      let t := (thelper_signal_init 0 0 t).2 in
      Some (if truth rc then at_launch (LReturned (-1)) t
            else at_launch LWait (at_main MInit t))
  | LWait => Some (thelper_signal_wait t)
  | LWoken => Some (at_launch (LReturned (thread_exit t)) t)
  | LAsleep | LReturned _ => None
  end.

Definition loc_eng_dmn_conn_unblock_thelper (t : thelper) : thelper := set_exit 1 t.

(** [pthread_join] waits for the thread, then the signal is destroyed. *)
Definition loc_eng_dmn_conn_join_thelper (join_rc : Z) (t : thelper) : option Z :=
  match main_pc t with Some MDone => Some join_rc | _ => None end.

(** ** Interleaving *)

Inductive step (ps : procs) : thelper → thelper → Prop :=
| step_main t r t' : thelper_main ps r t = Some t' → step ps t t'
| step_launch t rc t' : loc_eng_dmn_conn_launch_thelper rc t = Some t' → step ps t t'
| step_unblock t : launch_pc t ≠ LLaunch → step ps t (loc_eng_dmn_conn_unblock_thelper t).

(** The same with spurious returns of [pthread_cond_wait]. *)
Inductive step_spurious (ps : procs) : thelper → thelper → Prop :=
| step_normal t t' : step ps t t' → step_spurious ps t t'
| step_wake t : launch_pc t = LAsleep → step_spurious ps t (at_launch LWoken t).

Definition starts (t : thelper) : Prop :=
  main_pc t = None ∧ launch_pc t = LLaunch ∧ ran t = [].

(** ** Order of the callbacks *)

Definition opt (b : bool) (c : callback) : list callback := if b then [c] else [].

(** The callbacks a thread at [p] has run, [n] turns of its loop included. *)
Definition expected (ps : procs) (p : pc) (n : nat) : list callback :=
  match p with
  | MInit => []
  | MInitFailed | MReady | MPre => opt (thread_proc_init ps) CInit
  | MProc | MTest | MPost =>
      opt (thread_proc_init ps) CInit ++ opt (thread_proc_pre ps) CPre ++
      concat (replicate n (opt (thread_proc ps) CProc))
  | MDone => []
  end.

(** A finished thread failed in a callback before the loop, or ran them all. *)
Definition finished (ps : procs) (l : list callback) : Prop :=
  (thread_proc_init ps = true ∧ l = [CInit]) ∨
  (thread_proc_pre ps = true ∧ l = opt (thread_proc_init ps) CInit ++ [CPre]) ∨
  ∃ n, (0 < n)%nat ∧ l = expected ps MPost n ++ opt (thread_proc_post ps) CPost.

Definition order_ok (ps : procs) (t : thelper) : Prop :=
  match main_pc t with
  | None => ran t = []
  | Some MDone => finished ps (ran t)
  | Some p => ∃ n, ran t = expected ps p n ∧ (p = MTest ∨ p = MPost → (0 < n)%nat) ∧
      (p = MInitFailed → thread_proc_init ps = true)
  end.

(** ** Signalling *)

(** The thread has not signalled yet. *)
Definition early (p : pc) : bool := match p with MInit | MInitFailed | MReady => true | _ => false end.

(** The ready flag tells whether the thread has signalled; a launcher sleeps
    only if it has not, and goes on only if it has or the end was requested. *)
Definition signal_ok (t : thelper) : Prop :=
  (thread_exit t = 0 ∨ thread_exit t = 1) ∧
  match main_pc t with
  | None => launch_pc t = LReturned (-1)
  | Some p =>
      thread_ready t = (if early p then 0 else 1) ∧ (p = MInitFailed → thread_exit t = 1) ∧
      match launch_pc t with
      | LLaunch => False
      | LWait => True
      | LAsleep => early p = true
      | LWoken => early p = false ∨ thread_exit t = 1
      | LReturned rv => rv = 0 → early p = false
      end
  end.

Definition launched_ok (t : thelper) : Prop := starts t ∨ signal_ok t.

Section proofs.
Context (ps : procs).

Lemma concat_replicate_end {A} n (l : list A) :
  concat (replicate (S n) l) = concat (replicate n l) ++ l.
Proof. rewrite replicate_S_end, concat_app. cbn. by rewrite app_nil_r. Qed.

Lemma ran_signal_ready t :
  ran (thelper_signal_ready t) = ran t ∧ main_pc (thelper_signal_ready t) = main_pc t ∧
  thread_exit (thelper_signal_ready t) = thread_exit t ∧ thread_ready (thelper_signal_ready t) = 1.
Proof. unfold thelper_signal_ready, cond_signal. cbn. by destruct (launch_pc t). Qed.

Lemma main_order r t t' :
  order_ok ps t → thelper_main ps r t = Some t' → order_ok ps t'.
Proof.
  destruct (ran_signal_ready t) as (Hsr & _).
  unfold order_ok, thelper_main. destruct (main_pc t) as [[]|] eqn:Hp; try done;
    intros (n & Hr & Hn & Hf) [= <-].
  - destruct (thread_proc_init ps) eqn:Hi; [destruct (r <? 0)|]; cbn; exists n; rewrite Hr, Hi;
      (split; [done|]); naive_solver.
  - cbn. rewrite Hsr, Hr. left. cbn. rewrite Hf by done. done.
  - cbn. rewrite Hsr, Hr. exists n. split; [done|]. naive_solver.
  - destruct (thread_proc_pre ps) eqn:Hpre; [destruct (r <? 0)|]; cbn; rewrite Hr; cbn.
    + right. left. done.
    + exists 0%nat. rewrite Hpre. cbn. rewrite ?app_nil_r. naive_solver.
    + exists 0%nat. rewrite Hpre. cbn. rewrite ?app_nil_r. naive_solver.
  - assert (expected ps MTest (S n) = expected ps MProc n ++ opt (thread_proc ps) CProc) as He.
    { cbn [expected]. by rewrite concat_replicate_end, !app_assoc. }
    destruct (thread_proc ps) eqn:Hpr; cbn; [destruct (r <? 0); cbn|]; exists (S n);
      (split; [|split; [lia|done]]); rewrite Hr; cbn [expected opt] in He |- *; rewrite Hpr in *;
      cbn [opt] in *; rewrite He; by rewrite ?app_nil_r.
  - destruct (thread_exit t =? 0); cbn; exists n; (split; [exact Hr|]); naive_solver.
  - destruct (thread_proc_post ps) eqn:Hpo; cbn; right; right; exists n;
      (split; [by apply Hn; right|]); rewrite Hr, Hpo; cbn [opt]; by rewrite ?app_nil_r.
Qed.

Lemma launch_order rc t t' :
  starts t ∨ main_pc t ≠ None ∧ launch_pc t ≠ LLaunch →
  order_ok ps t → loc_eng_dmn_conn_launch_thelper rc t = Some t' → order_ok ps t'.
Proof.
  unfold loc_eng_dmn_conn_launch_thelper, order_ok. intros [(Hm & -> & Hr)|[Hm Hl]] Ho.
  - intros [= <-]. rewrite Hm in Ho. destruct (truth rc); cbn; [by rewrite Hm|].
    rewrite Hr. exists 0%nat. naive_solver.
  - destruct (launch_pc t); try done; intros [= <-]; [|exact Ho].
    unfold thelper_signal_wait. by destruct (negb _ && _).
Qed.

Lemma main_signal r t t' :
  signal_ok t → thelper_main ps r t = Some t' → signal_ok t'.
Proof.
  destruct t as [ex rd [p|] lp rn]; unfold signal_ok; cbn; [|by intros [_ ->]].
  intros (He & Hr & Hf & Hl). destruct p, lp; try done; cbn in *; intros [= <-];
    repeat break_if; cbn; intuition congruence.
Qed.

Lemma launch_signal rc t t' :
  launched_ok t → loc_eng_dmn_conn_launch_thelper rc t = Some t' → signal_ok t'.
Proof.
  destruct t as [ex rd mp lp rn].
  unfold loc_eng_dmn_conn_launch_thelper, signal_ok, thelper_signal_wait. cbn.
  intros [(Hm & Hl & Hr)|[He Hs]]; cbn in *.
  - subst. intros [= <-]. destruct (truth rc); cbn; intuition congruence.
  - destruct lp; try done; [destruct mp; naive_solver| |]; (destruct mp as [p|]; [|done]);
      destruct Hs as (Hr & Hf & Hw); intros [= <-].
    + destruct (early p) eqn:Hep; destruct He as [-> | ->]; subst rd; cbn; rewrite ?Hep; intuition congruence.
    + cbn. intuition congruence.
Qed.

Lemma step_signal t t' : launched_ok t → step ps t t' → launched_ok t'.
Proof.
  intros Ho Hst. destruct Hst as [t0 r t1 Hrun|t0 rc t1 Hrun|t0 Hl]; right.
  - destruct Ho as [(Hm & _)|Ho]; [by unfold thelper_main in Hrun; rewrite Hm in Hrun|by eapply main_signal].
  - by eapply launch_signal.
  - destruct Ho as [(_ & Hx & _)|[_ Hs]]; [done|]. split; [by right|]. cbn.
    destruct (main_pc t0); [|done]. destruct (launch_pc t0); naive_solver.
Qed.

Lemma thelper_reachable_ok t :
  reachable (step ps) starts t → launched_ok t ∧ order_ok ps t.
Proof.
  revert t. apply invariant_reachable.
  - intros t Hs. split; [by left|]. unfold order_ok. by destruct Hs as (-> & _ & ->).
  - intros t t' [Hl Ho] Hst. split; [by eapply step_signal|]. destruct Hst as [t0 r t1 Hrun|t0 rc t1 Hrun|t0 _].
    + by eapply main_order.
    + eapply launch_order; [|done|exact Hrun]. destruct Hl as [|[_ Hs]]; [by left|]. right.
      unfold loc_eng_dmn_conn_launch_thelper in Hrun. destruct (main_pc t0), (launch_pc t0); naive_solver.
    + exact Ho.
Qed.

(** Where the launcher may stand, spurious returns included. *)
Definition launched (t : thelper) : Prop :=
  starts t ∨ (main_pc t = None ∧ launch_pc t = LReturned (-1)) ∨
  (main_pc t ≠ None ∧ launch_pc t ≠ LLaunch).

Lemma launched_step t t' : launched t → step_spurious ps t t' → launched t'.
Proof.
  unfold launched. intros Hl Hst.
  destruct Hst as [t0 t1 Hn|t0 Hs]; [destruct Hn as [t2 r t3 Hrun|t2 rc t3 Hrun|t2 Hne]|].
  - destruct Hl as [(Hm & _)|[[Hm _]|[Hm Hl]]]; [by unfold thelper_main in Hrun; rewrite Hm in Hrun..|].
    right; right. destruct t2 as [ex rd [p|] lp rn]; [|done]. unfold thelper_main in Hrun. cbn in *.
    destruct p; try done; injection Hrun as <-; repeat break_if; cbn; try done; by destruct lp.
  - unfold loc_eng_dmn_conn_launch_thelper in Hrun. destruct t2 as [ex rd mp lp rn].
    unfold starts in *. cbn in *.
    destruct lp; try done; injection Hrun as <-; unfold thelper_signal_wait;
      repeat break_if; cbn; destruct mp; naive_solver.
  - destruct Hl as [(_ & ? & _)|Hl]; [done|by right].
  - destruct Hl as [(_ & ? & _)|[[_ ?]|[? _]]]; [congruence..|]. by right; right.
Qed.

Lemma thelper_order t : reachable (step_spurious ps) starts t → launched t ∧ order_ok ps t.
Proof.
  revert t. apply invariant_reachable.
  - intros t Hs. split; [by left|]. unfold order_ok. by destruct Hs as (-> & _ & ->).
  - intros t t' [Hl Ho] Hst. split; [by eapply launched_step|].
    destruct Hst as [t0 t1 Hn|t0 _]; [|exact Ho].
    destruct Hn as [t2 r t3 Hrun|t2 rc t3 Hrun|t2 _]; [by eapply main_order| |exact Ho].
    eapply launch_order; [|done|exact Hrun]. destruct Hl as [|[[_ Hl]|]]; [by left| |by right].
    unfold loc_eng_dmn_conn_launch_thelper in Hrun. by rewrite Hl in Hrun.
Qed.

(** C27: in every interleaving, spurious returns of [pthread_cond_wait]
    included, the callbacks run in order: init, pre, the loop
    body any number of times, post; a thread that finished either failed in
    init or pre, and ran nothing after it, or ran the body at least once and
    then post. *)
Theorem callbacks_in_order t :
  reachable (step_spurious ps) starts t →
  match main_pc t with
  | None => ran t = []
  | Some MDone => finished ps (ran t)
  | Some p => ∃ n, ran t = expected ps p n
  end.
Proof.
  intros [_ Ho]%thelper_order. unfold order_ok in Ho.
  destruct (main_pc t) as [[]|]; [destruct Ho as (n & ? & _); by exists n..|done|done].
Qed.

(** Steps of the thread alone, with the results of its callbacks. *)
Fixpoint run_main (rs : list Z) (t : thelper) : option thelper :=
  match rs with
  | [] => Some t
  | r :: rs => t' ← thelper_main ps r t; run_main rs t'
  end.

(** the launch waits for the thread and is never left waiting: a launcher
    that sleeps is woken within two steps of the thread, and when the launch
    returns 0 the thread has signalled, its init callback having run. *)
Theorem launch_ready t :
  reachable (step ps) starts t →
  (launch_pc t = LAsleep → ∀ r, ∃ n t', (n ≤ 2)%nat ∧
     run_main (replicate n r) t = Some t' ∧ launch_pc t' = LWoken) ∧
  (launch_pc t = LReturned 0 →
     thread_ready t = 1 ∧ ∃ l, ran t = opt (thread_proc_init ps) CInit ++ l).
Proof.
  intros [Hl Ho]%thelper_reachable_ok. split; intros Hlp.
  - destruct Hl as [(_ & Hx & _)|[_ Hs]]; [congruence|]. intros r. rewrite Hlp in Hs.
    destruct (main_pc t) as [p|] eqn:Hp; [|done]. destruct Hs as (_ & _ & He).
    assert (∀ t', main_pc t' = Some MReady ∨ main_pc t' = Some MInitFailed → launch_pc t' = LAsleep →
      ∃ t2, thelper_main ps r t' = Some t2 ∧ launch_pc t2 = LWoken) as Hsig.
    { intros t' Hm Ha. unfold thelper_main, thelper_signal_ready, cond_signal. cbn. rewrite Ha.
      destruct Hm as [-> | ->]; eexists; (split; [done|]); done. }
    destruct p; try done.
    + assert (∃ t1, thelper_main ps r t = Some t1 ∧ launch_pc t1 = LAsleep ∧
        (main_pc t1 = Some MReady ∨ main_pc t1 = Some MInitFailed)) as (t1 & H1 & Ha & Hm).
      { unfold thelper_main. rewrite Hp. eexists. split; [done|].
        destruct (thread_proc_init ps), (r <? 0); cbn; auto. }
      destruct (Hsig t1 Hm Ha) as (t2 & H2 & Hw). exists 2%nat, t2. split; [done|]. cbn.
      by rewrite H1; cbn; rewrite H2.
    + destruct (Hsig t ltac:(auto) Hlp) as (t2 & H2 & Hw). exists 1%nat, t2. cbn. rewrite H2. auto.
    + destruct (Hsig t ltac:(auto) Hlp) as (t2 & H2 & Hw). exists 1%nat, t2. cbn. rewrite H2. auto.
  - destruct Hl as [(_ & Hx & _)|[_ Hs]]; [congruence|]. rewrite Hlp in Hs.
    destruct (main_pc t) as [p|] eqn:Hp; [|done]. destruct Hs as (Hr & _ & He).
    specialize (He eq_refl). rewrite He in Hr. split; [done|]. unfold order_ok in Ho. rewrite Hp in Ho.
    assert (∀ l, (∃ l', l = opt (thread_proc_init ps) CInit ++ l') →
      ran t = l → ∃ l', ran t = opt (thread_proc_init ps) CInit ++ l') as Hpre by (intros l (l' & ->) ->; by exists l').
    destruct p; try done;
      try (destruct Ho as (n & Hr' & _); eapply Hpre; [|exact Hr']; by eexists).
    + destruct Ho as (n & Hr' & _). eapply Hpre; [|exact Hr']. exists []. by rewrite app_nil_r.
    + destruct Ho as [(Hi & Hr')|[(_ & Hr')|(n & _ & Hr')]]; (eapply Hpre; [|exact Hr']).
      * exists []. by rewrite Hi.
      * by eexists.
      * cbn [expected]. rewrite <- !app_assoc. by eexists.
Qed.

(** How far a thread told to exit is from its end, and how often it still runs
    the loop body. *)
Definition rank (p : pc) : nat :=
  match p with MInit => 6 | MReady => 5 | MPre => 4 | MProc => 3 | MTest => 2 | MPost | MInitFailed => 1 | MDone => 0 end.
Definition turns (p : pc) : nat := match p with MInit | MReady | MPre | MProc => 1 | _ => 0 end.
Definition is_proc (c : callback) : bool := match c with CProc => true | _ => false end.
Definition turns_run (l : list callback) : nat := length (List.filter is_proc l).

Lemma exit_step r t p :
  thread_exit t ≠ 0 → main_pc t = Some p → p ≠ MDone →
  ∃ t' p' l, thelper_main ps r t = Some t' ∧ main_pc t' = Some p' ∧ thread_exit t' ≠ 0 ∧
    (rank p' < rank p)%nat ∧ ran t' = ran t ++ l ∧ (turns_run l + turns p' ≤ turns p)%nat.
Proof.
  intros He Hp Hd. destruct (ran_signal_ready t) as (Hs1 & Hs2 & Hs3 & _).
  unfold thelper_main. rewrite Hp.
  destruct p; try done; cbn [rank turns].
  - destruct (thread_proc_init ps); [destruct (r <? 0)|].
    + eexists _, MInitFailed, [CInit]. split; [done|]. cbn. auto with lia.
    + eexists _, MReady, [CInit]. split; [done|]. cbn. auto with lia.
    + eexists _, MReady, []. split; [done|]. cbn. rewrite app_nil_r. auto with lia.
  - eexists _, MDone, []. split; [done|]. cbn. rewrite Hs1, Hs3, app_nil_r. auto with lia.
  - eexists _, MPre, []. split; [done|]. cbn. rewrite Hs1, Hs3, app_nil_r. auto with lia.
  - destruct (thread_proc_pre ps); [destruct (r <? 0)|].
    + eexists _, MDone, [CPre]. split; [done|]. cbn. auto with lia.
    + eexists _, MProc, [CPre]. split; [done|]. cbn. auto with lia.
    + eexists _, MProc, []. split; [done|]. cbn. rewrite app_nil_r. auto with lia.
  - destruct (thread_proc ps).
    + eexists _, MTest, [CProc]. split; [done|]. cbn. destruct (r <? 0); cbn; auto with lia.
    + eexists _, MTest, []. split; [done|]. cbn. rewrite app_nil_r. auto with lia.
  - destruct (Z.eqb_spec (thread_exit t) 0); [done|]. eexists _, MPost, []. split; [done|]. cbn.
    rewrite app_nil_r. auto with lia.
  - destruct (thread_proc_post ps).
    + eexists _, MDone, [CPost]. split; [done|]. cbn. auto with lia.
    + eexists _, MDone, []. split; [done|]. cbn. rewrite app_nil_r. auto with lia.
Qed.

Lemma exit_run rs t p :
  thread_exit t ≠ 0 → main_pc t = Some p → (rank p ≤ length rs)%nat →
  ∃ n t' l, (n ≤ rank p)%nat ∧ run_main (take n rs) t = Some t' ∧ main_pc t' = Some MDone ∧
    ran t' = ran t ++ l ∧ (turns_run l ≤ turns p)%nat.
Proof.
  revert t p. induction rs as [|r rs IH]; intros t p He Hp Hl.
  - assert (p = MDone) as -> by (destruct p; cbn in Hl; lia || done).
    exists 0%nat, t, []. rewrite app_nil_r. auto with lia.
  - destruct (decide (p = MDone)) as [->|Hne].
    { exists 0%nat, t, []. rewrite app_nil_r. auto with lia. }
    destruct (exit_step r t p He Hp Hne) as (t1 & p1 & l1 & H1 & Hp1 & He1 & Hr1 & Hran1 & Ht1).
    destruct (IH t1 p1 He1 Hp1) as (n & t' & l & Hn & Hrun & Hd & Hran & Ht); [cbn in Hl; lia|].
    exists (S n), t', (l1 ++ l). split; [lia|]. cbn. rewrite H1. cbn. split; [done|]. split; [done|].
    split; [by rewrite Hran, Hran1, app_assoc|]. unfold turns_run in *.
    rewrite List.filter_app, length_app. lia.
Qed.

(** once the thread is told to exit it ends by itself within six of its own
    steps, whatever its callbacks return, and runs the loop body at most once
    more; a join then succeeds. *)
Theorem unblock_stops_thread t p rs join_rc :
  main_pc t = Some p → (6 ≤ length rs)%nat →
  ∃ n t' l, (n ≤ 6)%nat ∧ run_main (take n rs) (loc_eng_dmn_conn_unblock_thelper t) = Some t' ∧
    loc_eng_dmn_conn_join_thelper join_rc t' = Some join_rc ∧
    ran t' = ran t ++ l ∧ (turns_run l ≤ 1)%nat.
Proof.
  intros Hp Hl. assert (rank p ≤ 6 ∧ turns p ≤ 1)%nat as [Hr Ht] by (destruct p; cbn; lia).
  destruct (exit_run rs (loc_eng_dmn_conn_unblock_thelper t) p) as (n & t' & l & Hn & Hrun & Hd & Hran & Hu);
    [done|done|lia|].
  exists n, t', l. split; [lia|]. split; [done|]. unfold loc_eng_dmn_conn_join_thelper. rewrite Hd.
  split; [done|]. split; [done|lia].
Qed.
End proofs.

Lemma reachable_normal ps t : reachable (step ps) starts t → reachable (step_spurious ps) starts t.
Proof.
  intros (t0 & H0 & Hr). exists t0. split; [done|]. clear H0. induction Hr as [|t1 t2 t3 Hs _ IH]; [done|].
  eapply rtc_l; [by apply step_normal|done].
Qed.

(** ** A concrete thread *)

Definition all_procs : procs := Procs true true true true.
Definition demo_start : thelper := Thelper 7 7 None LLaunch [].
(** The launcher sleeps before the thread has run. *)
Definition demo_asleep : thelper := Thelper 0 0 (Some MInit) LAsleep [].
(** The thread is in its loop and the launch has returned. *)
Definition demo_running : thelper := Thelper 0 1 (Some MTest) (LReturned 0) [CInit; CPre; CProc].

Lemma reachable_demo_asleep : reachable (step all_procs) starts demo_asleep.
Proof.
  eapply reachable_step; [eapply reachable_step|].
  - exists demo_start. split; [done|reflexivity].
  - apply (step_launch _ demo_start 0). reflexivity.
  - eapply (step_launch _ _ 0). reflexivity.
Qed.

(** Extend a known run by the step of a thread. *)
Ltac advance H tac :=
  let R := type of H in
  match R with
  | reachable ?st ?init ?s =>
      let H' := fresh in
      eassert (reachable st init _) as H' by (eapply (reachable_step st init s); [exact H|tac]);
      clear H; rename H' into H
  end.

Lemma reachable_demo_running : reachable (step all_procs) starts demo_running.
Proof.
  pose proof reachable_demo_asleep as H.
  advance H ltac:(eapply (step_main _ _ 0); reflexivity).
  advance H ltac:(eapply (step_main _ _ 0); reflexivity).
  advance H ltac:(eapply (step_launch _ _ 0); reflexivity).
  advance H ltac:(eapply (step_main _ _ 0); reflexivity).
  advance H ltac:(eapply (step_main _ _ 0); reflexivity).
  exact H.
Qed.

Lemma callbacks_in_order_witness : ∃ n, [CInit; CPre; CProc] = expected all_procs MTest n.
Proof. exact (callbacks_in_order all_procs demo_running (reachable_normal _ _ reachable_demo_running)). Defined.

Lemma launch_ready_witness :
  (∀ r, ∃ n t', (n ≤ 2)%nat ∧ run_main all_procs (replicate n r) demo_asleep = Some t' ∧
     launch_pc t' = LWoken) ∧
  (1 = 1 ∧ ∃ l, [CInit; CPre; CProc] = [CInit] ++ l).
Proof.
  split.
  - exact (proj1 (launch_ready all_procs demo_asleep reachable_demo_asleep) eq_refl).
  - exact (proj2 (launch_ready all_procs demo_running reachable_demo_running) eq_refl).
Defined.

Lemma unblock_stops_thread_witness :
  ∃ n t' l, (n ≤ 6)%nat ∧
    run_main all_procs (take n (replicate 6 0)) (loc_eng_dmn_conn_unblock_thelper demo_running) = Some t' ∧
    loc_eng_dmn_conn_join_thelper 0 t' = Some 0 ∧
    ran t' = [CInit; CPre; CProc] ++ l ∧ (turns_run l ≤ 1)%nat.
Proof.
  apply (unblock_stops_thread all_procs demo_running MTest (replicate 6 0) 0); [reflexivity|].
  apply Nat.leb_le. reflexivity.
Defined.

(** [thelper_signal_wait] tests its condition once: with a spurious return of
    [pthread_cond_wait] the launch reports success before the thread has run. *)
Lemma spurious_launch :
  ∃ t, reachable (step_spurious all_procs) starts t ∧ launch_pc t = LReturned 0 ∧ ran t = [].
Proof.
  assert (reachable (step_spurious all_procs) starts demo_start) as H0.
  { exists demo_start. split; [done|reflexivity]. }
  rename H0 into H.
  advance H ltac:(eapply step_normal, (step_launch _ _ 0); reflexivity).
  advance H ltac:(eapply step_normal, (step_launch _ _ 0); reflexivity).
  advance H ltac:(eapply step_wake; reflexivity).
  advance H ltac:(eapply step_normal, (step_launch _ _ 0); reflexivity).
  eexists. split; [exact H|done].
Qed.
