(* ===== verification/DmnServer.v ===== *)
(** * The daemon server with its thread: loc_eng_dmn_conn.cpp

    The callbacks of DmnConn.v run on the thread of ThreadHelper.v.  Four
    parties interleave: that thread, the thread that launches and later stops
    the server, the processes that write messages into the server's pipe, and
    the engine, which answers requests.  The thread's [read] blocks while the
    pipe is open and empty. *)

From S2P Require Import Prelude LinkedList Agps DmnPipe DmnConn ThreadHelper.
Local Open Scope Z_scope.

(** ** State *)

(** Where [loc_eng_dmn_conn_loc_api_server_unblock] stands. *)
Inductive upc := UIdle | UFlagged | UReturned.

(** [sv_sent] records the messages put into the server's pipe, oldest first,
    and [sv_spurious] whether [pthread_cond_wait] has returned to the launcher
    without a signal. *)
Record server := Server {
  sv_thread : thelper;
  sv_dmn : dmn;
  sv_unblock : upc;
  sv_sent : list (list Z);
  sv_spurious : bool
}.

(** ** The functions *)

Definition server_procs : procs := Procs true true true true.

Section operations.
Context `{Kernel}.

(** The callback that [thelper_main] runs at [p]; [mem] is what [malloc] returns. *)
Definition server_callback (e : init_env) (mem : option (list Z)) (p : pc) : ST dmn Z :=
  match p with
  | MInit => loc_api_server_proc_init e
  | MPre => loc_api_server_proc_pre
  | MProc => loc_api_server_proc mem
  | MPost => loc_api_server_proc_post
  | MInitFailed | MReady | MTest | MDone => mret 0
  end.

(** One step of the thread; [None] when there is none or when it faults. *)
Definition server_main (e : init_env) (mem : option (list Z)) (s : server) : option server :=
  p ← main_pc (sv_thread s);
  '(r, d) ← server_callback e mem p (sv_dmn s);
  t ← thelper_main server_procs r (sv_thread s);
  Some (Server t d (sv_unblock s) (sv_sent s) (sv_spurious s)).

(** The server's pipe, if the server has it open. *)
Definition server_pipe (d : dmn) : option (list Z) := pipes (d_os d) !! loc_api_server_msgqid d.

(** [read] waits while the pipe is empty. *)
Definition reading_blocks (s : server) : bool :=
  match main_pc (sv_thread s), server_pipe (sv_dmn s) with
  | Some MProc, Some [] => true
  | _, _ => false
  end.

(** One step of [loc_eng_dmn_conn_loc_api_server_launch]; the server passes
    [create_thread_cb] or leaves it out ([rc] is 0 or what creating the thread
    answers). *)
Definition server_launch (rc : Z) (agps_handle : ptr) (s : server) : option server :=
  t ← loc_eng_dmn_conn_launch_thelper rc (sv_thread s);
  let d := match launch_pc (sv_thread s) with
           | LLaunch => launch_setup None None agps_handle (sv_dmn s)
           | _ => sv_dmn s
           end in
  Some (Server t d (sv_unblock s) (sv_sent s) (sv_spurious s)).

(** The wait of the launcher, [pthread_cond_wait] under an [if], returns
    although nothing was signalled. *)
Definition spurious_return (s : server) : server :=
  Server (at_launch LWoken (sv_thread s)) (sv_dmn s) (sv_unblock s) (sv_sent s) true.

(** The message of [loc_eng_dmn_conn_unblock_proc] as it enters the pipe. *)
Definition unblock_msg (stack : list Z) : list Z :=
  framed (default [] (poke stack off_ctrl_type [GPSONE_UNBLOCK])).

(** One step of [loc_eng_dmn_conn_loc_api_server_unblock]. *)
Definition loc_eng_dmn_conn_loc_api_server_unblock (stack : list Z) (s : server) : option server :=
  match sv_unblock s with
  | UIdle => Some (Server (loc_eng_dmn_conn_unblock_thelper (sv_thread s)) (sv_dmn s) UFlagged (sv_sent s)
                   (sv_spurious s))
  | UFlagged =>
      '(_, d) ← loc_eng_dmn_conn_unblock_proc stack (sv_dmn s);
      let sent := match server_pipe (sv_dmn s) with Some _ => [unblock_msg stack] | None => [] end in
      Some (Server (sv_thread s) d UReturned (sv_sent s ++ sent) (sv_spurious s))
  | UReturned => None
  end.

(** It waits for the thread. *)
Definition loc_eng_dmn_conn_loc_api_server_join (join_rc : Z) (s : server) : option Z :=
  _ ← loc_eng_dmn_conn_join_thelper join_rc (sv_thread s); Some 0.

(** Another process writes one message. *)
Definition client_writes (m : list Z) (s : server) : option server :=
  q ← server_pipe (sv_dmn s);
  let d := sv_dmn s in
  let o := d_os d in
  Some (Server (sv_thread s)
    (with_os (OS (<[loc_api_server_msgqid d := q ++ m]> (pipes o)) (calls o) (sys_log o)) d)
    (sv_unblock s) (sv_sent s ++ [m]) (sv_spurious s)).

(** The engine answers a request. *)
Definition engine_answers (stack : list Z) (sender_id status : Z) (s : server) : option server :=
  '(_, d) ← loc_eng_dmn_conn_loc_api_server_data_conn stack sender_id status (sv_dmn s);
  Some (Server (sv_thread s) d (sv_unblock s) (sv_sent s) (sv_spurious s)).
End operations.

(** ** Messages of other processes *)

Definition is_if_message (m : list Z) : Prop :=
  ctrl_type m = GPSONE_LOC_API_IF_REQUEST ∨ ctrl_type m = GPSONE_LOC_API_IF_RELEASE.

(** A whole [ctrl_msgbuf], whose strings end if it asks for a connection. *)
Definition ctrl_message (m : list Z) : Prop :=
  length m = sizeof_ctrl_msgbuf ∧ msgsz_of m = Z.of_nat sizeof_ctrl_msgbuf ∧
  (is_if_message m →
    existsb (Z.eqb 0) (get_bytes m off_ssid SSID_BUF_SIZE) = true ∧
    existsb (Z.eqb 0) (get_bytes m off_password SSID_BUF_SIZE) = true).

(** What the server posts for a message. *)
Definition posts_of (m : list Z) : list engine_msg :=
  expected_posts (ctrl_type m) (if_request_type m) (if_request_sender_id m) (if_request_ipv4_addr m)
    (if_request_ipv6_addr m) (get_bytes m off_ssid SSID_BUF_SIZE) (get_bytes m off_password SSID_BUF_SIZE).

(** ** Interleaving *)

(** The descriptors [open] returns are not in use: no two are the same. *)
Definition got (f : fifo) : Z := if (f_mkfifo_rc f =? -1) && negb (f_eexist f) then f_mkfifo_rc f else f_fd f.
Definition queues (e : init_env) : list fifo := [ie_server e; ie_resp e; ie_quipc e; ie_msapm e].
Definition descriptors_ok (e : init_env) : Prop :=
  Forall (λ f, -1 <= f_fd f) (queues e) ∧ NoDup (List.filter (Z.leb 0) (got <$> queues e)).

Section interleaving.
Context `{Kernel}.
Variables (e : init_env) (agps_handle : ptr).

Inductive server_step : server → server → Prop :=
| server_thread mem s s' :
    (∀ m, mem = Some m → length m = (sizeof_ctrl_msgbuf + 256)%nat) →
    reading_blocks s = false → server_main e mem s = Some s' → server_step s s'
| server_launches rc s s' : server_launch rc agps_handle s = Some s' → server_step s s'
| server_wakes s : launch_pc (sv_thread s) = LAsleep → server_step s (spurious_return s)
| server_unblocks stack rv s s' :
    launch_pc (sv_thread s) = LReturned rv → length stack = sizeof_ctrl_msgbuf →
    loc_eng_dmn_conn_loc_api_server_unblock stack s = Some s' → server_step s s'
| server_receives m s s' : ctrl_message m → client_writes m s = Some s' → server_step s s'
| server_answers stack sender_id status s s' :
    length stack = sizeof_ctrl_msgbuf → engine_answers stack sender_id status s = Some s' → server_step s s'.

(** Before the launch: no pipe is open; [early] waits in the pipe where other
    processes hold it. *)
Definition server_starts (early : list (list Z)) (s : server) : Prop :=
  starts (sv_thread s) ∧ pipes (d_os (sv_dmn s)) = ∅ ∧ posted (sv_dmn s) = [] ∧
  sv_unblock s = UIdle ∧ sv_sent s = early ∧ sv_spurious s = false.
End interleaving.

(** ** The pipes of the server *)

Definition fds_of (d : dmn) : list Z :=
  [loc_api_server_msgqid d; loc_api_resp_msgqid d; quipc_msgqid d; msapm_msgqid d].

(** The pipes that [open] gave are open, and no others. *)
Definition opened (d : dmn) : Prop :=
  Forall (λ fd, -1 <= fd) (fds_of d) ∧ NoDup (List.filter (Z.leb 0) (fds_of d)) ∧
  ∀ fd, is_Some (pipes (d_os d) !! fd) ↔ fd ∈ fds_of d ∧ 0 <= fd.

(** Open the queues of a list in turn. *)
Fixpoint opened_pipes (l : list fifo) (ps : gmap Z (list Z)) : gmap Z (list Z) :=
  match l with
  | [] => ps
  | f :: l => opened_pipes l (if got f <? 0 then ps else <[got f := f_content f]> ps)
  end.

Section pipes_lemmas.
Context `{Kernel}.
Implicit Types (s : server) (d : dmn).

Lemma run_msgget f path o :
  -1 <= f_fd f →
  ∃ o', msgget f path o = Some (got f, o') ∧ -1 <= got f ∧ pipes o' = opened_pipes [f] (pipes o).
Proof.
  intros Hf. unfold msgget, loc_eng_dmn_conn_glue_msgget, loc_eng_dmn_conn_glue_pipeget, got, opened_pipes.
  unfold got. st_run. unfold log_call at 1. st_run. cbn [andb].
  destruct (Z.eqb_spec (f_mkfifo_rc f) (-1)) as [Hm|Hm]; [destruct (f_eexist f)|]; cbn [andb negb].
  - eexists. split; [reflexivity|]. split; [done|]. reflexivity.
  - rewrite Hm. eexists. split; [reflexivity|]. split; [lia|]. reflexivity.
  - eexists. split; [reflexivity|]. split; [done|]. reflexivity.
Qed.

Lemma opened_pipes_app l1 l2 ps : opened_pipes (l1 ++ l2) ps = opened_pipes l2 (opened_pipes l1 ps).
Proof. revert ps. induction l1 as [|f l1 IH]; intros ps; [done|]. apply IH. Qed.

Lemma lookup_opened_pipes l fd ps :
  is_Some (opened_pipes l ps !! fd) ↔ (fd ∈ got <$> l) ∧ 0 <= fd ∨ is_Some (ps !! fd).
Proof.
  revert ps. induction l as [|f l IH]; intros ps; cbn [opened_pipes fmap list_fmap].
  - set_solver.
  - rewrite IH. destruct (Z.ltb_spec (got f) 0).
    + rewrite elem_of_cons. intuition (subst; lia || auto).
    + rewrite elem_of_cons, lookup_insert_is_Some'. intuition (subst; lia || auto).
Qed.

Lemma opened_content f l ps :
  0 <= got f → NoDup (List.filter (Z.leb 0) (got <$> f :: l)) →
  opened_pipes (f :: l) ps !! got f = Some (f_content f).
Proof.
  intros Hf. cbn [fmap list_fmap List.filter]. rewrite (proj2 (Z.leb_le _ _) Hf). intros [Hn _]%NoDup_cons.
  cbn [opened_pipes].
  destruct (Z.ltb_spec (got f) 0) as [|_]; [lia|].
  assert (∀ ps0, ps0 !! got f = Some (f_content f) → opened_pipes l ps0 !! got f = Some (f_content f)) as Hk.
  2:{ apply Hk. by rewrite lookup_insert_eq. }
  assert (∀ g, g ∈ l → 0 <= got g → got g ≠ got f) as Hne.
  { intros g Hg Hp Heq. apply Hn, list_elem_of_In, List.filter_In. split; [|by apply Z.leb_le].
    apply list_elem_of_In, list_elem_of_fmap. by exists g. }
  clear Hn. induction l as [|g l IH]; intros ps0 Hps; [done|]. cbn [opened_pipes].
  apply IH.
  - intros g' Hg'. apply Hne. by right.
  - destruct (Z.ltb_spec (got g) 0); [done|]. rewrite lookup_insert_ne; [done|]. apply Hne; [by left|lia].
Qed.
End pipes_lemmas.

(** ** The callbacks *)

Section callbacks.
Context `{Kernel}.
Hypothesis whole_read : reads_whole.
Implicit Types (d : dmn) (o : os).

(** The first action of a function reads the whole state. *)
Ltac get_state :=
  rewrite st_bind_run; unfold st_get; cbn beta iota; match goal with |- context [id ?x] => change (id x) with x end.

Lemma proc_init_run e d :
  Forall (λ f, -1 <= f_fd f) (queues e) →
  ∃ o, loc_api_server_proc_init e d =
      Some (0, with_fds (got (ie_server e)) (got (ie_resp e)) (got (ie_quipc e)) (got (ie_msapm e)) (with_os o d)) ∧
    pipes o = opened_pipes (queues e) (pipes (d_os d)).
Proof.
  unfold queues. rewrite !Forall_cons. intros (H1 & H2 & H3 & H4 & _).
  unfold loc_api_server_proc_init. get_state.
  destruct (run_msgget _ (global_loc_api_q_path d) (d_os d) H1) as (o1 & Hr1 & _ & Hp1).
  st_step (run_in_os _ _ _ _ Hr1).
  set (o2 := OS (pipes o1) (calls o1) (sys_log o1 ++ [Chmod (global_loc_api_q_path d) 432])).
  assert (in_os (log_call (Chmod (global_loc_api_q_path d) 432)) (with_os o1 d) = Some (tt, with_os o2 d)) as Hc by done.
  st_step Hc.
  assert (∃ o3, (match ie_gps_group e with
       | Some gid => in_os (log_call (Chown (global_loc_api_q_path d) (-1) gid))
       | None => mret tt
       end) (with_os o2 d) = Some (tt, with_os o3 d) ∧ pipes o3 = pipes o1) as (o3 & Hg & Hp3).
  { destruct (ie_gps_group e); eexists; done. }
  st_step Hg.
  destruct (run_msgget _ (global_loc_api_resp_q_path d) o3 H2) as (o4 & Hr4 & _ & Hp4).
  st_step (run_in_os _ (with_os o3 d) _ _ Hr4).
  destruct (run_msgget _ QUIPC_CTRL_Q_PATH o4 H3) as (o5 & Hr5 & _ & Hp5).
  st_step (run_in_os _ (with_os o4 d) _ _ Hr5).
  destruct (run_msgget _ MSAPM_CTRL_Q_PATH o5 H4) as (o6 & Hr6 & _ & Hp6).
  st_step (run_in_os _ (with_os o5 d) _ _ Hr6).
  exists o6. split; [done|]. rewrite Hp6, Hp5, Hp4, Hp3, Hp1. done.
Qed.

Lemma run_msgremove p fd o :
  ∃ o', loc_eng_dmn_conn_glue_msgremove p fd o = Some (0, o') ∧ pipes o' = delete fd (pipes o).
Proof. destruct p; eexists; (split; [reflexivity|]); done. Qed.

Lemma proc_post_run d :
  ∃ o, loc_api_server_proc_post d = Some (0, with_os o d) ∧
    ∀ fd, pipes o !! fd = if decide (fd ∈ fds_of d) then None else pipes (d_os d) !! fd.
Proof.
  unfold loc_api_server_proc_post. get_state.
  destruct (run_msgremove (Some (global_loc_api_q_path d)) (loc_api_server_msgqid d) (d_os d)) as (o1 & Hr1 & Hp1).
  st_step (run_in_os _ _ _ _ Hr1).
  destruct (run_msgremove (Some (global_loc_api_resp_q_path d)) (loc_api_resp_msgqid d) o1) as (o2 & Hr2 & Hp2).
  st_step (run_in_os _ (with_os o1 d) _ _ Hr2).
  destruct (run_msgremove (Some QUIPC_CTRL_Q_PATH) (quipc_msgqid d) o2) as (o3 & Hr3 & Hp3).
  st_step (run_in_os _ (with_os o2 d) _ _ Hr3).
  destruct (run_msgremove (Some MSAPM_CTRL_Q_PATH) (msapm_msgqid d) o3) as (o4 & Hr4 & Hp4).
  st_step (run_in_os _ (with_os o3 d) _ _ Hr4).
  exists o4. split; [done|]. intros fd. rewrite Hp4, Hp3, Hp2, Hp1.
  unfold fds_of. case_decide as Hd.
  - rewrite !elem_of_cons, elem_of_nil in Hd. rewrite !lookup_delete_None. intuition.
  - rewrite !elem_of_cons, elem_of_nil in Hd. rewrite !lookup_delete_ne by intuition. done.
Qed.

(** The members of a message are the same when more bytes follow it. *)
Lemma get_bytes_app m l off n : (off + n ≤ length m)%nat → get_bytes (m ++ l) off n = get_bytes m off n.
Proof.
  intros Hl. unfold get_bytes. rewrite drop_app_le by lia. apply take_app_le. rewrite length_drop. lia.
Qed.

Lemma members_app m l :
  length m = sizeof_ctrl_msgbuf → ctrl_type (m ++ l) = ctrl_type m ∧ posts_of (m ++ l) = posts_of m.
Proof.
  unfold sizeof_ctrl_msgbuf. intros Hm.
  unfold posts_of, ctrl_type, if_request_type, if_request_sender_id, if_request_ipv4_addr, if_request_ipv6_addr,
    get8, get32, off_ctrl_type, off_ssid, off_password, SSID_BUF_SIZE.
  rewrite !get_bytes_app by lia. done.
Qed.

Lemma no_posts m : ¬ is_if_message m → posts_of m = [].
Proof.
  unfold is_if_message, posts_of, expected_posts. intros Hn.
  destruct (Z.eqb_spec (ctrl_type m) GPSONE_LOC_API_IF_REQUEST); [tauto|].
  destruct (Z.eqb_spec (ctrl_type m) GPSONE_LOC_API_IF_RELEASE); [tauto|]. by repeat break_if.
Qed.

(** The pipe's next message. *)
Lemma msgsz_of_app m l : (sizeof_size_t ≤ length m)%nat → msgsz_of (m ++ l) = msgsz_of m.
Proof. intros Hl. unfold msgsz_of. by rewrite take_app_le. Qed.

Lemma proc_run d h mem m rest :
  server_pipe d = Some (m ++ rest) → loc_api_handle d = Some h →
  length mem = (sizeof_ctrl_msgbuf + 256)%nat → ctrl_message m →
  ∃ o, loc_api_server_proc (Some mem) d =
      Some (0, with_posted (λ l, l ++ (pair h <$> posts_of m)) (with_os o d)) ∧
    pipes o = <[loc_api_server_msgqid d := rest]> (pipes (d_os d)).
Proof.
  intros Hq Hh Hmem (Hlm & Hsz & Hstr). unfold loc_api_server_proc. get_state.
  assert (msgsz_of (m ++ rest) = 112) as Hms.
  { rewrite msgsz_of_app; [exact Hsz|]. rewrite Hlm. vm_compute. lia. }
  unfold sizeof_ctrl_msgbuf in Hlm, Hmem.
  destruct (msgrcv_run (d_os d) _ _ mem Hq) as (r & buf & o & Hrun & _ & Hr);
    [rewrite Hmem; unfold sizeof_size_t; lia|rewrite Hmem; lia|left; rewrite Hms; unfold sizeof_size_t; lia|].
  destruct Hr as [(_ & _ & Hno)|(-> & _ & -> & Hp)].
  { destruct Hno. split; [done|]. rewrite Hms, length_app, Hlm, Hmem. unfold sizeof_size_t. lia. }
  rewrite Hms in *. change (Z.to_nat 112) with 112%nat in *.
  rewrite take_app_length' in Hrun by done. rewrite drop_app_length' in Hp by done.
  replace (Z.of_nat sizeof_ctrl_msgbuf + 256) with (Z.of_nat (length mem))
    by (rewrite Hmem; unfold sizeof_ctrl_msgbuf; lia).
  st_step (run_in_os _ _ _ _ Hrun).
  cbn beta iota zeta. change (112 <=? 0) with false. cbn iota.
  set (buf := m ++ drop 112 mem).
  destruct (members_app m (drop 112 mem) Hlm) as [Hct Hpo]. fold buf in Hct, Hpo.
  exists o. split; [|exact Hp].
  destruct (decide (is_if_message m)) as [Hif|Hif].
  - destruct (Hstr Hif) as [Hs1 Hs2].
    destruct (handlers_post (with_os o d) h buf (ctrl_type buf) (if_request_type buf) (if_request_sender_id buf)
      (if_request_ipv4_addr buf) (if_request_ipv6_addr buf) (get_bytes buf off_ssid SSID_BUF_SIZE)
      (get_bytes buf off_password SSID_BUF_SIZE)) as (r & Hr); try done.
    { unfold buf. rewrite get_bytes_app; [done|]. rewrite Hlm. vm_compute. lia. }
    { unfold buf. rewrite get_bytes_app; [done|]. rewrite Hlm. vm_compute. lia. }
    st_step Hr. fold (posts_of buf). by rewrite Hpo.
  - rewrite Hct. rewrite no_posts by done. unfold is_if_message in Hif.
    destruct (Z.eqb_spec (ctrl_type m) GPSONE_LOC_API_IF_REQUEST); [tauto|].
    destruct (Z.eqb_spec (ctrl_type m) GPSONE_LOC_API_IF_RELEASE); [tauto|]. st_run.
    do 2 f_equal. destruct d. unfold with_posted, with_os. cbn. by rewrite app_nil_r.
Qed.

(** Without an open pipe the read fails and the server goes on. *)
Lemma proc_closed d mem :
  server_pipe d = None → length mem = (sizeof_ctrl_msgbuf + 256)%nat →
  ∃ o, loc_api_server_proc (Some mem) d = Some (0, with_os o d) ∧ pipes o = pipes (d_os d).
Proof.
  intros Hq Hmem. unfold loc_api_server_proc. get_state.
  assert (∃ o, loc_eng_dmn_conn_glue_msgrcv (loc_api_server_msgqid d) mem (Z.of_nat sizeof_ctrl_msgbuf + 256)
    (d_os d) = Some ((-1, mem), o) ∧ pipes o = pipes (d_os d)) as (o & Hr & Hp).
  { unfold loc_eng_dmn_conn_glue_msgrcv, loc_eng_dmn_conn_glue_piperead. st_run.
    unfold server_pipe in Hq. rewrite Hq. eexists. split; [reflexivity|done]. }
  st_step (run_in_os _ _ _ _ Hr). by exists o.
Qed.

(** ** Writing *)

Lemma msgsnd_frame fd b o :
  length b = sizeof_ctrl_msgbuf →
  ∃ r o', loc_eng_dmn_conn_glue_msgsnd fd b (Z.of_nat sizeof_ctrl_msgbuf) o =
      Some ((r, stamp b (Z.of_nat sizeof_ctrl_msgbuf)), o') ∧
    (∀ fd', fd' ≠ fd → pipes o' !! fd' = pipes o !! fd') ∧
    (is_Some (pipes o' !! fd) ↔ is_Some (pipes o !! fd)).
Proof.
  unfold sizeof_ctrl_msgbuf. intros Hb. destruct (pipes o !! fd) as [q|] eqn:Hq.
  - destruct (msgsnd_spec o fd q b (Z.of_nat 112) Hq) as (r & n & o' & Hr & Hp & _);
      [rewrite Hb; unfold sizeof_size_t; lia|lia|].
    exists r, o'. split; [done|]. rewrite Hp. split; [intros fd' Hne; by rewrite lookup_insert_ne|].
    rewrite lookup_insert_eq. split; by eexists.
  - unfold loc_eng_dmn_conn_glue_msgsnd.
    rewrite (st_bind_some _ _ _ _ _ (run_poke_stamp b _ o ltac:(rewrite Hb; unfold sizeof_size_t; lia))).
    unfold loc_eng_dmn_conn_glue_pipewrite. st_run.
    rewrite decide_True by (rewrite length_stamp; rewrite ?Hb; unfold sizeof_size_t; lia). rewrite Hq.
    eexists _, _. split; [reflexivity|]. split; [done|]. cbn. by rewrite Hq.
Qed.

Lemma poke_ctrl_type stack c :
  length stack = sizeof_ctrl_msgbuf →
  ∃ b, poke stack off_ctrl_type [c] = Some b ∧ length b = sizeof_ctrl_msgbuf ∧ get_bytes b off_ctrl_type 1 = [c].
Proof.
  intros Hl. destruct (poke stack off_ctrl_type [c]) as [b|] eqn:Hb.
  - exists b. split; [done|]. split; [by rewrite (poke_length _ _ _ _ Hb)|]. exact (get_bytes_poke _ _ _ _ Hb).
  - rewrite poke_some in Hb; [done|]. rewrite Hl. vm_compute. lia.
Qed.

Lemma unblock_message stack :
  length stack = sizeof_ctrl_msgbuf → ctrl_message (unblock_msg stack) ∧ posts_of (unblock_msg stack) = [].
Proof.
  intros Hl. unfold unblock_msg. destruct (poke_ctrl_type stack GPSONE_UNBLOCK Hl) as (b & -> & Hlb & Hg).
  cbn [default id]. unfold sizeof_ctrl_msgbuf in Hlb.
  assert (sizeof_size_t ≤ length b)%nat as H4 by (rewrite Hlb; unfold sizeof_size_t; lia).
  assert (¬ is_if_message (framed b)) as Hno.
  { unfold is_if_message, ctrl_type, get8, framed. rewrite get_bytes_stamp by (vm_compute; lia). rewrite Hg.
    by intros [?|?]. }
  split; [|by apply no_posts]. split; [by rewrite length_framed|]. split; [|by intros ?].
  pose proof (msgsz_framed b [] H4) as Hm. rewrite app_nil_r in Hm. rewrite Hm, Hlb; [done|lia].
Qed.

Hypothesis whole_write : ∀ n sz, 0 <= sz → k_write n sz = sz.

Lemma unblock_proc_run d stack :
  length stack = sizeof_ctrl_msgbuf →
  ∃ o, loc_eng_dmn_conn_unblock_proc stack d = Some (0, with_os o d) ∧
    pipes o = match server_pipe d with
              | Some q => <[loc_api_server_msgqid d := q ++ unblock_msg stack]> (pipes (d_os d))
              | None => pipes (d_os d)
              end.
Proof.
  intros Hl. unfold loc_eng_dmn_conn_unblock_proc, unblock_msg. get_state.
  destruct (poke_ctrl_type stack GPSONE_UNBLOCK Hl) as (b & Hb & Hlb & _). rewrite Hb. cbn [default of_option id].
  rewrite st_bind_run. cbn beta iota delta [mret ST_ret].
  destruct (server_pipe d) as [q|] eqn:Hq.
  - destruct (msgsnd_whole whole_write (d_os d) _ q b Hq) as (o & Hr & Hp);
      [rewrite Hlb; vm_compute; first [done|lia]..|].
    rewrite Hlb in Hr. st_step (run_in_os _ _ _ _ Hr). by exists o.
  - destruct (msgsnd_frame (loc_api_server_msgqid d) b (d_os d) Hlb) as (r & o & Hr & Hne & Hsame).
    st_step (run_in_os _ _ _ _ Hr). exists o. split; [done|]. apply map_eq. intros fd.
    destruct (decide (fd = loc_api_server_msgqid d)) as [->|]; [|by apply Hne].
    unfold server_pipe in Hq. rewrite Hq in Hsame |- *. destruct (pipes o !! _); [|done].
    destruct (proj1 Hsame ltac:(by eexists)). done.
Qed.

Lemma data_conn_frame d stack sender_id status :
  length stack = sizeof_ctrl_msgbuf →
  ∃ r o, loc_eng_dmn_conn_loc_api_server_data_conn stack sender_id status d = Some (r, with_os o d) ∧
    (∀ fd, fd ∉ [quipc_msgqid d; msapm_msgqid d; loc_api_resp_msgqid d] → pipes o !! fd = pipes (d_os d) !! fd) ∧
    (∀ fd, is_Some (pipes o !! fd) ↔ is_Some (pipes (d_os d) !! fd)).
Proof.
  clear whole_read whole_write. intros Hl. unfold loc_eng_dmn_conn_loc_api_server_data_conn. get_state.
  destruct (poke_ctrl_type stack GPSONE_LOC_API_RESPONSE Hl) as (b1 & Hb1 & Hlb1 & _). rewrite Hb1.
  cbn [of_option]. rewrite st_bind_run. cbn beta iota delta [mret ST_ret].
  destruct (poke b1 off_cmsg (to_le 4 status)) as [b|] eqn:Hb.
  2:{ rewrite poke_some in Hb; [done|]. rewrite length_to_le, Hlb1. vm_compute. lia. }
  pose proof (poke_length _ _ _ _ Hb) as Hlb. rewrite Hlb1 in Hlb. cbn [of_option].
  assert (∀ fd0, fd0 ∈ [quipc_msgqid d; msapm_msgqid d; loc_api_resp_msgqid d] →
    ∃ r o, ('(r, _) ← in_os (loc_eng_dmn_conn_glue_msgsnd fd0 b (Z.of_nat sizeof_ctrl_msgbuf));
            mret (if r <? 0 then -1 else 0)) d = Some (r, with_os o d) ∧
      (∀ fd, fd ∉ [quipc_msgqid d; msapm_msgqid d; loc_api_resp_msgqid d] → pipes o !! fd = pipes (d_os d) !! fd) ∧
      (∀ fd, is_Some (pipes o !! fd) ↔ is_Some (pipes (d_os d) !! fd))) as Hans.
  { intros fd0 Hin. destruct (msgsnd_frame fd0 b (d_os d) Hlb) as (r & o & Hr & Hne & Hsame).
    rewrite (st_bind_some _ _ _ _ _ (run_in_os _ _ _ _ Hr)). eexists _, o. split; [reflexivity|]. split.
    - intros fd Hfd. apply Hne. by intros ->.
    - intros fd. destruct (decide (fd = fd0)) as [->|]; [done|]. by rewrite Hne. }
  rewrite st_bind_run. cbn beta iota delta [mret ST_ret]. repeat break_if; [apply Hans; set_solver..|].
  exists 0, (d_os d). split; [by destruct d|]. done.
Qed.
End callbacks.

(** ** The invariant *)

Definition after_init (p : pc) : bool :=
  match p with MReady | MPre | MProc | MTest | MPost => true | _ => false end.

(** What the launching thread and the server's thread know of each other;
    [sp] tells that the launcher's wait may have returned too early. *)
Definition thread_inv (t : thelper) (u : upc) (sp : bool) : Prop :=
  match main_pc t with
  | None => launch_pc t = LLaunch ∧ u = UIdle ∨ launch_pc t = LReturned (-1)
  | Some p =>
      launch_pc t ≠ LLaunch ∧ p ≠ MInitFailed ∧ thread_ready t = (if early p then 0 else 1) ∧
      (if early p
       then sp = false → thread_exit t = 0 ∧ u = UIdle ∧ (launch_pc t = LWait ∨ launch_pc t = LAsleep)
       else launch_pc t ≠ LAsleep)
  end.

Section invariant.
Context `{Kernel}.
Hypothesis whole_read : reads_whole.
Hypothesis whole_write : ∀ n sz, 0 <= sz → k_write n sz = sz.
Variables (e : init_env) (h : loc) (early_msgs : list (list Z)).
Hypothesis fresh_descriptors : descriptors_ok e.
Hypothesis early_content : f_content (ie_server e) = concat early_msgs.
Hypothesis early_ok : Forall ctrl_message early_msgs.
Implicit Types (s : server) (d : dmn).

Definition pipes_inv s : Prop :=
  match main_pc (sv_thread s) with
  | None => pipes (d_os (sv_dmn s)) = ∅ ∧ sv_sent s = early_msgs ∧ ran (sv_thread s) = []
  | Some p => loc_api_handle (sv_dmn s) = Some h ∧
      if after_init p then opened (sv_dmn s)
      else pipes (d_os (sv_dmn s)) = ∅ ∧ (p = MInit → sv_sent s = early_msgs ∧ ran (sv_thread s) = [])
  end.

(** A server told to stop leaves its loop, and finds a message on its way if
    the launcher had been signalled. *)
Definition stop_inv s : Prop :=
  (sv_unblock s ≠ UIdle → main_pc (sv_thread s) ≠ None → thread_exit (sv_thread s) ≠ 0) ∧
  (sv_spurious s = false → sv_unblock s = UReturned → main_pc (sv_thread s) = Some MPre ∨ main_pc (sv_thread s) = Some MProc →
     server_pipe (sv_dmn s) ≠ Some []).

(** The messages served were posted; those that wait are in the pipe. *)
Definition served_in_order s (served waiting : list (list Z)) : Prop :=
  sv_sent s = served ++ waiting ∧
  posted (sv_dmn s) = pair h <$> concat (posts_of <$> served) ∧
  (∀ q, server_pipe (sv_dmn s) = Some q → q = concat waiting) ∧
  (length served ≤ turns_run (ran (sv_thread s)))%nat.

Record server_inv s : Prop := ServerInv {
  si_sent : Forall ctrl_message (sv_sent s);
  si_thread : thread_inv (sv_thread s) (sv_unblock s) (sv_spurious s);
  si_pipes : pipes_inv s;
  si_stop : stop_inv s;
  si_served : ∃ served waiting, served_in_order s served waiting
}.

Lemma server_inv_starts s : server_starts early_msgs s → server_inv s.
Proof.
  intros ((Hm & Hl & Hr) & Hp & Hpo & Hu & Hs & _). split.
  - by rewrite Hs.
  - unfold thread_inv. rewrite Hm. by left.
  - unfold pipes_inv. by rewrite Hm.
  - unfold stop_inv. rewrite Hm, Hu. split; [done|by intros _ ?].
  - exists [], early_msgs. split; [done|]. split; [done|]. split; [|cbn; lia].
    unfold server_pipe. rewrite Hp. intros q. by rewrite lookup_empty.
Qed.

Lemma no_pipe s : pipes (d_os (sv_dmn s)) = ∅ → server_pipe (sv_dmn s) = None.
Proof. unfold server_pipe. intros ->. apply lookup_empty. Qed.

(** Who has a pipe open is past the start. *)
Lemma open_after_init s q :
  server_inv s → server_pipe (sv_dmn s) = Some q →
  ∃ p, main_pc (sv_thread s) = Some p ∧ after_init p = true ∧ opened (sv_dmn s).
Proof.
  intros [_ _ Hp _ _] Hq. unfold pipes_inv in Hp. destruct (main_pc (sv_thread s)) as [p|].
  - destruct Hp as [_ Hp]. destruct (after_init p) eqn:Ha; [by exists p|]. destruct Hp as [Hp _].
    by rewrite no_pipe in Hq.
  - destruct Hp as [Hp _]. by rewrite no_pipe in Hq.
Qed.

(** The other parties: the thread's place and callbacks stay, and so do the
    descriptors; what enters the server's pipe is recorded. *)
Lemma server_inv_traffic s o sent :
  server_inv s → Forall ctrl_message sent →
  (∀ fd, is_Some (pipes o !! fd) ↔ is_Some (pipes (d_os (sv_dmn s)) !! fd)) →
  match server_pipe (sv_dmn s) with
  | Some q => pipes o !! loc_api_server_msgqid (sv_dmn s) = Some (q ++ concat sent)
  | None => sent = []
  end →
  server_inv (Server (sv_thread s) (with_os o (sv_dmn s)) (sv_unblock s) (sv_sent s ++ sent) (sv_spurious s)).
Proof.
  intros Hi Hsent Hdom Hpipe. pose proof (open_after_init s) as Hopen.
  set (d := sv_dmn s) in *.
  assert (∀ q', server_pipe (with_os o d) = Some q' → ∃ q, server_pipe d = Some q ∧ q' = q ++ concat sent) as Hnew.
  { unfold server_pipe. intros q' Hq'. cbn in Hq'.
    destruct (proj1 (Hdom (loc_api_server_msgqid d)) ltac:(by eexists)) as [q Hq].
    exists q. split; [done|]. unfold server_pipe in Hpipe. rewrite Hq in Hpipe. congruence. }
  destruct Hi as [Hs Ht Hp Hst (served & waiting & Hsv & Hpo & Hqs & Htu)]. split; cbn.
  - by apply Forall_app.
  - done.
  - unfold pipes_inv in *. cbn.
    assert (pipes (d_os d) = ∅ → pipes o = ∅ ∧ sent = []) as Hempty.
    { intros He. split.
      - apply map_eq. intros fd. rewrite lookup_empty, eq_None_not_Some, Hdom. fold d. rewrite He, lookup_empty.
        by intros [? [=]].
      - pose proof (no_pipe s He) as Hn. fold d in Hn. by rewrite Hn in Hpipe. }
    fold d in Hp. destruct (main_pc (sv_thread s)) as [p|].
    + destruct Hp as [Hh Hp]. split; [exact Hh|]. destruct (after_init p).
      * destruct Hp as (H1 & H2 & H3). split; [exact H1|]. split; [exact H2|]. intros fd. rewrite <- H3. apply Hdom.
      * destruct Hp as [He Hini]. destruct (Hempty He) as [-> ->]. split; [done|]. by rewrite app_nil_r.
    + destruct Hp as (He & Hini & Hr). destruct (Hempty He) as [-> ->]. by rewrite app_nil_r.
  - destruct Hst as [Hst1 Hst2]. split; [exact Hst1|]. cbn. intros Hsp Hu Hpc Hq.
    destruct (Hnew _ Hq) as (q & Hq' & Heq). symmetry in Heq. apply app_eq_nil in Heq as [-> _].
    by apply (Hst2 Hsp Hu Hpc).
  - exists served, (waiting ++ sent). split; [cbn; by rewrite Hsv, app_assoc|]. split; [exact Hpo|].
    split; [|exact Htu]. intros q' Hq'. cbn in Hq'. destruct (Hnew _ Hq') as (q & Hq & ->).
    fold d in Hqs. by rewrite (Hqs q Hq), concat_app.
Qed.

Lemma server_inv_unblock s u :
  server_inv s → thread_inv (sv_thread s) u (sv_spurious s) →
  stop_inv (Server (sv_thread s) (sv_dmn s) u (sv_sent s) (sv_spurious s)) →
  server_inv (Server (sv_thread s) (sv_dmn s) u (sv_sent s) (sv_spurious s)).
Proof. intros [Hs Ht Hp Hst Hsv] Ht' Hst'. by split. Qed.

Lemma receives_inv m s s' :
  server_inv s → ctrl_message m → client_writes m s = Some s' → server_inv s'.
Proof.
  intros Hi Hm. unfold client_writes. destruct (server_pipe (sv_dmn s)) as [q|] eqn:Hq; [|done].
  cbn. intros [= <-]. apply server_inv_traffic; [done|by apply Forall_singleton| |].
  - intros fd. cbn. unfold server_pipe in Hq. rewrite lookup_insert_is_Some'.
    split; [intros [<-|?]; [by eexists|done]|by right].
  - rewrite Hq. cbn. by rewrite lookup_insert_eq, app_nil_r.
Qed.

Lemma answers_inv stack sender_id status s s' :
  server_inv s → length stack = sizeof_ctrl_msgbuf → engine_answers stack sender_id status s = Some s' →
  server_inv s'.
Proof.
  intros Hi Hl. unfold engine_answers.
  destruct (data_conn_frame (sv_dmn s) stack sender_id status Hl) as (r & o & -> & Hne & Hdom).
  cbn. intros [= <-]. rewrite <- (app_nil_r (sv_sent s)). apply server_inv_traffic; [done|done|done|].
  destruct (server_pipe (sv_dmn s)) as [q|] eqn:Hq; [|done].
  destruct (open_after_init s q Hi Hq) as (p & _ & _ & (_ & Hnd & Hop)).
  cbn. rewrite app_nil_r, Hne; [done|]. unfold server_pipe in Hq.
  destruct (proj1 (Hop (loc_api_server_msgqid (sv_dmn s))) ltac:(by eexists)) as [_ Hpos].
  unfold fds_of in Hnd. cbn in Hnd. rewrite (proj2 (Z.leb_le 0 _) Hpos) in Hnd.
  apply NoDup_cons in Hnd as [Hnd _]. intros Hin. apply Hnd, list_elem_of_In.
  assert (loc_api_server_msgqid (sv_dmn s) ∈ List.filter (Z.leb 0)
    [loc_api_resp_msgqid (sv_dmn s); quipc_msgqid (sv_dmn s); msapm_msgqid (sv_dmn s)]) as Hf.
  { apply list_elem_of_In, List.filter_In. split; [|by apply Z.leb_le]. apply list_elem_of_In. set_solver. }
  by apply list_elem_of_In in Hf.
Qed.

Lemma unblocks_inv stack rv s s' :
  server_inv s → launch_pc (sv_thread s) = LReturned rv → length stack = sizeof_ctrl_msgbuf →
  loc_eng_dmn_conn_loc_api_server_unblock stack s = Some s' → server_inv s'.
Proof.
  intros Hi Hlp Hl. pose proof (si_thread s Hi) as Ht. unfold thread_inv in Ht. rewrite Hlp in Ht.
  unfold loc_eng_dmn_conn_loc_api_server_unblock. destruct (sv_unblock s) eqn:Hu; [| |done].
  - intros [= <-]. destruct Hi as [Hs _ Hp Hst Hsv]. split; cbn; [done| |done| |done].
    + unfold thread_inv. cbn. rewrite Hlp. destruct (main_pc (sv_thread s)) as [p|]; [|naive_solver].
      destruct (early p) eqn:He; [|done]. destruct Ht as (? & ? & ? & Ht). repeat (split; [done|]).
      intros Hsp. by destruct (Ht Hsp) as (_ & _ & [?|?]).
    + by split; cbn.
  - destruct (unblock_message stack Hl) as [Hm _].
    destruct (unblock_proc_run whole_write (sv_dmn s) stack Hl) as (o & -> & Hp). cbn. intros [= <-].
    set (sent := match server_pipe (sv_dmn s) with Some _ => [unblock_msg stack] | None => [] end).
    assert (server_inv (Server (sv_thread s) (with_os o (sv_dmn s)) (sv_unblock s) (sv_sent s ++ sent) (sv_spurious s))) as Hi'.
    { apply server_inv_traffic; [done| | |]; unfold sent; destruct (server_pipe (sv_dmn s)) as [q|] eqn:Hq.
      - by apply Forall_singleton.
      - done.
      - intros fd. rewrite Hp, lookup_insert_is_Some'. unfold server_pipe in Hq.
        split; [intros [<-|?]; [by eexists|done]|by right].
      - by rewrite Hp.
      - cbn. by rewrite Hp, lookup_insert_eq, app_nil_r.
      - done. }
    apply (server_inv_unblock _ UReturned) in Hi'; [done| |].
    + cbn. unfold thread_inv. rewrite Hlp. destruct (main_pc (sv_thread s)) as [p|]; [|naive_solver].
      destruct (early p); [|done]. destruct Ht as (? & ? & ? & Ht). repeat (split; [done|]).
      intros Hsp. by destruct (Ht Hsp) as (_ & _ & [?|?]).
    + destruct (si_stop s Hi) as [Hst1 _]. split; cbn; [intros _; apply Hst1; by rewrite Hu|].
      intros _ _ _. unfold server_pipe. cbn. rewrite Hp. destruct (server_pipe (sv_dmn s)) as [q|] eqn:Hq.
      * rewrite lookup_insert_eq. intros [= Heq]. apply app_eq_nil in Heq as [_ Heq].
        destruct Hm as (Hlen & _). by rewrite Heq in Hlen.
      * unfold server_pipe in Hq. by rewrite Hq.
Qed.

Lemma launches_inv rc s s' :
  server_inv s → server_launch rc (Some h) s = Some s' → server_inv s'.
Proof.
  intros [Hs Ht Hp Hst (served & waiting & Hsv)]. unfold server_launch, loc_eng_dmn_conn_launch_thelper.
  destruct s as [[ex rd mp lp rn] d u sent sp]. cbn in *. unfold thread_inv in Ht. cbn in Ht.
  destruct lp; cbn; try done; intros [= <-].
  - destruct mp as [p|]; [by destruct Ht|]. destruct Hp as (He & Hini & Hr). cbn in He, Hini, Hr.
    destruct Ht as [[_ ->]|?]; [|done]. destruct (truth rc); split; cbn; try done.
    + unfold thread_inv. cbn. by right.
    + exists served, waiting. exact Hsv.
    + unfold thread_inv. cbn. repeat (split; [done|]); auto.
    + exists served, waiting. exact Hsv.
  - unfold thelper_signal_wait. cbn. destruct mp as [p|]; [|naive_solver].
    destruct Ht as (_ & Hp1 & -> & Ht). destruct (early p) eqn:Hep; cbn.
    + break_if; (split; cbn; try done; [|exists served, waiting; exact Hsv]);
        unfold thread_inv; cbn; rewrite Hep; repeat (split; [done|]); intros Hsp;
        destruct (Ht Hsp) as (-> & -> & _); [auto|done].
    + split; cbn; try done; [|exists served, waiting; exact Hsv].
      unfold thread_inv. cbn. rewrite Hep. repeat (split; [done|]); auto.
  - destruct mp as [p|]; [|naive_solver]. destruct Ht as (_ & Hp1 & -> & Ht).
    split; cbn; try done; [|exists served, waiting; exact Hsv]. unfold thread_inv. cbn.
    repeat (split; [done|]). destruct (early p) eqn:Hep; [|done].
    intros Hsp. by destruct (Ht Hsp) as (_ & _ & [?|?]).
Qed.

(** A spurious return concerns nobody but the launcher. *)
Lemma wakes_inv s : server_inv s → launch_pc (sv_thread s) = LAsleep → server_inv (spurious_return s).
Proof.
  intros [Hs Ht Hp Hst Hsv] Hl. split; [done| |done| |done].
  - unfold thread_inv in *. cbn. rewrite Hl in Ht. destruct (main_pc (sv_thread s)) as [p|]; [|naive_solver].
    destruct Ht as (_ & ? & ? & Ht). repeat (split; [done|]). by destruct (early p).
  - split; [apply Hst|done].
Qed.

(** ** The thread *)

(** What a turn of the loop leaves alone. *)
Definition same_pipes d d' : Prop :=
  loc_api_handle d' = loc_api_handle d ∧ fds_of d' = fds_of d ∧
  ∀ fd, is_Some (pipes (d_os d') !! fd) ↔ is_Some (pipes (d_os d) !! fd).

Lemma opened_same d d' : same_pipes d d' → opened d → opened d'.
Proof.
  intros (_ & Hf & Hd) (H1 & H2 & H3). unfold opened. rewrite Hf. split; [done|]. split; [done|].
  intros fd. by rewrite Hd.
Qed.

(** One turn: without memory the loop is left, without a pipe nothing happens,
    otherwise the next message is served. *)
Lemma proc_turn s mem served waiting :
  server_inv s → main_pc (sv_thread s) = Some MProc → reading_blocks s = false →
  (∀ m, mem = Some m → length m = (sizeof_ctrl_msgbuf + 256)%nat) →
  served_in_order s served waiting →
  ∃ r d, loc_api_server_proc mem (sv_dmn s) = Some (r, d) ∧ same_pipes (sv_dmn s) d ∧
    match mem, server_pipe (sv_dmn s) with
    | Some _, Some _ => r = 0 ∧ ∃ m rest, waiting = m :: rest ∧
        posted d = posted (sv_dmn s) ++ (pair h <$> posts_of m) ∧ server_pipe d = Some (concat rest)
    | _, q => posted d = posted (sv_dmn s) ∧ server_pipe d = q
    end.
Proof.
  intros Hi Hpc Hbl Hmem (Hse & Hpo & Hq & _).
  pose proof (si_pipes s Hi) as Hp. unfold pipes_inv in Hp. rewrite Hpc in Hp. destruct Hp as [Hh _].
  destruct mem as [mem|]; [|by exists (-1), (sv_dmn s)].
  specialize (Hmem _ eq_refl). destruct (server_pipe (sv_dmn s)) as [q|] eqn:Hpipe.
  2:{ destruct (proc_closed (sv_dmn s) mem Hpipe Hmem) as (o & Hr & Hpi). exists 0, (with_os o (sv_dmn s)).
      split; [done|]. unfold same_pipes, server_pipe in *. cbn. by rewrite Hpi. }
  specialize (Hq q eq_refl). subst q. unfold reading_blocks in Hbl. rewrite Hpc, Hpipe in Hbl.
  assert (Forall ctrl_message waiting) as Hw by (pose proof (si_sent s Hi) as Hf; rewrite Hse in Hf; by apply Forall_app in Hf as [_ ?]).
  destruct waiting as [|m rest]; [done|]. apply Forall_cons in Hw as [Hm _].
  destruct (proc_run whole_read (sv_dmn s) h mem m (concat rest) Hpipe Hh Hmem Hm) as (o & Hr & Hpi).
  eexists 0, _. split; [exact Hr|]. split.
  - split; [done|]. split; [done|]. intros fd. cbn. rewrite Hpi, lookup_insert_is_Some'.
    unfold server_pipe in Hpipe. split; [intros [<-|?]; [by eexists|done]|by right].
  - split; [done|]. exists m, rest. split; [done|]. split; [done|]. unfold server_pipe. cbn. by rewrite Hpi, lookup_insert_eq.
Qed.

Lemma serves_inv mem s s' :
  server_inv s → main_pc (sv_thread s) = Some MProc → reading_blocks s = false →
  (∀ m, mem = Some m → length m = (sizeof_ctrl_msgbuf + 256)%nat) →
  server_main e mem s = Some s' → server_inv s'.
Proof.
  intros Hi Hpc Hbl Hmem. destruct (si_served s Hi) as (served & waiting & Hsv).
  destruct (proc_turn s mem served waiting Hi Hpc Hbl Hmem Hsv) as (r & d & Hr & Hsame & Hturn).
  destruct Hi as [Hs Ht Hp Hst _]. destruct Hsv as (Hse & Hpo & Hq & Htu).
  unfold server_main. rewrite Hpc. cbn [mbind option_bind server_callback]. rewrite Hr.
  cbn [mbind option_bind]. unfold thelper_main. rewrite Hpc. cbn [thread_proc server_procs]. intros [= <-].
  unfold pipes_inv, thread_inv, stop_inv in *. rewrite Hpc in *. destruct Hp as [Hh Hop].
  split; cbn [sv_sent sv_thread sv_unblock sv_dmn].
  - done.
  - destruct Ht as (? & _ & ? & ?). unfold thread_inv. destruct (r <? 0); cbn; by repeat (split; [done|]).
  - unfold pipes_inv. cbn. split; [by destruct Hsame as (-> & _)|by eapply opened_same].
  - unfold stop_inv. cbn. split; [|by intros _ _ [?|?]]. intros Hu _. destruct Hst as [Hst _].
    specialize (Hst Hu ltac:(done)). by destruct (r <? 0).
  - assert (ran (at_main MTest (if r <? 0 then set_exit 1 (log CProc (sv_thread s)) else log CProc (sv_thread s))) =
      ran (sv_thread s) ++ [CProc]) as Hran by (by destruct (r <? 0)).
    assert (turns_run (ran (sv_thread s) ++ [CProc]) = S (turns_run (ran (sv_thread s)))) as Hcount.
    { unfold turns_run. rewrite List.filter_app, length_app. cbn. lia. }
    unfold served_in_order. cbn [sv_sent sv_thread sv_dmn]. rewrite Hran, Hcount.
    destruct mem as [mem|]; [destruct (server_pipe (sv_dmn s)) as [q|] eqn:Hpipe|].
    + destruct Hturn as (_ & m & rest & -> & Hpo' & Hq'). exists (served ++ [m]), rest.
      split; [by rewrite <- app_assoc|]. split.
      * rewrite Hpo', Hpo, fmap_app, concat_app, fmap_app. cbn. by rewrite app_nil_r.
      * split; [rewrite Hq'; by intros q' [= <-]|]. rewrite length_app. cbn. lia.
    + destruct Hturn as (Hpo' & Hq'). exists served, waiting. rewrite Hpo', Hq'. auto with lia.
    + destruct Hturn as (Hpo' & Hq'). exists served, waiting. rewrite Hpo', Hq'. auto with lia.
Qed.

(** The start of the thread opens the pipes. *)
Lemma starts_inv mem s s' :
  server_inv s → main_pc (sv_thread s) = Some MInit → server_main e mem s = Some s' → server_inv s'.
Proof.
  intros [Hs Ht Hp Hst (served & waiting & Hse & Hpo & Hq & Htu)] Hpc.
  destruct fresh_descriptors as [Hge Hnd].
  destruct (proc_init_run e (sv_dmn s) Hge) as (o & Hr & Hpi).
  unfold server_main. rewrite Hpc. cbn [mbind option_bind server_callback]. rewrite Hr.
  cbn [mbind option_bind]. unfold thelper_main. rewrite Hpc. cbn [thread_proc_init server_procs].
  change (0 <? 0) with false. cbn iota. intros [= <-].
  unfold pipes_inv, thread_inv, stop_inv in *. rewrite Hpc in *. destruct Hp as (Hh & Hp & Hini).
  destruct (Hini eq_refl) as [Hearly Hran]. cbn in Ht. destruct Ht as (Hl1 & _ & Hrd & Hex).
  rewrite Hp in Hpi. rewrite Hran in Htu. destruct served as [|]; [|cbn in Htu; lia]. cbn in Hse.
  split; cbn [sv_sent sv_thread sv_unblock sv_dmn].
  - done.
  - unfold thread_inv. cbn. repeat (split; [done|]); auto.
  - unfold pipes_inv. cbn. split; [done|]. split; [|split].
    + unfold fds_of. cbn. unfold queues in Hge. rewrite !Forall_cons in Hge. rewrite !Forall_cons.
      assert (∀ f, -1 <= f_fd f → -1 <= got f) as Hgot.
      { intros f Hf. unfold got. destruct (Z.eqb_spec (f_mkfifo_rc f) (-1)); [destruct (f_eexist f)|]; cbn; lia. }
      naive_solver.
    + exact Hnd.
    + intros fd. cbn. rewrite Hpi, lookup_opened_pipes, lookup_empty. unfold fds_of. cbn.
      split; [by intros [?|[? [=]]]|by left].
  - unfold stop_inv. cbn. split; [intros Hu _; by apply (proj1 Hst Hu)|by intros _ _ [?|?]].
  - exists [], waiting. split; [done|]. split; [done|]. split; [|cbn; lia]. cbn.
    unfold server_pipe. cbn. intros q Hq'. rewrite Hpi in Hq'.
    destruct (decide (0 <= got (ie_server e))) as [Hpos|Hneg].
    + unfold queues in Hq', Hnd. rewrite opened_content in Hq' by done. injection Hq' as <-.
      by rewrite early_content, <- Hse, Hearly.
    + destruct (proj1 (lookup_opened_pipes (queues e) (got (ie_server e)) ∅)) as [[_ ?]|Hn]; [by eexists|lia|].
      rewrite lookup_empty in Hn. by destruct Hn.
Qed.

(** The steps of the thread that leave the pipes alone. *)
Lemma passes_inv mem s s' p :
  server_inv s → main_pc (sv_thread s) = Some p → p = MReady ∨ p = MPre ∨ p = MTest →
  server_main e mem s = Some s' → server_inv s'.
Proof.
  intros [Hs Ht Hp Hst (served & waiting & Hsv)] Hpc Hcases. unfold server_main. rewrite Hpc.
  destruct s as [[ex rd mp lp rn] d u sent sp]. cbn in Hpc. subst mp.
  unfold pipes_inv, thread_inv, stop_inv, served_in_order in *. cbn in *.
  destruct Hcases as [-> |[-> | ->]]; cbn in *.
  - destruct Ht as (Hl1 & _ & -> & Hl2). unfold thelper_signal_ready, cond_signal. cbn.
    intros [= <-]. destruct lp; try done; cbn; split; unfold pipes_inv, thread_inv, stop_inv; cbn;
      try done; try (by exists served, waiting).
    all: split; [by intros Hu _; apply (proj1 Hst Hu)|].
    all: intros Hsp -> _; by destruct (Hl2 Hsp) as (_ & ? & _).
  - destruct Ht as (Hl1 & _ & -> & Hl2). intros [= <-]. split; unfold pipes_inv, thread_inv, stop_inv; cbn; try done.
    + split; [intros Hu _; by apply (proj1 Hst Hu)|]. intros Hsp Hu _. apply (proj2 Hst Hsp Hu). by left.
    + exists served, waiting. unfold served_in_order. cbn. destruct Hsv as (? & ? & ? & Htu).
      repeat (split; [done|]). unfold turns_run in *. rewrite List.filter_app, length_app. cbn. lia.
  - destruct Ht as (Hl1 & _ & -> & Hl2). destruct (Z.eqb_spec ex 0) as [-> |Hex]; cbn; intros [= <-];
      (split; unfold pipes_inv, thread_inv, stop_inv; cbn; try done; [|exists served, waiting; exact Hsv]).
    + split; [by intros Hu _; apply (proj1 Hst Hu)|]. intros _ -> _. by destruct (proj1 Hst).
    + split; [done|by intros _ _ [?|?]].
Qed.

(** The end of the thread closes the pipes. *)
Lemma ends_inv mem s s' :
  server_inv s → main_pc (sv_thread s) = Some MPost → server_main e mem s = Some s' → server_inv s'.
Proof.
  intros [Hs Ht Hp Hst (served & waiting & Hsv)] Hpc. unfold server_main. rewrite Hpc.
  destruct s as [[ex rd mp lp rn] d u sent sp]. cbn in Hpc. subst mp.
  unfold pipes_inv, thread_inv, stop_inv, served_in_order in *. cbn -[loc_api_server_proc_post] in *.
  destruct Hp as [Hh (Hge & Hnd & Hop)]. destruct Ht as (? & _ & ? & ?).
  destruct (proc_post_run d) as (o & -> & Hpi). cbn. intros [= <-].
  assert (pipes o = ∅) as He.
  { apply map_eq. intros fd. rewrite lookup_empty, Hpi. case_decide as Hin; [done|].
    rewrite eq_None_not_Some, Hop. by intros [? _]. }
  split; unfold pipes_inv, thread_inv, stop_inv; cbn; try done.
  - split; [intros Hu _; by apply (proj1 Hst Hu)|by intros _ _ [?|?]].
  - exists served, waiting. unfold served_in_order, server_pipe. cbn. rewrite He.
    destruct Hsv as (? & ? & ? & Htu). split_and!; try done.
    unfold turns_run in *. rewrite List.filter_app, length_app. cbn. lia.
Qed.

Lemma server_step_inv s s' : server_inv s → server_step e (Some h) s s' → server_inv s'.
Proof.
  intros Hi Hst. destruct Hst as [mem s s' Hmem Hbl Hr|rc s s' Hr|s Hl|stack rv s s' Hl Hlen Hr|m s s' Hm Hr|stack se st s s' Hlen Hr].
  - pose proof Hr as Hr'. unfold server_main in Hr'.
    destruct (main_pc (sv_thread s)) as [p|] eqn:Hpc; [|done].
    destruct p; try (by eapply passes_inv; eauto); [by eapply starts_inv|..|by eapply serves_inv|by eapply ends_inv|].
    + pose proof (si_thread s Hi) as Ht. unfold thread_inv in Ht. rewrite Hpc in Ht. by destruct Ht as (_ & ? & _).
    + cbn in Hr'. unfold thelper_main in Hr'. by rewrite Hpc in Hr'.
  - by eapply launches_inv.
  - by apply wakes_inv.
  - by eapply unblocks_inv.
  - by eapply receives_inv.
  - by eapply answers_inv.
Qed.

Definition server_reachable : server → Prop := reachable (server_step e (Some h)) (server_starts early_msgs).

Lemma server_reachable_inv s : server_reachable s → server_inv s.
Proof. apply invariant_reachable; [apply server_inv_starts|apply server_step_inv]. Qed.

(** ** Theorems *)

(** C23: whatever the interleaving of the server's thread, the thread that
    launches and stops it (its wait may return spuriously), the processes that send to it and the engine that
    answers, the messages that were sent are served in the order in which they
    entered the pipe: what the engine was posted is exactly what the served
    ones ask for, and the pipe holds the others, whole.  A turn of the loop
    serves at most one; the pipes are open from the start of the thread to its
    end, and never outside. *)
Theorem server_serves_in_order s :
  server_reachable s →
  (∃ served waiting, sv_sent s = served ++ waiting ∧
     posted (sv_dmn s) = pair h <$> concat (posts_of <$> served) ∧
     (∀ q, server_pipe (sv_dmn s) = Some q → q = concat waiting) ∧
     (length served ≤ turns_run (ran (sv_thread s)))%nat) ∧
  match main_pc (sv_thread s) with
  | Some (MReady | MPre | MProc | MTest | MPost) => opened (sv_dmn s)
  | _ => pipes (d_os (sv_dmn s)) = ∅
  end.
Proof.
  intros Hi%server_reachable_inv. split; [exact (si_served s Hi)|].
  pose proof (si_pipes s Hi) as Hp. unfold pipes_inv in Hp.
  destruct (main_pc (sv_thread s)) as [[]|]; cbn in Hp; by destruct_and? Hp.
Qed.

(** A thread that is not at its end and whose [read] does not block runs. *)
Lemma thread_runs mem s p :
  server_inv s → main_pc (sv_thread s) = Some p → p ≠ MDone → reading_blocks s = false →
  (∀ m, mem = Some m → length m = (sizeof_ctrl_msgbuf + 256)%nat) →
  ∃ s', server_main e mem s = Some s'.
Proof.
  intros Hi Hpc Hd Hbl Hmem. unfold server_main. rewrite Hpc. cbn [mbind option_bind].
  assert (∃ r d, server_callback e mem p (sv_dmn s) = Some (r, d)) as (r & d & ->).
  { pose proof (proc_init_run e (sv_dmn s) (proj1 fresh_descriptors)) as (o & Hinit & _).
    pose proof (proc_post_run (sv_dmn s)) as (o' & Hpost & _).
    destruct p; cbn [server_callback];
      [eauto|by exists 0, (sv_dmn s)|by exists 0, (sv_dmn s)|by exists 0, (sv_dmn s)| |
       by exists 0, (sv_dmn s)|eauto|done].
    destruct (si_served s Hi) as (served & waiting & Hsv).
    destruct (proc_turn s mem served waiting Hi Hpc Hbl Hmem Hsv) as (r & d & -> & _). eauto. }
  cbn [mbind option_bind]. unfold thelper_main. rewrite Hpc. destruct p; try done; by eexists.
Qed.

(** What [malloc] gives to the turns of the loop. *)
Definition sized (mem : option (list Z)) : Prop :=
  ∀ m, mem = Some m → length m = (sizeof_ctrl_msgbuf + 256)%nat.

(** Steps of the thread alone; none of them waits. *)
Fixpoint run_server (mems : list (option (list Z))) s : option server :=
  match mems with
  | [] => Some s
  | mem :: mems => if reading_blocks s then None else s' ← server_main e mem s; run_server mems s'
  end.

(** C25: the server's thread never faults, and waits only when it has served
    every message: in any reachable state it either takes its next step,
    whatever [malloc] gives, or reads from an empty pipe with all that was sent
    served. *)
Theorem server_never_stuck s p :
  server_reachable s → main_pc (sv_thread s) = Some p → p ≠ MDone →
  (reading_blocks s = true ∧ posted (sv_dmn s) = pair h <$> concat (posts_of <$> sv_sent s)) ∨
  ∀ mem, sized mem → ∃ s', server_main e mem s = Some s'.
Proof.
  intros Hi%server_reachable_inv Hpc Hd. destruct (reading_blocks s) eqn:Hbl.
  - left. split; [done|]. destruct (si_served s Hi) as (served & waiting & Hse & Hpo & Hq & _).
    unfold reading_blocks in Hbl. rewrite Hpc in Hbl. destruct p; try done.
    destruct (server_pipe (sv_dmn s)) as [[|]|]; try done. specialize (Hq [] eq_refl).
    assert (waiting = []) as ->; [|by rewrite Hse, app_nil_r].
    destruct waiting as [|m waiting]; [done|]. pose proof (si_sent s Hi) as Hs.
    rewrite Hse in Hs. apply Forall_app in Hs as [_ [(Hl & _) _]%Forall_cons].
    destruct m; [done|]. by cbn in Hq.
  - right. intros mem Hmem. by eapply thread_runs.
Qed.

Lemma stop_step s p mem :
  server_inv s → sv_spurious s = false → sv_unblock s = UReturned →
  main_pc (sv_thread s) = Some p → p ≠ MDone → sized mem →
  reading_blocks s = false ∧ ∃ s' p', server_main e mem s = Some s' ∧ sv_spurious s' = false ∧
    sv_unblock s' = UReturned ∧
    main_pc (sv_thread s') = Some p' ∧ (rank p' < rank p)%nat.
Proof.
  intros Hi Hsp Hu Hpc Hd Hmem. destruct (si_stop s Hi) as [Hs1 Hs2].
  assert (reading_blocks s = false) as Hbl.
  { unfold reading_blocks. rewrite Hpc. destruct p; try done. specialize (Hs2 Hsp Hu (or_intror Hpc)).
    by destruct (server_pipe (sv_dmn s)) as [[|]|]. }
  split; [done|]. destruct (thread_runs mem s p Hi Hpc Hd Hbl Hmem) as [s' Hr]. pose proof Hr as Hr'.
  unfold server_main in Hr'. rewrite Hpc in Hr'. cbn [mbind option_bind] in Hr'.
  destruct (server_callback e mem p (sv_dmn s)) as [[r d]|]; [|done]. cbn [mbind option_bind] in Hr'.
  destruct (exit_step server_procs r (sv_thread s) p) as (t & p' & l & Ht & Hp' & _ & Hrank & _);
    [apply Hs1; by rewrite ?Hu, ?Hpc|done|done|].
  rewrite Ht in Hr'. injection Hr' as <-. by eexists _, p'.
Qed.

Lemma stop_run mems s p :
  server_inv s → sv_spurious s = false → sv_unblock s = UReturned → main_pc (sv_thread s) = Some p →
  (rank p ≤ length mems)%nat → Forall sized mems →
  ∃ n s', (n ≤ rank p)%nat ∧ run_server (take n mems) s = Some s' ∧ server_inv s' ∧
    main_pc (sv_thread s') = Some MDone.
Proof.
  revert s p. induction mems as [|mem mems IH]; intros s p Hi Hsp Hu Hpc Hl Hm.
  - assert (p = MDone) as -> by (destruct p; cbn in Hl; lia || done). exists 0%nat, s. auto with lia.
  - destruct (decide (p = MDone)) as [->|Hne]; [exists 0%nat, s; auto with lia|].
    apply Forall_cons in Hm as [Hm1 Hm].
    destruct (stop_step s p mem Hi Hsp Hu Hpc Hne Hm1) as (Hbl & s1 & p1 & Hr & Hsp1 & Hu1 & Hpc1 & Hrank).
    assert (server_inv s1) as Hi1 by (eapply server_step_inv; [exact Hi|by eapply server_thread]).
    destruct (IH s1 p1 Hi1 Hsp1 Hu1 Hpc1) as (n & s' & Hn & Hrun & Hi' & Hd); [cbn in Hl; lia|done|].
    exists (S n), s'. split; [lia|]. cbn [take run_server]. rewrite Hbl, Hr. by cbn [mbind option_bind].
Qed.

(** C24: if the wait of the launcher has not returned spuriously (its
    condition is tested once; with a spurious return the thread may be told to
    stop before it has opened its pipe and then read from it for ever, see
    [spurious_server_hangs]), then, once
    [loc_eng_dmn_conn_loc_api_server_unblock] has returned, the server's thread
    ends by itself within four of its own steps, none of which waits, in any
    state it was in; then the join returns and every pipe is closed. *)
Theorem server_stops s mems join_rc :
  server_reachable s → sv_spurious s = false →
  sv_unblock s = UReturned → main_pc (sv_thread s) ≠ None →
  (4 ≤ length mems)%nat → Forall sized mems →
  ∃ n s', (n ≤ 4)%nat ∧ run_server (take n mems) s = Some s' ∧
    loc_eng_dmn_conn_loc_api_server_join join_rc s' = Some 0 ∧ pipes (d_os (sv_dmn s')) = ∅.
Proof.
  intros Hi%server_reachable_inv Hsp Hu Hpc Hl Hm.
  destruct (main_pc (sv_thread s)) as [p|] eqn:Hp; [clear Hpc|done].
  assert (rank p ≤ 4)%nat as Hrank.
  { pose proof (si_thread s Hi) as Ht. unfold thread_inv in Ht. rewrite Hp, Hu in Ht.
    destruct Ht as (_ & _ & _ & Ht).
    destruct p; cbn in Ht |- *; lia || by destruct (Ht Hsp) as (_ & ? & _). }
  destruct (stop_run mems s p Hi Hsp Hu Hp ltac:(lia) Hm) as (n & s' & Hn & Hrun & Hi' & Hd).
  exists n, s'. split; [lia|]. split; [exact Hrun|]. unfold loc_eng_dmn_conn_loc_api_server_join,
    loc_eng_dmn_conn_join_thelper. rewrite Hd. split; [done|].
  pose proof (si_pipes s' Hi') as Hpi. unfold pipes_inv in Hpi. rewrite Hd in Hpi. by destruct Hpi as (_ & ? & _).
Qed.
End invariant.

(** ** A concrete server *)

#[export] Instance ctrl_message_dec m : Decision (ctrl_message m).
Proof. unfold ctrl_message, is_if_message. apply _. Defined.

Definition demo_env : init_env :=
  InitEnv (Fifo 0 false 3 (concat demo_request)) (Fifo (-1) true 6 []) (Fifo (-1) true 4 [])
    (Fifo (-1) false 5 []) (Some 1001).
Definition demo_server : server :=
  Server demo_start (Dmn (OS ∅ 0 []) None 0 0 0 0 GPSONE_LOC_API_Q_PATH GPSONE_LOC_API_RESP_Q_PATH [])
    UIdle [concat demo_request] false.
Definition demo_mem : option (list Z) := Some (replicate 368 170).
Definition demo_stack : list Z := replicate 112 170.

(** What the parties do. *)
Inductive demo_action := DThread | DLaunch | DSpurious | DUnblock | DWrite (m : list Z) | DAnswer (sender_id status : Z).

Definition demo_act (e : init_env) (a : demo_action) (s : server) : option server :=
  match a with
  | DThread => if reading_blocks s then None else server_main e demo_mem s
  | DLaunch => server_launch 0 (Some 8%positive) s
  | DSpurious => match launch_pc (sv_thread s) with LAsleep => Some (spurious_return s) | _ => None end
  | DUnblock => match launch_pc (sv_thread s) with
                | LReturned _ => loc_eng_dmn_conn_loc_api_server_unblock demo_stack s
                | _ => None
                end
  | DWrite m => if decide (ctrl_message m) then client_writes m s else None
  | DAnswer se st => engine_answers demo_stack se st s
  end.
Fixpoint demo_run (e : init_env) (l : list demo_action) (s : server) : option server :=
  match l with [] => Some s | a :: l => s' ← demo_act e a s; demo_run e l s' end.

Definition demo_reachable : server → Prop :=
  server_reachable demo_env 8%positive [concat demo_request].

Lemma demo_run_reachable e early l s s' :
  server_reachable e 8%positive early s → demo_run e l s = Some s' → server_reachable e 8%positive early s'.
Proof.
  revert s. induction l as [|a l IH]; intros s Hs; [by intros [= <-]|]. cbn [demo_run].
  destruct (demo_act e a s) as [s1|] eqn:Ha; [|done]. cbn [mbind option_bind]. apply IH.
  eapply reachable_step; [exact Hs|]. destruct a; cbn [demo_act] in Ha.
  - destruct (reading_blocks s) eqn:Hbl; [done|]. eapply server_thread; [|done|exact Ha]. by intros m [= <-].
  - by eapply server_launches.
  - destruct (launch_pc (sv_thread s)) eqn:Hl; try done. injection Ha as <-. by apply server_wakes.
  - destruct (launch_pc (sv_thread s)) eqn:Hl; try done. eapply (server_unblocks _ _ demo_stack); [exact Hl|reflexivity|exact Ha].
  - case_decide as Hm; [|done]. by eapply server_receives.
  - eapply (server_answers _ _ demo_stack); [reflexivity|exact Ha].
Qed.

Lemma demo_starts : demo_reachable demo_server.
Proof. exists demo_server. split; [by repeat split|reflexivity]. Qed.

(** The launcher sleeps until the thread has opened the pipes; a second
    request arrives and the first is served and answered. *)
Definition demo_launch : list demo_action :=
  [DLaunch; DLaunch; DThread; DThread; DLaunch; DWrite (concat demo_request); DThread; DThread; DAnswer 0 1].
Definition demo_serving : server := default demo_server (demo_run demo_env demo_launch demo_server).
(** Both are served and the thread waits. *)
Definition demo_idle : server := default demo_server (demo_run demo_env [DThread; DThread; DThread] demo_serving).
(** The server is told to stop. *)
Definition demo_stopping : server := default demo_server (demo_run demo_env [DUnblock; DUnblock] demo_idle).

Lemma demo_serving_reachable : demo_reachable demo_serving.
Proof. apply (demo_run_reachable _ _ demo_launch demo_server); [apply demo_starts|]. by vm_compute. Qed.
Lemma demo_idle_reachable : demo_reachable demo_idle.
Proof. apply (demo_run_reachable _ _ [DThread; DThread; DThread] demo_serving); [apply demo_serving_reachable|]. by vm_compute. Qed.
Lemma demo_stopping_reachable : demo_reachable demo_stopping.
Proof. apply (demo_run_reachable _ _ [DUnblock; DUnblock] demo_idle); [apply demo_idle_reachable|]. by vm_compute. Qed.

(** The wait returns although the thread has not run: the server is told to
    stop before it has a pipe, opens it, and reads from it for ever. *)
Definition demo_quiet_env : init_env :=
  InitEnv (Fifo 0 false 3 []) (Fifo (-1) true 6 []) (Fifo (-1) true 4 []) (Fifo (-1) false 5 []) None.
Definition demo_quiet : server :=
  Server demo_start (Dmn (OS ∅ 0 []) None 0 0 0 0 GPSONE_LOC_API_Q_PATH GPSONE_LOC_API_RESP_Q_PATH [])
    UIdle [] false.
Lemma spurious_server_hangs :
  ∃ s, server_reachable demo_quiet_env 8%positive [] s ∧ sv_spurious s = true ∧
    sv_unblock s = UReturned ∧ main_pc (sv_thread s) = Some MProc ∧ reading_blocks s = true.
Proof.
  destruct (demo_run demo_quiet_env
    [DLaunch; DLaunch; DSpurious; DLaunch; DUnblock; DUnblock; DThread; DThread; DThread] demo_quiet)
    as [s|] eqn:E; [|by vm_compute in E].
  exists s. split.
  - eapply demo_run_reachable; [|exact E]. exists demo_quiet. split; [by repeat split|reflexivity].
  - vm_compute in E. injection E as <-. by vm_compute.
Qed.

Lemma demo_descriptors : descriptors_ok demo_env.
Proof. split; by_compute. Qed.
Lemma demo_early : Forall ctrl_message [concat demo_request].
Proof. by_compute. Qed.

Lemma server_serves_in_order_witness :
  (∃ served waiting, sv_sent demo_serving = served ++ waiting ∧
     posted (sv_dmn demo_serving) = pair 8%positive <$> concat (posts_of <$> served) ∧
     (∀ q, server_pipe (sv_dmn demo_serving) = Some q → q = concat waiting) ∧
     (length served ≤ turns_run (ran (sv_thread demo_serving)))%nat) ∧
  opened (sv_dmn demo_serving).
Proof.
  exact (@server_serves_in_order demo_kernel (λ _ _ _ _ _, eq_refl) (λ _ _ _, eq_refl) demo_env 8 [concat demo_request]
    demo_descriptors eq_refl demo_early demo_serving demo_serving_reachable).
Defined.

Lemma server_never_stuck_witness :
  (reading_blocks demo_idle = true ∧
     posted (sv_dmn demo_idle) = pair 8%positive <$> concat (posts_of <$> sv_sent demo_idle)) ∨
  ∀ mem, sized mem → ∃ s', server_main demo_env mem demo_idle = Some s'.
Proof.
  apply (@server_never_stuck demo_kernel (λ _ _ _ _ _, eq_refl) (λ _ _ _, eq_refl) demo_env 8 [concat demo_request]
    demo_descriptors eq_refl demo_early demo_idle MProc demo_idle_reachable); [reflexivity|discriminate].
Defined.

Lemma server_stops_witness :
  ∃ n s', (n ≤ 4)%nat ∧ run_server demo_env (take n (replicate 4 demo_mem)) demo_stopping = Some s' ∧
    loc_eng_dmn_conn_loc_api_server_join 0 s' = Some 0 ∧ pipes (d_os (sv_dmn s')) = ∅.
Proof.
  apply (@server_stops demo_kernel (λ _ _ _ _ _, eq_refl) (λ _ _ _, eq_refl) demo_env 8 [concat demo_request]
    demo_descriptors eq_refl demo_early demo_stopping (replicate 4 demo_mem) 0 demo_stopping_reachable);
    [reflexivity|reflexivity|vm_compute; discriminate|vm_compute; lia|].
  repeat constructor; by intros m [= <-].
Defined.

(** The thread waits although nothing is left, with both requests posted. *)
Example demo_idle_waits :
  reading_blocks demo_idle = true ∧ posted (sv_dmn demo_idle) =
    replicate 2 (8%positive, loc_eng_msg_request_wifi 1 0 [97; 112] [112; 119]).
Proof. by vm_compute. Qed.
