(* ===== verification/Power.v ===== *)
(** * The power HAL: power/power.c and power/power.h

    Power profiles are written to sysfs nodes.  What opening, reading and
    writing a node answers is the parameter [Sysfs]; the model keeps the open
    descriptors and the data written, so that leaks and the exact effect of a
    profile change can be stated.  A call is one transition: the answers of
    the nodes are fixed during a call and arbitrary between calls, and two
    calls do not interleave (the source holds [lock] around a profile change,
    not around the whole of the interaction hint). *)

From stdpp Require Import pretty.
From Stdlib Require Import String Ascii.
From S2P Require Import Prelude.
Local Open Scope Z_scope.

(** ** Profiles (power.h) *)

Definition PROFILE_POWER_SAVE : Z := 0.
Definition PROFILE_BALANCED : Z := 1.
Definition PROFILE_HIGH_PERFORMANCE : Z := 2.
Definition PROFILE_BIAS_POWER : Z := 3.
Definition PROFILE_BIAS_PERFORMANCE : Z := 4.
Definition PROFILE_MAX : Z := 5.

Record ondemand_power_profile := Ondemand {
  od_input_boost_on : Z;
  od_up_threshold : Z;
  od_io_is_busy : Z;
  od_sampling_down_factor : Z;
  od_down_differential : Z;
  od_up_threshold_multi_core : Z;
  od_down_differential_multi_core : Z;
  od_optimal_freq : Z;
  od_sync_freq : Z;
  od_up_threshold_any_cpu_load : Z;
  od_sampling_rate : Z;
  od_scaling_max_freq : Z;
  od_scaling_min_freq : Z;
  od_input_boost_freqs : string;
  od_gpu_governor : string
}.

Definition ondemand_profiles : list ondemand_power_profile := [
  (* PROFILE_POWER_SAVE *) Ondemand 0 90 0 2 10 70 3 486000 540000 80 50000 1026000 192000 "756000 540000" "ondemand";
  (* PROFILE_BALANCED *) Ondemand 1 90 1 2 10 70 3 918000 1026000 80 50000 1512000 384000 "1242000 1026000" "ondemand";
  (* PROFILE_HIGH_PERFORMANCE *) Ondemand 0 90 1 2 10 70 3 1512000 1512000 80 50000 1512000 1512000 "1512000 1512000" "performance";
  (* PROFILE_BIAS_POWER *) Ondemand 1 90 1 2 10 70 3 918000 1026000 80 50000 1026000 192000 "972000 864000" "ondemand";
  (* PROFILE_BIAS_PERFORMANCE *) Ondemand 1 90 1 2 10 70 3 918000 1026000 80 50000 1512000 756000 "1242000 1026000" "ondemand"
].

Record interactive_power_profile := Interactive {
  ia_input_boost_on : Z;
  ia_boost : Z;
  ia_boostpulse_duration : Z;
  ia_go_hispeed_load : Z;
  ia_hispeed_freq : Z;
  ia_io_is_busy : Z;
  ia_min_sample_time : Z;
  ia_sampling_down_factor : Z;
  ia_target_loads : string;
  ia_scaling_max_freq : Z;
  ia_scaling_min_freq : Z;
  ia_input_boost_freqs : string;
  ia_gpu_governor : string
}.

Definition interactive_profiles : list interactive_power_profile := [
  (* PROFILE_POWER_SAVE *) Interactive 1 0 0 90 486000 0 60000 100000 "95" 1026000 192000 "756000 540000" "ondemand";
  (* PROFILE_BALANCED *) Interactive 1 0 80000 90 918000 1 80000 100000 "90" 1512000 384000 "1242000 1026000" "ondemand";
  (* PROFILE_HIGH_PERFORMANCE *) Interactive 0 1 0 50 1242000 1 60000 100000 "80" 1512000 384000 "1512000 1512000" "performance";
  (* PROFILE_BIAS_POWER *) Interactive 1 0 0 90 486000 0 60000 100000 "95" 1026000 192000 "972000 864000" "ondemand";
  (* PROFILE_BIAS_PERFORMANCE *) Interactive 1 0 80000 90 918000 1 80000 100000 "90" 1512000 756000 "1242000 1026000" "ondemand"
].

Record alt_power_profile := Alt {
  alt_input_boost_on : Z;
  alt_scaling_max_freq : Z;
  alt_scaling_min_freq : Z;
  alt_input_boost_freqs : string;
  alt_gpu_governor : string
}.

Definition alt_profiles : list alt_power_profile := [
  (* PROFILE_POWER_SAVE *) Alt 1 1026000 192000 "756000 540000" "ondemand";
  (* PROFILE_BALANCED *) Alt 1 1512000 384000 "1242000 1026000" "ondemand";
  (* PROFILE_HIGH_PERFORMANCE *) Alt 0 1512000 384000 "1512000 1512000" "performance";
  (* PROFILE_BIAS_POWER *) Alt 1 1026000 192000 "972000 864000" "ondemand";
  (* PROFILE_BIAS_PERFORMANCE *) Alt 1 1512000 756000 "1242000 1026000" "ondemand"
].
Definition CPUFREQ_PATH : string := "/sys/devices/system/cpu/cpu0/cpufreq/".
Definition SCALING_GOVERNOR_PATH : string := "/sys/devices/system/cpu/cpu0/cpufreq/scaling_governor".
Definition INTERACTIVE_PATH : string := "/sys/devices/system/cpu/cpufreq/interactive/".
Definition ONDEMAND_PATH : string := "/sys/devices/system/cpu/cpufreq/ondemand/".
Definition GPU_GOVERNOR_PATH : string := "/sys/class/kgsl/kgsl-3d0/pwrscale/trustzone/governor".
Definition INPUT_BOOST_PATH : string := "/sys/kernel/cpu_input_boost/".

(** ** State *)

Inductive open_mode := O_RDONLY | O_WRONLY.

(** What the system answers: whether a node opens, what a read of it yields
    ([None]: the read fails), whether a write to it succeeds. *)
Class Sysfs := {
  can_open : open_mode → string → bool;
  content : string → option string;
  can_write : string → bool
}.

Record power := Power {
  boostpulse_fd : Z;
  current_power_profile : Z;
  governor : string;
  open_fds : list (Z * string);
  next_fd : Z;                    (* a descriptor not in use *)
  written : list (string * string)  (* the data written, in order *)
}.

Definition power_start (fd : Z) : power := Power (-1) (-1) "" [] fd [].

Section operations.
Context `{Sysfs}.

(** [open] and [close] *)
Definition sys_open (path : string) (mode : open_mode) : ST power Z := λ s,
  if can_open mode path then
    Some (next_fd s, Power (boostpulse_fd s) (current_power_profile s) (governor s)
      ((next_fd s, path) :: open_fds s) (next_fd s + 1) (written s))
  else Some (-1, s).
Definition sys_close (fd : Z) : ST power unit := st_modify (λ s,
  Power (boostpulse_fd s) (current_power_profile s) (governor s)
    (filter (λ p, p.1 ≠ fd) (open_fds s)) (next_fd s) (written s)).
(** [write]: the number of bytes, or -1 (a descriptor that is not open
    included). *)
Definition sys_write (fd : Z) (data : string) : ST power Z := λ s,
  match list_find (λ p, p.1 = fd) (open_fds s) with
  | Some (_, (_, path)) =>
      if can_write path then
        Some (Z.of_nat (String.length data), Power (boostpulse_fd s) (current_power_profile s)
          (governor s) (open_fds s) (next_fd s) (written s ++ [(path, data)]))
      else Some (-1, s)
  | None => Some (-1, s)
  end.

Definition set_governor (g : string) : ST power unit := st_modify (λ s,
  Power (boostpulse_fd s) (current_power_profile s) g (open_fds s) (next_fd s) (written s)).
Definition set_current (p : Z) : ST power unit := st_modify (λ s,
  Power (boostpulse_fd s) p (governor s) (open_fds s) (next_fd s) (written s)).
Definition set_boostpulse_fd (fd : Z) : ST power unit := st_modify (λ s,
  Power fd (current_power_profile s) (governor s) (open_fds s) (next_fd s) (written s)).

(** ** Functions of power.c *)

(** The string read, or [None] with the result -1. *)
Definition sysfs_read (path : string) (num_bytes : nat) : ST power (option string) :=
  fd ← sys_open path O_RDONLY;
  if fd <? 0 then mret None
  else
    let r := String.substring 0 (num_bytes - 1) <$> content path in
    _ ← sys_close fd; mret r.

Definition sysfs_write_str (path s : string) : ST power Z :=
  fd ← sys_open path O_WRONLY;
  if fd <? 0 then mret (-1)
  else
    len ← sys_write fd s;
    _ ← sys_close fd;
    mret (if len <? 0 then -1 else 0).

Definition sysfs_write_int (path : string) (value : Z) : ST power Z :=
  sysfs_write_str path (pretty value).

(** The C string a buffer holds: its characters before the first NUL. *)
Fixpoint c_str (s : string) : string :=
  match s with
  | EmptyString => EmptyString
  | String c s => if Ascii.eqb c Ascii.zero then EmptyString else String c (c_str s)
  end.

Definition is_newline (c : Ascii.ascii) : bool :=
  Ascii.eqb c (Ascii.ascii_of_nat 10) || Ascii.eqb c (Ascii.ascii_of_nat 13).

(** The loop that clears the newlines at the end, on the reversed string. *)
Fixpoint strip_end (rev : list Ascii.ascii) : list Ascii.ascii :=
  match rev with
  | c :: rev => if is_newline c then strip_end rev else c :: rev
  | [] => []
  end.
Definition strip_newlines (s : string) : string :=
  string_of_list_ascii (reverse (strip_end (reverse (list_ascii_of_string s)))).

Definition get_scaling_governor : ST power Z :=
  r ← sysfs_read SCALING_GOVERNOR_PATH 20;
  match r with
  | None => mret (-1)
  | Some g => _ ← set_governor (strip_newlines (c_str g)); mret 0
  end.

Definition is_profile_valid (profile : Z) : bool := (0 <=? profile) && (profile <? PROFILE_MAX).

Definition boostpulse_open : ST power Z :=
  s ← st_get id;
  _ ← (if boostpulse_fd s <? 0 then
         fd ← sys_open (INTERACTIVE_PATH +:+ "boostpulse") O_WRONLY; set_boostpulse_fd fd
       else mret tt);
  st_get boostpulse_fd.

(** An array access: out of range is a fault. *)
Definition profile_at {A} (table : list A) (profile : Z) : ST power A :=
  if profile <? 0 then st_fault else st_read (λ _, table !! Z.to_nat profile).

Definition power_set_interactive (on : Z) : ST power unit :=
  s ← st_get id;
  if negb (is_profile_valid (current_power_profile s)) then mret tt
  else
    p ← profile_at interactive_profiles (current_power_profile s);
    _ ← sysfs_write_int (INTERACTIVE_PATH +:+ "hispeed_freq") (ia_hispeed_freq p);
    _ ← sysfs_write_int (INTERACTIVE_PATH +:+ "go_hispeed_load") (ia_go_hispeed_load p);
    _ ← sysfs_write_str (INTERACTIVE_PATH +:+ "target_loads") (ia_target_loads p);
    mret tt.

Definition write_ondemand (p : ondemand_power_profile) : ST power unit :=
  _ ← sysfs_write_int (INPUT_BOOST_PATH +:+ "enabled") (od_input_boost_on p);
  _ ← sysfs_write_int (ONDEMAND_PATH +:+ "up_threshold") (od_up_threshold p);
  _ ← sysfs_write_int (ONDEMAND_PATH +:+ "io_is_busy") (od_io_is_busy p);
  _ ← sysfs_write_int (ONDEMAND_PATH +:+ "sampling_down_factor") (od_sampling_down_factor p);
  _ ← sysfs_write_int (ONDEMAND_PATH +:+ "down_differential") (od_down_differential p);
  _ ← sysfs_write_int (ONDEMAND_PATH +:+ "up_threshold_multi_core") (od_up_threshold_multi_core p);
  _ ← sysfs_write_int (ONDEMAND_PATH +:+ "down_differential_multi_core") (od_down_differential_multi_core p);
  _ ← sysfs_write_int (ONDEMAND_PATH +:+ "optimal_freq") (od_optimal_freq p);
  _ ← sysfs_write_int (ONDEMAND_PATH +:+ "sync_freq") (od_sync_freq p);
  _ ← sysfs_write_int (ONDEMAND_PATH +:+ "up_threshold_any_cpu_load") (od_up_threshold_any_cpu_load p);
  _ ← sysfs_write_int (ONDEMAND_PATH +:+ "sampling_rate") (od_sampling_rate p);
  _ ← sysfs_write_int (CPUFREQ_PATH +:+ "scaling_max_freq") (od_scaling_max_freq p);
  _ ← sysfs_write_int (CPUFREQ_PATH +:+ "scaling_min_freq") (od_scaling_min_freq p);
  _ ← sysfs_write_str (INPUT_BOOST_PATH +:+ "ib_freqs") (od_input_boost_freqs p);
  _ ← sysfs_write_str GPU_GOVERNOR_PATH (od_gpu_governor p);
  mret tt.

Definition write_interactive (p : interactive_power_profile) : ST power unit :=
  _ ← sysfs_write_int INPUT_BOOST_PATH (ia_input_boost_on p);
  _ ← sysfs_write_int (INTERACTIVE_PATH +:+ "boost") (ia_boost p);
  _ ← sysfs_write_int (INTERACTIVE_PATH +:+ "boostpulse_duration") (ia_boostpulse_duration p);
  _ ← sysfs_write_int (INTERACTIVE_PATH +:+ "go_hispeed_load") (ia_go_hispeed_load p);
  _ ← sysfs_write_int (INTERACTIVE_PATH +:+ "hispeed_freq") (ia_hispeed_freq p);
  _ ← sysfs_write_int (INTERACTIVE_PATH +:+ "io_is_busy") (ia_io_is_busy p);
  _ ← sysfs_write_int (INTERACTIVE_PATH +:+ "min_sample_time") (ia_min_sample_time p);
  _ ← sysfs_write_int (INTERACTIVE_PATH +:+ "sampling_down_factor") (ia_sampling_down_factor p);
  _ ← sysfs_write_str (INTERACTIVE_PATH +:+ "target_loads") (ia_target_loads p);
  _ ← sysfs_write_int (CPUFREQ_PATH +:+ "scaling_max_freq") (ia_scaling_max_freq p);
  _ ← sysfs_write_int (CPUFREQ_PATH +:+ "scaling_min_freq") (ia_scaling_min_freq p);
  _ ← sysfs_write_str (INPUT_BOOST_PATH +:+ "ib_freqs") (ia_input_boost_freqs p);
  _ ← sysfs_write_str GPU_GOVERNOR_PATH (ia_gpu_governor p);
  mret tt.

Definition write_alt (p : alt_power_profile) : ST power unit :=
  _ ← sysfs_write_int INPUT_BOOST_PATH (alt_input_boost_on p);
  _ ← sysfs_write_int (CPUFREQ_PATH +:+ "scaling_max_freq") (alt_scaling_max_freq p);
  _ ← sysfs_write_int (CPUFREQ_PATH +:+ "scaling_min_freq") (alt_scaling_min_freq p);
  _ ← sysfs_write_str (INPUT_BOOST_PATH +:+ "ib_freqs") (alt_input_boost_freqs p);
  _ ← sysfs_write_str GPU_GOVERNOR_PATH (alt_gpu_governor p);
  mret tt.

Definition set_power_profile (profile : Z) : ST power unit :=
  if negb (is_profile_valid profile) then mret tt
  else
    s ← st_get id;
    if profile =? current_power_profile s then mret tt
    else
      r ← get_scaling_governor;
      _ ← (if r <? 0 then mret tt
           else
             g ← st_get governor;
             if String.prefix "ondemand" g then
               p ← profile_at ondemand_profiles profile; write_ondemand p
             else if String.prefix "interactive" g then
               p ← profile_at interactive_profiles profile; write_interactive p
             else
               p ← profile_at alt_profiles profile; write_alt p);
      set_current profile.

Inductive power_hint_t :=
| POWER_HINT_INTERACTION
| POWER_HINT_SET_PROFILE
| POWER_HINT_LOW_POWER
| POWER_HINT_OTHER.

(** The buffer of the boost pulse is written whole: "1", its NUL and whatever
    else the 80 characters hold ([junk]). *)
Definition power_hint (junk : string) (hint : power_hint_t) (data : option Z) : ST power unit :=
  match hint with
  | POWER_HINT_INTERACTION =>
      s ← st_get id;
      if negb (is_profile_valid (current_power_profile s)) then mret tt
      else
        p ← profile_at interactive_profiles (current_power_profile s);
        if negb (truth (ia_boostpulse_duration p)) then mret tt
        else
          fd ← boostpulse_open;
          if 0 <=? fd then
            len ← sys_write fd ("1" +:+ String Ascii.zero junk);
            if len <? 0 then _ ← sys_close fd; set_boostpulse_fd (-1) else mret tt
          else mret tt
  | POWER_HINT_SET_PROFILE =>
      match data with None => st_fault | Some profile => set_power_profile (int32 profile) end
  | POWER_HINT_LOW_POWER | POWER_HINT_OTHER => mret tt
  end.

Definition get_feature (is_supported_profiles : bool) : Z :=
  if is_supported_profiles then PROFILE_MAX else -1.
End operations.

(** ** Specification: what a profile change writes *)

(** The data a write of [data] to [path] leaves there. *)
Definition effect `{Sysfs} (path data : string) : list (string * string) :=
  if can_open O_WRONLY path && can_write path then [(path, data)] else [].
Definition effects `{Sysfs} (nodes : list (string * string)) : list (string * string) :=
  nodes ≫= λ n, effect n.1 n.2.

Definition ondemand_nodes (p : ondemand_power_profile) : list (string * string) := [
  (INPUT_BOOST_PATH +:+ "enabled", pretty (od_input_boost_on p));
  (ONDEMAND_PATH +:+ "up_threshold", pretty (od_up_threshold p));
  (ONDEMAND_PATH +:+ "io_is_busy", pretty (od_io_is_busy p));
  (ONDEMAND_PATH +:+ "sampling_down_factor", pretty (od_sampling_down_factor p));
  (ONDEMAND_PATH +:+ "down_differential", pretty (od_down_differential p));
  (ONDEMAND_PATH +:+ "up_threshold_multi_core", pretty (od_up_threshold_multi_core p));
  (ONDEMAND_PATH +:+ "down_differential_multi_core", pretty (od_down_differential_multi_core p));
  (ONDEMAND_PATH +:+ "optimal_freq", pretty (od_optimal_freq p));
  (ONDEMAND_PATH +:+ "sync_freq", pretty (od_sync_freq p));
  (ONDEMAND_PATH +:+ "up_threshold_any_cpu_load", pretty (od_up_threshold_any_cpu_load p));
  (ONDEMAND_PATH +:+ "sampling_rate", pretty (od_sampling_rate p));
  (CPUFREQ_PATH +:+ "scaling_max_freq", pretty (od_scaling_max_freq p));
  (CPUFREQ_PATH +:+ "scaling_min_freq", pretty (od_scaling_min_freq p));
  (INPUT_BOOST_PATH +:+ "ib_freqs", od_input_boost_freqs p);
  (GPU_GOVERNOR_PATH, od_gpu_governor p)].
Definition interactive_nodes (p : interactive_power_profile) : list (string * string) := [
  (INPUT_BOOST_PATH, pretty (ia_input_boost_on p));
  (INTERACTIVE_PATH +:+ "boost", pretty (ia_boost p));
  (INTERACTIVE_PATH +:+ "boostpulse_duration", pretty (ia_boostpulse_duration p));
  (INTERACTIVE_PATH +:+ "go_hispeed_load", pretty (ia_go_hispeed_load p));
  (INTERACTIVE_PATH +:+ "hispeed_freq", pretty (ia_hispeed_freq p));
  (INTERACTIVE_PATH +:+ "io_is_busy", pretty (ia_io_is_busy p));
  (INTERACTIVE_PATH +:+ "min_sample_time", pretty (ia_min_sample_time p));
  (INTERACTIVE_PATH +:+ "sampling_down_factor", pretty (ia_sampling_down_factor p));
  (INTERACTIVE_PATH +:+ "target_loads", ia_target_loads p);
  (CPUFREQ_PATH +:+ "scaling_max_freq", pretty (ia_scaling_max_freq p));
  (CPUFREQ_PATH +:+ "scaling_min_freq", pretty (ia_scaling_min_freq p));
  (INPUT_BOOST_PATH +:+ "ib_freqs", ia_input_boost_freqs p);
  (GPU_GOVERNOR_PATH, ia_gpu_governor p)].
Definition alt_nodes (p : alt_power_profile) : list (string * string) := [
  (INPUT_BOOST_PATH, pretty (alt_input_boost_on p));
  (CPUFREQ_PATH +:+ "scaling_max_freq", pretty (alt_scaling_max_freq p));
  (CPUFREQ_PATH +:+ "scaling_min_freq", pretty (alt_scaling_min_freq p));
  (INPUT_BOOST_PATH +:+ "ib_freqs", alt_input_boost_freqs p);
  (GPU_GOVERNOR_PATH, alt_gpu_governor p)].

(** The nodes of a profile under a governor; [profile] indexes the tables. *)
Definition profile_nodes (gov : string) (profile : Z) : option (list (string * string)) :=
  let i := Z.to_nat profile in
  if String.prefix "ondemand" gov then ondemand_nodes <$> ondemand_profiles !! i
  else if String.prefix "interactive" gov then interactive_nodes <$> interactive_profiles !! i
  else alt_nodes <$> alt_profiles !! i.

(** The governor as the source reads it: at most 19 characters, the line end
    stripped. *)
Definition governor_read `{Sysfs} : option string :=
  if can_open O_RDONLY SCALING_GOVERNOR_PATH then
    (λ c, strip_newlines (c_str (String.substring 0 19 c))) <$> content SCALING_GOVERNOR_PATH
  else None.

(** ** Helper lemmas *)

(** Descriptors: the open ones are below [next_fd], which is not negative. *)
Definition fds_ok (s : power) : Prop :=
  0 <= next_fd s ∧ Forall (λ p, 0 <= p.1 < next_fd s) (open_fds s).

(** [s'] is [s] after the writes [l]: nothing else changed. *)
Definition writes (s : power) (l : list (string * string)) (s' : power) : Prop :=
  boostpulse_fd s' = boostpulse_fd s ∧
  current_power_profile s' = current_power_profile s ∧
  governor s' = governor s ∧
  open_fds s' = open_fds s ∧
  next_fd s <= next_fd s' ∧
  written s' = written s ++ l.

Lemma writes_refl s : writes s [] s.
Proof. repeat split; [lia|]. by rewrite app_nil_r. Qed.
Lemma writes_trans s1 s2 s3 l1 l2 :
  writes s1 l1 s2 → writes s2 l2 s3 → writes s1 (l1 ++ l2) s3.
Proof.
  intros (?&?&?&?&?&Hw1) (?&?&?&?&?&Hw2). repeat split; [congruence..|lia|].
  by rewrite Hw2, Hw1, app_assoc.
Qed.
Lemma writes_fds_ok s l s' : writes s l s' → fds_ok s → fds_ok s'.
Proof.
  intros (_&_&_&Ho&?&_) [? Hall]. split; [lia|]. rewrite Ho.
  eapply Forall_impl; [exact Hall|]. cbn. lia.
Qed.

(** A computation that does the writes [l] and nothing else. *)
Definition emits {A} (m : ST power A) (l : list (string * string)) : Prop :=
  ∀ s, fds_ok s → ∃ a s', m s = Some (a, s') ∧ writes s l s'.

Lemma emits_ret {A} (a : A) : emits (mret a) [].
Proof. intros s _. eexists _, _. split; [done|]. apply writes_refl. Qed.
Lemma emits_bind {A B} (m : ST power A) (f : A → ST power B) l1 l2 :
  emits m l1 → (∀ a, emits (f a) l2) → emits (m ≫= f) (l1 ++ l2).
Proof.
  intros Hm Hf s Hs. destruct (Hm s Hs) as (a & s1 & E1 & W1).
  destruct (Hf a s1) as (b & s2 & E2 & W2); [by eapply writes_fds_ok|].
  exists b, s2. split; [by st_step E1|]. by eapply writes_trans.
Qed.

(** Closing the descriptor just opened leaves the others. *)
Lemma close_fresh s fd path :
  Forall (λ p : Z * string, 0 <= p.1 < fd) (open_fds s) →
  filter (λ p : Z * string, p.1 ≠ fd) ((fd, path) :: open_fds s) = open_fds s.
Proof.
  intros H. rewrite filter_cons_False by (cbn; lia).
  apply list_filter_all. eapply Forall_impl; [exact H|]. cbn. lia.
Qed.

(** A straight sequence of writes. *)
Ltac emit_writes :=
  repeat (apply emits_bind; [by eauto with msm|intros _]); apply emits_ret.

Section laws.
Context `{Sysfs}.

(** Writing to the descriptor at the head of the table. *)
Lemma sys_write_head fd path data s rest :
  open_fds s = (fd, path) :: rest →
  sys_write fd data s =
    if can_write path then
      Some (Z.of_nat (String.length data), Power (boostpulse_fd s) (current_power_profile s)
        (governor s) (open_fds s) (next_fd s) (written s ++ [(path, data)]))
    else Some (-1, s).
Proof. intros Ho. unfold sys_write. rewrite Ho. cbn. by rewrite decide_True. Qed.

Lemma emits_write_str path data : emits (sysfs_write_str path data) (effect path data).
Proof.
  intros s [Hn Hall]. unfold sysfs_write_str, effect, sys_open.
  rewrite st_bind_run. destruct (can_open O_WRONLY path); cbn [andb].
  - destruct (Z.ltb_spec (next_fd s) 0); [lia|]. unfold sys_close.
    rewrite st_bind_run, (sys_write_head _ path _ _ (open_fds s)) by done.
    destruct (can_write path); st_steps; eexists _, _; (split; [reflexivity|]);
      repeat split; cbn [boostpulse_fd current_power_profile governor open_fds next_fd written];
      rewrite ?close_fresh, ?app_nil_r by done; first [done | lia].
  - eexists _, _. split; [reflexivity|]. apply writes_refl.
Qed.
Lemma emits_write_int path v : emits (sysfs_write_int path v) (effect path (pretty v)).
Proof. apply emits_write_str. Qed.
#[local] Hint Resolve emits_write_str emits_write_int : msm.

Lemma emits_ondemand p : emits (write_ondemand p) (effects (ondemand_nodes p)).
Proof.
  unfold write_ondemand, effects, ondemand_nodes. cbn [mbind list_bind fst snd].
  emit_writes.
Qed.
Lemma emits_interactive p : emits (write_interactive p) (effects (interactive_nodes p)).
Proof.
  unfold write_interactive, effects, interactive_nodes. cbn [mbind list_bind fst snd].
  emit_writes.
Qed.
Lemma emits_alt p : emits (write_alt p) (effects (alt_nodes p)).
Proof.
  unfold write_alt, effects, alt_nodes. cbn [mbind list_bind fst snd].
  emit_writes.
Qed.
End laws.

Definition settings `{Sysfs} (profile : Z) : list (string * string) :=
  match governor_read with
  | Some g => effects (default [] (profile_nodes g profile))
  | None => []
  end.

Section calls.
Context `{Sysfs}.

Lemma table_lookup {A} (table : list A) profile s :
  length table = 5%nat → is_profile_valid profile = true →
  ∃ p, table !! Z.to_nat profile = Some p ∧ profile_at table profile s = Some (p, s).
Proof.
  unfold is_profile_valid, PROFILE_MAX. intros Hl [Hp Hm]%andb_prop.
  apply Z.leb_le in Hp. apply Z.ltb_lt in Hm.
  destruct (lookup_lt_is_Some_2 table (Z.to_nat profile)) as [p Ep]; [lia|].
  exists p. split; [done|]. unfold profile_at.
  destruct (Z.ltb_spec profile 0); [lia|]. by apply st_read_some.
Qed.

(** Reading the governor changes [governor] only, and closes its descriptor. *)
Lemma get_scaling_governor_spec s :
  fds_ok s →
  ∃ s', get_scaling_governor s = Some (match governor_read with Some _ => 0 | None => -1 end, s') ∧
    writes (Power (boostpulse_fd s) (current_power_profile s)
      (default (governor s) governor_read) (open_fds s) (next_fd s) (written s)) [] s'.
Proof.
  intros [Hn Hall]. unfold get_scaling_governor, sysfs_read, sys_open, governor_read.
  rewrite !st_bind_run. destruct (can_open O_RDONLY SCALING_GOVERNOR_PATH).
  - destruct (Z.ltb_spec (next_fd s) 0); [lia|]. unfold sys_close, set_governor.
    destruct (content SCALING_GOVERNOR_PATH) as [c|]; st_steps; cbn [fmap option_fmap option_map];
      eexists; (split; [reflexivity|]);
      repeat split; cbn [boostpulse_fd current_power_profile governor open_fds next_fd written default];
      rewrite ?close_fresh, ?app_nil_r by done; first [done | lia].
  - eexists. split; [reflexivity|]. destruct s. apply writes_refl.
Qed.

(** The profile change after the governor is read. *)
Lemma emits_profile g profile :
  is_profile_valid profile = true →
  emits (if String.prefix "ondemand" g then
           p ← profile_at ondemand_profiles profile; write_ondemand p
         else if String.prefix "interactive" g then
           p ← profile_at interactive_profiles profile; write_interactive p
         else
           p ← profile_at alt_profiles profile; write_alt p)
    (effects (default [] (profile_nodes g profile))).
Proof.
  intros Hv s Hs. unfold profile_nodes.
  destruct (String.prefix "ondemand" g); [|destruct (String.prefix "interactive" g)].
  - destruct (table_lookup ondemand_profiles profile s) as (p & Ep & Er); [done..|].
    rewrite Ep. st_step Er. by apply emits_ondemand.
  - destruct (table_lookup interactive_profiles profile s) as (p & Ep & Er); [done..|].
    rewrite Ep. st_step Er. by apply emits_interactive.
  - destruct (table_lookup alt_profiles profile s) as (p & Ep & Er); [done..|].
    rewrite Ep. st_step Er. by apply emits_alt.
Qed.

Lemma set_power_profile_run profile s :
  fds_ok s →
  ∃ s', set_power_profile profile s = Some (tt, s') ∧
    (if is_profile_valid profile && negb (profile =? current_power_profile s) then
       writes (Power (boostpulse_fd s) profile (default (governor s) governor_read)
         (open_fds s) (next_fd s) (written s)) (settings profile) s'
     else s' = s).
Proof.
  intros Hs. unfold set_power_profile.
  destruct (is_profile_valid profile) eqn:Hv; cbn [negb andb]; [|by eexists].
  rewrite st_bind_run. cbn [st_get id].
  destruct (profile =? current_power_profile s); cbn [negb]; [by eexists|].
  destruct (get_scaling_governor_spec s Hs) as (s1 & E1 & W1). st_step E1.
  assert (fds_ok s1) as Hs1 by by eapply writes_fds_ok.
  pose proof W1 as (B1 & C1 & G1 & O1 & N1 & L1). cbn in B1, C1, G1, O1, N1, L1.
  unfold settings. destruct governor_read as [g|]; cbn [default] in *; unfold id in *.
  - cbn [Z.ltb Z.compare]. rewrite st_bind_run, st_bind_run. cbn [st_get]. rewrite G1. unfold id.
    destruct (emits_profile g profile Hv s1 Hs1) as ([] & s2 & E2 & B2 & C2 & G2 & O2 & N2 & L2).
    rewrite E2. eexists. split; [reflexivity|].
    repeat split; cbn [boostpulse_fd current_power_profile governor open_fds next_fd written];
      first [congruence | lia | idtac].
    by rewrite L2, L1, app_nil_r.
  - cbn [Z.ltb Z.compare]. rewrite st_bind_run. st_steps. eexists. split; [reflexivity|].
    repeat split; cbn [boostpulse_fd current_power_profile governor open_fds next_fd written];
      first [congruence | lia].
Qed.
End calls.

(** ** The calls of the HAL *)

Inductive hal_call :=
| SetInteractive (on : Z)
| PowerHint (junk : string) (hint : power_hint_t) (data : option Z).

Definition run_call `{Sysfs} (c : hal_call) : ST power unit :=
  match c with
  | SetInteractive on => power_set_interactive on
  | PowerHint junk hint data => power_hint junk hint data
  end.

(** The framework passes the profile with [POWER_HINT_SET_PROFILE]. *)
Definition call_ok (c : hal_call) : Prop :=
  match c with PowerHint _ POWER_HINT_SET_PROFILE None => False | _ => True end.

(** One call, with any answers of the system. *)
Definition power_step (s s' : power) : Prop :=
  ∃ (env : Sysfs) c, call_ok c ∧ run_call (H := env) c s = Some (tt, s').
Definition power_init (s : power) : Prop := ∃ fd, 0 <= fd ∧ s = power_start fd.

(** The only descriptor open between calls is that of the boost pulse. *)
Definition power_inv (s : power) : Prop :=
  fds_ok s ∧
  open_fds s = (if boostpulse_fd s <? 0 then []
                else [(boostpulse_fd s, INTERACTIVE_PATH +:+ "boostpulse")]) ∧
  (current_power_profile s = -1 ∨ is_profile_valid (current_power_profile s) = true).

Section preservation.
Context `{Sysfs}.
#[local] Hint Resolve emits_write_str emits_write_int : msm.

Lemma writes_inv s p g l s' :
  writes (Power (boostpulse_fd s) p g (open_fds s) (next_fd s) (written s)) l s' →
  is_profile_valid p = true ∨ p = current_power_profile s →
  power_inv s → power_inv s'.
Proof.
  intros (B & C & G & O & N & L) Hp ([Hn Hall] & Ho & Hc). cbn in B, C, G, O, N, L.
  split; [split|split].
  - lia.
  - rewrite O. eapply Forall_impl; [exact Hall|]. cbn. lia.
  - by rewrite O, B.
  - rewrite C. destruct Hp as [Hp| ->]; [by right|done].
Qed.

Lemma set_power_profile_inv profile s :
  power_inv s → ∃ s', set_power_profile profile s = Some (tt, s') ∧ power_inv s'.
Proof.
  intros Hs. destruct (set_power_profile_run profile s) as (s' & E & W); [apply Hs|].
  exists s'. split; [done|]. destruct (is_profile_valid profile) eqn:Hv; cbn [andb] in W; [|by subst].
  destruct (profile =? current_power_profile s); cbn [negb] in W; [by subst|].
  eapply writes_inv; eauto.
Qed.

Lemma set_interactive_inv on s :
  power_inv s → ∃ s', power_set_interactive on s = Some (tt, s') ∧ power_inv s'.
Proof.
  intros Hs. unfold power_set_interactive. rewrite st_bind_run. cbn [st_get id].
  destruct (is_profile_valid (current_power_profile s)) eqn:Hv; cbn [negb]; [|by exists s].
  destruct (table_lookup interactive_profiles (current_power_profile s) s)
    as (p & Ep & Er); [done..|]. st_step Er.
  match goal with |- ∃ s', ?m s = _ ∧ _ => assert (∃ l, emits m l) as [l He] end.
  { eexists. emit_writes. }
  destruct (He s) as ([] & s' & E & W); [apply Hs|].
  exists s'. split; [exact E|]. destruct s. eapply writes_inv; [exact W| |exact Hs]. by right.
Qed.

Lemma boostpulse_open_inv s :
  power_inv s →
  ∃ s', boostpulse_open s = Some (boostpulse_fd s', s') ∧ power_inv s'.
Proof.
  intros ([Hn Hall] & Ho & Hc). unfold boostpulse_open. rewrite st_bind_run. cbn [st_get id].
  rewrite st_bind_run. destruct (Z.ltb_spec (boostpulse_fd s) 0) as [Hb|Hb].
  - unfold sys_open, set_boostpulse_fd. rewrite st_bind_run. rewrite Ho in Hall |- *.
    destruct (can_open O_WRONLY (INTERACTIVE_PATH +:+ "boostpulse")); st_steps;
      eexists; (split; [reflexivity|]); (split; [split|split]);
      cbn [boostpulse_fd current_power_profile open_fds next_fd]; try done; try lia.
    + constructor; [cbn; lia|constructor].
    + by destruct (Z.ltb_spec (next_fd s) 0); [lia|].
    + by rewrite Ho.
  - exists s. split; [done|]. split; [done|split; [|done]].
    by destruct (Z.ltb_spec (boostpulse_fd s) 0); [lia|].
Qed.

Lemma interaction_inv junk data s :
  power_inv s → ∃ s', power_hint junk POWER_HINT_INTERACTION data s = Some (tt, s') ∧ power_inv s'.
Proof.
  intros Hs. unfold power_hint. rewrite st_bind_run. cbn [st_get id].
  destruct (is_profile_valid (current_power_profile s)) eqn:Hv; cbn [negb]; [|by exists s].
  destruct (table_lookup interactive_profiles (current_power_profile s) s)
    as (p & Ep & Er); [done..|]. st_step Er.
  destruct (truth (ia_boostpulse_duration p)); cbn [negb]; [|by exists s].
  destruct (boostpulse_open_inv s Hs) as (s1 & E1 & [Hn Hall] & Ho & Hc). st_step E1.
  destruct (Z.leb_spec 0 (boostpulse_fd s1)) as [Hb|Hb].
  - destruct (Z.ltb_spec (boostpulse_fd s1) 0); [lia|].
    rewrite st_bind_run, (sys_write_head _ _ _ _ [] Ho).
    destruct (can_write (INTERACTIVE_PATH +:+ "boostpulse")).
    + destruct (Z.ltb_spec (Z.of_nat (String.length ("1" +:+ String zero junk))) 0); [lia|].
      eexists. split; [reflexivity|]. split; [done|].
      cbn [boostpulse_fd current_power_profile open_fds]. split; [|done].
      by destruct (Z.ltb_spec (boostpulse_fd s1) 0); [lia|].
    + unfold sys_close, set_boostpulse_fd. st_steps. cbn [Z.ltb Z.compare].
      eexists. split; [reflexivity|]. (split; [split|split]);
        cbn [boostpulse_fd current_power_profile open_fds next_fd]; try done.
      * rewrite Ho. by rewrite filter_cons_False by (cbn; tauto).
      * rewrite Ho. by rewrite filter_cons_False by (cbn; tauto).
  - exists s1. by split.
Qed.

Lemma run_call_inv c s :
  call_ok c → power_inv s → ∃ s', run_call c s = Some (tt, s') ∧ power_inv s'.
Proof.
  intros Hc Hs. destruct c as [on|junk [] data]; cbn [run_call].
  - by apply set_interactive_inv.
  - by apply interaction_inv.
  - destruct data as [profile|]; [|done]. cbn [power_hint]. by apply set_power_profile_inv.
  - by exists s.
  - by exists s.
Qed.
End preservation.

Lemma power_reachable_inv s : reachable power_step power_init s → power_inv s.
Proof.
  apply invariant_reachable.
  - intros _ (fd & Hfd & ->). repeat split; [done|constructor|by left].
  - intros s0 s1 Hs (env & c & Hc & E).
    destruct (run_call_inv c s0 Hc Hs) as (s' & E' & Hs'). congruence.
Qed.

(** ** Properties *)

(** C38: a profile change under an open descriptor table never faults and
    closes what it opens; for a valid profile that is not the current one it
    makes that profile current and writes exactly the governor's table row of
    the profile, in order, to the nodes that open and accept a write (nothing
    when the governor cannot be read, although the profile becomes current);
    for any other profile it changes nothing. *)
Theorem set_power_profile_spec `{Sysfs} profile s (Hs : fds_ok s) :
  ∃ s', set_power_profile profile s = Some (tt, s') ∧
    open_fds s' = open_fds s ∧ boostpulse_fd s' = boostpulse_fd s ∧
    (is_profile_valid profile = true → profile ≠ current_power_profile s →
       current_power_profile s' = profile ∧
       written s' = written s ++
         match governor_read with
         | Some g => effects (default [] (profile_nodes g profile))
         | None => []
         end) ∧
    (is_profile_valid profile = false ∨ profile = current_power_profile s → s' = s).
Proof.
  destruct (set_power_profile_run profile s Hs) as (s' & E & W).
  exists s'. split; [done|]. destruct (is_profile_valid profile) eqn:Hv; cbn [andb] in W.
  - destruct (Z.eqb_spec profile (current_power_profile s)) as [Hp|Hp]; cbn [negb] in W.
    + subst s'. by repeat split.
    + destruct W as (B & C & G & O & N & L).
      split; [done|]. split; [done|]. split; [by intros|]. naive_solver.
  - subst s'. by repeat split.
Qed.

(** whatever the nodes answer, call after call, no call of the power HAL
    reads a profile table out of bounds, the current profile is -1 or a valid one, and the only descriptor that stays
    open between calls is the one of the boost pulse, exactly while
    [boostpulse_fd] holds it. *)
Theorem power_calls_safe s (Hr : reachable power_step power_init s) :
  (∀ (env : Sysfs) c, call_ok c → ∃ s', run_call (H := env) c s = Some (tt, s')) ∧
  open_fds s = (if boostpulse_fd s <? 0 then []
                else [(boostpulse_fd s, INTERACTIVE_PATH +:+ "boostpulse")]) ∧
  (current_power_profile s = -1 ∨ 0 <= current_power_profile s < PROFILE_MAX).
Proof.
  apply power_reachable_inv in Hr. split; [|split].
  - intros env c Hc. destruct (run_call_inv c s Hc Hr) as (s' & E & _). by exists s'.
  - apply Hr.
  - destruct Hr as (_ & _ & [Hc|Hc]); [by left|right].
    unfold is_profile_valid in Hc. lia.
Qed.

(** ** Witnesses *)

Definition demo_env (gov : string) : Sysfs := {|
  can_open := λ m p, match m with O_RDONLY => true | O_WRONLY => negb (String.eqb p INPUT_BOOST_PATH) end;
  content := λ _, Some (gov +:+ String (ascii_of_nat 10) EmptyString);
  can_write := λ _, true
|}.

Lemma set_power_profile_spec_witness :
  fds_ok (power_start 3) ∧
  ∃ s', set_power_profile (H := demo_env "interactive") PROFILE_BALANCED (power_start 3) = Some (tt, s') ∧
    current_power_profile s' = PROFILE_BALANCED ∧ open_fds s' = [] ∧
    take 2 (written s') = [(INTERACTIVE_PATH +:+ "boost", "0");
                           (INTERACTIVE_PATH +:+ "boostpulse_duration", "80000")].
Proof.
  assert (fds_ok (power_start 3)) as Hs by (split; [done|constructor]).
  split; [exact Hs|].
  destruct (@set_power_profile_spec (demo_env "interactive") PROFILE_BALANCED (power_start 3) Hs)
    as (s' & E & Ho & _ & Hp & _).
  destruct (Hp eq_refl ltac:(discriminate)) as [Hc Hw].
  exists s'. split; [exact E|]. split; [exact Hc|]. split; [exact Ho|].
  rewrite Hw. vm_compute. reflexivity.
Defined.

Lemma power_calls_safe_witness :
  ∃ s, reachable power_step power_init s ∧ boostpulse_fd s = 16 ∧
    open_fds s = [(16, INTERACTIVE_PATH +:+ "boostpulse")].
Proof.
  destruct (run_call (H := demo_env "interactive") (PowerHint "" POWER_HINT_SET_PROFILE (Some 1))
    (power_start 3)) as [[[] s1]|] eqn:E1; [|vm_compute in E1; discriminate].
  destruct (run_call (H := demo_env "interactive") (PowerHint "" POWER_HINT_INTERACTION None) s1)
    as [[[] s2]|] eqn:E2; [|vm_compute in E1; injection E1 as <-; vm_compute in E2; discriminate].
  assert (reachable power_step power_init s2) as Hr.
  { exists (power_start 3). split; [exists 3; split; [lia|reflexivity]|].
    eapply rtc_l; [exists (demo_env "interactive"), (PowerHint "" POWER_HINT_SET_PROFILE (Some 1)); split; [exact I|exact E1]|].
    eapply rtc_l; [exists (demo_env "interactive"), (PowerHint "" POWER_HINT_INTERACTION None); split; [exact I|exact E2]|].
    apply rtc_refl. }
  assert (boostpulse_fd s2 = 16) as Hb.
  { vm_compute in E1. injection E1 as <-. vm_compute in E2. injection E2 as <-. reflexivity. }
  exists s2. split; [exact Hr|]. split; [exact Hb|].
  destruct (power_calls_safe s2 Hr) as (_ & Ho & _). rewrite Ho, Hb. reflexivity.
Defined.
