(* ===== verification/Lights.v ===== *)
(** * The lights HAL: liblights/lights.c

    The brightness computation, the five [set_light] functions, and opening
    and closing a light device.  The LED nodes, the touch-light settings file
    and [malloc] are the parameter [Leds]; the names of the lights and
    [EINVAL], which come from system headers, are its constants.  A [set_light]
    call is one transition (it holds [g_lock] while it writes). *)

From stdpp Require Import pretty.
From Stdlib Require Import String Ascii.
From S2P Require Import Prelude.
Local Open Scope Z_scope.

Class Leds := {
  led_open : string → option Z;      (* [None]: opens; [Some e]: errno *)
  led_write : string → option Z;
  led_access : string → bool;        (* access(path, W_OK) == 0 *)
  touchlight_file : option (option ascii);  (* not there, empty, first character *)
  malloc_ok : bool;
  EINVAL : Z;
  LIGHT_ID_BACKLIGHT : string;
  LIGHT_ID_KEYBOARD : string;
  LIGHT_ID_BUTTONS : string;
  LIGHT_ID_BATTERY : string;
  LIGHT_ID_NOTIFICATIONS : string
}.

Definition LCD_FILE : string := "/sys/class/leds/lcd-backlight/brightness".
Definition BUTTONS_FILE : string := "/sys/class/misc/sec_touchkey/brightness".
Definition NOTIFICATION_BLINK_FILE : string := "/sys/class/misc/enhanced_bln/blink_control".
Definition NOTIFICATION_BLINK_RATE_FILE : string := "/sys/class/misc/enhanced_bln/blink_interval_ms".

(** [struct light_state_t]: the members the source reads. *)
Record light_state := LightState {
  color : Z;       (* unsigned int *)
  flashOnMS : Z;   (* int *)
  flashOffMS : Z
}.

Inductive set_light_fn :=
| fn_backlight | fn_keyboard | fn_buttons | fn_battery | fn_notifications.

(** [struct light_device_t]: its [module] and its [set_light]. *)
Record light_device := LightDevice { ld_module : Z; ld_set_light : set_light_fn }.

Record lights := Lights {
  g_init : bool;                          (* init_globals has run *)
  g_notification_blink_support : bool;
  g_notification_blink_rate_support : bool;
  g_enable_touchlight : Z;
  led_data : list (string * string);      (* the data written, in order *)
  devices : gmap positive light_device    (* the devices not freed *)
}.

Definition lights_start : lights := Lights false false false (-1) [] ∅.

Section operations.
Context `{Leds}.

Definition init_globals : ST lights unit := st_modify (λ s,
  Lights true (led_access NOTIFICATION_BLINK_FILE) (led_access NOTIFICATION_BLINK_RATE_FILE)
    (g_enable_touchlight s) (led_data s) (devices s)).

Definition write_str (path str : string) : ST lights Z := λ s,
  match led_open path with
  | Some e => Some (- e, s)
  | None =>
      match led_write path with
      | Some e => Some (- e, s)
      | None =>
          Some (0, Lights (g_init s) (g_notification_blink_support s)
            (g_notification_blink_rate_support s) (g_enable_touchlight s)
            (led_data s ++ [(path, str)]) (devices s))
      end
  end.

Definition newline : string := String (ascii_of_nat 10) EmptyString.
Definition int_line (value : Z) : string := pretty value +:+ newline.
Definition write_int (path : string) (value : Z) : ST lights Z := write_str path (int_line value).

Definition load_settings : ST lights unit := st_modify (λ s,
  let e := match touchlight_file with
           | None => 1
           | Some (Some c) => if Ascii.eqb c "1"%char then 0 else 1
           | Some None => 1
           end in
  Lights (g_init s) (g_notification_blink_support s) (g_notification_blink_rate_support s)
    e (led_data s) (devices s)).

Definition rgb_to_brightness (color : Z) : Z :=
  let color := Z.land color 0x00ffffff in
  Z.shiftr
    (77 * Z.land (Z.shiftr color 16) 0x00ff + 150 * Z.land (Z.shiftr color 8) 0x00ff
     + 29 * Z.land color 0x00ff) 8.

(** [snprintf(buffer, 10, "%d %d", on, off)] *)
Definition blink_rate (on off : Z) : string :=
  String.substring 0 9 (pretty on +:+ " " +:+ pretty off).

(** The result is [None] where the source returns a variable it never set. *)
Definition set_light_notifications (state : light_state) : ST lights (option Z) :=
  let bln_led_control := if truth (Z.land (color state) 0x00ffffff) then 1 else 0 in
  s ← st_get id;
  if g_notification_blink_support s then
    _ ← (if g_notification_blink_rate_support s then
           write_str NOTIFICATION_BLINK_RATE_FILE (blink_rate (flashOnMS state) (flashOffMS state))
         else mret 0);
    res ← write_int NOTIFICATION_BLINK_FILE bln_led_control;
    mret (Some res)
  else mret None.

Definition set_light_backlight (state : light_state) : ST lights (option Z) :=
  _ ← load_settings;
  err ← write_int LCD_FILE (rgb_to_brightness (color state));
  mret (Some err).

Definition set_light_buttons (state : light_state) : ST lights (option Z) :=
  let touch_led_control := if truth (Z.land (color state) 0x00ffffff) then 1 else 2 in
  e ← st_get g_enable_touchlight;
  res ← (if (e =? -1) || (0 <? e) then write_int BUTTONS_FILE touch_led_control else mret 0);
  mret (Some res).

Definition set_light_battery (state : light_state) : ST lights (option Z) := mret (Some 0).
Definition set_light_keyboard (state : light_state) : ST lights (option Z) := mret (Some 0).

Definition run_set_light (f : set_light_fn) : light_state → ST lights (option Z) :=
  match f with
  | fn_backlight => set_light_backlight
  | fn_keyboard => set_light_keyboard
  | fn_buttons => set_light_buttons
  | fn_battery => set_light_battery
  | fn_notifications => set_light_notifications
  end.

(** [dev->set_light(dev, state)]: a fault unless the device is allocated. *)
Definition call_set_light (dev : positive) (state : light_state) : ST lights (option Z) :=
  d ← st_read (λ s, devices s !! dev);
  run_set_light (ld_set_light d) state.

Definition close_lights (dev : option positive) : ST lights Z :=
  match dev with
  | None => mret 0
  | Some l =>
      _ ← st_read (λ s, devices s !! l);
      _ ← st_modify (λ s, Lights (g_init s) (g_notification_blink_support s)
        (g_notification_blink_rate_support s) (g_enable_touchlight s) (led_data s)
        (delete l (devices s)));
      mret 0
  end.

(** The chain of [strcmp]s. *)
Definition light_of_name (name : string) : option set_light_fn :=
  if String.eqb LIGHT_ID_BACKLIGHT name then Some fn_backlight
  else if String.eqb LIGHT_ID_KEYBOARD name then Some fn_keyboard
  else if String.eqb LIGHT_ID_BUTTONS name then Some fn_buttons
  else if String.eqb LIGHT_ID_BATTERY name then Some fn_battery
  else if String.eqb LIGHT_ID_NOTIFICATIONS name then Some fn_notifications
  else None.

(** The result and what is stored through [device]; clearing the memory of a
    failed [malloc] is a fault. *)
Definition open_lights (module : Z) (name : string) : ST lights (Z * option positive) :=
  match light_of_name name with
  | None => mret (- EINVAL, None)
  | Some set_light =>
      s ← st_get id;
      _ ← (if g_init s then mret tt else init_globals);
      if malloc_ok then
        l ← st_get (λ s, fresh (dom (devices s)));
        _ ← st_modify (λ s, Lights (g_init s) (g_notification_blink_support s)
          (g_notification_blink_rate_support s) (g_enable_touchlight s) (led_data s)
          (<[l := LightDevice module set_light]> (devices s)));
        mret (0, Some l)
      else st_fault
  end.
End operations.

(** ** Specification *)

Section spec.
Context `{Leds}.

(** What writing [str] to [path] leaves there, and what it answers. *)
Definition led_result (path : string) : Z :=
  match led_open path with
  | Some e => - e
  | None => match led_write path with Some e => - e | None => 0 end
  end.
Definition led_effect (path str : string) : list (string * string) :=
  match led_open path, led_write path with None, None => [(path, str)] | _, _ => [] end.

(** The writes of a light for a requested state. *)
Definition light_effect (f : set_light_fn) (state : light_state) (s : lights)
    : list (string * string) :=
  let lit := negb (color state mod 2 ^ 24 =? 0) in
  match f with
  | fn_backlight => led_effect LCD_FILE (int_line (rgb_to_brightness (color state)))
  | fn_buttons =>
      if (g_enable_touchlight s =? -1) || (0 <? g_enable_touchlight s)
      then led_effect BUTTONS_FILE (int_line (if lit then 1 else 2)) else []
  | fn_notifications =>
      if g_notification_blink_support s then
        (if g_notification_blink_rate_support s
         then led_effect NOTIFICATION_BLINK_RATE_FILE (blink_rate (flashOnMS state) (flashOffMS state))
         else []) ++
        led_effect NOTIFICATION_BLINK_FILE (int_line (if lit then 1 else 0))
      else []
  | fn_keyboard | fn_battery => []
  end.
Definition light_result (f : set_light_fn) (s : lights) : option Z :=
  match f with
  | fn_backlight => Some (led_result LCD_FILE)
  | fn_buttons =>
      if (g_enable_touchlight s =? -1) || (0 <? g_enable_touchlight s)
      then Some (led_result BUTTONS_FILE) else Some 0
  | fn_notifications =>
      if g_notification_blink_support s then Some (led_result NOTIFICATION_BLINK_FILE) else None
  | fn_keyboard | fn_battery => Some 0
  end.
End spec.

(** ** Helper lemmas *)

Lemma land_low24 c : Z.land c 0x00ffffff = c mod 2 ^ 24.
Proof. change 0x00ffffff with (Z.ones 24). by rewrite Z.land_ones. Qed.
Lemma land_low8 c : Z.land c 0x00ff = c mod 2 ^ 8.
Proof. change 0x00ff with (Z.ones 8). by rewrite Z.land_ones. Qed.

(** The channels of the colour, extracted as the source does. *)
Lemma channel_at c k :
  0 <= k → k + 8 <= 24 →
  Z.land (Z.shiftr (Z.land c 0x00ffffff) k) 0x00ff = (c / 2 ^ k) mod 2 ^ 8.
Proof.
  intros Hk Hk'. rewrite land_low8, land_low24. apply Z.bits_inj'. intros i Hi.
  destruct (decide (i < 8)).
  - rewrite !Z.mod_pow2_bits_low, Z.shiftr_spec, Z.mod_pow2_bits_low, Z.div_pow2_bits by lia.
    done.
  - by rewrite !Z.mod_pow2_bits_high by lia.
Qed.

Lemma rgb_to_brightness_channels c :
  rgb_to_brightness c =
    (77 * ((c / 2 ^ 16) mod 2 ^ 8) + 150 * ((c / 2 ^ 8) mod 2 ^ 8) + 29 * (c mod 2 ^ 8)) / 2 ^ 8.
Proof.
  unfold rgb_to_brightness. rewrite !channel_at by lia.
  rewrite <- (Z.shiftr_0_r (Z.land c _)) at 1. rewrite channel_at by lia.
  rewrite Z.pow_0_r, Z.div_1_r. by rewrite Z.shiftr_div_pow2 by lia.
Qed.

Lemma write_str_run `{Leds} path str s :
  write_str path str s = Some (led_result path,
    Lights (g_init s) (g_notification_blink_support s) (g_notification_blink_rate_support s)
      (g_enable_touchlight s) (led_data s ++ led_effect path str) (devices s)).
Proof.
  unfold write_str, led_result, led_effect.
  destruct (led_open path); [|destruct (led_write path)]; rewrite ?app_nil_r; by destruct s.
Qed.

(** ** Properties *)

(** the brightness of a colour depends on its red, green and blue bytes
    only, lies between the darkest and the brightest of them (so always in
    0..255), and of a grey is that grey. *)
Theorem rgb_to_brightness_spec c :
  let r := (c / 2 ^ 16) mod 2 ^ 8 in
  let g := (c / 2 ^ 8) mod 2 ^ 8 in
  let b := c mod 2 ^ 8 in
  Z.min r (Z.min g b) <= rgb_to_brightness c <= Z.max r (Z.max g b) ∧
  0 <= rgb_to_brightness c <= 255 ∧
  ((r = g ∧ g = b) → rgb_to_brightness c = r) ∧
  rgb_to_brightness (c mod 2 ^ 24) = rgb_to_brightness c.
Proof.
  cbv zeta. split; [|split; [|split]].
  4: { unfold rgb_to_brightness. by rewrite !land_low24, Z.mod_mod. }
  all: rewrite rgb_to_brightness_channels.
  all: pose proof (Z.mod_pos_bound (c / 2 ^ 16) (2 ^ 8) eq_refl).
  all: pose proof (Z.mod_pos_bound (c / 2 ^ 8) (2 ^ 8) eq_refl).
  all: pose proof (Z.mod_pos_bound c (2 ^ 8) eq_refl).
  all: set (r := (c / 2 ^ 16) mod 2 ^ 8) in *; set (g := (c / 2 ^ 8) mod 2 ^ 8) in *;
       set (b := c mod 2 ^ 8) in *; clearbody r g b; change (2 ^ 8) with 256 in *.
  - split; [apply Z.div_le_lower_bound|apply Z.lt_succ_r, Z.div_lt_upper_bound]; lia.
  - split; [apply Z.div_le_lower_bound|apply Z.lt_succ_r, Z.div_lt_upper_bound]; lia.
  - intros [-> ->]. replace (77 * b + 150 * b + 29 * b) with (b * 256) by lia.
    by apply Z.div_mul.
Qed.

(** setting a light never faults, writes exactly the light's nodes (of
    those that accept it) and answers 0 or the negated error of the last
    write; the notification light without blink support writes nothing and
    returns a value the source never set; only the backlight touches another
    variable, the touch-light setting. *)
Theorem set_light_spec `{Leds} f state s :
  ∃ s', run_set_light f state s = Some (light_result f s, s') ∧
    led_data s' = led_data s ++ light_effect f state s ∧
    devices s' = devices s ∧ g_init s' = g_init s ∧
    g_notification_blink_support s' = g_notification_blink_support s ∧
    (f ≠ fn_backlight → g_enable_touchlight s' = g_enable_touchlight s) ∧
    (f = fn_backlight → g_enable_touchlight s' =
       match touchlight_file with Some (Some "1"%char) => 0 | _ => 1 end).
Proof.
  destruct f; cbn [run_set_light];
    [unfold set_light_backlight|unfold set_light_keyboard|unfold set_light_buttons
    |unfold set_light_battery|unfold set_light_notifications].
  - unfold load_settings, write_int. st_run. rewrite write_str_run.
    eexists. split; [reflexivity|]. cbn.
    repeat (split; [done|]). intros _. destruct touchlight_file as [[c|]|]; [|done..].
    destruct (Ascii.eqb_spec c "1"%char) as [->|Hc]; [done|].
    destruct c as [[] [] [] [] [] [] [] []]; done.
  - exists s. cbn. by rewrite app_nil_r.
  - unfold light_result, light_effect, write_int. st_run.
    rewrite land_low24. unfold truth.
    destruct ((g_enable_touchlight s =? -1) || (0 <? g_enable_touchlight s)).
    + rewrite write_str_run. eexists. split; [reflexivity|]. done.
    + exists s. by rewrite app_nil_r.
  - exists s. cbn. by rewrite app_nil_r.
  - unfold light_result, light_effect, write_int. st_run. unfold id.
    rewrite land_low24. unfold truth.
    destruct (g_notification_blink_support s) eqn:Hb.
    + destruct (g_notification_blink_rate_support s).
      * st_run. rewrite write_str_run. st_run. rewrite write_str_run.
        eexists. split; [reflexivity|]. cbn. by rewrite <- app_assoc, Hb.
      * st_run. rewrite write_str_run. eexists. split; [reflexivity|]. cbn. by rewrite Hb.
    + exists s. by rewrite app_nil_r.
Qed.

(** opening an unknown light answers [-EINVAL] and changes nothing;
    opening a known one allocates a fresh device that runs the [set_light] of
    the name and probes the blink nodes the first time only; closing it frees
    exactly that device, and a second close touches a dead object. *)
Theorem open_lights_spec `{Leds} module name s (Hm : malloc_ok = true) :
  match light_of_name name with
  | None => open_lights module name s = Some ((- EINVAL, None), s)
  | Some f =>
      ∃ l s', open_lights module name s = Some ((0, Some l), s') ∧
        devices s !! l = None ∧
        devices s' = <[l := LightDevice module f]> (devices s) ∧
        (∀ state, call_set_light l state s' = run_set_light f state s') ∧
        g_init s' = true ∧ led_data s' = led_data s ∧
        g_notification_blink_support s' =
          (if g_init s then g_notification_blink_support s else led_access NOTIFICATION_BLINK_FILE) ∧
        ∃ s'', close_lights (Some l) s' = Some (0, s'') ∧ devices s'' = devices s ∧
          close_lights (Some l) s'' = None
  end.
Proof.
  unfold open_lights. destruct (light_of_name name) as [f|]; [|done]. rewrite Hm.
  set (l := fresh (dom (devices s))).
  assert (devices s !! l = None) as Hl by apply not_elem_of_dom, is_fresh.
  assert (∀ m n o p q, let s' := Lights m n o p q (<[l := LightDevice module f]> (devices s)) in
    (∀ state, call_set_light l state s' = run_set_light f state s') ∧
    ∃ s'', close_lights (Some l) s' = Some (0, s'') ∧ devices s'' = devices s ∧
      close_lights (Some l) s'' = None) as Hd.
  { intros m n o p q s'. assert (devices s' !! l = Some (LightDevice module f)) as Hd
      by apply lookup_insert_eq.
    split.
    - intros state. unfold call_set_light.
      by rewrite (st_bind_some _ _ _ _ _ (st_read_some (λ s, devices s !! l) _ _ Hd)).
    - unfold close_lights. rewrite (st_bind_some _ _ _ _ _ (st_read_some (λ s, devices s !! l) _ _ Hd)). st_run.
      eexists. split; [reflexivity|]. cbn [devices].
      assert (delete l (devices s') = devices s) as He by by apply delete_insert_id.
      split; [done|]. rewrite st_bind_run. unfold st_read. cbn [devices]. by rewrite He, Hl. }
  st_run. unfold id. destruct (g_init s) eqn:Hi; unfold init_globals; st_run;
    eexists l, _; (split; [reflexivity|]); (split; [done|]); (split; [done|]);
    (split; [apply Hd|]); repeat (split; [done|]); apply Hd.
Qed.

(** ** Findings and witnesses *)

(** Two intervals of usual length do not fit the ten bytes of the buffer. *)
Lemma blink_rate_truncated : blink_rate 1000 10000 = "1000 1000".
Proof. vm_compute. reflexivity. Qed.

Definition demo_leds : Leds := {|
  led_open := λ _, None; led_write := λ _, None; led_access := λ _, true;
  touchlight_file := None; malloc_ok := true; EINVAL := 22;
  LIGHT_ID_BACKLIGHT := "a"; LIGHT_ID_KEYBOARD := "b"; LIGHT_ID_BUTTONS := "c";
  LIGHT_ID_BATTERY := "d"; LIGHT_ID_NOTIFICATIONS := "e"
|}.

Lemma open_lights_spec_witness :
  ∃ l s', open_lights (H := demo_leds) 7 "c" lights_start = Some ((0, Some l), s') ∧
    g_notification_blink_support s' = true ∧
    devices s' = {[ l := LightDevice 7 fn_buttons ]}.
Proof.
  destruct (@open_lights_spec demo_leds 7 "c" lights_start eq_refl)
    as (l & s' & E & _ & Hd & _ & _ & _ & Hb & _).
  exists l, s'. split; [exact E|]. split; [exact Hb|exact Hd].
Defined.
