(* ===== verification/Hal.v ===== *)
(** * Opening the NFC and GPS modules: nfc/nfc_hw.c and gps.c

    The constants that come from system headers and the answer of the
    allocator are the parameter [HalEnv]; the members of the devices that the
    source sets are the fields of the records. *)

From Stdlib Require Import String.
From S2P Require Import Prelude.
Local Open Scope Z_scope.

Class HalEnv := {
  alloc_ok : bool;
  HARDWARE_DEVICE_TAG : Z;
  EINVAL : Z;
  NFC_PN544_CONTROLLER : string;
  PN544_LINK_TYPE_I2C : Z
}.

(** The functions the devices point to. *)
Inductive hal_fn := fn_NULL | fn_pn544_close | fn_gps__get_gps_interface.

Record hw_device_common := Common {
  tag : Z;
  version : Z;
  module : Z;
  close : hal_fn
}.

(** ** NFC *)

(** Each row: a command byte, the address (two bytes) and the value. *)
Definition pn544_eedata_settings : list (list Z) := [
  [0x00; 0x9B; 0xD1; 0x0D];
  [0x00; 0x9B; 0xD2; 0x24];
  [0x00; 0x9B; 0xD3; 0x0A];
  [0x00; 0x9B; 0xD4; 0x22];
  [0x00; 0x9B; 0xD5; 0x08];
  [0x00; 0x9B; 0xD6; 0x1E];
  [0x00; 0x9B; 0xDD; 0x1C];
  [0x00; 0x9B; 0x84; 0x13];
  [0x00; 0x98; 0x00; 0x3F];
  [0x00; 0x9F; 0x09; 0x00];
  [0x00; 0x9F; 0x0A; 0x05];
  [0x00; 0x9E; 0xD1; 0xA1];
  [0x00; 0x99; 0x23; 0x00];
  [0x00; 0x9E; 0x74; 0xB0];
  [0x00; 0x9E; 0x7D; 0xB0];
  [0x00; 0x9F; 0x28; 0x01];
  [0x00; 0x9F; 0x35; 0x14];
  [0x00; 0x9F; 0x36; 0x60];
  [0x00; 0x9C; 0x31; 0x00];
  [0x00; 0x9C; 0x32; 0xC8];
  [0x00; 0x9C; 0x19; 0x40];
  [0x00; 0x9C; 0x1A; 0x40];
  [0x00; 0x9C; 0x0C; 0x00];
  [0x00; 0x9C; 0x0D; 0x00];
  [0x00; 0x9C; 0x12; 0x00];
  [0x00; 0x9C; 0x13; 0x00];
  [0x00; 0x98; 0xA2; 0x08];
  [0x00; 0x98; 0x93; 0x40];
  [0x00; 0x98; 0x7D; 0x02];
  [0x00; 0x98; 0x7E; 0x00];
  [0x00; 0x9F; 0xC8; 0x01];
  [0x00; 0x9F; 0x9A; 0x00];
  [0x00; 0x9F; 0x09; 0x00]
].

Record nfc_pn544_device := NfcDevice {
  nfc_common : hw_device_common;
  num_eeprom_settings : Z;
  eeprom_settings : list Z;      (* the bytes the pointer leads to *)
  linktype : Z;
  device_node : string;
  enable_i2c_workaround : Z
}.

Section open.
Context `{HalEnv}.

(** The result and the device stored through [device]; using the NULL of a
    failed [calloc] is a fault ([None]). *)
Definition nfc_open (m : Z) (name : string) : option (Z * option nfc_pn544_device) :=
  if String.eqb name NFC_PN544_CONTROLLER then
    if alloc_ok then
      let data := concat pn544_eedata_settings in
      Some (0, Some (NfcDevice (Common HARDWARE_DEVICE_TAG 0 m fn_pn544_close)
        (Z.of_nat (length data) / 4) data PN544_LINK_TYPE_I2C "/dev/pn544" 0))
    else None
  else Some (- EINVAL, None).

(** ** GPS *)

Record gps_device := GpsDevice {
  gps_common : hw_device_common;
  get_gps_interface : hal_fn
}.

Definition open_gps (m : Z) (name : string) : option (Z * gps_device) :=
  if alloc_ok then
    Some (0, GpsDevice (Common HARDWARE_DEVICE_TAG 0 m fn_NULL) fn_gps__get_gps_interface)
  else None.
End open.

(** ** Properties *)

(** What row [i] of a device's settings says, read through the pointer. *)
Definition eeprom_row (d : nfc_pn544_device) (i : nat) : list Z :=
  take 4 (drop (4 * i) (eeprom_settings d)).

Definition rows_agree (r1 r2 : list Z) : bool :=
  implb (bool_decide (take 3 r1 = take 3 r2)) (bool_decide (r1 = r2)).

(** opening the PN544 controller gives a device whose settings, read
    through its pointer, are the rows of the table, as many as it announces,
    all of four bytes, and never two different values for one address; another
    name is refused with [-EINVAL]. *)
Theorem nfc_open_spec `{HalEnv} m name (Ha : alloc_ok = true) :
  if String.eqb name NFC_PN544_CONTROLLER then
    ∃ d, nfc_open m name = Some (0, Some d) ∧
      num_eeprom_settings d = Z.of_nat (length pn544_eedata_settings) ∧
      module (nfc_common d) = m ∧ close (nfc_common d) = fn_pn544_close ∧
      Z.of_nat (length (eeprom_settings d)) = 4 * num_eeprom_settings d ∧
      Forall (λ b, 0 <= b < 2 ^ 8) (eeprom_settings d) ∧
      (∀ i, Z.of_nat i < num_eeprom_settings d → pn544_eedata_settings !! i = Some (eeprom_row d i)) ∧
      (∀ i j, Z.of_nat i < num_eeprom_settings d → Z.of_nat j < num_eeprom_settings d →
         take 3 (eeprom_row d i) = take 3 (eeprom_row d j) → eeprom_row d i = eeprom_row d j)
  else nfc_open m name = Some (- EINVAL, None).
Proof.
  unfold nfc_open. destruct (String.eqb name NFC_PN544_CONTROLLER); [|done]. rewrite Ha.
  set (d := NfcDevice _ _ _ _ _ _). exists d.
  assert (num_eeprom_settings d = Z.of_nat (length pn544_eedata_settings)) as Hn by reflexivity.
  assert (∀ i, Z.of_nat i < num_eeprom_settings d →
    pn544_eedata_settings !! i = Some (eeprom_row d i)) as Hrow.
  { intros i Hi. rewrite Hn in Hi. apply Nat2Z.inj_lt in Hi.
    assert (forallb (λ i, bool_decide (pn544_eedata_settings !! i = Some (eeprom_row d i)))
      (seq 0 (length pn544_eedata_settings)) = true) as Hall by (vm_compute; reflexivity).
    rewrite forallb_forall in Hall. eapply bool_decide_eq_true_1, Hall, in_seq. lia. }
  split; [done|]. split; [done|]. split; [done|]. split; [done|]. split; [done|].
  split; [|split; [exact Hrow|]].
  - apply (bool_decide_eq_true_1 (Forall (λ b, 0 <= b < 2 ^ 8) (eeprom_settings d))).
    vm_compute. reflexivity.
  - intros i j Hi%Hrow Hj%Hrow Heq.
    assert (forallb (λ r1, forallb (rows_agree r1) pn544_eedata_settings)
      pn544_eedata_settings = true) as Hall by (vm_compute; reflexivity).
    rewrite forallb_forall in Hall. apply list_elem_of_lookup_2, list_elem_of_In in Hi, Hj.
    specialize (Hall _ Hi). rewrite forallb_forall in Hall. specialize (Hall _ Hj).
    unfold rows_agree in Hall. rewrite (bool_decide_eq_true_2 _ Heq) in Hall.
    by apply bool_decide_eq_true_1 in Hall.
Qed.

Definition demo_hal : HalEnv := {|
  alloc_ok := true; HARDWARE_DEVICE_TAG := 0; EINVAL := 22;
  NFC_PN544_CONTROLLER := "pn544"; PN544_LINK_TYPE_I2C := 2
|}.

Lemma nfc_open_spec_witness :
  ∃ d, nfc_open (H := demo_hal) 5 "pn544" = Some (0, Some d) ∧ num_eeprom_settings d = 33.
Proof.
  destruct (@nfc_open_spec demo_hal 5 "pn544" eq_refl) as (d & E & Hn & _).
  exists d. split; [exact E|]. rewrite Hn. reflexivity.
Defined.
