(* ===== verification/InputReader.v ===== *)
(** * The circular reader of input events: libsensors/InputEventReader.cpp

    A buffer of [2 * numEvents] cells of which the first [numEvents] form a
    ring: a read may run past the end of the ring, and the cells past it are
    copied back to its start.  Pointers into the buffer are indices; an access
    outside the buffer is [None].  What [read] yields is the argument [ans]. *)

From S2P Require Import Prelude.
Local Open Scope Z_scope.

(** [struct input_event] of linux/input.h *)
Record input_event := InputEvent {
  ev_time : Z * Z;   (* seconds, microseconds *)
  ev_type : Z;
  ev_code : Z;
  ev_value : Z       (* __s32 *)
}.

#[export] Instance input_event_eq_dec : EqDecision input_event.
Proof. solve_decision. Defined.

Definition EINVAL : Z := 22.

(** The answer of [read]: an error, or whole events, possibly followed by a
    fragment of one (then the cell it lands in holds [Some] junk). *)
Inductive read_answer :=
| ReadError (errno : Z)
| ReadData (evs : list input_event) (fragment : option input_event).

Record reader := Reader {
  mBuffer : list input_event;
  numEvents : nat;             (* mBufferEnd - mBuffer *)
  mHead : nat;
  mCurr : nat;
  mFreeSpace : nat
}.

(** The memory [new] returns holds anything ([junk]). *)
Definition InputEventCircularReader (n : nat) (junk : list input_event) : reader :=
  Reader junk n 0 0 n.

(** [memcpy] of [l] to the cells from index [i]. *)
Definition store (i : nat) (l : list input_event) (buf : list input_event)
    : option (list input_event) :=
  if decide (i + length l <= length buf)%nat
  then Some (take i buf ++ l ++ drop (i + length l) buf) else None.

Definition fetch (i n : nat) (buf : list input_event) : option (list input_event) :=
  if decide (i + n <= length buf)%nat then Some (take n (drop i buf)) else None.

Definition fill (ans : read_answer) (r : reader) : option (Z * reader) :=
  if (mFreeSpace r =? 0)%nat then Some (0, r)
  else
    match ans with
    | ReadError errno => Some (- errno, r)
    | ReadData evs (Some junk) =>
        buf ← store (mHead r) (evs ++ [junk]) (mBuffer r);
        Some (- EINVAL, Reader buf (numEvents r) (mHead r) (mCurr r) (mFreeSpace r))
    | ReadData evs None =>
        buf ← store (mHead r) evs (mBuffer r);
        let numEventsRead := length evs in
        if (numEventsRead =? 0)%nat then
          Some (0, Reader buf (numEvents r) (mHead r) (mCurr r) (mFreeSpace r))
        else
          let head := (mHead r + numEventsRead)%nat in
          let free := (mFreeSpace r - numEventsRead)%nat in
          if (numEvents r <? head)%nat then
            let s := (head - numEvents r)%nat in
            over ← fetch (numEvents r) s buf;
            buf ← store 0 over buf;
            Some (Z.of_nat numEventsRead, Reader buf (numEvents r) s (mCurr r) free)
          else Some (Z.of_nat numEventsRead, Reader buf (numEvents r) head (mCurr r) free)
    end.

(** The pointer stored through [events], and the result. *)
Definition readEvent (r : reader) : nat * Z :=
  (mCurr r, if (numEvents r - mFreeSpace r =? 0)%nat then 0 else 1).

Definition next (r : reader) : reader :=
  let curr := S (mCurr r) in
  Reader (mBuffer r) (numEvents r) (mHead r)
    (if (numEvents r <=? curr)%nat then 0%nat else curr) (S (mFreeSpace r)).

(** ** Abstraction: the queue of the events not yet consumed *)

Definition wrap (n k : nat) : nat := (if k <? n then k else k - n)%nat.
Definition available (r : reader) : nat := (numEvents r - mFreeSpace r)%nat.
Definition contents (r : reader) : list input_event :=
  omap (λ i, mBuffer r !! wrap (numEvents r) (mCurr r + i)) (seq 0 (available r)).

Definition reader_ok (r : reader) : Prop :=
  (0 < numEvents r)%nat ∧ length (mBuffer r) = (2 * numEvents r)%nat ∧
  (mCurr r < numEvents r)%nat ∧ (mFreeSpace r <= numEvents r)%nat ∧
  (mHead r <= numEvents r)%nat ∧
  wrap (numEvents r) (mHead r) = wrap (numEvents r) (mCurr r + available r).

(** [read] yields at most the bytes it was asked for. *)
Definition answer_ok (room : nat) (ans : read_answer) : Prop :=
  match ans with
  | ReadError errno => 0 < errno
  | ReadData evs None => (length evs <= room)%nat
  | ReadData evs (Some _) => (length evs < room)%nat
  end.

(** ** Lemmas *)

Lemma wrap_spec n k :
  wrap n k = k ∧ (k < n)%nat ∨ wrap n k = (k - n)%nat ∧ (n <= k)%nat.
Proof. unfold wrap. destruct (Nat.ltb_spec k n); lia. Qed.

Lemma store_ok i l buf :
  (i + length l <= length buf)%nat →
  ∃ buf', store i l buf = Some buf' ∧ length buf' = length buf ∧
    ∀ j, buf' !! j = if decide (i <= j < i + length l)%nat then l !! (j - i)%nat else buf !! j.
Proof.
  intros Hi. unfold store. rewrite decide_True by done. eexists. split; [done|]. split.
  - rewrite !length_app, length_take, length_drop. lia.
  - intros j. assert (length (take i buf) = i) as Hl by (rewrite length_take; lia).
    case_decide as Hj.
    + rewrite lookup_app_r, lookup_app_l by lia. by rewrite Hl.
    + destruct (decide (j < i)%nat).
      * rewrite lookup_app_l, lookup_take_lt by lia. done.
      * rewrite !lookup_app_r by lia. rewrite lookup_drop. f_equal. lia.
Qed.

Lemma fetch_ok i n buf :
  (i + n <= length buf)%nat →
  ∃ l, fetch i n buf = Some l ∧ length l = n ∧
    ∀ j, (j < n)%nat → l !! j = buf !! (i + j)%nat.
Proof.
  intros Hi. unfold fetch. rewrite decide_True by done. eexists. split; [done|]. split.
  - rewrite length_take, length_drop. lia.
  - intros j Hj. by rewrite lookup_take_lt, lookup_drop by lia.
Qed.

(** The queue, cell by cell. *)
Lemma contents_lookup r i :
  reader_ok r →
  contents r !! i =
    if decide (i < available r)%nat then mBuffer r !! wrap (numEvents r) (mCurr r + i) else None.
Proof.
  intros (Hn & Hl & Hc & Hf & Hh & Hw). unfold contents.
  assert (∀ k a, (a + k <= available r)%nat →
    omap (λ i, mBuffer r !! wrap (numEvents r) (mCurr r + i)) (seq a k) !! i =
    if decide (i < k)%nat then mBuffer r !! wrap (numEvents r) (mCurr r + (a + i)) else None) as H.
  { clear Hw Hh. revert i. intros i k. revert i.
    induction k as [|k IH]; intros i a Ha; [done|]. cbn [seq omap list_omap].
    destruct (lookup_lt_is_Some_2 (mBuffer r) (wrap (numEvents r) (mCurr r + a))) as [x Ex].
    { unfold available in Ha. destruct (wrap_spec (numEvents r) (mCurr r + a)); lia. }
    rewrite Ex. destruct i as [|i]; cbn [lookup list_lookup].
    - rewrite decide_True by lia. by rewrite Nat.add_0_r.
    - rewrite IH by lia. replace (S a + i)%nat with (a + S i)%nat by lia.
      by repeat case_decide; try lia. }
  by rewrite H by lia.
Qed.

Lemma contents_length r : reader_ok r → length (contents r) = available r.
Proof.
  intros Hr. apply Nat.le_antisymm.
  - apply lookup_ge_None. rewrite contents_lookup by done. by case_decide; [lia|].
  - destruct (decide (available r <= length (contents r))%nat) as [|Hlt]; [done|].
    destruct (lookup_lt_is_Some_2 (mBuffer r) (wrap (numEvents r) (mCurr r + length (contents r))))
      as [x Ex].
    { destruct Hr as (Hn & Hl & Hc & Hf & Hh & Hw).
      unfold available in Hlt. destruct (wrap_spec (numEvents r) (mCurr r + length (contents r))); lia. }
    exfalso. assert (contents r !! length (contents r) = Some x) as H.
    { rewrite contents_lookup by done. by rewrite decide_True by lia. }
    apply lookup_lt_Some in H. lia.
Qed.

Lemma readEvent_spec r :
  reader_ok r →
  match contents r with
  | [] => snd (readEvent r) = 0
  | e :: _ => snd (readEvent r) = 1 ∧ mBuffer r !! fst (readEvent r) = Some e
  end.
Proof.
  intros Hr. pose proof (contents_length r Hr) as Hl. pose proof (contents_lookup r 0 Hr) as H0.
  unfold readEvent, available in *. cbn [fst snd].
  destruct (contents r) as [|e l]; cbn [length lookup list_lookup] in *.
  - by rewrite <- Hl.
  - rewrite <- Hl. split; [done|]. rewrite decide_True in H0 by lia.
    rewrite Nat.add_0_r in H0. rewrite H0. destruct Hr as (_&_&Hc&_).
    by destruct (wrap_spec (numEvents r) (mCurr r)) as [[-> _]|[_ ?]]; [|lia].
Qed.

Lemma next_spec r e l :
  reader_ok r → contents r = e :: l → reader_ok (next r) ∧ contents (next r) = l.
Proof.
  intros Hr Hc. pose proof (contents_length r Hr) as Hl. rewrite Hc in Hl.
  pose proof Hr as (Hn & Hb & Hcu & Hf & Hh & Hw). unfold available in Hl, Hw. cbn [length] in Hl.
  assert (reader_ok (next r)) as Hr'.
  { unfold reader_ok, available, next in *. cbn [numEvents mBuffer mCurr mFreeSpace mHead].
    destruct (Nat.leb_spec (numEvents r) (S (mCurr r))); repeat split; try lia.
    - rewrite Hw. destruct (wrap_spec (numEvents r) (mCurr r + (numEvents r - mFreeSpace r)));
        destruct (wrap_spec (numEvents r) (0 + (numEvents r - S (mFreeSpace r)))); lia.
    - rewrite Hw. f_equal. lia. }
  split; [done|]. apply list_eq. intros i.
  rewrite contents_lookup by done.
  pose proof (contents_lookup r (S i) Hr) as Hi. rewrite Hc in Hi.
  change ((e :: l) !! S i) with (l !! i) in Hi.
  rewrite Hi. unfold available, next in *. cbn [numEvents mBuffer mCurr mFreeSpace].
  repeat case_decide; try lia; [|done]. f_equal.
  destruct (Nat.leb_spec (numEvents r) (S (mCurr r))) as [Hle|Hgt]; [|f_equal; lia].
  destruct (wrap_spec (numEvents r) (mCurr r + S i)); destruct (wrap_spec (numEvents r) (0 + i)); lia.
Qed.

(** Cells outside the queue may change. *)
Lemma contents_ext r buf :
  reader_ok r → length buf = length (mBuffer r) →
  (∀ i, (i < available r)%nat →
     buf !! wrap (numEvents r) (mCurr r + i) = mBuffer r !! wrap (numEvents r) (mCurr r + i)) →
  let r' := Reader buf (numEvents r) (mHead r) (mCurr r) (mFreeSpace r) in
  reader_ok r' ∧ contents r' = contents r.
Proof.
  intros Hr Hl Hb r'.
  assert (reader_ok r') as Hr'.
  { destruct Hr as (?&Hlen&?&?&?&?). unfold reader_ok.
    repeat split; try done. cbn [r' mBuffer numEvents]. by rewrite Hl. }
  split; [done|]. apply list_eq. intros i. rewrite !contents_lookup by done.
  change (available r') with (available r). case_decide; [|done]. by apply Hb.
Qed.

(** The free cells: the ones a read may touch are not in the queue. *)
Lemma free_cells r i j :
  reader_ok r → (i < available r)%nat → (mHead r <= j < mHead r + mFreeSpace r)%nat →
  wrap (numEvents r) (mCurr r + i) ≠ j.
Proof.
  intros (Hn & Hl & Hc & Hf & Hh & Hw) Hi Hj. unfold available in *.
  destruct (wrap_spec (numEvents r) (mCurr r + i));
  destruct (wrap_spec (numEvents r) (mHead r));
  destruct (wrap_spec (numEvents r) (mCurr r + (numEvents r - mFreeSpace r))); lia.
Qed.

(** A read that fails half way stays in the free cells. *)
Lemma store_free r l :
  reader_ok r → (length l <= mFreeSpace r)%nat →
  ∃ buf, store (mHead r) l (mBuffer r) = Some buf ∧
    let r' := Reader buf (numEvents r) (mHead r) (mCurr r) (mFreeSpace r) in
    reader_ok r' ∧ contents r' = contents r.
Proof.
  intros Hr Hlen. pose proof Hr as (Hn & Hl & Hc & Hf & Hh & Hw).
  destruct (store_ok (mHead r) l (mBuffer r)) as (buf & E & Hb & Hlook); [lia|].
  exists buf. split; [done|]. apply contents_ext; [done..|].
  intros i Hi. rewrite Hlook. case_decide as Hj; [|done].
  exfalso. eapply free_cells; [exact Hr|exact Hi| |reflexivity]. lia.
Qed.

(** The queue after the pointers moved over [n] new cells. *)
Lemma append_ok r (evs : list input_event) buf head :
  reader_ok r → (0 < length evs <= mFreeSpace r)%nat →
  length buf = length (mBuffer r) →
  head = wrap (numEvents r) (mHead r + length evs) ∨
    (head = numEvents r ∧ (mHead r + length evs = numEvents r)%nat) →
  (∀ i, (i < available r)%nat →
     buf !! wrap (numEvents r) (mCurr r + i) = mBuffer r !! wrap (numEvents r) (mCurr r + i)) →
  (∀ k, (k < length evs)%nat → buf !! wrap (numEvents r) (mHead r + k) = evs !! k) →
  let r' := Reader buf (numEvents r) head (mCurr r) (mFreeSpace r - length evs) in
  reader_ok r' ∧ contents r' = contents r ++ evs.
Proof.
  intros Hr Hlen Hlb Hhead Hold Hnew r'. pose proof (contents_length r Hr) as Hcl.
  pose proof Hr as (Hn & Hl & Hc & Hf & Hh & Hw). unfold available in Hw.
  assert (reader_ok r') as Hr'.
  { unfold reader_ok, available. cbn [r' numEvents mBuffer mCurr mFreeSpace mHead].
    repeat split; try lia;
    destruct (wrap_spec (numEvents r) (mHead r));
    destruct (wrap_spec (numEvents r) (mHead r + length evs));
    destruct (wrap_spec (numEvents r) head);
    destruct (wrap_spec (numEvents r) (mCurr r + (numEvents r - mFreeSpace r)));
    destruct (wrap_spec (numEvents r) (mCurr r + (numEvents r - (mFreeSpace r - length evs)))); lia. }
  split; [done|]. apply list_eq. intros i. rewrite contents_lookup by done.
  assert (available r' = available r + length evs)%nat as Ha
    by (unfold available; cbn [r' numEvents mFreeSpace]; lia).
  rewrite Ha. cbn [r' mBuffer numEvents mCurr].
  destruct (decide (i < available r)%nat) as [Hi|Hi].
  - rewrite decide_True by lia. rewrite lookup_app_l by lia.
    rewrite contents_lookup by done. rewrite decide_True by done. by apply Hold.
  - rewrite lookup_app_r by lia. rewrite Hcl. case_decide as Hi'.
    + rewrite <- Hnew by lia. f_equal. unfold available in *.
      destruct (wrap_spec (numEvents r) (mHead r));
      destruct (wrap_spec (numEvents r) (mCurr r + (numEvents r - mFreeSpace r)));
      destruct (wrap_spec (numEvents r) (mCurr r + i));
      destruct (wrap_spec (numEvents r) (mHead r + (i - (numEvents r - mFreeSpace r)))); lia.
    + symmetry. apply lookup_ge_None. lia.
Qed.

Lemma fill_data r evs :
  reader_ok r → (0 < length evs <= mFreeSpace r)%nat →
  ∃ r', fill (ReadData evs None) r = Some (Z.of_nat (length evs), r') ∧
    reader_ok r' ∧ numEvents r' = numEvents r ∧ contents r' = contents r ++ evs.
Proof.
  intros Hr Hlen. pose proof Hr as (Hn & Hl & Hc & Hf & Hh & Hw). unfold fill.
  destruct (Nat.eqb_spec (mFreeSpace r) 0); [lia|].
  destruct (store_ok (mHead r) evs (mBuffer r)) as (buf & E & Hlb & Hlook); [lia|].
  rewrite E. cbn [mbind option_bind]. destruct (Nat.eqb_spec (length evs) 0); [lia|].
  destruct (Nat.ltb_spec (numEvents r) (mHead r + length evs)) as [Hlt|Hge].
  - destruct (fetch_ok (numEvents r) (mHead r + length evs - numEvents r) buf)
      as (over & E2 & Hol & Hov); [lia|]. rewrite E2. cbn [mbind option_bind].
    destruct (store_ok 0 over buf) as (buf2 & E3 & Hlb2 & Hlook2); [lia|]. rewrite E3.
    cbn [mbind option_bind]. eexists. split; [reflexivity|].
    destruct (append_ok r evs buf2 (mHead r + length evs - numEvents r)) as [Hok Hcon]; try done.
    + congruence.
    + left. destruct (wrap_spec (numEvents r) (mHead r + length evs)); lia.
    + intros i Hi. rewrite Hlook2, Hlook. unfold available in *.
      destruct (wrap_spec (numEvents r) (mCurr r + i));
      destruct (wrap_spec (numEvents r) (mHead r));
      destruct (wrap_spec (numEvents r) (mCurr r + (numEvents r - mFreeSpace r)));
      by repeat case_decide; try lia.
    + intros k Hk. rewrite Hlook2.
      destruct (wrap_spec (numEvents r) (mHead r + k)) as [[Hwk ?]|[Hwk ?]]; rewrite Hwk.
      * rewrite decide_False by lia. rewrite Hlook, decide_True by lia. f_equal. lia.
      * rewrite decide_True by lia. rewrite Hov by lia. rewrite Hlook, decide_True by lia. f_equal. lia.
  - eexists. split; [reflexivity|].
    destruct (append_ok r evs buf (mHead r + length evs)) as [Hok Hcon]; try done.
    + destruct (wrap_spec (numEvents r) (mHead r + length evs)); lia.
    + intros i Hi. rewrite Hlook. case_decide as Hj; [|done].
      exfalso. eapply free_cells; [exact Hr|exact Hi| |reflexivity]. lia.
    + intros k Hk. destruct (wrap_spec (numEvents r) (mHead r + k)) as [[Hwk ?]|[Hwk ?]]; [|lia].
      rewrite Hwk, Hlook, decide_True by lia. f_equal. lia.
Qed.

(** What a fill answers and leaves in the queue. *)
Definition fill_result (ans : read_answer) (room : nat) (q : list input_event)
    : Z * list input_event :=
  if (room =? 0)%nat then (0, q)
  else match ans with
       | ReadError errno => (- errno, q)
       | ReadData evs None => (Z.of_nat (length evs), q ++ evs)
       | ReadData evs (Some _) => (- EINVAL, q)
       end.

Lemma fill_spec r ans :
  reader_ok r → answer_ok (mFreeSpace r) ans →
  ∃ n r', fill ans r = Some (n, r') ∧ reader_ok r' ∧ numEvents r' = numEvents r ∧
    fill_result ans (mFreeSpace r) (contents r) = (n, contents r').
Proof.
  intros Hr Ha. unfold fill_result. destruct (Nat.eqb_spec (mFreeSpace r) 0) as [Hz|Hz].
  { exists 0, r. unfold fill. by rewrite Hz. }
  destruct ans as [errno|evs [junk|]]; cbn [answer_ok] in Ha.
  - exists (- errno), r. unfold fill. destruct (Nat.eqb_spec (mFreeSpace r) 0); [done|]. done.
  - destruct (store_free r (evs ++ [junk]) Hr) as (buf & E & Hok & Hc).
    { rewrite length_app. cbn. lia. }
    eexists _, _. split; [|split; [exact Hok|split; [done|by rewrite Hc]]].
    unfold fill. destruct (Nat.eqb_spec (mFreeSpace r) 0); [done|]. by rewrite E.
  - destruct (decide (length evs = 0)%nat) as [H0|H0].
    + apply nil_length_inv in H0 as ->. destruct (store_free r [] Hr) as (buf & E & Hok & Hc).
      { cbn. lia. }
      eexists _, _. split; [|split; [exact Hok|split; [done|by rewrite Hc, app_nil_r]]].
      unfold fill. destruct (Nat.eqb_spec (mFreeSpace r) 0); [done|]. by rewrite E.
    + destruct (fill_data r evs Hr) as (r' & E & Hok & Hn & Hc); [lia|].
      eexists _, r'. split; [exact E|]. rewrite Hc. done.
Qed.

Lemma reader_start_ok n junk :
  (0 < n)%nat → length junk = (2 * n)%nat →
  reader_ok (InputEventCircularReader n junk) ∧ contents (InputEventCircularReader n junk) = [].
Proof.
  intros Hn Hj. assert (reader_ok (InputEventCircularReader n junk)) as Hr.
  { unfold reader_ok, InputEventCircularReader, available. cbn. repeat split; try lia.
    by rewrite Nat.sub_diag. }
  split; [done|]. apply nil_length_inv. rewrite contents_length by done.
  unfold available, InputEventCircularReader. cbn. lia.
Qed.

Lemma room_contents r : reader_ok r → mFreeSpace r = (numEvents r - length (contents r))%nat.
Proof.
  intros Hr. rewrite contents_length by done. destruct Hr as (?&?&?&?&?). unfold available. lia.
Qed.

(** ** Sessions *)

(** How the sensors use the reader: fill it, and take the next event if there
    is one. *)
Inductive reader_op := OpFill (ans : read_answer) | OpTake.
Inductive reader_obs := ObsFill (n : Z) | ObsEvent (e : option input_event).

Definition take_event (r : reader) : option (option input_event * reader) :=
  let '(p, n) := readEvent r in
  if n =? 0 then Some (None, r)
  else e ← mBuffer r !! p; Some (Some e, next r).

Fixpoint run_reader (ops : list reader_op) (r : reader) : option (list reader_obs * reader) :=
  match ops with
  | [] => Some ([], r)
  | OpFill ans :: ops =>
      '(n, r1) ← fill ans r;
      '(obs, r2) ← run_reader ops r1;
      Some (ObsFill n :: obs, r2)
  | OpTake :: ops =>
      '(e, r1) ← take_event r;
      '(obs, r2) ← run_reader ops r1;
      Some (ObsEvent e :: obs, r2)
  end.

(** The specification: a queue of at most [n] events. *)
Fixpoint run_queue (n : nat) (ops : list reader_op) (q : list input_event)
    : list reader_obs * list input_event :=
  match ops with
  | [] => ([], q)
  | OpFill ans :: ops =>
      let '(a, q1) := fill_result ans (n - length q) q in
      let '(obs, q2) := run_queue n ops q1 in (ObsFill a :: obs, q2)
  | OpTake :: ops =>
      let '(obs, q2) := run_queue n ops (tail q) in (ObsEvent (head q) :: obs, q2)
  end.
Fixpoint answers_ok (n : nat) (ops : list reader_op) (q : list input_event) : Prop :=
  match ops with
  | [] => True
  | OpFill ans :: ops =>
      answer_ok (n - length q) ans ∧ answers_ok n ops (fill_result ans (n - length q) q).2
  | OpTake :: ops => answers_ok n ops (tail q)
  end.

Lemma take_event_spec r :
  reader_ok r →
  ∃ r', take_event r = Some (head (contents r), r') ∧ reader_ok r' ∧
    numEvents r' = numEvents r ∧ contents r' = tail (contents r).
Proof.
  intros Hr. pose proof (readEvent_spec r Hr) as He. unfold take_event.
  destruct (readEvent r) as [p n]. cbn [fst snd] in He.
  destruct (contents r) as [|e l] eqn:Hc.
  - subst n. exists r. by rewrite Hc.
  - destruct He as [-> Hp]. cbn [Z.eqb]. rewrite Hp.
    destruct (next_spec r e l Hr Hc) as [Hr' Hc']. by exists (next r).
Qed.

Lemma run_reader_queue ops r :
  reader_ok r → answers_ok (numEvents r) ops (contents r) →
  ∃ r', run_reader ops r = Some ((run_queue (numEvents r) ops (contents r)).1, r') ∧
    reader_ok r' ∧ contents r' = (run_queue (numEvents r) ops (contents r)).2.
Proof.
  revert r. induction ops as [|[ans|] ops IH]; intros r Hr Ha; cbn [run_reader run_queue answers_ok] in *.
  - by exists r.
  - destruct Ha as [Ha Hrest]. rewrite <- (room_contents r Hr) in *.
    destruct (fill_spec r ans Hr Ha) as (n & r1 & E & Hr1 & Hn1 & Hf).
    rewrite Hf in Hrest |- *. cbn [snd] in Hrest. rewrite <- Hn1 in Hrest |- *.
    destruct (IH r1 Hr1 Hrest) as (r2 & E2 & Hr2 & Hc2). rewrite E. cbn [mbind option_bind].
    rewrite E2. cbn [mbind option_bind].
    destruct (run_queue (numEvents r1) ops (contents r1)) as [obs q2]. by exists r2.
  - destruct (take_event_spec r Hr) as (r1 & E & Hr1 & Hn1 & Hc1).
    rewrite <- Hc1, <- Hn1 in *. destruct (IH r1 Hr1 Ha) as (r2 & E2 & Hr2 & Hc2).
    rewrite E. cbn [mbind option_bind]. rewrite E2. cbn [mbind option_bind].
    destruct (run_queue (numEvents r1) ops (contents r1)) as [obs q2]. by exists r2.
Qed.

(** C22: however fills and reads interleave, and whatever the reads of the
    device yield within what they ask for (errors, nothing, whole events, a
    torn event), the circular reader answers exactly as a first-in first-out
    queue of at most [numEvents] events, never accesses a cell outside its
    buffer, and holds that queue. *)
Theorem reader_refines_queue n junk ops (Hn : (0 < n)%nat) (Hj : length junk = (2 * n)%nat)
    (Ha : answers_ok n ops []) :
  ∃ r', run_reader ops (InputEventCircularReader n junk) = Some ((run_queue n ops []).1, r') ∧
    contents r' = (run_queue n ops []).2 ∧ (length (contents r') <= n)%nat.
Proof.
  destruct (reader_start_ok n junk Hn Hj) as [Hr Hc].
  destruct (run_reader_queue ops (InputEventCircularReader n junk) Hr) as (r' & E & Hr' & Hc').
  { by rewrite Hc. }
  rewrite Hc in E, Hc'. exists r'. split; [exact E|]. split; [exact Hc'|].
  rewrite Hc'. clear - Ha Hn. cbn [InputEventCircularReader numEvents].
  assert (∀ q, (length q <= n)%nat → answers_ok n ops q →
    (length (run_queue n ops q).2 <= n)%nat) as H; [|apply H; [cbn; lia|done]].
  clear Ha. induction ops as [|[ans|] ops IH]; intros q Hq Ha; cbn [run_queue answers_ok] in *.
  - done.
  - destruct Ha as [Ha Hrest]. destruct (fill_result ans (n - length q) q) as [a q1] eqn:Hf.
    cbn [snd] in Hrest. specialize (IH q1). destruct (run_queue n ops q1) as [obs q2].
    apply IH; [|done]. unfold fill_result in Hf. destruct (n - length q =? 0)%nat; [congruence|].
    destruct ans as [e|evs [j|]]; cbn [answer_ok] in Ha; injection Hf as <- <-; [done|done|].
    rewrite length_app. lia.
  - specialize (IH (tail q)). destruct (run_queue n ops (tail q)) as [obs q2].
    apply IH; [destruct q; cbn in *; lia|done].
Qed.

Definition demo_event (v : Z) : input_event := InputEvent (0, 0) 3 0 v.
Definition demo_ops : list reader_op :=
  [OpFill (ReadData (demo_event <$> [1; 2; 3]) None); OpTake; OpTake;
   OpFill (ReadData (demo_event <$> [4; 5; 6]) None); OpFill (ReadError 11);
   OpTake; OpTake; OpTake; OpTake; OpTake].

Lemma reader_refines_queue_witness :
  ∃ r', run_reader demo_ops (InputEventCircularReader 4 (replicate 8 (demo_event 0))) =
    Some ([ObsFill 3; ObsEvent (Some (demo_event 1)); ObsEvent (Some (demo_event 2)); ObsFill 3;
           ObsFill 0; ObsEvent (Some (demo_event 3)); ObsEvent (Some (demo_event 4));
           ObsEvent (Some (demo_event 5)); ObsEvent (Some (demo_event 6)); ObsEvent None], r').
Proof.
  destruct (reader_refines_queue 4 (replicate 8 (demo_event 0)) demo_ops) as (r' & E & _).
  - lia.
  - reflexivity.
  - cbn. repeat split; lia.
  - exists r'. exact E.
Defined.
