(* ===== verification/Sensors.v ===== *)
(** * The light, proximity and gyroscope drivers: libsensors/*Sensor.cpp

    Three classes with the same members over the circular reader; [driver]
    names the class, so that a function on it is a virtual call.  Floats are
    the binary32 numbers of [SpecFloat].  The sysfs nodes, the ioctl and the
    clock are the parameter [SensorIo]; what [read] yields is an argument. *)

From stdpp Require Import pretty.
From Stdlib Require Import String Ascii SpecFloat.
From S2P Require Import Prelude InputReader.
Local Open Scope Z_scope.

(** ** Floats *)

Definition float : Type := spec_float.
Definition float_of_int (z : Z) : float := binary_normalize 24 128 z 0 false.
Definition fmul : float → float → float := SFmul 24 128.
Definition fdiv : float → float → float := SFdiv 24 128.
Definition f_zero : float := S754_zero false.
(** [(float)M_PI]: the binary32 number nearest to pi. *)
Definition float_M_PI : float := binary_normalize 24 128 13176795 (-22) false.

(** ** Constants (linux/input.h, sensors.h) *)

Definition EV_SYN : Z := 0x00.
Definition EV_REL : Z := 0x02.
Definition EV_ABS : Z := 0x03.
Definition ID_L : Z := 3.
Definition ID_P : Z := 4.
Definition ID_GY : Z := 5.
Definition EVENT_TYPE_LIGHT : Z := 0x28.      (* ABS_MISC *)
Definition EVENT_TYPE_PROXIMITY : Z := 0x19.  (* ABS_DISTANCE *)
Definition EVENT_TYPE_GYRO_X : Z := 0x04.     (* REL_RY *)
Definition EVENT_TYPE_GYRO_Y : Z := 0x03.     (* REL_RX *)
Definition EVENT_TYPE_GYRO_Z : Z := 0x05.     (* REL_RZ *)
Definition PROXIMITY_THRESHOLD_GP2A : float := float_of_int 5.
Definition CONVERT_GYRO : float :=
  fmul (fdiv (float_of_int 70) (float_of_int 4000)) (fdiv float_M_PI (float_of_int 180)).
Definition CONVERT_GYRO_X : float := SFopp CONVERT_GYRO.
Definition CONVERT_GYRO_Y : float := CONVERT_GYRO.
Definition CONVERT_GYRO_Z : float := CONVERT_GYRO.
Definition IGNORE_EVENT_TIME : Z := 350000000.

(** ** State *)

Class SensorIo := {
  node_opens : string → bool;
  node_accepts : string → bool;  (* what [write] to the open node answers *)
  ioctl_abs : Z → option Z;    (* EVIOCGABS of a code: [None] is an error *)
  now : Z                      (* the boot time, in nanoseconds *)
}.

(** [sensors_event_t]: [light] and [distance] are [data[0]]. *)
Record sensors_event := SensorsEvent {
  se_sensor : Z;
  se_timestamp : Z;
  se_data : list float
}.

(** A write to a node, and whether the kernel took it. *)
Record node_write := NodeWrite {
  nw_path : string;
  nw_data : string;
  nw_done : bool
}.

(** [node_writes]: the writes the object has made, in order. *)
Record sensor := Sensor {
  input_sysfs_path : string;   (* up to [input_sysfs_path_len] *)
  mEnabled : Z;
  mInputReader : reader;
  mPendingEvent : sensors_event;
  mHasPendingEvent : bool;
  mEnabledTime : Z;            (* the gyroscope's *)
  node_writes : list node_write
}.

Inductive driver := light | proximity | gyro.
#[export] Instance driver_eq_dec : EqDecision driver.
Proof. solve_decision. Defined.

Definition with_reader (r : reader) (s : sensor) : sensor :=
  Sensor (input_sysfs_path s) (mEnabled s) r (mPendingEvent s) (mHasPendingEvent s)
    (mEnabledTime s) (node_writes s).
Definition with_pending (ev : sensors_event) (s : sensor) : sensor :=
  Sensor (input_sysfs_path s) (mEnabled s) (mInputReader s) ev (mHasPendingEvent s)
    (mEnabledTime s) (node_writes s).
Definition with_has_pending (b : bool) (s : sensor) : sensor :=
  Sensor (input_sysfs_path s) (mEnabled s) (mInputReader s) (mPendingEvent s) b
    (mEnabledTime s) (node_writes s).
Definition with_enabled (flags : Z) (s : sensor) : sensor :=
  Sensor (input_sysfs_path s) flags (mInputReader s) (mPendingEvent s) (mHasPendingEvent s)
    (mEnabledTime s) (node_writes s).
Definition with_enabled_time (t : Z) (s : sensor) : sensor :=
  Sensor (input_sysfs_path s) (mEnabled s) (mInputReader s) (mPendingEvent s) (mHasPendingEvent s)
    t (node_writes s).
(** The result of [write] is ignored. *)
Definition with_write `{SensorIo} (path data : string) (s : sensor) : sensor :=
  Sensor (input_sysfs_path s) (mEnabled s) (mInputReader s) (mPendingEvent s) (mHasPendingEvent s)
    (mEnabledTime s) (node_writes s ++ [NodeWrite path data (node_accepts path)]).

Definition set_data (i : nat) (v : float) (ev : sensors_event) : sensors_event :=
  SensorsEvent (se_sensor ev) (se_timestamp ev) (<[i := v]> (se_data ev)).
Definition set_timestamp (t : Z) (ev : sensors_event) : sensors_event :=
  SensorsEvent (se_sensor ev) t (se_data ev).

(** [timevalToNano]; [t.tv_usec*1000] is a 32-bit product. *)
Definition timevalToNano (t : Z * Z) : Z := int64 (t.1 * 1000000000 + int32 (t.2 * 1000)).

Definition nul : string := String Ascii.zero EmptyString.

(** ** LightSensor.cpp *)

Module LightSensor.
(** [size_t] is 32 bits wide. *)
Definition adcToLux : list (Z * Z) :=
  [(360, 7); (798, 70); (1240, 1000); (1673, 10000); (3000, 16000)].
Definition indexToValue (index : Z) : float :=
  let index := uint32 index in
  match list_find (λ p, index < p.1) adcToLux with
  | Some (_, p) => float_of_int p.2
  | None => float_of_int 16000
  end.

Section io.
Context `{SensorIo}.

(** Nothing calls it. *)
Definition setInitialState (s : sensor) : sensor :=
  match ioctl_abs EVENT_TYPE_LIGHT with
  | Some v => with_pending (set_data 0 (float_of_int v) (mPendingEvent s)) (with_has_pending true s)
  | None => s
  end.

Definition setDelay (ns : Z) (s : sensor) : Z * sensor :=
  let path := (input_sysfs_path s +:+ "poll_delay")%string in
  if node_opens path then (0, with_write path (pretty ns +:+ nul) s) else (-1, s).

Definition enable (en : Z) (s : sensor) : Z * sensor :=
  let flags := b2i (truth en) in
  if negb (flags =? mEnabled s) then
    let path := (input_sysfs_path s +:+ "enable")%string in
    if node_opens path then
      (0, with_enabled flags (with_write path ((if truth flags then "1" else "0") +:+ nul) s))
    else (-1, s)
  else (0, s).
End io.

(** One iteration of the loop of [readEvents]: the new state, whether [count]
    is decremented, and the event stored through [data]. *)
Definition on_event (e : input_event) (s : sensor) : sensor * bool * option sensors_event :=
  if ev_type e =? EV_ABS then
    if (ev_code e =? EVENT_TYPE_LIGHT) && negb (ev_value e =? -1) then
      (with_pending (set_data 0 (indexToValue (ev_value e)) (mPendingEvent s)) s, false, None)
    else (s, false, None)
  else if ev_type e =? EV_SYN then
    let s := with_pending (set_timestamp (timevalToNano (ev_time e)) (mPendingEvent s)) s in
    if truth (mEnabled s) then (s, true, Some (mPendingEvent s)) else (s, false, None)
  else (s, false, None).
End LightSensor.

(** ** ProximitySensor.cpp *)

Module ProximitySensor.
Definition indexToValue (index : Z) : float :=
  fmul (float_of_int (uint32 index)) PROXIMITY_THRESHOLD_GP2A.

Section io.
Context `{SensorIo}.

Definition setInitialState (s : sensor) : sensor :=
  match ioctl_abs EVENT_TYPE_PROXIMITY with
  | Some v => with_pending (set_data 0 (indexToValue v) (mPendingEvent s)) (with_has_pending true s)
  | None => s
  end.

Definition enable (en : Z) (s : sensor) : Z * sensor :=
  let flags := b2i (truth en) in
  if negb (flags =? mEnabled s) then
    let path := (input_sysfs_path s +:+ "enable")%string in
    if node_opens path then
      (0, setInitialState
            (with_enabled flags (with_write path ((if truth flags then "1" else "0") +:+ nul) s)))
    else (-1, s)
  else (0, s).
End io.

Definition on_event (e : input_event) (s : sensor) : sensor * bool * option sensors_event :=
  if ev_type e =? EV_ABS then
    if ev_code e =? EVENT_TYPE_PROXIMITY then
      (with_pending (set_data 0 (indexToValue (ev_value e)) (mPendingEvent s)) s, false, None)
    else (s, false, None)
  else if ev_type e =? EV_SYN then
    let s := with_pending (set_timestamp (timevalToNano (ev_time e)) (mPendingEvent s)) s in
    if truth (mEnabled s) then (s, true, Some (mPendingEvent s)) else (s, false, None)
  else (s, false, None).
End ProximitySensor.

(** ** GyroSensor.cpp *)

Module GyroSensor.
Section io.
Context `{SensorIo}.

(** The same axis is read three times. *)
Definition setInitialState (s : sensor) : sensor :=
  match ioctl_abs EVENT_TYPE_GYRO_X, ioctl_abs EVENT_TYPE_GYRO_X, ioctl_abs EVENT_TYPE_GYRO_X with
  | Some x, Some _, Some _ =>
      let value := float_of_int x in
      let ev := set_data 0 (fmul value CONVERT_GYRO_X) (mPendingEvent s) in
      let ev := set_data 1 (fmul value CONVERT_GYRO_Y) ev in
      let ev := set_data 2 (fmul value CONVERT_GYRO_Z) ev in
      with_has_pending true (with_pending ev s)
  | _, _, _ => s
  end.

Definition enable (en : Z) (s : sensor) : Z * sensor :=
  let flags := b2i (truth en) in
  if negb (flags =? mEnabled s) then
    let path := (input_sysfs_path s +:+ "enable")%string in
    if node_opens path then
      let s := if truth flags then with_enabled_time (int64 (now + IGNORE_EVENT_TIME)) s else s in
      (0, setInitialState
            (with_enabled flags (with_write path ((if truth flags then "1" else "0") +:+ nul) s)))
    else (-1, s)
  else (0, s).

Definition setDelay (delay_ns : Z) (s : sensor) : Z * sensor :=
  let path := (input_sysfs_path s +:+ "poll_delay")%string in
  if node_opens path then (0, with_write path (pretty (Z.quot delay_ns 1000000) +:+ nul) s)
  else (-1, s).
End io.

Definition on_event (e : input_event) (s : sensor) : sensor * bool * option sensors_event :=
  if ev_type e =? EV_REL then
    let value := float_of_int (ev_value e) in
    if ev_code e =? EVENT_TYPE_GYRO_X then
      (with_pending (set_data 0 (fmul value CONVERT_GYRO_X) (mPendingEvent s)) s, false, None)
    else if ev_code e =? EVENT_TYPE_GYRO_Y then
      (with_pending (set_data 1 (fmul value CONVERT_GYRO_Y) (mPendingEvent s)) s, false, None)
    else if ev_code e =? EVENT_TYPE_GYRO_Z then
      (with_pending (set_data 2 (fmul value CONVERT_GYRO_Z) (mPendingEvent s)) s, false, None)
    else (s, false, None)
  else if ev_type e =? EV_SYN then
    let s := with_pending (set_timestamp (timevalToNano (ev_time e)) (mPendingEvent s)) s in
    if truth (mEnabled s) then
      (s, true, if mEnabledTime s <=? se_timestamp (mPendingEvent s)
                then Some (mPendingEvent s) else None)
    else (s, false, None)
  else (s, false, None).
End GyroSensor.

(** ** The virtual functions *)

(** [SensorBase::setDelay] is inherited by the proximity sensor. *)
Definition setDelay `{SensorIo} (d : driver) (ns : Z) (s : sensor) : Z * sensor :=
  match d with
  | light => LightSensor.setDelay ns s
  | proximity => (0, s)
  | gyro => GyroSensor.setDelay ns s
  end.
Definition enable `{SensorIo} (d : driver) : Z → sensor → Z * sensor :=
  match d with
  | light => LightSensor.enable
  | proximity => ProximitySensor.enable
  | gyro => GyroSensor.enable
  end.
Definition hasPendingEvents (s : sensor) : bool := mHasPendingEvent s.
Definition on_event (d : driver) : input_event → sensor → sensor * bool * option sensors_event :=
  match d with
  | light => LightSensor.on_event
  | proximity => ProximitySensor.on_event
  | gyro => GyroSensor.on_event
  end.

(** The constructors; [input_name] is what the member holds (whatever was
    there when no input device was found, since [data_fd] is then -1). *)
Definition new_sensor `{SensorIo} (d : driver) (data_fd : Z) (input_name : string)
    (junk : list input_event) : sensor :=
  let s := Sensor "" 0 (InputEventCircularReader 4 junk)
    (SensorsEvent (match d with light => ID_L | proximity => ID_P | gyro => ID_GY end) 0
      (replicate 16 f_zero)) false 0 [] in
  if truth data_fd then
    let s := Sensor ("/sys/class/input/" +:+ input_name +:+ "/device/")%string (mEnabled s)
      (mInputReader s) (mPendingEvent s) (mHasPendingEvent s) (mEnabledTime s) (node_writes s) in
    (enable d 1 s).2
  else s.

Definition delete_sensor `{SensorIo} (d : driver) (s : sensor) : sensor :=
  if truth (mEnabled s) then (enable d 0 s).2 else s.

(** ** readEvents *)

(** [while (count && mInputReader.readEvent(&event))]: what is left of
    [count], the events stored from [data] on, and the state.  An iteration
    consumes an event of the reader, so [fuel] is the number it holds. *)
Fixpoint event_loop (d : driver) (fuel : nat) (count : nat) (s : sensor)
    : option (nat * list sensors_event * sensor) :=
  if (count =? 0)%nat then Some (count, [], s)
  else
    let '(event, n) := readEvent (mInputReader s) in
    if n =? 0 then Some (count, [], s)
    else
      match fuel with
      | O => None
      | S fuel =>
          e ← mBuffer (mInputReader s) !! event;
          let '(s, dec, out) := on_event d e s in
          let s := with_reader (next (mInputReader s)) s in
          '(count, data, s) ← event_loop d fuel (if dec : bool then pred count else count) s;
          Some (count, option_list out ++ data, s)
      end.

(** [again:] of the gyroscope: as long as nothing was received, fill and run
    the loop again; [None] when [read] has nothing more to yield (the call
    blocks). *)
Fixpoint gyro_again (answers : list read_answer) (count : nat) (s : sensor)
    : option (list sensors_event * sensor) :=
  '(count, data, s) ← event_loop gyro (available (mInputReader s)) count s;
  if (length data =? 0)%nat && (mEnabled s =? 1) then
    if (mFreeSpace (mInputReader s) =? 0)%nat then Some (data, s)
    else
      match answers with
      | [] => None
      | ans :: answers =>
          '(n, r) ← fill ans (mInputReader s);
          let s := with_reader r s in
          if truth n then gyro_again answers count s else Some (data, s)
      end
  else Some (data, s).

(** A fill takes an answer of [read] if there is room for one event. *)
Definition fill_next (answers : list read_answer) (r : reader)
    : option (Z * reader * list read_answer) :=
  if (mFreeSpace r =? 0)%nat then Some (0, r, answers)
  else
    match answers with
    | [] => None
    | ans :: answers => '(n, r) ← fill ans r; Some (n, r, answers)
    end.

(** The result, the events stored through [data] and the state. *)
Definition readEvents `{SensorIo} (d : driver) (answers : list read_answer) (count : Z) (s : sensor)
    : option (Z * list sensors_event * sensor) :=
  if count <? 1 then Some (- EINVAL, [], s)
  else if mHasPendingEvent s then
    let s := with_pending (set_timestamp now (mPendingEvent s)) (with_has_pending false s) in
    Some (if truth (mEnabled s) then 1 else 0, [mPendingEvent s], s)
  else
    '(n, r, answers) ← fill_next answers (mInputReader s);
    let s := with_reader r s in
    if n <? 0 then Some (n, [], s)
    else
      match d with
      | light | proximity =>
          '(_, data, s) ← event_loop d (available (mInputReader s)) (Z.to_nat count) s;
          Some (Z.of_nat (length data), data, s)
      | gyro =>
          '(data, s) ← gyro_again answers (Z.to_nat count) s;
          Some (Z.of_nat (length data), data, s)
      end.

(** ** Specification: the reports of a stream of input events *)

(** What a driver in state [s] reports when it consumes all of [q]. *)
Fixpoint reports (d : driver) (q : list input_event) (s : sensor) : list sensors_event :=
  match q with
  | [] => []
  | e :: q => let '(s, _, out) := on_event d e s in option_list out ++ reports d q s
  end.

(** The gyroscope drops the reports of its start-up delay. *)
Definition recent (d : driver) (s : sensor) (e : input_event) : Prop :=
  d = gyro → ev_type e = EV_SYN → mEnabledTime s <= timevalToNano (ev_time e).

(** ** Lemmas *)

(** The members an iteration leaves alone. *)
Definition frame (s s' : sensor) : Prop :=
  mInputReader s' = mInputReader s ∧ mEnabled s' = mEnabled s ∧
  mHasPendingEvent s' = mHasPendingEvent s ∧ mEnabledTime s' = mEnabledTime s ∧
  input_sysfs_path s' = input_sysfs_path s ∧ node_writes s' = node_writes s.

Ltac on_event_cases :=
  unfold on_event, LightSensor.on_event, ProximitySensor.on_event, GyroSensor.on_event;
  cbv zeta; repeat (break_if; cbn [fst snd]).

Lemma on_event_frame d e s : frame s (on_event d e s).1.1.
Proof. destruct d; on_event_cases; done. Qed.

Lemma on_event_reader d e r s :
  on_event d e (with_reader r s) =
  (with_reader r (on_event d e s).1.1, (on_event d e s).1.2, (on_event d e s).2).
Proof.
  destruct d; unfold on_event, LightSensor.on_event, ProximitySensor.on_event, GyroSensor.on_event;
    cbv zeta; cbn [with_reader with_pending mEnabled mEnabledTime mPendingEvent];
    repeat (break_if; cbn [fst snd]); done.
Qed.

Lemma reports_reader d q r s : reports d q (with_reader r s) = reports d q s.
Proof.
  revert s. induction q as [|e q IH]; intros s; [done|]. cbn [reports].
  rewrite on_event_reader. destruct (on_event d e s) as [[s' dec] out]. cbn [fst snd].
  by rewrite IH.
Qed.

(** A decrement of [count] goes with a stored event, and conversely. *)
Lemma on_event_dec d e s :
  recent d s e → (on_event d e s).1.2 = bool_decide (is_Some (on_event d e s).2).
Proof.
  intros Hr. destruct d; on_event_cases; try done.
  exfalso. apply Z.leb_gt in E2. apply Z.eqb_eq in E0. specialize (Hr eq_refl E0). cbn in E2. lia.
Qed.
Lemma on_event_stored d e s : is_Some (on_event d e s).2 → (on_event d e s).1.2 = true.
Proof. destruct d; on_event_cases; intros [x [=]]; done. Qed.

(** An enabled driver reports at every recent synchronisation event. *)
Lemma on_event_syn d e s :
  recent d s e → ev_type e = EV_SYN → truth (mEnabled s) = true → is_Some (on_event d e s).2.
Proof.
  intros Hr Hs He. destruct d; on_event_cases; try (by eexists);
    try (cbn [mEnabled with_pending] in *; congruence); exfalso.
  all: try (apply Z.eqb_eq in E; rewrite Hs in E; discriminate).
  all: try (rewrite Hs in *; discriminate).
  apply Z.leb_gt in E2. specialize (Hr eq_refl Hs). cbn in E2. lia.
Qed.

Definition queue (s : sensor) : list input_event := contents (mInputReader s).

(** The loop moves a prefix of the reports out and keeps the others. *)
Definition loop_post (d : driver) (count : nat) (s : sensor)
    (count' : nat) (data : list sensors_event) (s' : sensor) : Prop :=
  reader_ok (mInputReader s') ∧ numEvents (mInputReader s') = numEvents (mInputReader s) ∧
  reports d (queue s) s = data ++ reports d (queue s') s' ∧
  (length data + count' <= count)%nat ∧
  (Forall (recent d s) (queue s) → (length data + count' = count)%nat) ∧
  ((0 < count')%nat → queue s' = []) ∧
  mEnabled s' = mEnabled s ∧ mEnabledTime s' = mEnabledTime s ∧
  mHasPendingEvent s' = mHasPendingEvent s.

Lemma loop_stop d count s :
  reader_ok (mInputReader s) → count = 0%nat ∨ queue s = [] → loop_post d count s count [] s.
Proof.
  intros Hok Hc. unfold loop_post. cbn [length app].
  split; [done|]. split; [done|]. split; [done|]. split; [lia|]. split; [lia|].
  split; [|done]. intros Hpos. destruct Hc; [lia|done].
Qed.

Lemma event_loop_spec d fuel count s :
  reader_ok (mInputReader s) → (length (queue s) <= fuel)%nat →
  ∃ count' data s', event_loop d fuel count s = Some (count', data, s') ∧
    loop_post d count s count' data s'.
Proof.
  revert count s. induction fuel as [|fuel IH]; intros count s Hok Hf;
    pose proof (readEvent_spec _ Hok) as He; fold (queue s) in He; cbn [event_loop];
    (destruct (Nat.eqb_spec count 0) as [Hc|Hc];
      [eexists _, [], s; split; [done|]; apply loop_stop; auto|]);
    destruct (readEvent (mInputReader s)) as [p n]; cbn [fst snd] in He;
    destruct (queue s) as [|e q] eqn:Hq;
    try (subst n; eexists _, [], s; split; [done|]; apply loop_stop; auto).
  { cbn in Hf. lia. }
  destruct He as [-> Hp]. cbn [Z.eqb]. rewrite Hp. cbn [mbind option_bind].
  destruct (next_spec _ _ _ Hok Hq) as [Hok' Hq'].
  pose proof (on_event_frame d e s) as (Fr & Fe & Fp & Ft & _).
  pose proof (on_event_dec d e s) as Hdec. pose proof (on_event_stored d e s) as Hst.
  destruct (on_event d e s) as [[s1 dec] out] eqn:Ho. cbn [fst snd] in *. rewrite Fr.
  set (s2 := with_reader (next (mInputReader s)) s1).
  destruct (IH (if dec then pred count else count) s2) as
    (count' & data & s' & E & Hok2 & Hn2 & Hrep & Hle & Heq & Hemp & Hen & Het & Hhp).
  { exact Hok'. }
  { unfold queue. cbn [s2 with_reader mInputReader]. rewrite Hq'. cbn in Hf. lia. }
  rewrite E. cbn [mbind option_bind]. exists count', (option_list out ++ data), s'.
  unfold queue in Hrep at 1, Heq at 1. cbn [s2 with_reader mInputReader] in Hrep, Heq, Hn2.
  rewrite Hq' in Hrep, Heq. unfold s2 in Hrep. rewrite reports_reader in Hrep.
  split; [done|]. unfold loop_post. rewrite Hq. split; [done|]. split; [by rewrite Hn2|].
  split; [cbn [reports]; by rewrite Ho, Hrep, app_assoc|].
  assert (dec = true ∨ out = None) as Hdo.
  { destruct out; [left; by apply Hst; eexists|by right]. }
  split; [|split; [|split; [done|split; [|split]]]].
  - rewrite length_app. destruct Hdo as [->| ->]; [destruct out|destruct dec]; cbn; lia.
  - intros [Hr1 Hr2]%Forall_cons. rewrite length_app. rewrite (Hdec Hr1) in Heq.
    assert (Forall (recent d s2) q) as Hr3.
    { eapply Forall_impl; [exact Hr2|]. unfold recent, s2. cbn [with_reader mEnabledTime].
      by rewrite Ft. }
    specialize (Heq Hr3). destruct out as [x|].
    + rewrite bool_decide_eq_true_2 in Heq by by eexists. cbn. lia.
    + rewrite bool_decide_eq_false_2 in Heq by (intros [? [=]]). cbn. lia.
  - rewrite Hen. exact Fe.
  - rewrite Het. exact Ft.
  - rewrite Hhp. exact Fp.
Qed.

(** A recent synchronisation event of an enabled driver gives a report. *)
Lemma reports_nonempty d q s :
  truth (mEnabled s) = true → Forall (recent d s) q → Exists (λ e, ev_type e = EV_SYN) q →
  reports d q s ≠ [].
Proof.
  intros He. revert s He. induction q as [|e q IH]; intros s He Hr Hx; [by inversion Hx|].
  cbn [reports]. apply Forall_cons in Hr as [Hr1 Hr2].
  pose proof (on_event_frame d e s) as (Fr & Fe & Fp & Ft & _).
  pose proof (on_event_syn d e s Hr1) as Hs.
  destruct (on_event d e s) as [[s1 dec] out]. cbn [fst snd] in *.
  apply Exists_cons in Hx as [Hx|Hx].
  - destruct (Hs Hx He) as [x ->]. done.
  - intros [_ Hnil]%app_nil. revert Hnil. apply IH; [congruence| |done].
    eapply Forall_impl; [exact Hr2|]. unfold recent. by rewrite Ft.
Qed.

(** ** The sysfs nodes *)

(** The nodes belong to the kernel and are shared by all objects: what each
    holds, by its path, after some writes. *)
Definition play (ws : list node_write) (nodes : gmap string string) : gmap string string :=
  foldl (λ nodes w, if nw_done w then <[nw_path w := nw_data w]> nodes else nodes) nodes ws.

Definition enable_node_of (s : sensor) : string := (input_sysfs_path s +:+ "enable")%string.
Definition off_data : string := ("0" +:+ nul)%string.

(** What an object last wrote to its node [enable], whatever became of it. *)
Definition node_on (s : sensor) : bool :=
  match last (filter (λ w, nw_path w = enable_node_of s) (node_writes s)) with
  | Some w => bool_decide (nw_data w = ("1" +:+ nul)%string)
  | None => false
  end.
(** The member [mEnabled] tells what the object last wrote. *)
Definition node_inv (s : sensor) : Prop := mEnabled s = b2i (node_on s).

(** The members that [node_inv] is about do not change. *)
Definition same_node (s s' : sensor) : Prop :=
  mEnabled s' = mEnabled s ∧ input_sysfs_path s' = input_sysfs_path s ∧
  node_writes s' = node_writes s.
#[local] Instance same_node_preorder : PreOrder same_node.
Proof. split; [by intros s|unfold same_node; intros s1 s2 s3; intuition congruence]. Qed.

Lemma same_node_inv s s' : same_node s s' → node_inv s → node_inv s'.
Proof. unfold same_node, node_inv, node_on, enable_node_of. by intros (-> & -> & ->). Qed.

Lemma event_loop_node d fuel count s c data s' :
  event_loop d fuel count s = Some (c, data, s') → same_node s s'.
Proof.
  revert count s c data s'. induction fuel as [|fuel IH]; intros count s c data s';
    cbn [event_loop]; (destruct (count =? 0)%nat; [by intros [= <- <- <-]|]);
    destruct (readEvent _) as [q n]; (destruct (n =? 0); [by intros [= <- <- <-]|]); [done|].
  destruct (_ !! q) as [e|]; [|done]. cbn [mbind option_bind].
  pose proof (on_event_frame d e s) as (_ & He & _ & _ & Hp & Hw).
  destruct (on_event d e s) as [[s1 dec] out]. cbn [fst] in *.
  destruct (event_loop _ _ _ _) as [[[c1 d1] s2]|] eqn:E; [|done]. cbn [mbind option_bind].
  intros [= <- <- <-]. apply IH in E as (He2 & Hp2 & Hw2).
  split; [by rewrite He2|]. split; [by rewrite Hp2|by rewrite Hw2].
Qed.

Lemma gyro_again_node answers count s data s' :
  gyro_again answers count s = Some (data, s') → same_node s s'.
Proof.
  revert count s. induction answers as [|ans answers IH]; intros count s; cbn [gyro_again];
    (destruct (event_loop _ _ _ _) as [[[c1 d1] s1]|] eqn:E; [|done]);
    cbn [mbind option_bind]; apply event_loop_node in E;
    (break_if; [|by intros [= <- <-]]); (break_if; [by intros [= <- <-]|]); [done|].
  destruct (fill ans _) as [[n r]|]; [|done]. cbn [mbind option_bind].
  break_if; [|by intros [= <- <-]]. intros Hg%IH. by etrans.
Qed.

Section nodes.
Context `{SensorIo}.

Lemma readEvents_node d answers count s nb data s' :
  readEvents d answers count s = Some (nb, data, s') → same_node s s'.
Proof.
  unfold readEvents. break_if; [by intros [= <- <- <-]|].
  break_if; [by intros [= <- <- <-]|].
  destruct (fill_next _ _) as [[[n r] rest]|]; [|done]. cbn [mbind option_bind].
  break_if; [by intros [= <- <- <-]|].
  destruct d; cbn [mbind option_bind].
  1,2: destruct (event_loop _ _ _ _) as [[[c1 d1] s1]|] eqn:El; [|done]; cbn [mbind option_bind];
    intros [= <- <- <-]; by apply event_loop_node in El.
  destruct (gyro_again _ _ _) as [[d1 s1]|] eqn:El; [|done]. cbn [mbind option_bind].
  intros [= <- <- <-]. by apply gyro_again_node in El.
Qed.

(** The write of [flags] to the node. *)
Lemma node_written (b : bool) s s' :
  mEnabled s' = b2i b → input_sysfs_path s' = input_sysfs_path s →
  node_writes s' = node_writes s ++
    [NodeWrite (enable_node_of s) ((if b then "1" else "0") +:+ nul)%string
       (node_accepts (enable_node_of s))] →
  node_inv s'.
Proof.
  intros He Hp Hw. unfold node_inv, node_on, enable_node_of. rewrite He, Hp, Hw, filter_app.
  rewrite filter_cons_True by done.
  rewrite filter_nil, last_snoc. by destruct b.
Qed.

Lemma enable_node d en s : node_inv s → node_inv (enable d en s).2.
Proof.
  intros Hs. destruct d; cbn [enable];
    unfold LightSensor.enable, ProximitySensor.enable, GyroSensor.enable;
    (break_if; [|done]); (break_if; [|done]); cbn [snd].
  - apply (node_written (truth en) s); [done..|]. by destruct (truth en).
  - unfold ProximitySensor.setInitialState. destruct (ioctl_abs _);
      (apply (node_written (truth en) s); [done..|]; by destruct (truth en)).
  - unfold GyroSensor.setInitialState. destruct (ioctl_abs _);
      (apply (node_written (truth en) s); destruct (truth en); done).
Qed.

Lemma setDelay_node d ns s : node_inv s → node_inv (setDelay d ns s).2.
Proof.
  assert (∀ data, node_inv s →
    node_inv (with_write (input_sysfs_path s +:+ "poll_delay")%string data s)) as Hw.
  { intros data. unfold node_inv, node_on, enable_node_of. cbn [with_write mEnabled input_sysfs_path node_writes].
    rewrite filter_app, filter_cons_False; [by rewrite filter_nil, app_nil_r|].
    cbn. intros Heq. by apply (inj (String.append _)) in Heq. }
  intros Hs. destruct d; cbn [setDelay];
    unfold LightSensor.setDelay, GyroSensor.setDelay; [|done|]; (break_if; [|done]); by apply Hw.
Qed.

Lemma new_sensor_node d fd nm junk : node_inv (new_sensor d fd nm junk).
Proof. unfold new_sensor. break_if; [|done]. by apply enable_node. Qed.

(** The write of a destructor: a driver that last switched its node on writes
    0 to it if it opens; the others write nothing. *)
Lemma delete_sensor_writes d s :
  node_inv s →
  node_writes (delete_sensor d s) = node_writes s ++
    (if node_on s && node_opens (enable_node_of s)
     then [NodeWrite (enable_node_of s) off_data (node_accepts (enable_node_of s))] else []).
Proof.
  intros Hs. unfold delete_sensor. unfold node_inv in Hs. rewrite Hs, truth_b2i.
  destruct (node_on s); [|by rewrite app_nil_r]. cbn [b2i andb] in *.
  destruct d; cbn [enable];
    unfold LightSensor.enable, ProximitySensor.enable, GyroSensor.enable; rewrite Hs;
    change (negb (b2i (truth 0) =? 1)) with true; cbn beta iota; fold (enable_node_of s);
    (destruct (node_opens _); [|by rewrite app_nil_r]); [done|..].
  - cbn. unfold ProximitySensor.setInitialState. by destruct (ioctl_abs _).
  - cbn. unfold GyroSensor.setInitialState. by destruct (ioctl_abs _).
Qed.

Lemma delete_sensor_nodes d s nodes :
  node_inv s →
  play (drop (length (node_writes s)) (node_writes (delete_sensor d s))) nodes =
    if node_on s && (node_opens (enable_node_of s) && node_accepts (enable_node_of s))
    then <[enable_node_of s := off_data]> nodes else nodes.
Proof.
  intros Hs. rewrite delete_sensor_writes, drop_app_length by done.
  by destruct (node_on s), (node_opens _).
Qed.
End nodes.

(** ** Properties *)

(** C35: a call of [readEvents] with room for [count] events and one answer of
    [read] never faults: an error of the read is returned and nothing stored;
    otherwise it stores at most [count] events, returns their number, and
    these followed by what the driver still holds are exactly the reports of
    the events it held and received, so that over successive calls no report
    is lost, repeated or reordered; unless [count] was the limit nothing is
    left.  (The gyroscope: past its start-up delay, with a complete event at
    hand.) *)
Theorem readEvents_reports `{SensorIo} d ans answers count s
    (Hok : reader_ok (mInputReader s)) (Hp : mHasPendingEvent s = false) (Hc : 1 <= count)
    (Hroom : (0 < mFreeSpace (mInputReader s))%nat)
    (Ha : answer_ok (mFreeSpace (mInputReader s)) ans)
    (Hg : d = gyro → mEnabled s = 1 →
       let q := (fill_result ans (mFreeSpace (mInputReader s)) (queue s)).2 in
       Forall (recent d s) q ∧ Exists (λ e, ev_type e = EV_SYN) q) :
  let '(n, q) := fill_result ans (mFreeSpace (mInputReader s)) (queue s) in
  ∃ ret data s', readEvents d (ans :: answers) count s = Some (ret, data, s') ∧
    reader_ok (mInputReader s') ∧
    (n < 0 → ret = n ∧ data = [] ∧ queue s' = queue s) ∧
    (0 <= n → ret = Z.of_nat (length data) ∧ Z.of_nat (length data) <= count ∧
       reports d q s = data ++ reports d (queue s') s' ∧
       ((d ≠ gyro ∨ mEnabled s = 1) → Z.of_nat (length data) < count → queue s' = [])).
Proof.
  destruct (fill_spec _ ans Hok Ha) as (n & r & E & Hr & Hn & Hf).
  fold (queue s) in Hf. rewrite Hf in Hg |- *. cbn [snd] in Hg.
  unfold readEvents. destruct (Z.ltb_spec count 1); [lia|]. rewrite Hp. unfold fill_next.
  destruct (Nat.eqb_spec (mFreeSpace (mInputReader s)) 0); [lia|]. rewrite E.
  cbn [mbind option_bind]. destruct (Z.ltb_spec n 0) as [Hn0|Hn0].
  { exists n, [], (with_reader r s). split; [done|]. split; [done|]. split; [|lia].
    intros _. split; [done|]. split; [done|]. unfold fill_result in Hf.
    destruct (Nat.eqb_spec (mFreeSpace (mInputReader s)) 0); [lia|].
    destruct ans as [|evs [|]]; cbn [answer_ok] in Ha; injection Hf as <- Hf; [done|done|lia]. }
  set (s1 := with_reader r s). change (mInputReader s1) with r.
  destruct (event_loop_spec d (available r) (Z.to_nat count) s1) as
    (count' & data & s' & E2 & Hok2 & Hn2 & Hrep & Hle & Heq & Hemp & Hen & Het & Hhp).
  { exact Hr. }
  { change (queue s1) with (contents r). by rewrite contents_length. }
  change (queue s1) with (contents r) in *.
  assert (reports d (contents r) s1 = reports d (contents r) s) as Hs1 by apply reports_reader.
  assert (d ≠ gyro → Forall (recent d s1) (contents r)) as Hnr.
  { intros Hd. apply Forall_true. by intros e ?. }
  destruct (decide (d = gyro)) as [->|Hd].
  - cbn [gyro_again]. destruct answers; cbn [gyro_again]; change (mInputReader s1) with r;
      rewrite E2; cbn [mbind option_bind].
    all: assert ((length data =? 0)%nat && (mEnabled s' =? 1) = false) as ->;
      [|exists (Z.of_nat (length data)), data, s'; split; [done|]; split; [done|]; split; [lia|];
        intros _; split; [done|]; split; [lia|]; split; [by rewrite <- Hs1|];
        intros [?|He] Hlt; [done|]; apply Hemp; specialize (Heq (proj1 (Hg eq_refl He))); lia].
    all: rewrite Hen; change (mEnabled s1) with (mEnabled s).
    all: destruct (Z.eqb_spec (mEnabled s) 1) as [He|]; [|by rewrite andb_false_r].
    all: destruct (Hg eq_refl He) as [Hrec Hsyn]; specialize (Heq Hrec).
    all: destruct (Nat.eqb_spec (length data) 0) as [Hz|]; [|done]; exfalso.
    all: rewrite Hemp in Hrep by lia; apply nil_length_inv in Hz as ->; rewrite Hs1 in Hrep.
    all: eapply reports_nonempty; [|exact Hrec|exact Hsyn|exact Hrep]; by rewrite He.
  - specialize (Heq (Hnr Hd)).
    exists (Z.of_nat (length data)), data, s'.
    split; [destruct d; [by rewrite E2|by rewrite E2|done]|].
    split; [done|]. split; [lia|]. intros _. split; [done|]. split; [lia|].
    split; [by rewrite <- Hs1|]. intros _ Hlt. apply Hemp. lia.
Qed.

(** ** Findings *)

(** The comments of the table give the upper bounds as included. *)
Lemma adc_bounds_excluded :
  LightSensor.indexToValue 360 = float_of_int 70 ∧
  LightSensor.indexToValue 798 = float_of_int 1000.
Proof. by vm_compute. Qed.

(** The initial event of the gyroscope repeats the X axis. *)
Lemma gyro_initial_axes `{SensorIo} s x :
  ioctl_abs EVENT_TYPE_GYRO_X = Some x → (3 <= length (se_data (mPendingEvent s)))%nat →
  se_data (mPendingEvent (GyroSensor.setInitialState s)) !! 1%nat =
    Some (fmul (float_of_int x) CONVERT_GYRO_Y) ∧
  se_data (mPendingEvent (GyroSensor.setInitialState s)) !! 2%nat =
    Some (fmul (float_of_int x) CONVERT_GYRO_Z).
Proof.
  intros Hx Hl. unfold GyroSensor.setInitialState. rewrite Hx. cbn -[insert fmul CONVERT_GYRO_X].
  split.
  - rewrite list_lookup_insert_ne by done. apply list_lookup_insert_eq. rewrite length_insert. lia.
  - apply list_lookup_insert_eq. rewrite !length_insert. lia.
Qed.

(** While the reads of the gyroscope fail, [again] is reached again: no number
    of failing reads makes the call return. *)
Lemma gyro_error_spins errno k count s :
  0 < errno → (0 < mFreeSpace (mInputReader s))%nat →
  reader_ok (mInputReader s) → queue s = [] → mEnabled s = 1 →
  gyro_again (replicate k (ReadError errno)) count s = None.
Proof.
  intros He Hf Hok Hq Hen.
  assert (event_loop gyro (available (mInputReader s)) count s = Some (count, [], s)) as El.
  { pose proof (readEvent_spec _ Hok) as Hr. fold (queue s) in Hr. rewrite Hq in Hr.
    destruct (available (mInputReader s)); cbn [event_loop]; destruct (count =? 0)%nat; try done;
      destruct (readEvent (mInputReader s)) as [p m]; cbn in Hr; by subst. }
  assert ((mFreeSpace (mInputReader s) =? 0)%nat = false) as Hz by (apply Nat.eqb_neq; lia).
  induction k as [|k IH]; cbn [replicate gyro_again]; rewrite El; cbn [mbind option_bind length];
    rewrite Hen; cbn [Nat.eqb Z.eqb Pos.eqb andb]; rewrite Hz; [done|].
  unfold fill. rewrite Hz. cbn [mbind option_bind].
  assert (with_reader (mInputReader s) s = s) as Hs by by destruct s.
  rewrite Hs, IH. unfold truth. by destruct (Z.eqb_spec (- errno) 0); [lia|].
Qed.

(** ** Witnesses *)

Definition demo_io : SensorIo := {|
  node_opens := λ _, true; node_accepts := λ _, true; ioctl_abs := λ _, None; now := 7000
|}.
Definition abs_event (code v : Z) : input_event := InputEvent (0, 0) EV_ABS code v.
Definition syn_event (sec : Z) : input_event := InputEvent (sec, 0) EV_SYN 0 0.
Definition demo_light : sensor :=
  new_sensor (H := demo_io) light 5 "event3" (replicate 8 (syn_event 0)).
Definition demo_answer : read_answer :=
  ReadData [abs_event EVENT_TYPE_LIGHT 500; syn_event 1;
            abs_event EVENT_TYPE_LIGHT 1500; syn_event 2] None.

Lemma readEvents_reports_witness :
  ∃ data s', readEvents (H := demo_io) light [demo_answer] 1 demo_light = Some (1, data, s') ∧
    reports light (queue demo_light ++ [abs_event EVENT_TYPE_LIGHT 500; syn_event 1;
      abs_event EVENT_TYPE_LIGHT 1500; syn_event 2]) demo_light =
    data ++ reports light (queue s') s'.
Proof.
  destruct (@readEvents_reports demo_io light demo_answer [] 1 demo_light)
    as (ret & data & s' & E & _ & _ & Hd).
  - apply reader_start_ok; [lia|reflexivity].
  - reflexivity.
  - lia.
  - vm_compute. lia.
  - vm_compute. lia.
  - discriminate.
  - destruct Hd as (Hret & _ & Hrep & _); [lia|].
    exists data, s'. split; [|exact Hrep].
    rewrite E. repeat f_equal. vm_compute in E. injection E as <- <- <-. reflexivity.
Defined.
