(* ===== verification/Akm.v ===== *)
(** * The AKM driver: libsensors/AkmSensor.cpp

    Accelerometer, magnetometer, orientation and the significant-motion sensor
    derived from the accelerometer.  The vendor library is the argument [lib]
    of each call (its functions answer an error code); the model records in
    [hw] the sensors the library has been told to run.  The constants of
    hardware/sensors.h are the parameter [SensorTypes]. *)

From Stdlib Require Import SpecFloat.
From S2P Require Import Prelude InputReader Sensors.
Local Open Scope Z_scope.

Class SensorTypes := {
  SENSOR_TYPE_ACCELEROMETER : Z;
  SENSOR_TYPE_MAGNETIC_FIELD : Z;
  SENSOR_TYPE_ORIENTATION : Z;
  SENSOR_TYPE_TEMPERATURE : Z;
  SENSOR_STATUS_ACCURACY_HIGH : Z;
  GRAVITY_EARTH : float;
  ENODEV : Z;
  (* distinct kinds have distinct numbers, none of them 0, and errors are positive *)
  sensor_types_distinct :
    NoDup [0; SENSOR_TYPE_ACCELEROMETER; SENSOR_TYPE_MAGNETIC_FIELD; SENSOR_TYPE_ORIENTATION;
           SENSOR_TYPE_TEMPERATURE];
  ENODEV_pos : 0 < ENODEV
}.

(** The functions of libakm.so *)
Record akm_lib := AkmLib {
  akm_is_sensor_enabled : Z → bool;
  akm_enable_sensor : Z → Z;
  akm_disable_sensor : Z → Z
}.

Definition stub_is_sensor_enabled (sensor_type : Z) : bool := false.
Definition stub_enable_disable_sensor `{SensorTypes} (sensor_type : Z) : Z := - ENODEV.
Definition stub_lib `{SensorTypes} : akm_lib :=
  AkmLib stub_is_sensor_enabled stub_enable_disable_sensor stub_enable_disable_sensor.

(** ** Constants *)

Definition ID_A : Z := 0.
Definition ID_M : Z := 1.
Definition ID_O : Z := 2.
Definition ID_SM : Z := 6.
Definition Accelerometer : Z := 0.
Definition MagneticField : Z := 1.
Definition Orientation : Z := 2.
Definition SignificantMotion : Z := 3.
Definition numSensors : Z := 4.

Definition EVENT_TYPE_ACCEL_X : Z := 0x01.         (* ABS_Y *)
Definition EVENT_TYPE_ACCEL_Y : Z := 0x00.         (* ABS_X *)
Definition EVENT_TYPE_ACCEL_Z : Z := 0x02.         (* ABS_Z *)
Definition EVENT_TYPE_YAW : Z := 0x03.             (* ABS_RX *)
Definition EVENT_TYPE_PITCH : Z := 0x04.           (* ABS_RY *)
Definition EVENT_TYPE_ROLL : Z := 0x05.            (* ABS_RZ *)
Definition EVENT_TYPE_ORIENT_STATUS : Z := 0x08.   (* ABS_WHEEL *)
Definition EVENT_TYPE_MAGV_X : Z := 0x06.          (* ABS_THROTTLE *)
Definition EVENT_TYPE_MAGV_Y : Z := 0x07.          (* ABS_RUDDER *)
Definition EVENT_TYPE_MAGV_Z : Z := 0x09.          (* ABS_GAS *)
Definition SENSOR_STATE_MASK : Z := 0x7FFF.

Section conversions.
Context `{SensorTypes}.
Definition CONVERT_A : float :=
  fdiv (fdiv GRAVITY_EARTH (float_of_int 90)) (float_of_int 8).
Definition CONVERT_A_X : float := CONVERT_A.
Definition CONVERT_A_Y : float := SFopp CONVERT_A.
Definition CONVERT_A_Z : float := SFopp CONVERT_A.
Definition CONVERT_M : float := fdiv (float_of_int 3) (float_of_int 50).
Definition CONVERT_M_X : float := CONVERT_M.
Definition CONVERT_M_Y : float := SFopp CONVERT_M.
Definition CONVERT_M_Z : float := SFopp CONVERT_M.
Definition CONVERT_O : float := fdiv (float_of_int 1) (float_of_int 64).
End conversions.

(** The conversion of a float to an [int]: towards zero. *)
Definition int_of_float (f : float) : Z :=
  match f with
  | S754_finite s m e =>
      let a := if 0 <=? e then Z.pos m * 2 ^ e else Z.pos m / 2 ^ (- e) in
      if s then - a else a
  | _ => 0
  end.
Definition fsub : float → float → float := SFsub 24 128.

(** ** State *)

(** The members of [sensors_event_t] the source sets: [data[0..2]] under
    their various names, and the status. *)
Record akm_event := AkmEvent {
  ae_sensor : Z;
  ae_timestamp : Z;
  ae_data : list float;
  ae_status : Z
}.

Record akm := Akm {
  mAccRefCount : Z;
  mMotionValue : Z;
  mLibAKM : bool;
  mEnabled : Z;                  (* uint32_t *)
  mPendingMask : Z;
  mInputReader : reader;
  mPendingEvents : list akm_event;
  mDelays : list Z;              (* uint64_t *)
  hw : gset Z
}.

Definition with_mask (m : Z) (s : akm) : akm :=
  Akm (mAccRefCount s) (mMotionValue s) (mLibAKM s) (mEnabled s) m (mInputReader s)
    (mPendingEvents s) (mDelays s) (hw s).
Definition with_akm_reader (r : reader) (s : akm) : akm :=
  Akm (mAccRefCount s) (mMotionValue s) (mLibAKM s) (mEnabled s) (mPendingMask s) r
    (mPendingEvents s) (mDelays s) (hw s).
Definition with_akm_enabled (e : Z) (s : akm) : akm :=
  Akm (mAccRefCount s) (mMotionValue s) (mLibAKM s) e (mPendingMask s) (mInputReader s)
    (mPendingEvents s) (mDelays s) (hw s).
Definition with_refcount (c : Z) (s : akm) : akm :=
  Akm c (mMotionValue s) (mLibAKM s) (mEnabled s) (mPendingMask s) (mInputReader s)
    (mPendingEvents s) (mDelays s) (hw s).
Definition with_motion (v : Z) (s : akm) : akm :=
  Akm (mAccRefCount s) v (mLibAKM s) (mEnabled s) (mPendingMask s) (mInputReader s)
    (mPendingEvents s) (mDelays s) (hw s).
Definition with_hw (h : gset Z) (s : akm) : akm :=
  Akm (mAccRefCount s) (mMotionValue s) (mLibAKM s) (mEnabled s) (mPendingMask s) (mInputReader s)
    (mPendingEvents s) (mDelays s) h.
Definition with_delays (l : list Z) (s : akm) : akm :=
  Akm (mAccRefCount s) (mMotionValue s) (mLibAKM s) (mEnabled s) (mPendingMask s) (mInputReader s)
    (mPendingEvents s) l (hw s).
(** A change of the pending event of sensor [i]. *)
Definition upd_event (i : Z) (f : akm_event → akm_event) (s : akm) : akm :=
  Akm (mAccRefCount s) (mMotionValue s) (mLibAKM s) (mEnabled s) (mPendingMask s) (mInputReader s)
    (alter f (Z.to_nat i) (mPendingEvents s)) (mDelays s) (hw s).

Definition bit (i : Z) : Z := Z.shiftl 1 i.
Definition clear_bit (i m : Z) : Z := Z.land m (Z.lnot (bit i)).
Definition has_bit (m i : Z) : bool := truth (Z.land m (bit i)).

Definition put (i : nat) (v : float) (e : akm_event) : akm_event :=
  AkmEvent (ae_sensor e) (ae_timestamp e) (<[i := v]> (ae_data e)) (ae_status e).
Definition put_status (v : Z) (e : akm_event) : akm_event :=
  AkmEvent (ae_sensor e) (ae_timestamp e) (ae_data e) v.
Definition put_time (t : Z) (e : akm_event) : akm_event :=
  AkmEvent (ae_sensor e) t (ae_data e) (ae_status e).

Section driver.
Context `{SensorTypes}.

(** The function pointers: the library's, or the stubs. *)
Definition functions (lib : akm_lib) (s : akm) : akm_lib := if mLibAKM s then lib else stub_lib.

(** A library call that succeeds changes what runs. *)
Definition lib_enable (lib : akm_lib) (t : Z) (s : akm) : Z * akm :=
  let err := akm_enable_sensor (functions lib s) t in
  (err, if err =? 0 then with_hw ({[t]} ∪ hw s) s else s).
Definition lib_disable (lib : akm_lib) (t : Z) (s : akm) : Z * akm :=
  let err := akm_disable_sensor (functions lib s) t in
  (err, if err =? 0 then with_hw (hw s ∖ {[t]}) s else s).

Definition what_of_handle (handle : Z) : Z :=
  if handle =? ID_A then Accelerometer
  else if handle =? ID_M then MagneticField
  else if handle =? ID_O then Orientation
  else if handle =? ID_SM then SignificantMotion
  else -1.

Definition sensor_type_of (what : Z) : Z :=
  if what =? SignificantMotion then SENSOR_TYPE_ACCELEROMETER
  else if what =? Accelerometer then SENSOR_TYPE_ACCELEROMETER
  else if what =? MagneticField then SENSOR_TYPE_MAGNETIC_FIELD
  else SENSOR_TYPE_ORIENTATION.

Definition enable (lib : akm_lib) (handle en : Z) (s : akm) : Z * akm :=
  let what := what_of_handle handle in
  if numSensors <=? uint32 what then (- EINVAL, s)
  else
    let newState := b2i (truth en) in
    if negb (Z.shiftl newState what =? Z.land (mEnabled s) (bit what)) then
      let sensor_type := sensor_type_of what in
      let '(err, s) :=
        if truth en then
          if (sensor_type =? SENSOR_TYPE_ACCELEROMETER) && (0 <? mAccRefCount s) then (0, s)
          else lib_enable lib sensor_type s
        else
          if (sensor_type =? SENSOR_TYPE_ACCELEROMETER) && (1 <? mAccRefCount s) then (0, s)
          else lib_disable lib sensor_type s in
      if err =? 0 then
        let s := if sensor_type =? SENSOR_TYPE_ACCELEROMETER then
                   with_refcount (if truth en then mAccRefCount s + 1 else mAccRefCount s - 1) s
                 else s in
        (err, with_akm_enabled (Z.lor (clear_bit what (mEnabled s)) (Z.shiftl newState what)) s)
      else (err, s)
    else (0, s).

(** [ecs_delay]: the errno of the ioctl. *)
Definition update_delay (ecs_delay : Z → option Z) (s : akm) : option Z :=
  if truth (mEnabled s) then
    let step := λ (w : option Z) (i : nat),
      wanted ← w;
      if has_bit (mEnabled s) (Z.of_nat i) then
        ns ← mDelays s !! i;
        Some (if wanted <? ns then wanted else ns)
      else Some wanted in
    wanted ← foldl step (Some (uint64 (-1))) (seq 0 4);
    let delay := swrap 16 (Z.quot (int64 wanted) 1000000) in
    Some (match ecs_delay delay with Some errno => - errno | None => 0 end)
  else Some 0.

(** [what] keeps its initial value -1: the store is out of bounds ([None]). *)
Definition setDelay (ecs_delay : Z → option Z) (handle ns : Z) (s : akm) : option (Z * akm) :=
  let what := -1 in
  if ns <? 0 then Some (- EINVAL, s)
  else if handle =? ID_SM then Some (0, s)
  else
    let sensor_type :=
      if handle =? ID_A then SENSOR_TYPE_ACCELEROMETER
      else if handle =? ID_M then SENSOR_TYPE_MAGNETIC_FIELD
      else if handle =? ID_O then SENSOR_TYPE_ORIENTATION
      else 0 in
    if sensor_type =? 0 then Some (- EINVAL, s)
    else if (0 <=? what) && (what <? Z.of_nat (length (mDelays s))) then
      let s := with_delays (<[Z.to_nat what := ns]> (mDelays s)) s in
      err ← update_delay ecs_delay s;
      Some (err, s)
    else None.

Definition mark (i : Z) (s : akm) : akm := with_mask (Z.lor (mPendingMask s) (bit i)) s.

Definition processEvent (code value : Z) (s : akm) : akm :=
  let v := float_of_int value in
  if code =? EVENT_TYPE_ACCEL_X then
    upd_event Accelerometer (put 0 (fmul v CONVERT_A_X)) (mark Accelerometer s)
  else if code =? EVENT_TYPE_ACCEL_Y then
    upd_event Accelerometer (put 1 (fmul v CONVERT_A_Y)) (mark Accelerometer s)
  else if code =? EVENT_TYPE_ACCEL_Z then
    let z := fmul v CONVERT_A_Z in
    let s := upd_event Accelerometer (put 2 z) (mark Accelerometer s) in
    let motionValueDiff := int_of_float (fsub (float_of_int (mMotionValue s)) z) in
    let s := with_motion (int_of_float z) s in
    if has_bit (mEnabled s) SignificantMotion &&
       ((1 <? motionValueDiff) || (motionValueDiff <? -1)) then
      upd_event SignificantMotion (put 0 (float_of_int 1)) (mark SignificantMotion s)
    else s
  else if code =? EVENT_TYPE_MAGV_X then
    upd_event MagneticField (put 0 (fmul v CONVERT_M_X)) (mark MagneticField s)
  else if code =? EVENT_TYPE_MAGV_Y then
    upd_event MagneticField (put 1 (fmul v CONVERT_M_Y)) (mark MagneticField s)
  else if code =? EVENT_TYPE_MAGV_Z then
    upd_event MagneticField (put 2 (fmul v CONVERT_M_Z)) (mark MagneticField s)
  else if code =? EVENT_TYPE_YAW then
    upd_event Orientation (put 0 (fmul v CONVERT_O)) (mark Orientation s)
  else if code =? EVENT_TYPE_PITCH then
    upd_event Orientation (put 1 (fmul v CONVERT_O)) (mark Orientation s)
  else if code =? EVENT_TYPE_ROLL then
    upd_event Orientation (put 2 (fmul v CONVERT_O)) (mark Orientation s)
  else if code =? EVENT_TYPE_ORIENT_STATUS then
    let status := uint8 (Z.land value SENSOR_STATE_MASK) in
    let status := if status =? 4 then 0 else status in
    upd_event Orientation (put_status status) (mark Orientation s)
  else s.

(** The inner loop of [readEvents] at a synchronisation event: [j] runs over
    the sensors; a report of the significant-motion sensor disables it. *)
Fixpoint flush_pending (lib : akm_lib) (time : Z) (js : list nat) (count : nat) (s : akm)
    : nat * list akm_event * akm :=
  match js with
  | [] => (count, [], s)
  | j :: js =>
      if (count =? 0)%nat || negb (truth (mPendingMask s)) then (count, [], s)
      else
        let i := Z.of_nat j in
        if has_bit (mPendingMask s) i then
          let s := with_mask (clear_bit i (mPendingMask s)) s in
          let s := upd_event i (put_time time) s in
          if has_bit (mEnabled s) i then
            let out := option_list (mPendingEvents s !! j) in
            let s := if has_bit (mEnabled s) SignificantMotion && (i =? SignificantMotion)
                     then (enable lib ID_SM 0 s).2 else s in
            let '(count, data, s) := flush_pending lib time js (pred count) s in
            (count, out ++ data, s)
          else flush_pending lib time js count s
        else flush_pending lib time js count s
  end.

(** The loop of [readEvents]; every iteration consumes an event of the reader
    or ends the loop, so [fuel] is one more than the number of events. *)
Fixpoint akm_loop (lib : akm_lib) (clock : nat → Z) (fuel count : nat) (s : akm)
    : option (nat * list akm_event * akm) :=
  if (count =? 0)%nat then Some (count, [], s)
  else
    let '(event, n) := readEvent (mInputReader s) in
    if n =? 0 then Some (count, [], s)
    else
      match fuel with
      | O => None
      | S fuel =>
          e ← mBuffer (mInputReader s) !! event;
          if ev_type e =? EV_REL then
            let s := processEvent (ev_code e) (ev_value e) s in
            akm_loop lib clock fuel count (with_akm_reader (next (mInputReader s)) s)
          else if ev_type e =? EV_SYN then
            let '(count, data, s) := flush_pending lib (clock fuel) (seq 0 4) count s in
            let s := if negb (truth (mPendingMask s))
                     then with_akm_reader (next (mInputReader s)) s else s in
            '(count, data', s) ← akm_loop lib clock fuel count s;
            Some (count, data ++ data', s)
          else akm_loop lib clock fuel count (with_akm_reader (next (mInputReader s)) s)
      end.

(** [clock] gives the answers of [getTimestamp] during the call. *)
Definition readEvents (lib : akm_lib) (clock : nat → Z) (answers : list read_answer) (count : Z) (s : akm)
    : option (Z * list akm_event * akm) :=
  if count <? 1 then Some (- EINVAL, [], s)
  else
    '(n, r, _) ← fill_next answers (mInputReader s);
    let s := with_akm_reader r s in
    if n <? 0 then Some (n, [], s)
    else
      '(_, data, s) ← akm_loop lib clock (S (available r)) (Z.to_nat count) s;
      Some (Z.of_nat (length data), data, s).

(** The initial value of one member, read if the ioctl succeeds. *)
Definition init_member `{SensorIo} (code : Z) (i : Z) (f : Z → akm_event → akm_event) (s : akm) : akm :=
  match ioctl_abs code with Some v => upd_event i (f v) s | None => s end.

(** The constructor; [dl] is the library, if it loads. *)
Definition new_AkmSensor `{SensorIo} (dl : option akm_lib) (junk : list input_event)
    (delays : list Z) : akm :=
  let pending id := AkmEvent id 0 [f_zero; f_zero; f_zero] SENSOR_STATUS_ACCURACY_HIGH in
  let s := Akm 0 0 (bool_decide (is_Some dl)) 0 0 (InputEventCircularReader 32 junk)
    [pending ID_A; pending ID_M; pending ID_O; AkmEvent ID_SM 0 [f_zero; f_zero; f_zero] 0]
    delays ∅ in
  let lib := functions (default stub_lib dl) s in
  let s := if akm_is_sensor_enabled lib SENSOR_TYPE_ACCELEROMETER then
      let s := with_hw ({[SENSOR_TYPE_ACCELEROMETER]} ∪ hw s)
        (with_akm_enabled (Z.lor (mEnabled s) (bit Accelerometer)) s) in
      let s := init_member EVENT_TYPE_ACCEL_X Accelerometer
        (λ v, put 0 (fmul (float_of_int v) CONVERT_A_X)) s in
      let s := init_member EVENT_TYPE_ACCEL_Y Accelerometer
        (λ v, put 1 (fmul (float_of_int v) CONVERT_A_Y)) s in
      init_member EVENT_TYPE_ACCEL_Z Accelerometer
        (λ v, put 2 (fmul (float_of_int v) CONVERT_A_Z)) s
    else s in
  let s := if akm_is_sensor_enabled lib SENSOR_TYPE_MAGNETIC_FIELD then
      let s := with_hw ({[SENSOR_TYPE_MAGNETIC_FIELD]} ∪ hw s)
        (with_akm_enabled (Z.lor (mEnabled s) (bit MagneticField)) s) in
      let s := init_member EVENT_TYPE_MAGV_X MagneticField
        (λ v, put 0 (fmul (float_of_int v) CONVERT_M_X)) s in
      let s := init_member EVENT_TYPE_MAGV_Y MagneticField
        (λ v, put 1 (fmul (float_of_int v) CONVERT_M_Y)) s in
      init_member EVENT_TYPE_MAGV_Z MagneticField
        (λ v, put 2 (fmul (float_of_int v) CONVERT_M_Z)) s
    else s in
  let s := if akm_is_sensor_enabled lib SENSOR_TYPE_ORIENTATION then
      let s := with_hw ({[SENSOR_TYPE_ORIENTATION]} ∪ hw s)
        (with_akm_enabled (Z.lor (mEnabled s) (bit Orientation)) s) in
      let s := init_member EVENT_TYPE_YAW Orientation (λ v, put 0 (float_of_int v)) s in
      let s := init_member EVENT_TYPE_PITCH Orientation (λ v, put 1 (float_of_int v)) s in
      let s := init_member EVENT_TYPE_ROLL Orientation (λ v, put 2 (float_of_int (- v))) s in
      init_member EVENT_TYPE_ORIENT_STATUS Orientation
        (λ v, put_status (uint8 (Z.land v SENSOR_STATE_MASK))) s
    else s in
  (lib_disable (default stub_lib dl) SENSOR_TYPE_TEMPERATURE s).2.
End driver.

(** ** Bit masks of four sensors *)

Definition mask_ok (m : Z) : Prop := 0 <= m < 16.

Definition set_bit (b : bool) (i m : Z) : Z := Z.lor (clear_bit i m) (Z.shiftl (b2i b) i).

(** A decidable fact holds if it holds of the sixteen masks and four bits. *)
Lemma mask_enum (P : Z → Z → Prop) `{∀ m i, Decision (P m i)} :
  bool_decide (Forall (λ m, Forall (P m) (seqZ 0 4)) (seqZ 0 16)) = true →
  ∀ m i, mask_ok m → 0 <= i < 4 → P m i.
Proof.
  intros Hb m i Hm Hi. apply bool_decide_eq_true_1 in Hb. unfold mask_ok in Hm.
  rewrite Forall_forall in Hb. specialize (Hb m).
  rewrite Forall_forall in Hb. apply Hb; apply elem_of_seqZ; lia.
Qed.
#[export] Instance mask_ok_dec m : Decision (mask_ok m).
Proof. unfold mask_ok. apply _. Defined.
Ltac by_masks P :=
  unshelve eapply (@mask_enum P _);
  first [intros ??; cbn beta; apply _|vm_compute; reflexivity].

Lemma has_bit_testbit m i : mask_ok m → 0 <= i < 4 → has_bit m i = Z.testbit m i.
Proof. revert m i. by_masks (λ m i, has_bit m i = Z.testbit m i). Qed.

Lemma set_bit_ok b m i : mask_ok m → 0 <= i < 4 → mask_ok (set_bit b i m).
Proof.
  revert m i. destruct b; [by_masks (λ m i, mask_ok (set_bit true i m))
                          |by_masks (λ m i, mask_ok (set_bit false i m))].
Qed.
Lemma clear_bit_ok m i : mask_ok m → 0 <= i < 4 → mask_ok (clear_bit i m).
Proof. revert m i. by_masks (λ m i, mask_ok (clear_bit i m)). Qed.
Lemma or_bit_ok m i : mask_ok m → 0 <= i < 4 → mask_ok (Z.lor m (bit i)).
Proof. revert m i. by_masks (λ m i, mask_ok (Z.lor m (bit i))). Qed.

Lemma testbit_in_range m j (f : Z → bool) :
  0 <= j < 4 → Forall (λ j, Z.testbit m j = f j) (seqZ 0 4) → Z.testbit m j = f j.
Proof. intros Hj Hf. rewrite Forall_forall in Hf. apply Hf, elem_of_seqZ. lia. Qed.

Lemma set_bit_testbit b m i j :
  mask_ok m → 0 <= i < 4 → 0 <= j < 4 →
  Z.testbit (set_bit b i m) j = if j =? i then b else Z.testbit m j.
Proof.
  intros Hm Hi Hj. apply (testbit_in_range _ _ (λ j, if j =? i then b else Z.testbit m j)); [done|].
  clear j Hj. revert m i Hm Hi. destruct b;
    [by_masks (λ m i, Forall (λ j, Z.testbit (set_bit true i m) j =
       if j =? i then true else Z.testbit m j) (seqZ 0 4))
    |by_masks (λ m i, Forall (λ j, Z.testbit (set_bit false i m) j =
       if j =? i then false else Z.testbit m j) (seqZ 0 4))].
Qed.
Lemma clear_bit_testbit m i j :
  mask_ok m → 0 <= i < 4 → 0 <= j < 4 →
  Z.testbit (clear_bit i m) j = if j =? i then false else Z.testbit m j.
Proof.
  intros Hm Hi Hj.
  apply (testbit_in_range _ _ (λ j, if j =? i then false else Z.testbit m j)); [done|].
  clear j Hj. revert m i Hm Hi.
  by_masks (λ m i, Forall (λ j, Z.testbit (clear_bit i m) j =
    if j =? i then false else Z.testbit m j) (seqZ 0 4)).
Qed.

(** The test by which [enable] sees that there is nothing to do. *)
Lemma same_state b m i :
  mask_ok m → 0 <= i < 4 →
  (Z.shiftl (b2i b) i =? Z.land m (bit i)) = eqb b (Z.testbit m i).
Proof.
  revert m i. destruct b;
    [by_masks (λ m i, (Z.shiftl 1 i =? Z.land m (bit i)) = eqb true (Z.testbit m i))
    |by_masks (λ m i, (Z.shiftl 0 i =? Z.land m (bit i)) = eqb false (Z.testbit m i))].
Qed.

Lemma mask_zero m : mask_ok m → (∀ j, 0 <= j < 4 → Z.testbit m j = false) → m = 0.
Proof.
  intros Hm H.
  assert (∀ m i, mask_ok m → 0 <= i < 4 →
    Forall (λ j, Z.testbit m j = false) (seqZ 0 4) → m = 0) as He.
  { by_masks (λ m _ : Z, Forall (λ j, Z.testbit m j = false) (seqZ 0 4) → m = 0). }
  apply (He m 0); [done|lia|]. apply Forall_forall. intros j Hj%elem_of_seqZ. apply H. lia.
Qed.

(** ** The invariant *)

Section invariant.
Context `{SensorTypes}.

Definition on (s : akm) (i : Z) : bool := Z.testbit (mEnabled s) i.

(** The counter counts the two users of the accelerometer, and what runs is
    what is enabled; [pre] tells that the accelerometer was running when the
    driver was constructed, which the counter does not know. *)
Definition count_ok (pre : bool) (s : akm) : Prop :=
  mAccRefCount s = b2i (on s Accelerometer) + b2i (on s SignificantMotion) - b2i pre ∧
  ((SENSOR_TYPE_ACCELEROMETER ∈ hw s → on s Accelerometer || on s SignificantMotion) ∧
   ((if pre then on s Accelerometer && on s SignificantMotion
     else on s Accelerometer || on s SignificantMotion) → SENSOR_TYPE_ACCELEROMETER ∈ hw s)) ∧
  (SENSOR_TYPE_MAGNETIC_FIELD ∈ hw s ↔ on s MagneticField) ∧
  (SENSOR_TYPE_ORIENTATION ∈ hw s ↔ on s Orientation).

Definition akm_inv (pre : bool) (s : akm) : Prop :=
  mask_ok (mEnabled s) ∧ mask_ok (mPendingMask s) ∧ reader_ok (mInputReader s) ∧
  ae_sensor <$> mPendingEvents s = [ID_A; ID_M; ID_O; ID_SM] ∧ count_ok pre s.

Lemma what_of_handle_range handle :
  what_of_handle handle = -1 ∨ 0 <= what_of_handle handle < 4.
Proof. unfold what_of_handle. repeat case_match; vm_compute; intuition congruence. Qed.

Lemma types_ne :
  SENSOR_TYPE_ACCELEROMETER ≠ SENSOR_TYPE_MAGNETIC_FIELD ∧
  SENSOR_TYPE_ACCELEROMETER ≠ SENSOR_TYPE_ORIENTATION ∧
  SENSOR_TYPE_MAGNETIC_FIELD ≠ SENSOR_TYPE_ORIENTATION ∧
  SENSOR_TYPE_ACCELEROMETER ≠ 0.
Proof.
  pose proof sensor_types_distinct as Hd. rewrite !NoDup_cons in Hd. set_solver.
Qed.

(** The accelerometer runs for another user already, or still. *)
Definition shared (w : Z) (b : bool) (s : akm) : bool :=
  (sensor_type_of w =? SENSOR_TYPE_ACCELEROMETER) &&
  (if b then 0 <? mAccRefCount s else 1 <? mAccRefCount s).
Definition enable_err (lib : akm_lib) (w : Z) (b : bool) (s : akm) : Z :=
  if shared w b s then 0
  else (if b then akm_enable_sensor else akm_disable_sensor) (functions lib s) (sensor_type_of w).
Definition enabled_state (w : Z) (b : bool) (s : akm) : akm :=
  Akm (if sensor_type_of w =? SENSOR_TYPE_ACCELEROMETER
       then if b then mAccRefCount s + 1 else mAccRefCount s - 1 else mAccRefCount s)
    (mMotionValue s) (mLibAKM s) (set_bit b w (mEnabled s)) (mPendingMask s) (mInputReader s)
    (mPendingEvents s) (mDelays s)
    (if shared w b s then hw s
     else if b then {[sensor_type_of w]} ∪ hw s else hw s ∖ {[sensor_type_of w]}).

(** [enable] of a handle the driver knows, case by case. *)
Lemma enable_run lib handle en s :
  mask_ok (mEnabled s) → 0 <= what_of_handle handle < 4 →
  let w := what_of_handle handle in
  let b := truth en in
  enable lib handle en s =
    if eqb b (on s w) then (0, s)
    else if enable_err lib w b s =? 0 then (0, enabled_state w b s)
    else (enable_err lib w b s, s).
Proof.
  cbv zeta. unfold enable. cbv zeta.
  generalize (what_of_handle handle) as w. generalize (truth en) as b. intros b w Hm Hw.
  rewrite uwrap_id by (change (2 ^ 32) with 4294967296; lia).
  destruct (Z.leb_spec numSensors w) as [Hn|_]; [unfold numSensors in Hn; lia|].
  rewrite (same_state b _ _ Hm Hw). fold (on s w).
  destruct (eqb b (on s w)); [done|]. cbn [negb].
  unfold enable_err, enabled_state, shared, lib_enable, lib_disable, set_bit.
  destruct (sensor_type_of w =? SENSOR_TYPE_ACCELEROMETER); cbn [andb];
    destruct b; repeat (break_if; try done); cbn in *; try congruence;
    repeat match goal with Hz : (_ =? 0) = true |- _ => apply Z.eqb_eq in Hz; rewrite ?Hz end; done.
Qed.

Lemma unknown_handle lib handle en s :
  what_of_handle handle = -1 → enable lib handle en s = (- EINVAL, s).
Proof. intros Hw. unfold enable. by rewrite Hw. Qed.

Lemma sensor_type_cases w :
  0 <= w < 4 →
  (w = Accelerometer ∨ w = SignificantMotion) ∧ sensor_type_of w = SENSOR_TYPE_ACCELEROMETER ∨
  w = MagneticField ∧ sensor_type_of w = SENSOR_TYPE_MAGNETIC_FIELD ∨
  w = Orientation ∧ sensor_type_of w = SENSOR_TYPE_ORIENTATION.
Proof.
  intros Hw. assert (w = 0 ∨ w = 1 ∨ w = 2 ∨ w = 3) as [->|[->|[->| ->]]] by lia; vm_compute; tauto.
Qed.

Lemma count_ok_enabled pre w b s :
  mask_ok (mEnabled s) → 0 <= w < 4 → on s w = negb b → count_ok pre s → count_ok pre (enabled_state w b s).
Proof.
  intros Hm Hw Hon (Hc & Ha & Hma & Ho). destruct types_ne as (N1 & N2 & N3 & _).
  assert (∀ j, 0 <= j < 4 → on (enabled_state w b s) j = if j =? w then b else on s j) as Hon'.
  { intros j Hj. unfold on, enabled_state. cbn [mEnabled]. by apply set_bit_testbit. }
  unfold count_ok. rewrite !Hon' by (vm_compute; intuition discriminate).
  unfold enabled_state, shared. cbn [mAccRefCount hw].
  destruct (sensor_type_cases w Hw) as [[[->| ->] ->]|[[-> ->]|[-> ->]]];
    rewrite ?Z.eqb_refl;
    rewrite ?(proj2 (Z.eqb_neq _ _) (not_eq_sym N1)), ?(proj2 (Z.eqb_neq _ _) (not_eq_sym N2));
    cbn [andb Z.eqb Pos.eqb Accelerometer MagneticField Orientation SignificantMotion];
    unfold Accelerometer, MagneticField, Orientation, SignificantMotion in *; cbn [Z.eqb Pos.eqb];
    rewrite Hc; rewrite Hon in *.
  1,2: destruct pre, b; destruct (on s 3) eqn:E3, (on s 0) eqn:E0.
  all: cbn in *; try (destruct b; cbn in *); try (split; [lia|]); set_solver.
Qed.
End invariant.

Section preservation.
Context `{SensorTypes} {pre : bool}.

(** The members that [enable] leaves alone. *)
Definition same_events (s s' : akm) : Prop :=
  mPendingMask s' = mPendingMask s ∧ mInputReader s' = mInputReader s ∧
  mPendingEvents s' = mPendingEvents s.

Lemma enable_inv lib handle en s :
  akm_inv pre s → akm_inv pre (enable lib handle en s).2 ∧ same_events s (enable lib handle en s).2.
Proof.
  intros Hs. pose proof Hs as (Hm & Hp & Hr & He & Hc).
  destruct (what_of_handle_range handle) as [Hw|Hw].
  { by rewrite unknown_handle. }
  rewrite enable_run by done. cbv zeta.
  destruct (eqb (truth en) (on s (what_of_handle handle))) eqn:Hon; [done|].
  break_if; [|done]. split; [|done]. cbn [snd].
  split; [by apply set_bit_ok|]. split; [done|]. split; [done|]. split; [done|].
  apply count_ok_enabled; [done..| |done].
  destruct (truth en), (on s (what_of_handle handle)); done.
Qed.

(** Disabling the significant-motion sensor leaves the others as they are. *)
Lemma disable_sm_on lib s j :
  akm_inv pre s → 0 <= j < 4 → on (enable lib ID_SM 0 s).2 j = true → on s j = true.
Proof.
  intros (Hm & _) Hj. rewrite enable_run by (done || vm_compute; intuition discriminate).
  cbv zeta. change (what_of_handle ID_SM) with 3. change (truth 0) with false.
  destruct (eqb false (on s 3)); [done|]. break_if; [|done]. cbn [snd].
  unfold on, enabled_state. cbn [mEnabled]. rewrite set_bit_testbit by (done || lia).
  by destruct (j =? 3).
Qed.

(** Changes of the mask and of the pending events keep the invariant. *)
Lemma mask_inv m s : mask_ok m → akm_inv pre s → akm_inv pre (with_mask m s).
Proof. by intros Hm (? & ? & ? & ? & ?). Qed.
Lemma reader_inv r s : reader_ok r → akm_inv pre s → akm_inv pre (with_akm_reader r s).
Proof. by intros Hr (? & ? & ? & ? & ?). Qed.
Lemma motion_inv v s : akm_inv pre s → akm_inv pre (with_motion v s).
Proof. by intros (? & ? & ? & ? & ?). Qed.
Lemma upd_event_inv i f s :
  (∀ e, ae_sensor (f e) = ae_sensor e) → akm_inv pre s → akm_inv pre (upd_event i f s).
Proof.
  intros Hf (? & ? & ? & He & ?). split; [done|]. split; [done|]. split; [done|].
  split; [|done]. rewrite <- He. apply list_eq. intros k.
  rewrite !list_lookup_fmap. cbn [upd_event mPendingEvents]. rewrite list_lookup_alter.
  case_decide as Hk; [subst k|done].
  destruct (mPendingEvents s !! Z.to_nat i) as [e|]; [cbn; f_equal; apply Hf|done].
Qed.
Lemma mark_inv i s : 0 <= i < 4 → akm_inv pre s → akm_inv pre (mark i s).
Proof. intros Hi Hs. apply mask_inv; [|done]. apply or_bit_ok; [apply Hs|done]. Qed.
#[local] Hint Resolve mask_inv reader_inv motion_inv upd_event_inv mark_inv : msm.

Lemma in_range_sensors :
  0 <= Accelerometer < 4 ∧ 0 <= MagneticField < 4 ∧ 0 <= Orientation < 4 ∧
  0 <= SignificantMotion < 4.
Proof. vm_compute. intuition discriminate. Qed.

Lemma processEvent_inv code value s :
  akm_inv pre s → akm_inv pre (processEvent code value s) ∧
    mInputReader (processEvent code value s) = mInputReader s ∧
    mEnabled (processEvent code value s) = mEnabled s.
Proof.
  intros Hs. destruct in_range_sensors as (Ra & Rm & Ro & Rs).
  unfold processEvent. repeat (break_if; [|]); (split; [|done]); eauto 8 with msm.
Qed.

(** A stored event is of an enabled sensor. *)
Definition from_enabled (s : akm) (e : akm_event) : Prop :=
  ∃ i, 0 <= i < 4 ∧ on s i = true ∧
    [ID_A; ID_M; ID_O; ID_SM] !! Z.to_nat i = Some (ae_sensor e).

Lemma from_enabled_mono s s' l :
  (∀ j, 0 <= j < 4 → on s' j = true → on s j = true) →
  Forall (from_enabled s') l → Forall (from_enabled s) l.
Proof.
  intros Hm Hl. eapply Forall_impl; [exact Hl|]. intros e (i & Hi & Ho & He). exists i. auto.
Qed.

(** The automatic disabling after a report. *)
Lemma auto_disable (b : bool) lib s :
  akm_inv pre s →
  let s' := if b then (enable lib ID_SM 0 s).2 else s in
  akm_inv pre s' ∧ same_events s s' ∧ ∀ k, 0 <= k < 4 → on s' k = true → on s k = true.
Proof.
  intros Hs s'. unfold s'. destruct b; [|by split; [|split]].
  destruct (enable_inv lib ID_SM 0 s Hs) as [? ?]. split; [done|]. split; [done|].
  intros k Hk. by apply disable_sm_on.
Qed.

(** What a run of the loops promises of the state and the events stored. *)
Definition run_post (pre : bool) (s : akm) (data : list akm_event) (s' : akm) : Prop :=
  akm_inv pre s' ∧ Forall (from_enabled s) data ∧ (∀ j, 0 <= j < 4 → on s' j = true → on s j = true).

Lemma run_post_refl s : akm_inv pre s → run_post pre s [] s.
Proof. intros Hs. split; [done|]. by split; [constructor|]. Qed.
Lemma run_post_app s1 s2 s3 d1 d2 :
  run_post pre s1 d1 s2 → run_post pre s2 d2 s3 → run_post pre s1 (d1 ++ d2) s3.
Proof.
  intros (_ & Hf1 & Hm1) (Hi & Hf2 & Hm2). split; [done|]. split; [|by auto].
  apply Forall_app. split; [done|]. by eapply from_enabled_mono.
Qed.
(** Consuming an event of the reader changes neither what runs nor who may report. *)
Lemma run_post_consumed r s s1 d s' :
  reader_ok r → akm_inv pre s1 → (∀ j, on s1 j = on s j) → run_post pre (with_akm_reader r s1) d s' → run_post pre s d s'.
Proof.
  intros Hr Hs1 Hon Hrun. eapply (run_post_app _ _ _ []); [|exact Hrun].
  split; [by apply reader_inv|]. split; [constructor|]. intros j _. rewrite <- Hon. done.
Qed.

(** The inner loop: also, the bits it went over are cleared unless [count]
    was used up. *)
Definition flush_post (pre : bool) (js : list nat) (s : akm) (count : nat)
    (res : nat * list akm_event * akm) : Prop :=
  let '(count', data, s') := res in
  run_post pre s data s' ∧ mInputReader s' = mInputReader s ∧ (length data + count' = count)%nat ∧
  (∀ j, 0 <= j < 4 → Z.testbit (mPendingMask s') j = true → Z.testbit (mPendingMask s) j = true) ∧
  (count' ≠ 0%nat → Forall (λ j, Z.testbit (mPendingMask s') (Z.of_nat j) = false) js).

Lemma flush_post_cons j js s s1 out count count1 res :
  (j < 4)%nat → run_post pre s out s1 → mInputReader s1 = mInputReader s →
  (length out + count1)%nat = count →
  (∀ k, 0 <= k < 4 → Z.testbit (mPendingMask s1) k = true →
     Z.testbit (mPendingMask s) k = true ∧ k ≠ Z.of_nat j) →
  flush_post pre js s1 count1 res →
  flush_post pre (j :: js) s count (res.1.1, out ++ res.1.2, res.2).
Proof.
  intros Hj Hrun Hrd Hlen Hmask. destruct res as [[c' d] s']. cbn [fst snd].
  intros (Hrun' & Hrd' & Hlen' & Hmono & Hrest). split; [by eapply run_post_app|].
  split; [congruence|]. split; [rewrite length_app; lia|]. split.
  - intros k Hk Hb. by apply Hmask, Hmono.
  - intros Hne. constructor; [|by apply Hrest].
    destruct (Z.testbit (mPendingMask s') (Z.of_nat j)) eqn:Hb; [|done].
    apply Hmono in Hb; [|lia]. apply Hmask in Hb as [_ ?]; [done|lia].
Qed.

(** The report of sensor [j], its bit cleared. *)
Lemma report_spec time j s :
  akm_inv pre s → (j < 4)%nat →
  let s1 := upd_event (Z.of_nat j) (put_time time)
    (with_mask (clear_bit (Z.of_nat j) (mPendingMask s)) s) in
  run_post pre s [] s1 ∧
  (on s (Z.of_nat j) = true → ∃ e, mPendingEvents s1 !! j = Some e ∧ from_enabled s e) ∧
  (∀ k, 0 <= k < 4 → Z.testbit (mPendingMask s1) k = true →
     Z.testbit (mPendingMask s) k = true ∧ k ≠ Z.of_nat j).
Proof.
  intros Hs Hj s1. pose proof Hs as (Hm & Hp & Hr & Hev & Hc).
  assert (akm_inv pre s1) as Hs1.
  { apply upd_event_inv; [done|]. apply mask_inv; [apply clear_bit_ok; [done|lia]|done]. }
  split; [split; [done|]; by split; [constructor|]|]. split.
  - intros Hon. destruct (lookup_lt_is_Some_2 (mPendingEvents s1) j) as [e Ee].
    { assert (length (mPendingEvents s1) = 4%nat) as ->; [|done].
      destruct Hs1 as (_&_&_&Hl&_). apply (f_equal length) in Hl. by rewrite length_fmap in Hl. }
    exists e. split; [done|]. exists (Z.of_nat j). split; [lia|]. split; [done|].
    rewrite Nat2Z.id. destruct Hs1 as (_&_&_&<-&_). by rewrite list_lookup_fmap, Ee.
  - intros k Hk. cbn [s1 upd_event with_mask mPendingMask].
    rewrite clear_bit_testbit by (done || lia). destruct (Z.eqb_spec k (Z.of_nat j)); done.
Qed.

Lemma flush_pending_spec lib time js count s :
  akm_inv pre s → Forall (λ j, (j < 4)%nat) js →
  flush_post pre js s count (flush_pending lib time js count s).
Proof.
  revert count s. induction js as [|j js IH]; intros count s Hs Hjs; cbn [flush_pending].
  { split; [by apply run_post_refl|]. by split; [|split; [|split]]. }
  apply Forall_cons in Hjs as [Hj Hjs]. pose proof Hs as (Hm & Hp & _).
  destruct ((count =? 0)%nat || negb (truth (mPendingMask s))) eqn:Hstop.
  { split; [by apply run_post_refl|]. split; [done|]. split; [done|]. split; [done|].
    intros Hne. apply orb_true_iff in Hstop as [Hz|Hz]; [by apply Nat.eqb_eq in Hz|].
    unfold truth in Hz. rewrite negb_involutive in Hz. apply Z.eqb_eq in Hz. rewrite Hz.
    apply Forall_true. intros k. apply Z.testbit_0_l. }
  apply orb_false_iff in Hstop as [Hz _]. apply Nat.eqb_neq in Hz.
  rewrite has_bit_testbit by (done || lia).
  destruct (Z.testbit (mPendingMask s) (Z.of_nat j)) eqn:Hbit.
  2: { specialize (IH count s Hs Hjs).
       apply (flush_post_cons j js s s [] count) in IH; cbn [length app] in IH |- *;
         [by destruct (flush_pending lib time js count s) as [[? ?] ?]|done|by apply run_post_refl
         |done|done|].
       intros k Hk Hb. split; [done|]. intros ->. congruence. }
  destruct (report_spec time j s Hs Hj) as (Hrun & Hrep & Hmask).
  set (s1 := upd_event _ _ _) in *. pose proof Hrun as (Hs1 & _ & Hon1).
  rewrite has_bit_testbit by (apply Hs1 || lia). fold (on s1 (Z.of_nat j)).
  change (on s1 (Z.of_nat j)) with (on s (Z.of_nat j)).
  destruct (on s (Z.of_nat j)) eqn:Hon.
  - destruct (Hrep eq_refl) as (e & -> & He).
    pose proof (auto_disable (has_bit (mEnabled s1) SignificantMotion &&
      (Z.of_nat j =? SignificantMotion)) lib s1 Hs1) as Hd. cbv zeta in Hd.
    set (s2 := if _ : bool then _ else s1) in *. destruct Hd as (Hs2 & (Hm2 & Hr2 & _) & Hon2).
    specialize (IH (pred count) s2 Hs2 Hjs). 
    apply (flush_post_cons j js s s2 [e] count) in IH; cbn [length app] in IH |- *;
      [by destruct (flush_pending lib time js (pred count) s2) as [[? ?] ?]|done| |done|cbn; lia|].
    + split; [done|]. split; [by constructor|]. intros k Hk Ho. by apply Hon1, Hon2.
    + rewrite Hm2. exact Hmask.
  - specialize (IH count s1 Hs1 Hjs).
    apply (flush_post_cons j js s s1 [] count) in IH; cbn [length app] in IH |- *;
      [by destruct (flush_pending lib time js count s1) as [[? ?] ?]|done..].
Qed.
End preservation.

Section calls.
Context `{SensorTypes} {pre : bool}.

Definition akm_queue (s : akm) : list input_event := contents (mInputReader s).

Lemma flush_all lib time count s :
  akm_inv pre s →
  ∃ c' d s', flush_pending lib time (seq 0 4) count s = (c', d, s') ∧ run_post pre s d s' ∧
    mInputReader s' = mInputReader s ∧ (length d + c')%nat = count ∧
    (c' = 0%nat ∨ truth (mPendingMask s') = false).
Proof.
  intros Hs. pose proof (flush_pending_spec lib time (seq 0 4) count s Hs) as Hf.
  destruct (flush_pending lib time (seq 0 4) count s) as [[c' d] s'].
  destruct Hf as (Hrun & Hr & Hl & _ & Hz); [apply Forall_forall; intros j Hj%elem_of_seq; lia|].
  exists c', d, s'. split; [done|]. split; [done|]. split; [done|]. split; [done|].
  destruct (decide (c' = 0)%nat) as [|Hne]; [by left|right].
  specialize (Hz Hne). assert (mPendingMask s' = 0) as ->; [|done].
  apply mask_zero; [apply Hrun|]. intros j Hj. rewrite Forall_forall in Hz.
  rewrite <- (Z2Nat.id j) by lia. apply Hz, elem_of_seq. lia.
Qed.

Lemma akm_loop_spec lib clock fuel count s :
  akm_inv pre s → (length (akm_queue s) <= fuel)%nat →
  ∃ c' data s', akm_loop lib clock fuel count s = Some (c', data, s') ∧
    run_post pre s data s' ∧ (length data + c')%nat = count ∧ (c' ≠ 0%nat → akm_queue s' = []).
Proof.
  revert count s. induction fuel as [|fuel IH]; intros count s Hs Hf;
    pose proof Hs as (_ & _ & Hr & _); pose proof (readEvent_spec _ Hr) as He;
    fold (akm_queue s) in He; cbn [akm_loop];
    (destruct (Nat.eqb_spec count 0) as [Hc|Hc];
      [eexists _, [], s; split; [done|]; by split; [apply run_post_refl|]|]);
    destruct (readEvent (mInputReader s)) as [p n]; cbn [fst snd] in He;
    destruct (akm_queue s) as [|e q] eqn:Hq;
    try (subst n; eexists _, [], s; split; [done|]; by split; [apply run_post_refl|]).
  { cbn in Hf. lia. }
  destruct He as [-> Hp]. cbn [Z.eqb]. rewrite Hp. cbn [mbind option_bind].
  destruct (next_spec _ _ _ Hr Hq) as [Hok' Hq']. cbn in Hf.
  destruct (ev_type e =? EV_REL); [|destruct (ev_type e =? EV_SYN)].
  - destruct (processEvent_inv (ev_code e) (ev_value e) s Hs) as (Hs1 & Hr1 & He1). rewrite Hr1.
    destruct (IH count (with_akm_reader (next (mInputReader s))
      (processEvent (ev_code e) (ev_value e) s))) as (c' & data & s' & E & Hrun & Hl & Hem).
    { by apply reader_inv. } { unfold akm_queue. cbn [with_akm_reader mInputReader]. rewrite Hq'. lia. }
    exists c', data, s'. split; [exact E|]. split; [|done].
    apply (run_post_consumed _ _ _ _ _ Hok' Hs1); [|exact Hrun]. intros j. unfold on. by rewrite He1.
  - destruct (flush_all lib (clock fuel) count s Hs) as (c1 & d1 & s1 & E1 & Hrun1 & Hr1 & Hl1 & Hz).
    rewrite E1. pose proof Hrun1 as (Hs1 & _ & Hon1). destruct Hz as [->|Hz].
    + set (s2 := if negb _ then _ else s1).
      assert (run_post pre s d1 s2) as Hrun2.
      { rewrite <- (app_nil_r d1). eapply run_post_app; [exact Hrun1|]. unfold s2.
        break_if; [|by apply run_post_refl].
        split; [apply reader_inv; [by rewrite Hr1|done]|]. by split; [constructor|]. }
      exists 0%nat, d1, s2. split; [by destruct fuel; cbn; rewrite app_nil_r|]. done.
    + rewrite Hz, Hr1. cbn [negb].
      destruct (IH c1 (with_akm_reader (next (mInputReader s)) s1))
        as (c' & data & s' & E & Hrun & Hl & Hem).
      { by apply reader_inv. } { unfold akm_queue. cbn [with_akm_reader mInputReader]. rewrite Hq'. lia. }
      rewrite E. cbn [mbind option_bind]. exists c', (d1 ++ data), s'. split; [done|].
      split; [|split; [rewrite length_app; lia|done]].
      eapply run_post_app; [exact Hrun1|]. by apply (run_post_consumed _ _ _ _ _ Hok' Hs1).
  - destruct (IH count (with_akm_reader (next (mInputReader s)) s))
      as (c' & data & s' & E & Hrun & Hl & Hem).
    { by apply reader_inv. } { unfold akm_queue. cbn [with_akm_reader mInputReader]. rewrite Hq'. lia. }
    exists c', data, s'. split; [exact E|]. split; [|done]. by apply (run_post_consumed _ _ _ _ _ Hok' Hs).
Qed.

(** The construction. *)
Lemma init_member_inv `{SensorIo} code i f s :
  (∀ v e, ae_sensor (f v e) = ae_sensor e) → akm_inv pre s → akm_inv pre (init_member code i f s).
Proof. intros Hf Hs. unfold init_member. case_match; [by apply upd_event_inv|done]. Qed.

Lemma init_enable w s :
  w = MagneticField ∨ w = Orientation → akm_inv pre s → on s w = false →
  akm_inv pre (with_hw ({[sensor_type_of w]} ∪ hw s) (with_akm_enabled (Z.lor (mEnabled s) (bit w)) s)).
Proof.
  intros Hw Hs Hon. pose proof Hs as (Hm & Hp & Hr & He & Hc).
  assert (0 <= w < 4) as Hr4 by (destruct Hw as [->| ->]; vm_compute; intuition discriminate).
  assert (Z.lor (mEnabled s) (bit w) = set_bit true w (mEnabled s)) as ->.
  { revert Hm Hr4. generalize (mEnabled s) as m. intros m. clear. revert m w.
    by_masks (λ m i, Z.lor m (bit i) = set_bit true i m). }
  split; [by apply set_bit_ok|]. split; [done|]. split; [done|]. split; [done|].
  pose proof (count_ok_enabled pre w true s Hm Hr4 Hon Hc) as Hok.
  destruct types_ne as (N1 & N2 & _).
  assert ((sensor_type_of w =? SENSOR_TYPE_ACCELEROMETER) = false) as Hna.
  { apply Z.eqb_neq. destruct Hw as [->| ->]; cbn; congruence. }
  unfold enabled_state, shared in Hok. rewrite Hna in Hok. exact Hok.
Qed.
End calls.

Section life.
Context `{SensorTypes} {pre : bool}.

Lemma init_member_enabled `{SensorIo} code i f s :
  mEnabled (init_member code i f s) = mEnabled s.
Proof. unfold init_member. by case_match. Qed.

(** Telling the library to stop another sensor changes nothing counted. *)
Lemma disable_other lib t s :
  t = SENSOR_TYPE_TEMPERATURE → akm_inv pre s → akm_inv pre (lib_disable lib t s).2.
Proof.
  intros -> Hs. unfold lib_disable. cbn [snd]. break_if; [|done].
  destruct Hs as (? & ? & ? & ? & Hc & Ha & Hm & Ho).
  pose proof sensor_types_distinct as Hd. rewrite !NoDup_cons in Hd.
  repeat (split; [done|]). cbn [with_hw hw]. unfold on in *. cbn [mEnabled with_hw].
  split; [|split]; set_solver.
Qed.

End life.

Section construction.
Context `{SensorTypes}.

(** The library says that the accelerometer runs. *)
Definition acc_reported (dl : option akm_lib) : bool :=
  match dl with Some lib => akm_is_sensor_enabled lib SENSOR_TYPE_ACCELEROMETER | None => false end.

Lemma new_AkmSensor_inv `{SensorIo} dl junk delays :
  length junk = 64%nat → akm_inv (acc_reported dl) (new_AkmSensor dl junk delays).
Proof.
  intros Hj. unfold new_AkmSensor. cbv zeta.
  set (s0 := Akm 0 0 _ 0 0 _ _ delays ∅).
  assert (akm_is_sensor_enabled (functions (default stub_lib dl) s0) SENSOR_TYPE_ACCELEROMETER
    = acc_reported dl) as ->.
  { by destruct dl. }
  apply disable_other; [done|].
  match goal with |- akm_inv ?b (if _ then init_member _ _ _ (init_member _ _ _ (init_member _ _ _
      (init_member _ _ _ (with_hw ({[_]} ∪ hw ?s) _)))) else _) =>
      assert (akm_inv b s ∧ on s Orientation = false) as [H1 Hon]; [|revert H1 Hon; generalize s]
  end.
  - match goal with |- akm_inv ?b (if _ then init_member _ _ _ (init_member _ _ _ (init_member _ _ _
        (with_hw ({[_]} ∪ hw ?s) _))) else _) ∧ _ =>
        assert (akm_inv b s ∧ on s Orientation = false ∧ on s MagneticField = false)
          as (H1 & Hono & Honm); [|revert H1 Hono Honm; generalize s]
    end.
    + assert (∀ b e h, e = (if b : bool then 1 else 0) →
        h = (if b then {[SENSOR_TYPE_ACCELEROMETER]} else ∅ : gset Z) →
        akm_inv b (with_hw h (with_akm_enabled e s0))) as Hbase.
      { intros b e h -> ->. destruct types_ne as (? & ? & ? & _).
        destruct b; (split; [done|]; split; [done|];
          split; [by apply reader_start_ok; [lia|]|]; split; [done|]; split; [done|];
          cbn; split; [split|split]; set_solver). }
      destruct (acc_reported dl).
      * split; [|by unfold on; rewrite !init_member_enabled].
        do 3 (apply init_member_inv; [done|]).
        apply (Hbase true); [done|]. cbn [hw s0]. by rewrite (right_id_L ∅ (∪)).
      * split; [|done]. by apply (Hbase false 0 ∅).
    + intros s1 H1 Hono Honm. break_if; [|done].
      split; [|by unfold on; rewrite !init_member_enabled; cbn [mEnabled with_hw with_akm_enabled];
               rewrite Z.lor_spec; unfold on in Hono; rewrite Hono].
      do 3 (apply init_member_inv; [done|]). by apply (init_enable MagneticField); [left|..].
  - intros s1 H1 Hon. break_if; [|done].
    do 4 (apply init_member_inv; [done|]). by apply (init_enable Orientation); [right|..].
Qed.
End construction.

Section sessions.
Context `{SensorTypes} {pre : bool}.

(** ** Sessions *)

(** A driver just constructed, whatever library loads, the kernel answers and
    the memory held; [pre] tells whether the library reported the
    accelerometer running. *)
Definition akm_init (pre : bool) (s : akm) : Prop :=
  ∃ (io : SensorIo) dl junk delays,
    s = new_AkmSensor dl junk delays ∧ length junk = 64%nat ∧ pre = acc_reported dl.

(** A call, whatever the library, the kernel and the clock answer. *)
Inductive akm_step (s : akm) : akm → Prop :=
| step_enable lib handle en : akm_step s (enable lib handle en s).2
| step_setDelay ecs handle ns ret s' : setDelay ecs handle ns s = Some (ret, s') → akm_step s s'
| step_readEvents lib clock ans count ret data s' :
    answer_ok (mFreeSpace (mInputReader s)) ans →
    readEvents lib clock [ans] count s = Some (ret, data, s') → akm_step s s'.

Lemma setDelay_same ecs handle ns s ret s' : setDelay ecs handle ns s = Some (ret, s') → s' = s.
Proof. unfold setDelay. repeat (break_if; [congruence|]). done. Qed.

Lemma readEvents_run lib clock ans count s :
  akm_inv pre s → answer_ok (mFreeSpace (mInputReader s)) ans → 1 <= count →
  ∃ ret data s', readEvents lib clock [ans] count s = Some (ret, data, s') ∧
    run_post pre s data s' ∧ Z.of_nat (length data) <= count ∧
    let n := (fill_result ans (mFreeSpace (mInputReader s)) (akm_queue s)).1 in
    (n < 0 → ret = n ∧ data = []) ∧
    (0 <= n → ret = Z.of_nat (length data) ∧ (Z.of_nat (length data) < count → akm_queue s' = [])).
Proof.
  intros Hs Ha Hc. pose proof Hs as (_ & _ & Hr & _). unfold readEvents.
  destruct (Z.ltb_spec count 1); [lia|].
  destruct (fill_spec _ ans Hr Ha) as (n & r & E & Hr' & Hn & Hf).
  assert (∃ l, fill_next [ans] (mInputReader s) = Some (n, r, l)) as (l & El).
  { unfold fill_next. destruct (Nat.eqb_spec (mFreeSpace (mInputReader s)) 0) as [Hz|Hz].
    - unfold fill in E. rewrite Hz in E. injection E as <- <-. by eexists.
    - rewrite E. by eexists. }
  rewrite El. cbn [mbind option_bind]. fold (akm_queue s) in Hf. rewrite Hf. cbn [fst].
  assert (akm_inv pre (with_akm_reader r s)) as Hs1 by by apply reader_inv.
  assert (run_post pre s [] (with_akm_reader r s)) as Hrun1 by (split; [done|]; by split; [constructor|]).
  destruct (Z.ltb_spec n 0).
  { exists n, [], (with_akm_reader r s). split; [done|]. split; [done|]. split; [cbn; lia|]. split; [done|lia]. }
  destruct (akm_loop_spec lib clock (S (available r)) (Z.to_nat count) _ Hs1)
    as (c' & data & s' & E2 & Hrun & Hl & Hem).
  { unfold akm_queue. cbn [with_akm_reader mInputReader]. rewrite contents_length by done. lia. }
  rewrite E2. cbn [mbind option_bind]. exists (Z.of_nat (length data)), data, s'.
  split; [done|]. split; [by eapply (run_post_app _ _ _ [])|]. split; [lia|].
  split; [lia|]. intros _. split; [done|]. intros Hlt. apply Hem. lia.
Qed.

Lemma akm_reachable_inv s : reachable akm_step (akm_init pre) s → akm_inv pre s.
Proof.
  apply invariant_reachable.
  - intros ? (io & dl & junk & delays & -> & Hj & ->). by apply new_AkmSensor_inv.
  - intros s0 s1 Hs Hstep. destruct Hstep as [lib handle en|ecs handle ns ret s' E|lib clock ans count ret data s' Ha E].
    + by apply enable_inv.
    + by apply setDelay_same in E as ->.
    + destruct (Z.ltb_spec count 1) as [Hc|Hc].
      { unfold readEvents in E. destruct (Z.ltb_spec count 1); [congruence|lia]. }
      destruct (readEvents_run lib clock ans count s0 Hs Ha Hc) as (? & ? & ? & E' & Hrun & _).
      rewrite E in E'. injection E' as <- <- <-. apply Hrun.
Qed.
End sessions.

(** ** Properties *)

(** C36: however enabling, disabling, one-shot disabling and library failures
    follow each other after the construction of a driver whose library did not
    report the accelerometer running ([pre] is false), the counter of the
    accelerometer is the number of its enabled users (itself and the
    significant-motion sensor) and the accelerometer runs exactly while one of
    them is enabled.  If the library did report it ([pre] is true), the
    constructor marks the sensor enabled without counting it: the counter stays
    one below the number of users, the accelerometer runs when both are enabled
    and not when none is, and with one of them it may have stopped.  In both
    cases the two other sensors run exactly while they are enabled, and a call
    to [enable] answers 0 with the sensor in the wanted state and the others
    unchanged, or an error with nothing changed. *)
Theorem akm_counts_users `{SensorTypes} pre s (Hr : reachable akm_step (akm_init pre) s) :
  (mAccRefCount s = b2i (on s Accelerometer) + b2i (on s SignificantMotion) - b2i pre ∧
   ((SENSOR_TYPE_ACCELEROMETER ∈ hw s → on s Accelerometer || on s SignificantMotion) ∧
    ((if pre then on s Accelerometer && on s SignificantMotion
      else on s Accelerometer || on s SignificantMotion) → SENSOR_TYPE_ACCELEROMETER ∈ hw s)) ∧
   (SENSOR_TYPE_MAGNETIC_FIELD ∈ hw s ↔ on s MagneticField) ∧
   (SENSOR_TYPE_ORIENTATION ∈ hw s ↔ on s Orientation)) ∧
  (∀ lib handle en,
     let w := what_of_handle handle in
     let '(err, s') := enable lib handle en s in
     (err ≠ 0 ∧ s' = s) ∨
     (err = 0 ∧ ∀ j, 0 <= j < 4 → on s' j = if j =? w then truth en else on s j)).
Proof.
  apply akm_reachable_inv in Hr. split; [apply Hr|].
  intros lib handle en. cbv zeta. pose proof Hr as (Hm & _).
  destruct (what_of_handle_range handle) as [Hw|Hw].
  { rewrite unknown_handle by done. left. split; [done|done]. }
  rewrite enable_run by done. cbv zeta.
  destruct (eqb (truth en) (on s (what_of_handle handle))) eqn:He.
  { right. split; [done|]. intros j Hj. apply eqb_prop in He.
    destruct (Z.eqb_spec j (what_of_handle handle)) as [->|]; done. }
  break_if.
  - right. split; [done|]. intros j Hj. unfold on, enabled_state. cbn [mEnabled].
    by apply set_bit_testbit.
  - left. split; [by apply Z.eqb_neq|done].
Qed.

(** a call of [readEvents] in a reachable state, whatever the read yields
    within what it asks for, stores at most [count] events, all of sensors
    that are enabled, and returns their number, or stores nothing and returns
    the error of the read; unless [count] was the limit every input event it
    held is consumed. *)
Theorem akm_readEvents_spec `{SensorTypes} pre s lib clock ans count
    (Hr : reachable akm_step (akm_init pre) s) (Ha : answer_ok (mFreeSpace (mInputReader s)) ans)
    (Hc : 1 <= count) :
  ∃ ret data s', readEvents lib clock [ans] count s = Some (ret, data, s') ∧
    Z.of_nat (length data) <= count ∧ Forall (from_enabled s) data ∧
    let n := (fill_result ans (mFreeSpace (mInputReader s)) (akm_queue s)).1 in
    (n < 0 → ret = n ∧ data = []) ∧
    (0 <= n → ret = Z.of_nat (length data) ∧ (Z.of_nat (length data) < count → akm_queue s' = [])).
Proof.
  apply akm_reachable_inv in Hr.
  destruct (readEvents_run lib clock ans count s Hr Ha Hc) as (ret & data & s' & E & Hrun & Hl & Hn).
  exists ret, data, s'. split; [done|]. split; [done|]. split; [apply Hrun|done].
Qed.

(** ** Findings *)

(** Setting the delay of a sensor stores it in front of the array. *)
Lemma setDelay_out_of_bounds `{SensorTypes} ecs ns s :
  0 <= ns → setDelay ecs ID_A ns s = None.
Proof.
  intros Hns. unfold setDelay. destruct (Z.ltb_spec ns 0); [lia|].
  cbn [Z.eqb ID_A ID_SM]. destruct types_ne as (_ & _ & _ & Hne).
  by destruct (Z.eqb_spec SENSOR_TYPE_ACCELEROMETER 0).
Qed.

(** ** Witnesses *)

#[local] Instance demo_types : SensorTypes.
Proof.
  refine {| SENSOR_TYPE_ACCELEROMETER := 1; SENSOR_TYPE_MAGNETIC_FIELD := 2;
    SENSOR_TYPE_ORIENTATION := 3; SENSOR_TYPE_TEMPERATURE := 7; SENSOR_STATUS_ACCURACY_HIGH := 3;
    GRAVITY_EARTH := float_of_int 10; ENODEV := 19 |}.
  - apply (bool_decide_unpack _). vm_compute. exact I.
  - lia.
Defined.

Definition demo_lib (running : bool) : akm_lib := AkmLib (λ _, running) (λ _, 0) (λ _, 0).
Definition demo_akm (running : bool) : akm :=
  new_AkmSensor (H0 := demo_io) (Some (demo_lib running)) (replicate 64 (syn_event 0)) [0; 0; 0; 0].
Definition demo_on : akm :=
  (enable (demo_lib false) ID_SM 1 (enable (demo_lib false) ID_A 1 (demo_akm false)).2).2.

(** A library that runs the accelerometer already is not counted: switching
    it off brings the counter below zero, *)
Lemma running_accelerometer_miscounted :
  mAccRefCount (enable (demo_lib true) ID_A 0 (demo_akm true)).2 = -1.
Proof. vm_compute. reflexivity. Qed.

(** and switching it off while the significant-motion sensor uses it stops it. *)
Lemma running_accelerometer_stops_early :
  let s := (enable (demo_lib true) ID_A 0
             (enable (demo_lib true) ID_SM 1 (demo_akm true)).2).2 in
  on s SignificantMotion = true ∧ bool_decide (SENSOR_TYPE_ACCELEROMETER ∈ hw s) = false.
Proof. vm_compute. by split. Qed.

Lemma demo_akm_init running : akm_init running (demo_akm running).
Proof.
  exists demo_io, (Some (demo_lib running)), (replicate 64 (syn_event 0)), [0; 0; 0; 0].
  by split; [|split].
Qed.
Lemma demo_on_reachable : reachable akm_step (akm_init false) demo_on.
Proof.
  exists (demo_akm false). split; [apply demo_akm_init|].
  eapply rtc_l; [apply (step_enable _ (demo_lib false) ID_A 1)|].
  eapply rtc_l; [apply (step_enable _ (demo_lib false) ID_SM 1)|]. apply rtc_refl.
Qed.

Lemma akm_counts_users_witness :
  (mAccRefCount demo_on = 2 ∧ SENSOR_TYPE_ACCELEROMETER ∈ hw demo_on) ∧
  (mAccRefCount (demo_akm true) = 0 ∧ on (demo_akm true) Accelerometer = true).
Proof.
  destruct (akm_counts_users false demo_on demo_on_reachable) as [(Hc & (_ & Ha) & _) _].
  assert (reachable akm_step (akm_init true) (demo_akm true)) as Hr.
  { exists (demo_akm true). split; [apply demo_akm_init|apply rtc_refl]. }
  destruct (akm_counts_users true (demo_akm true) Hr) as [(Hc' & _) _].
  split; split.
  - rewrite Hc. vm_compute. reflexivity.
  - apply Ha. vm_compute. exact I.
  - rewrite Hc'. vm_compute. reflexivity.
  - vm_compute. reflexivity.
Defined.

(** A vertical jolt: an acceleration and a motion report. *)
Definition demo_jolt : read_answer :=
  ReadData [InputEvent (0, 0) EV_REL EVENT_TYPE_ACCEL_Z 720; syn_event 1] None.

Lemma akm_readEvents_spec_witness :
  ∃ data s', readEvents (demo_lib false) (λ _, 5) [demo_jolt] 8 demo_on = Some (2, data, s') ∧
    akm_queue s' = [].
Proof.
  destruct (akm_readEvents_spec false demo_on (demo_lib false) (λ _, 5) demo_jolt 8 demo_on_reachable)
    as (ret & data & s' & E & Hl & _ & _ & Hn).
  - vm_compute. lia.
  - lia.
  - destruct Hn as [Hret Hem]; [vm_compute; intuition discriminate|].
    assert (ret = 2) as -> by (vm_compute in E; by injection E as <- _ _).
    exists data, s'. split; [exact E|]. apply Hem. lia.
Defined.
