(* ===== verification/SensorsPoll.v ===== *)
(** * The sensors HAL: libsensors/sensors.cpp

    The poll context holds four drivers behind the virtual functions of
    [SensorBase]: the class [Driver] is that interface, with the bounds the
    context relies on, and an object is a state packed with its driver.  The
    answers of [poll] and, call by call, of [read] are arguments. *)

From Stdlib Require Import String.
From S2P Require Import Prelude InputReader Sensors Akm.
Local Open Scope Z_scope.

(** An event of any driver. *)
Definition event : Type := sensors_event + akm_event.

(** [read] answers with whole events. *)
Definition clean (ans : read_answer) : Prop :=
  match ans with ReadData _ None => True | _ => False end.

(** ** The interface

    The virtual functions, the writes an object has made to the sysfs nodes
    ([drv_writes]), the node that switches its hardware ([drv_node]), whether
    it last switched it on ([drv_on]), whether the node can be opened and takes
    what is written at the moment ([drv_stoppable]), and an invariant; the laws
    bound the events stored, say that the invariant is kept and what a
    destructor writes. *)

Class Driver (S : Type) := {
  drv_readEvents : list read_answer → Z → S → option (Z * list event * S);
  drv_hasPendingEvents : S → bool;
  drv_enable : Z → Z → S → Z * S;
  drv_setDelay : Z → Z → S → option (Z * S);   (* [None]: out of bounds *)
  drv_delete : S → S;                          (* the destructor of the class *)
  drv_writes : S → list node_write;
  drv_node : S → string;
  drv_on : S → bool;
  drv_stoppable : S → bool;
  drv_ok : S → Prop;
  drv_readEvents_bounds answers count s nb data s' :
    1 <= count → drv_readEvents answers count s = Some (nb, data, s') →
    Z.of_nat (length data) <= count ∧ nb <= Z.of_nat (length data) ∧
    (Forall clean answers → 0 <= nb);
  drv_readEvents_ok answers count s nb data s' :
    drv_ok s → drv_readEvents answers count s = Some (nb, data, s') → drv_ok s';
  drv_enable_ok handle en s : drv_ok s → drv_ok (drv_enable handle en s).2;
  drv_setDelay_ok handle ns s ret s' :
    drv_ok s → drv_setDelay handle ns s = Some (ret, s') → drv_ok s';
  drv_delete_nodes s nodes :
    drv_ok s →
    play (drop (length (drv_writes s)) (drv_writes (drv_delete s))) nodes =
      if drv_on s && drv_stoppable s then <[drv_node s := off_data]> nodes else nodes
}.

(** A pointer to a [SensorBase]. *)
Record SensorBase := AnySensor {
  sb_type : Type;
  sb_driver : Driver sb_type;
  sb_state : sb_type
}.

(** ** The implementations keep the interface's promise *)

Lemma fill_clean ans r n r' : clean ans → fill ans r = Some (n, r') → 0 <= n.
Proof.
  unfold fill. intros Hc E. destruct (mFreeSpace r =? 0)%nat; [injection E as <- <-; done|].
  destruct ans as [|evs [|]]; [done|done|].
  destruct (store _ _ _) as [buf|]; [|done]. cbn [mbind option_bind] in E.
  destruct (length evs =? 0)%nat; [injection E as <- <-; done|].
  destruct (_ <? _)%nat; [|injection E as <- <-; lia].
  destruct (fetch _ _ _); [|done]. cbn [mbind option_bind] in E.
  destruct (store _ _ _); [|done]. cbn [mbind option_bind] in E. injection E as <- <-. lia.
Qed.

Lemma fill_next_clean answers r n r' rest :
  fill_next answers r = Some (n, r', rest) → Forall clean answers → 0 <= n.
Proof.
  unfold fill_next. destruct (mFreeSpace r =? 0)%nat; [intros [= <- <- <-]; done|].
  destruct answers as [|ans answers]; [done|]. intros E [Hc _]%Forall_cons.
  destruct (fill ans r) as [[m r1]|] eqn:Ef; [|done]. cbn in E. injection E as <- _ _.
  by eapply fill_clean.
Qed.

Lemma event_loop_bound d fuel count s c' data s' :
  event_loop d fuel count s = Some (c', data, s') → (length data + c' <= count)%nat.
Proof.
  revert count s c' data s'. induction fuel as [|fuel IH]; intros count s c' data s';
    cbn [event_loop]; (destruct (Nat.eqb_spec count 0); [intros [= <- <- <-]; cbn; lia|]);
    destruct (readEvent _) as [p n']; (destruct (n' =? 0); [intros [= <- <- <-]; cbn; lia|]); [done|].
  destruct (_ !! p) as [e|]; [|done]. cbn [mbind option_bind].
  pose proof (on_event_stored d e s) as Hst. destruct (on_event d e s) as [[s1 dec] out].
  destruct (event_loop _ _ _ _) as [[[c1 d1] s2]|] eqn:E; [|done]. cbn [mbind option_bind fst snd] in *.
  apply IH in E. intros [= <- <- <-]. rewrite length_app. destruct out as [x|].
  - rewrite Hst in E by by eexists. cbn. lia.
  - destruct dec; cbn; lia.
Qed.

Lemma gyro_again_bound answers count s data s' :
  gyro_again answers count s = Some (data, s') → (length data <= count)%nat.
Proof.
  revert count s. induction answers as [|ans answers IH]; intros count s; cbn [gyro_again];
    (destruct (event_loop _ _ _ _) as [[[c1 d1] s1]|] eqn:E; [|done]);
    cbn [mbind option_bind]; apply event_loop_bound in E;
    (break_if; [|intros [= <- <-]; lia]); (break_if; [intros [= <- <-]; lia|]); [done|].
  destruct (fill ans _) as [[n r]|]; [|done]. cbn [mbind option_bind].
  break_if; [|intros [= <- <-]; lia]. intros Hg%IH. lia.
Qed.

Lemma readEvents_bound `{SensorIo} d answers count s nb data s' :
  1 <= count → Sensors.readEvents d answers count s = Some (nb, data, s') →
  Z.of_nat (length data) <= count ∧ nb <= Z.of_nat (length data) ∧ (Forall clean answers → 0 <= nb).
Proof.
  intros Hc. unfold Sensors.readEvents. destruct (Z.ltb_spec count 1); [lia|].
  break_if; [intros [= <- <- <-]; cbn; break_if; lia|].
  destruct (fill_next _ _) as [[[n r] rest]|] eqn:Ef; [|done]. cbn [mbind option_bind].
  destruct (Z.ltb_spec n 0).
  { intros [= <- <- <-]. cbn. split; [lia|]. split; [lia|]. intros Hcl.
    by apply fill_next_clean in Ef. }
  destruct d; cbn [mbind option_bind].
  1,2: destruct (event_loop _ _ _ _) as [[[c1 d1] s1]|] eqn:El; [|done]; cbn [mbind option_bind];
    intros [= <- <- <-]; apply event_loop_bound in El; lia.
  destruct (gyro_again _ _ _) as [[d1 s1]|] eqn:El; [|done]. cbn [mbind option_bind].
  intros [= <- <- <-]. apply gyro_again_bound in El. lia.
Qed.

Lemma flush_pending_bound `{SensorTypes} lib time js count s c' data s' :
  flush_pending lib time js count s = (c', data, s') → (length data + c' <= count)%nat.
Proof.
  revert count s c' data s'. induction js as [|j js IH]; intros count s c' data s'; cbn [flush_pending].
  { intros [= <- <- <-]. cbn. lia. }
  destruct (Nat.eqb_spec count 0); cbn [orb]; [intros [= <- <- <-]; cbn; lia|].
  break_if; [intros [= <- <- <-]; cbn; lia|]. break_if; [|apply IH]. break_if; [|apply IH].
  destruct (flush_pending _ _ _ _ _) as [[c1 d1] s1] eqn:El. apply IH in El.
  intros [= <- <- <-]. rewrite length_app. destruct (_ !! j); cbn; lia.
Qed.

Lemma akm_loop_bound `{SensorTypes} lib clock fuel count s c' data s' :
  akm_loop lib clock fuel count s = Some (c', data, s') → (length data + c' <= count)%nat.
Proof.
  revert count s c' data s'. induction fuel as [|fuel IH]; intros count s c' data s';
    cbn [akm_loop]; (destruct (Nat.eqb_spec count 0); [intros [= <- <- <-]; cbn; lia|]);
    destruct (readEvent _) as [p n']; (destruct (n' =? 0); [intros [= <- <- <-]; cbn; lia|]); [done|].
  destruct (_ !! p) as [e|]; [|done]. cbn [mbind option_bind].
  break_if; [apply IH|]. break_if; [|apply IH].
  destruct (flush_pending _ _ _ _ _) as [[c1 d1] s1] eqn:Ef. apply flush_pending_bound in Ef.
  destruct (akm_loop _ _ _ _ _) as [[[c2 d2] s2]|] eqn:El; [|done]. cbn [mbind option_bind].
  apply IH in El. intros [= <- <- <-]. rewrite length_app. lia.
Qed.

Lemma akm_readEvents_bound `{SensorTypes} lib clock answers count s nb data s' :
  1 <= count → Akm.readEvents lib clock answers count s = Some (nb, data, s') →
  Z.of_nat (length data) <= count ∧ nb <= Z.of_nat (length data) ∧ (Forall clean answers → 0 <= nb).
Proof.
  intros Hc. unfold Akm.readEvents. destruct (Z.ltb_spec count 1); [lia|].
  destruct (fill_next _ _) as [[[n r] rest]|] eqn:Ef; [|done]. cbn [mbind option_bind].
  destruct (Z.ltb_spec n 0).
  { intros [= <- <- <-]. cbn. split; [lia|]. split; [lia|]. intros Hcl.
    by apply fill_next_clean in Ef. }
  destruct (akm_loop _ _ _ _ _) as [[[c1 d1] s1]|] eqn:E; [|done]. cbn [mbind option_bind].
  intros [= <- <- <-]. apply akm_loop_bound in E. lia.
Qed.

(** The three small drivers. *)
Definition small_readEvents `{SensorIo} (d : driver) (answers : list read_answer) (count : Z)
    (s : sensor) : option (Z * list event * sensor) :=
  match Sensors.readEvents d answers count s with
  | Some (nb, data, s) => Some (nb, inl <$> data, s)
  | None => None
  end.

#[export, program] Instance small_driver `{SensorIo} (d : driver) : Driver sensor := {|
  drv_readEvents := small_readEvents d;
  drv_hasPendingEvents := hasPendingEvents;
  drv_enable := λ _ en, Sensors.enable d en;
  drv_setDelay := λ _ ns s, Some (Sensors.setDelay d ns s);
  drv_delete := delete_sensor d;
  drv_writes := node_writes;
  drv_node := enable_node_of;
  drv_on := node_on;
  drv_stoppable := λ s, node_opens (enable_node_of s) && node_accepts (enable_node_of s);
  drv_ok := node_inv
|}.
Next Obligation.
  intros ? d answers count s nb data s' Hc. unfold small_readEvents.
  destruct (Sensors.readEvents _ _ _ _) as [[[n l] s1]|] eqn:E; [|done].
  intros [= <- <- <-]. rewrite length_fmap. by eapply readEvents_bound.
Qed.
Next Obligation.
  intros ? d answers count s nb data s' Hs. unfold small_readEvents.
  destruct (Sensors.readEvents _ _ _ _) as [[[n l] s1]|] eqn:E; [|done].
  intros [= <- <- <-]. apply readEvents_node in E. by eapply same_node_inv.
Qed.
Next Obligation. intros ? d handle en s. apply enable_node. Qed.
Next Obligation.
  intros ? d handle ns s ret s' Hs [= E]. apply (f_equal snd) in E. cbn in E. subst s'.
  by apply setDelay_node.
Qed.
Next Obligation. intros ? d s nodes. apply delete_sensor_nodes. Qed.

(** The AKM driver, with the library and the clock of the moment.  Its
    destructor only closes the library: it stops nothing. *)
Definition delete_akm (s : akm) : akm := s.

Definition akm_readEvents `{SensorTypes} (lib : akm_lib) (clock : nat → Z)
    (answers : list read_answer) (count : Z) (s : akm) : option (Z * list event * akm) :=
  match Akm.readEvents lib clock answers count s with
  | Some (nb, data, s) => Some (nb, inr <$> data, s)
  | None => None
  end.

#[export, program] Instance akm_driver `{SensorTypes} (lib : akm_lib) (clock : nat → Z)
    (ecs : Z → option Z) : Driver akm := {|
  drv_readEvents := akm_readEvents lib clock;
  drv_hasPendingEvents := λ _, false;
  drv_enable := Akm.enable lib;
  drv_setDelay := Akm.setDelay ecs;
  drv_delete := delete_akm;
  drv_writes := λ _, [];                       (* it writes to no node *)
  drv_node := λ _, EmptyString;
  drv_on := λ s, bool_decide (hw s ≠ ∅);
  drv_stoppable := λ _, false;
  drv_ok := λ _, True
|}.
Next Obligation.
  intros ? lib clock ecs answers count s nb data s' Hc. unfold akm_readEvents.
  destruct (Akm.readEvents _ _ _ _ _) as [[[n l] s1]|] eqn:E; [|done].
  intros [= <- <- <-]. rewrite length_fmap. by eapply akm_readEvents_bound.
Qed.
Solve Obligations with (intros; rewrite ?andb_false_r; done).

(** ** The poll context *)

Definition idx_light : Z := 0.
Definition idx_proximity : Z := 1.
Definition idx_akm : Z := 2.
Definition idx_gyro : Z := 3.
Definition numSensorDrivers : nat := 4.

(** [mRevents]: the POLLIN bits of the drivers; [mWake]: the bytes in the wake
    pipe. *)
Record sensors_poll_context := Context {
  mSensors : list SensorBase;
  mRevents : list bool;
  mWake : nat
}.

Definition handleToDriver (handle : Z) : Z :=
  if (handle =? ID_A) || (handle =? ID_M) || (handle =? ID_O) || (handle =? ID_SM) then idx_akm
  else if handle =? ID_P then idx_proximity
  else if handle =? ID_L then idx_light
  else if handle =? ID_GY then idx_gyro
  else - EINVAL.

(** A virtual call that changes the object. *)
Definition sb_enable (handle en : Z) (o : SensorBase) : Z * SensorBase :=
  let '(err, s) := @drv_enable _ (sb_driver o) handle en (sb_state o) in
  (err, AnySensor _ (sb_driver o) s).
Definition sb_setDelay (handle ns : Z) (o : SensorBase) : option (Z * SensorBase) :=
  '(err, s) ← @drv_setDelay _ (sb_driver o) handle ns (sb_state o);
  Some (err, AnySensor _ (sb_driver o) s).
Definition sb_readEvents (answers : list read_answer) (count : Z) (o : SensorBase)
    : option (Z * list event * SensorBase) :=
  match @drv_readEvents _ (sb_driver o) answers count (sb_state o) with
  | Some (nb, data, s) => Some (nb, data, AnySensor _ (sb_driver o) s)
  | None => None
  end.
Definition sb_hasPendingEvents (o : SensorBase) : bool :=
  @drv_hasPendingEvents _ (sb_driver o) (sb_state o).

Definition set_sensor (i : nat) (o : SensorBase) (c : sensors_poll_context) : sensors_poll_context :=
  Context (<[i := o]> (mSensors c)) (mRevents c) (mWake c).

(** The constructor, on the four objects (in the order of the indices). *)
Definition new_context (sensors : list SensorBase) : sensors_poll_context :=
  Context sensors (replicate numSensorDrivers false) 0.

(** The write to the wake pipe is not checked; the capacity of the pipe is
    left out. *)
Definition activate (handle enabled : Z) (c : sensors_poll_context)
    : option (Z * sensors_poll_context) :=
  let index := handleToDriver handle in
  if index <? 0 then Some (index, c)
  else
    o ← mSensors c !! Z.to_nat index;
    let '(err, o) := sb_enable handle enabled o in
    let c := set_sensor (Z.to_nat index) o c in
    if truth enabled && negb (truth err) then
      Some (err, Context (mSensors c) (mRevents c) (S (mWake c)))
    else Some (err, c).

Definition setDelay (handle ns : Z) (c : sensors_poll_context) : option (Z * sensors_poll_context) :=
  let index := handleToDriver handle in
  if index <? 0 then Some (index, c)
  else
    o ← mSensors c !! Z.to_nat index;
    '(err, o) ← sb_setDelay handle ns o;
    Some (err, set_sensor (Z.to_nat index) o c).

(** ** pollEvents *)

Inductive outcome (A : Type) :=
| Returns (a : A)
| Blocks      (* a system call has nothing (more) to yield *)
| Faults.     (* an access outside an array *)
Arguments Returns {A} _.
Arguments Blocks {A}.
Arguments Faults {A}.

Inductive poll_answer :=
| PollError (errno : Z)
| PollReady (revents : list bool) (wake : bool).

(** [data], an array of [sensors_event_t]: [None] is what it held before. *)
Definition buffer : Type := list (option event).
Definition store_events (offset : Z) (evs : list event) (buf : buffer) : option buffer :=
  if (0 <=? offset) && (offset + Z.of_nat (length evs) <=? Z.of_nat (length buf)) then
    let i := Z.to_nat offset in
    Some (take i buf ++ (Some <$> evs) ++ drop (i + length evs) buf)
  else None.

(** The [for] loop over the drivers; [data] has advanced by [nbEvents]; [k]
    counts the calls of [readEvents], whose reads yield [feed k]. *)
Fixpoint scan (feed : nat → list read_answer) (ids : list nat) (k : nat) (count nbEvents : Z)
    (buf : buffer) (c : sensors_poll_context)
    : outcome (nat * Z * Z * buffer * sensors_poll_context) :=
  match ids with
  | [] => Returns (k, count, nbEvents, buf, c)
  | i :: ids =>
      if count =? 0 then Returns (k, count, nbEvents, buf, c)
      else
        match mSensors c !! i, mRevents c !! i with
        | Some o, Some revents =>
            if revents || sb_hasPendingEvents o then
              match sb_readEvents (feed k) count o with
              | None => Blocks
              | Some (nb, evs, o) =>
                  match store_events nbEvents evs buf with
                  | None => Faults
                  | Some buf =>
                      let c := set_sensor i o c in
                      let c := if nb <? count
                               then Context (mSensors c) (<[i := false]> (mRevents c)) (mWake c)
                               else c in
                      scan feed ids (S k) (count - nb) (nbEvents + nb) buf c
                  end
              end
            else scan feed ids k count nbEvents buf c
        | _, _ => Faults
        end
  end.

Fixpoint poll_loop (feed : nat → list read_answer) (polls : list poll_answer) (k : nat)
    (count nbEvents : Z) (buf : buffer) (c : sensors_poll_context)
    : outcome (Z * buffer * sensors_poll_context) :=
  match scan feed (seq 0 numSensorDrivers) k count nbEvents buf c with
  | Blocks => Blocks
  | Faults => Faults
  | Returns (k, count, nbEvents, buf, c) =>
      if count =? 0 then Returns (nbEvents, buf, c)
      else
        match polls with
        | [] => Blocks
        | PollError errno :: _ => Returns (- errno, buf, c)
        | PollReady revents wake :: polls =>
            let n := length (filter Is_true (wake :: revents)) in
            let c := Context (mSensors c) revents (if wake then pred (mWake c) else mWake c) in
            if (n =? 0)%nat then Returns (nbEvents, buf, c)
            else poll_loop feed polls k count nbEvents buf c
        end
  end.

Definition pollEvents (feed : nat → list read_answer) (polls : list poll_answer) (data : buffer)
    (count : Z) (c : sensors_poll_context) : outcome (Z * buffer * sensors_poll_context) :=
  poll_loop feed polls 0 count 0 data c.

(** ** Reference

    The same polling without an array and without arithmetic: [out] are the
    events the drivers have announced so far, [size] how many are asked for. *)

Fixpoint collect (feed : nat → list read_answer) (size : nat) (ids : list nat) (k : nat)
    (out : list event) (c : sensors_poll_context) : outcome (nat * list event * sensors_poll_context) :=
  match ids with
  | [] => Returns (k, out, c)
  | i :: ids =>
      if (length out =? size)%nat then Returns (k, out, c)
      else
        match mSensors c !! i, mRevents c !! i with
        | Some o, Some revents =>
            if revents || sb_hasPendingEvents o then
              match sb_readEvents (feed k) (Z.of_nat (size - length out)) o with
              | None => Blocks
              | Some (nb, evs, o) =>
                  let out := out ++ take (Z.to_nat nb) evs in
                  let c := set_sensor i o c in
                  collect feed size ids (S k) out
                    (if (length out <? size)%nat
                     then Context (mSensors c) (<[i := false]> (mRevents c)) (mWake c) else c)
              end
            else collect feed size ids k out c
        | _, _ => Faults
        end
  end.

(** The error of [poll], if there is one, and the events. *)
Fixpoint collect_loop (feed : nat → list read_answer) (size : nat) (polls : list poll_answer) (k : nat)
    (out : list event) (c : sensors_poll_context) : outcome (option Z * list event * sensors_poll_context) :=
  match collect feed size (seq 0 numSensorDrivers) k out c with
  | Blocks => Blocks
  | Faults => Faults
  | Returns (k, out, c) =>
      if (length out =? size)%nat then Returns (None, out, c)
      else
        match polls with
        | [] => Blocks
        | PollError errno :: _ => Returns (Some errno, out, c)
        | PollReady revents wake :: polls =>
            let c := Context (mSensors c) revents (if wake then pred (mWake c) else mWake c) in
            if existsb id (wake :: revents) then collect_loop feed size polls k out c
            else Returns (None, out, c)
        end
  end.

(** ** Lemmas *)

(** While the context polls: the room left and the events announced fill the
    buffer, and these are at its start. *)
Definition poll_inv (count nbEvents : Z) (size : nat) (out : list event) (buf : buffer)
    (c : sensors_poll_context) : Prop :=
  count = Z.of_nat (size - length out) ∧ nbEvents = Z.of_nat (length out) ∧ (length out <= size)%nat ∧
  length buf = size ∧ take (length out) buf = Some <$> out ∧
  length (mSensors c) = numSensorDrivers ∧ length (mRevents c) = numSensorDrivers.

Lemma store_events_ok (out evs : list event) buf nb :
  take (length out) buf = Some <$> out → (length out + length evs <= length buf)%nat →
  (nb <= length evs)%nat →
  ∃ buf', store_events (Z.of_nat (length out)) evs buf = Some buf' ∧ length buf' = length buf ∧
    take (length (out ++ take nb evs)) buf' = Some <$> (out ++ take nb evs).
Proof.
  intros Ht Hl Hnb. unfold store_events.
  rewrite (proj2 (Z.leb_le 0 _)), (proj2 (Z.leb_le _ _)) by lia. cbn [andb]. rewrite Nat2Z.id, Ht.
  eexists. split; [done|]. split.
  - rewrite !length_app, !length_fmap, length_drop. lia.
  - rewrite length_app, length_take, Nat.min_l by lia. rewrite take_app_ge by (rewrite length_fmap; lia).
    rewrite length_fmap, fmap_app. f_equal.
    replace (length out + nb - length out)%nat with nb by lia.
    rewrite take_app_le by (rewrite length_fmap; lia). by rewrite fmap_take.
Qed.




(** ** Properties *)


(** ** Findings and witnesses *)

Definition demo_object (d : driver) : SensorBase :=
  AnySensor sensor (small_driver (H := demo_io) d)
    (new_sensor (H := demo_io) d 5 "event3" (replicate 8 (syn_event 0))).
Definition demo_akm_object : SensorBase :=
  AnySensor akm (akm_driver (H := demo_types) (demo_lib false) (λ _, 0) (λ _, None)) (demo_akm false).
Definition demo_context : sensors_poll_context :=
  new_context [demo_object light; demo_object proximity; demo_akm_object; demo_object gyro].
Definition demo_report : read_answer :=
  ReadData [abs_event EVENT_TYPE_PROXIMITY 1; syn_event 3] None.

(** A driver whose read fails answers a negative number, which [pollEvents]
    subtracts from [count] and adds to [data]: the next driver stores its
    event in front of the caller's array. *)
Lemma failed_read_underflows :
  pollEvents (λ k, if (k =? 0)%nat then [ReadError 5] else [demo_report])
    [PollReady [true; true; false; false] false] [None] 1 demo_context = Faults.
Proof. vm_compute. reflexivity. Qed.

(** Setting the period of the accelerometer writes in front of [mDelays]. *)
Lemma accelerometer_setDelay_faults ns :
  0 <= ns → setDelay ID_A ns demo_context = None.
Proof.
  intros Hns. unfold setDelay. change (handleToDriver ID_A) with 2. cbn [Z.ltb Z.compare].
  change (mSensors demo_context !! Z.to_nat 2) with (Some demo_akm_object).
  cbn [mbind option_bind]. unfold sb_setDelay, demo_akm_object.
  cbn [sb_driver drv_setDelay akm_driver sb_state]. by rewrite setDelay_out_of_bounds.
Qed.


