(* ===== verification/SensorsHal.v ===== *)
(** * The sensors module: SensorBase.cpp and the device of sensors.cpp

    The part of libsensors that opens and closes: the search of an input
    device by its name, the constructors and destructors of the four drivers
    over the process's table of file descriptors, the poll context built on
    them and the functions of the device.  The drivers themselves are behind
    the interface [Driver] of SensorsPoll.v.

    [hal_step] is everything the process does with the module: devices are
    opened, used and closed in any order while the rest of the process opens
    and closes descriptors of its own and the world the drivers see changes.
    The sysfs nodes are the kernel's: one store that all open devices write
    to, and a write may be refused, which the drivers ignore.
    What the kernel and the vendor library answer is in the records
    [directory] and [open_env]. *)

From Stdlib Require Import String.
From S2P Require Import Prelude InputReader Sensors Akm SensorsPoll.
Local Open Scope Z_scope.

(** ** File descriptors *)

(** The open descriptors of the process, with what they are open on. *)
Abbreviation fd_table := (gmap Z string).

(** [open] takes the lowest descriptor that is free. *)
Definition lowest_free (t : fd_table) : Z :=
  default 0 (head (filter (λ fd, t !! fd = None) (seqZ 0 (Z.of_nat (size t) + 1)))).
Definition open_fd (path : string) (t : fd_table) : Z * fd_table :=
  let fd := lowest_free t in (fd, <[fd := path]> t).
Definition close_fd (fd : Z) (t : fd_table) : fd_table := delete fd t.

(** ** SensorBase *)

(** An entry of /dev/input: whether it can be opened and what EVIOCGNAME
    stores (at most 79 characters; [None] is an error). *)
Record dirent := Dirent {
  d_name : string;
  d_opens : bool;
  d_evname : option string
}.
(** [None]: opendir fails. *)
Definition directory : Type := option (list dirent).

Definition dirname : string := "/dev/input".
Definition is_dotted (name : string) : bool :=
  (String.eqb name "." || String.eqb name "..")%bool.

(** The loop over the entries: the descriptor, the member [input_name]. *)
Fixpoint readdir_loop (inputName : string) (des : list dirent) (input_name : string)
    (t : fd_table) : Z * string * fd_table :=
  match des with
  | [] => (-1, input_name, t)
  | de :: des =>
      if is_dotted (d_name de) then readdir_loop inputName des input_name t
      else if d_opens de then
        let '(fd, t) := open_fd (dirname +:+ "/" +:+ d_name de)%string t in
        let name := default EmptyString (d_evname de) in
        if String.eqb name inputName then (fd, d_name de, t)
        else readdir_loop inputName des input_name (close_fd fd t)
      else readdir_loop inputName des input_name t
  end.

(** The directory stream has a descriptor of its own until [closedir]. *)
Definition openInput (inputName : string) (dir : directory) (input_name : string)
    (t : fd_table) : Z * string * fd_table :=
  match dir with
  | None => (-1, input_name, t)
  | Some des =>
      let '(dirfd, t) := open_fd dirname t in
      let '(fd, input_name, t) := readdir_loop inputName des input_name t in
      (fd, input_name, close_fd dirfd t)
  end.

(** The members of the base class. *)
Record base_members := Base {
  dev_name : option string;
  data_name : option string;
  input_name : string;
  dev_fd : Z;
  data_fd : Z
}.

(** [junk_name] is what the uninitialised member [input_name] holds. *)
Definition new_SensorBase (dev data : option string) (dir : directory) (junk_name : string)
    (t : fd_table) : base_members * fd_table :=
  match data with
  | None => (Base dev data junk_name (-1) (-1), t)
  | Some name =>
      let '(fd, nm, t) := openInput name dir junk_name t in
      (Base dev data nm (-1) fd, t)
  end.

Definition delete_SensorBase (b : base_members) (t : fd_table) : fd_table :=
  let t := if 0 <=? data_fd b then close_fd (data_fd b) t else t in
  if 0 <=? dev_fd b then close_fd (dev_fd b) t else t.

(** [opens] tells whether the device node can be opened. *)
Definition open_device (opens : bool) (b : base_members) (t : fd_table)
    : Z * base_members * fd_table :=
  match dev_name b with
  | Some path =>
      if dev_fd b <? 0 then
        if opens then
          let '(fd, t) := open_fd path t in
          (0, Base (dev_name b) (data_name b) (input_name b) fd (data_fd b), t)
        else (0, Base (dev_name b) (data_name b) (input_name b) (-1) (data_fd b), t)
      else (0, b, t)
  | None => (0, b, t)
  end.
Definition close_device (b : base_members) (t : fd_table) : Z * base_members * fd_table :=
  if 0 <=? dev_fd b then
    (0, Base (dev_name b) (data_name b) (input_name b) (-1) (data_fd b), close_fd (dev_fd b) t)
  else (0, b, t).

Definition getFd (b : base_members) : Z :=
  match data_name b with None => dev_fd b | Some _ => data_fd b end.

(** ** The drivers *)

Record sensor_object := Object {
  so_base : base_members;
  so_driver : SensorBase
}.

Definition input_of (d : driver) : string :=
  match d with
  | light => "light_sensor"
  | proximity => "proximity_sensor"
  | gyro => "gyro_sensor"
  end.

(** LightSensor(), ProximitySensor() and GyroSensor(). *)
Definition new_small (io : SensorIo) (d : driver) (dir : directory) (junk_name : string)
    (junk : list input_event) (t : fd_table) : sensor_object * fd_table :=
  let '(b, t) := new_SensorBase None (Some (input_of d)) dir junk_name t in
  (Object b (AnySensor sensor (small_driver d) (new_sensor d (data_fd b) (input_name b) junk)), t).

Section device.
Context `{SensorTypes}.

(** What the construction of a device meets: the directory at each search,
    the library if it loads, the rest of the world, what uninitialised
    memory holds, and what [pipe] answers ([inr]: it fails, and the two
    variables keep what they hold). *)
Record open_env := OpenEnv {
  oe_dir : driver → directory;
  oe_akm_dir : directory;
  oe_lib : option akm_lib;
  oe_io : SensorIo;
  oe_clock : nat → Z;
  oe_ecs : Z → option Z;
  oe_name : string;
  oe_events : list input_event;
  oe_delays : list Z;
  oe_pipe : unit + Z * Z
}.

(** The library is opened before the input device it creates is looked for. *)
Definition new_akm_object (e : open_env) (t : fd_table) : sensor_object * fd_table :=
  let '(b, t) := new_SensorBase None None None (oe_name e) t in
  let '(b, t) :=
    match oe_lib e with
    | Some _ =>
        let '(fd, nm, t) := openInput "compass_sensor" (oe_akm_dir e) (input_name b) t in
        (Base (dev_name b) (Some "compass_sensor"%string) nm (dev_fd b) fd, t)
    | None => (b, t)
    end in
  (Object b (AnySensor akm (akm_driver (default stub_lib (oe_lib e)) (oe_clock e) (oe_ecs e))
     (new_AkmSensor (H0 := oe_io e) (oe_lib e) (oe_events e) (oe_delays e))), t).

Definition delete_object (o : sensor_object) (t : fd_table) : SensorBase * fd_table :=
  let d := so_driver o in
  (AnySensor (sb_type d) (sb_driver d) (@drv_delete _ (sb_driver d) (sb_state d)),
   delete_SensorBase (so_base o) t).

(** ** The device *)

(** [sensors_poll_context_t]: the poll context of SensorsPoll.v holds what the
    calls change; the descriptors do not change. *)
Record poll_device := PollDevice {
  pd_bases : list base_members;
  pd_context : sensors_poll_context;
  mPollFds : list Z;
  mWritePipeFd : Z
}.

Definition pipe (answer : unit + Z * Z) (t : fd_table) : Z * Z * fd_table :=
  match answer with
  | inl _ =>
      let '(r, t) := open_fd "pipe" t in
      let '(w, t) := open_fd "pipe" t in (r, w, t)
  | inr (r, w) => (r, w, t)
  end.

Definition new_poll_context (e : open_env) (t : fd_table) : poll_device * fd_table :=
  let '(l, t) := new_small (oe_io e) light (oe_dir e light) (oe_name e) (oe_events e) t in
  let '(p, t) := new_small (oe_io e) proximity (oe_dir e proximity) (oe_name e) (oe_events e) t in
  let '(a, t) := new_akm_object e t in
  let '(g, t) := new_small (oe_io e) gyro (oe_dir e gyro) (oe_name e) (oe_events e) t in
  let '(rfd, wfd, t) := pipe (oe_pipe e) t in
  let objects := [l; p; a; g] in
  (PollDevice (so_base <$> objects) (new_context (so_driver <$> objects))
     ((getFd ∘ so_base <$> objects) ++ [rfd]) wfd, t).

(** The objects as they are deleted, and the table. *)
Fixpoint delete_objects (os : list sensor_object) (t : fd_table) : list SensorBase * fd_table :=
  match os with
  | [] => ([], t)
  | o :: os =>
      let '(d, t) := delete_object o t in
      let '(ds, t) := delete_objects os t in (d :: ds, t)
  end.

Definition wake : nat := numSensorDrivers.

Definition delete_poll_context (dev : poll_device) (t : fd_table)
    : option (list SensorBase * fd_table) :=
  let objects := zip_with Object (pd_bases dev) (mSensors (pd_context dev)) in
  let '(ds, t) := delete_objects objects t in
  rfd ← mPollFds dev !! wake;
  Some (ds, close_fd (mWritePipeFd dev) (close_fd rfd t)).

(** The functions in the device structure; [None] for the device is NULL. *)
Definition poll__close (dev : option poll_device) (t : fd_table)
    : option (Z * list SensorBase * fd_table) :=
  match dev with
  | Some dev => '(ds, t) ← delete_poll_context dev t; Some (0, ds, t)
  | None => Some (0, [], t)
  end.
Definition poll__activate (dev : poll_device) (handle enabled : Z) : option (Z * poll_device) :=
  '(ret, c) ← activate handle enabled (pd_context dev);
  Some (ret, PollDevice (pd_bases dev) c (mPollFds dev) (mWritePipeFd dev)).
Definition poll__setDelay (dev : poll_device) (handle ns : Z) : option (Z * poll_device) :=
  '(ret, c) ← SensorsPoll.setDelay handle ns (pd_context dev);
  Some (ret, PollDevice (pd_bases dev) c (mPollFds dev) (mWritePipeFd dev)).
Definition poll__poll (feed : nat → list read_answer) (polls : list poll_answer)
    (dev : poll_device) (data : buffer) (count : Z) : outcome (Z * buffer * poll_device) :=
  match pollEvents feed polls data count (pd_context dev) with
  | Returns (ret, data, c) =>
      Returns (ret, data, PollDevice (pd_bases dev) c (mPollFds dev) (mWritePipeFd dev))
  | Blocks => Blocks
  | Faults => Faults
  end.

Definition open_sensors (e : open_env) (t : fd_table) : Z * poll_device * fd_table :=
  let '(dev, t) := new_poll_context e t in (0, dev, t).
End device.

(** ** The list of sensors *)

(** The members of [sensor_t] that concern the device: [handle] is what the
    clients pass to the functions above. *)
Record sensor_t := SensorT {
  st_name : string;
  st_vendor : string;
  st_version : Z;
  st_handle : Z;
  st_minDelay : Z
}.
Definition SENSORS_ACCELERATION_HANDLE : Z := 0.
Definition SENSORS_MAGNETIC_FIELD_HANDLE : Z := 1.
Definition SENSORS_ORIENTATION_HANDLE : Z := 2.
Definition SENSORS_LIGHT_HANDLE : Z := 3.
Definition SENSORS_PROXIMITY_HANDLE : Z := 4.
Definition SENSORS_GYROSCOPE_HANDLE : Z := 5.
Definition SENSORS_SIGNIFICANT_MOTION_HANDLE : Z := 6.

Definition sSensorList : list sensor_t := [
  SensorT "K3DH Acceleration Sensor" "STMicroelectronics" 1 SENSORS_ACCELERATION_HANDLE 15000;
  SensorT "AK8975 Magnetic field Sensor" "Asahi Kasei Microdevices" 1
    SENSORS_MAGNETIC_FIELD_HANDLE 30000;
  SensorT "AK8975 Orientation Sensor" "Asahi Kasei Microdevices" 1
    SENSORS_ORIENTATION_HANDLE 30000;
  SensorT "GP2A Light Sensor" "Sharp" 1 SENSORS_LIGHT_HANDLE 0;
  SensorT "GP2A Proximity Sensor" "Sharp" 1 SENSORS_PROXIMITY_HANDLE 0;
  SensorT "K3G Gyroscope Sensor" "STMicroelectronics" 1 SENSORS_GYROSCOPE_HANDLE 15000;
  SensorT "Movement Detection Sensor" "STMicroelectronics" 1
    SENSORS_SIGNIFICANT_MOTION_HANDLE 0].

Definition sensors__get_sensors_list : Z * list sensor_t :=
  (Z.of_nat (length sSensorList), sSensorList).

(** ** The process *)

(** The open devices by their addresses, the descriptors that belong to the
    rest of the process, what the sysfs nodes hold, and whether the [pipe] of
    some opening has failed so far. *)
Record process := Process {
  p_fds : fd_table;
  p_devices : gmap nat poll_device;
  p_others : gset Z;
  p_nodes : gmap string string;
  p_pipe_failed : bool
}.

(** The world a driver sees (nodes, library, clock) may change between calls;
    what an object knows and has written does not. *)
Inductive same_object : SensorBase → SensorBase → Prop :=
| SameObject T (d1 d2 : Driver T) s :
    (@drv_ok _ d1 s → @drv_ok _ d2 s) →
    @drv_writes _ d1 s = @drv_writes _ d2 s →
    same_object (AnySensor T d1 s) (AnySensor T d2 s).

(** What objects write to the nodes between two states of theirs. *)
Definition obj_writes (o : SensorBase) : list node_write := @drv_writes _ (sb_driver o) (sb_state o).
Definition new_writes (os os' : list SensorBase) : list node_write :=
  concat (zip_with (λ o o', drop (length (obj_writes o)) (obj_writes o')) os os').
Definition dev_writes (dev dev' : poll_device) : list node_write :=
  new_writes (mSensors (pd_context dev)) (mSensors (pd_context dev')).
Definition pipe_fails (answer : unit + Z * Z) : bool :=
  match answer with inl _ => false | inr _ => true end.

Section process.
Context `{SensorTypes}.

Inductive hal_step : process → process → Prop :=
| StepOpen e p a ret dev t :
    p_devices p !! a = None →
    open_sensors e (p_fds p) = (ret, dev, t) →
    hal_step p (Process t (<[a := dev]> (p_devices p)) (p_others p)
      (play (mSensors (pd_context dev) ≫= obj_writes) (p_nodes p))
      (p_pipe_failed p || pipe_fails (oe_pipe e)))
| StepClose p a dev ret ds t :
    p_devices p !! a = Some dev →
    poll__close (Some dev) (p_fds p) = Some (ret, ds, t) →
    hal_step p (Process t (delete a (p_devices p)) (p_others p)
      (play (new_writes (mSensors (pd_context dev)) ds) (p_nodes p)) (p_pipe_failed p))
| StepActivate p a dev handle enabled ret dev' :
    p_devices p !! a = Some dev →
    poll__activate dev handle enabled = Some (ret, dev') →
    hal_step p (Process (p_fds p) (<[a := dev']> (p_devices p)) (p_others p)
      (play (dev_writes dev dev') (p_nodes p)) (p_pipe_failed p))
| StepSetDelay p a dev handle ns ret dev' :
    p_devices p !! a = Some dev →
    poll__setDelay dev handle ns = Some (ret, dev') →
    hal_step p (Process (p_fds p) (<[a := dev']> (p_devices p)) (p_others p)
      (play (dev_writes dev dev') (p_nodes p)) (p_pipe_failed p))
| StepPoll p a dev feed polls data count ret data' dev' :
    p_devices p !! a = Some dev →
    poll__poll feed polls dev data count = Returns (ret, data', dev') →
    hal_step p (Process (p_fds p) (<[a := dev']> (p_devices p)) (p_others p)
      (play (dev_writes dev dev') (p_nodes p)) (p_pipe_failed p))
| StepWorld p a dev objects :
    p_devices p !! a = Some dev →
    Forall2 same_object (mSensors (pd_context dev)) objects →
    hal_step p (Process (p_fds p)
      (<[a := PollDevice (pd_bases dev)
                (Context objects (mRevents (pd_context dev)) (mWake (pd_context dev)))
                (mPollFds dev) (mWritePipeFd dev)]> (p_devices p)) (p_others p)
      (p_nodes p) (p_pipe_failed p))
| StepNodes p nodes :           (* other processes and the kernel write them too *)
    hal_step p (Process (p_fds p) (p_devices p) (p_others p) nodes (p_pipe_failed p))
| StepOtherOpen p path fd t :
    open_fd path (p_fds p) = (fd, t) →
    hal_step p (Process t (p_devices p) ({[fd]} ∪ p_others p) (p_nodes p) (p_pipe_failed p))
| StepOtherClose p fd :
    fd ∈ p_others p →
    hal_step p (Process (close_fd fd (p_fds p)) (p_devices p) (p_others p ∖ {[fd]})
      (p_nodes p) (p_pipe_failed p)).

(** A process that has not used the module yet. *)
Definition hal_init (p : process) : Prop :=
  p_devices p = ∅ ∧ p_others p = dom (p_fds p) ∧ p_pipe_failed p = false.
End process.

(** ** Lemmas *)

Lemma lowest_free_spec t : t !! lowest_free t = None ∧ 0 <= lowest_free t.
Proof.
  unfold lowest_free. set (n := Z.of_nat (size t) + 1).
  destruct (filter (λ fd, t !! fd = None) (seqZ 0 n)) as [|fd l] eqn:E; cbn [head default].
  - exfalso. assert (list_to_set (C := gset Z) (seqZ 0 n) ⊆ dom t) as Hs.
    { intros fd Hfd%elem_of_list_to_set. apply elem_of_dom.
      destruct (t !! fd) eqn:Et; [by eexists|].
      assert (fd ∈ filter (λ fd, t !! fd = None) (seqZ 0 n)) as Hin by (by apply list_elem_of_filter).
      rewrite E in Hin. by apply elem_of_nil in Hin. }
    apply subseteq_size in Hs. rewrite size_list_to_set in Hs by apply NoDup_seqZ.
    assert (size (dom t) = size t) as Hd by apply size_dom. rewrite length_seqZ, Hd in Hs. unfold n in Hs. lia.
  - assert (fd ∈ filter (λ fd, t !! fd = None) (seqZ 0 n)) as [Hf Hr%elem_of_seqZ]%list_elem_of_filter
      by (rewrite E; left). cbn. split; [done|lia].
Qed.

(** The descriptors a table holds, as a list. *)
Definition held (t : fd_table) : list Z := (map_to_list t).*1.

Lemma held_insert fd path t : t !! fd = None → held (<[fd := path]> t) ≡ₚ fd :: held t.
Proof. intros Hf. unfold held. by rewrite map_to_list_insert. Qed.
Lemma held_delete fd t : fd ∈ held t → fd :: held (close_fd fd t) ≡ₚ held t.
Proof.
  unfold held, close_fd. intros [[fd' path] [-> Hin%elem_of_map_to_list]]%list_elem_of_fmap.
  cbn. by rewrite <- (map_to_list_delete t _ _ Hin).
Qed.
Lemma held_NoDup t : NoDup (held t).
Proof. apply NoDup_fst_map_to_list. Qed.
Lemma elem_of_held fd t : fd ∈ held t ↔ is_Some (t !! fd).
Proof.
  unfold held. rewrite list_elem_of_fmap. split.
  - intros [[fd' path] [-> Hin%elem_of_map_to_list]]. by eexists.
  - intros [path Hp]. exists (fd, path). split; [done|]. by apply elem_of_map_to_list.
Qed.

Lemma open_fd_run path t :
  ∃ fd, open_fd path t = (fd, <[fd := path]> t) ∧ t !! fd = None ∧ 0 <= fd.
Proof. exists (lowest_free t). split; [done|apply lowest_free_spec]. Qed.

Lemma close_opened fd path t : t !! fd = None → close_fd fd (<[fd := path]> t) = t.
Proof. apply delete_insert_id. Qed.

(** The entry a search stops at. *)
Definition is_input (inputName : string) (de : dirent) : bool :=
  negb (is_dotted (d_name de)) && d_opens de &&
  String.eqb (default EmptyString (d_evname de)) inputName.
Definition found (inputName : string) (dir : directory) : option dirent :=
  des ← dir; head (filter (λ de, Is_true (is_input inputName de)) des).

Lemma readdir_loop_cons inputName de des nm t :
  readdir_loop inputName (de :: des) nm t =
  if is_input inputName de then
    let '(fd, t) := open_fd (dirname +:+ "/" +:+ d_name de)%string t in (fd, d_name de, t)
  else readdir_loop inputName des nm t.
Proof.
  unfold is_input. cbn [readdir_loop].
  destruct (is_dotted (d_name de)); [done|]. destruct (d_opens de); [|done]. cbn [negb andb].
  destruct (open_fd_run (dirname +:+ "/" +:+ d_name de)%string t) as (fd & -> & Hf & H0).
  destruct (String.eqb _ _); [done|]. by rewrite (close_opened _ _ _ Hf).
Qed.

Lemma readdir_loop_run inputName des nm t :
  match head (filter (λ de, Is_true (is_input inputName de)) des) with
  | Some de => ∃ fd, t !! fd = None ∧ 0 <= fd ∧
      readdir_loop inputName des nm t =
        (fd, d_name de, <[fd := (dirname +:+ "/" +:+ d_name de)%string]> t)
  | None => readdir_loop inputName des nm t = (-1, nm, t)
  end.
Proof.
  induction des as [|de des IH]; [done|]. rewrite readdir_loop_cons, filter_cons.
  destruct (decide _) as [Hi|Hi]; destruct (is_input inputName de); try done. cbn [head].
  destruct (open_fd_run (dirname +:+ "/" +:+ d_name de)%string t) as (fd & -> & Hf & H0).
  by exists fd.
Qed.

Lemma openInput_run inputName dir nm t :
  match found inputName dir with
  | Some de => ∃ fd, t !! fd = None ∧ 0 <= fd ∧
      openInput inputName dir nm t =
        (fd, d_name de, <[fd := (dirname +:+ "/" +:+ d_name de)%string]> t)
  | None => openInput inputName dir nm t = (-1, nm, t)
  end.
Proof.
  unfold found, openInput. destruct dir as [des|]; [|done]. cbn [mbind option_bind].
  destruct (open_fd_run dirname t) as (dfd & -> & Hd & _).
  pose proof (readdir_loop_run inputName des nm (<[dfd := dirname]> t)) as Hl.
  destruct (head _) as [de|].
  - destruct Hl as (fd & Hf & H0 & ->). apply lookup_insert_None in Hf as [Hf Hne].
    exists fd. split; [done|]. split; [done|]. f_equal. unfold close_fd.
    by rewrite delete_insert_ne, delete_insert_id by done.
  - rewrite Hl. by rewrite close_opened.
Qed.

(** *** Who owns which descriptor *)

Definition fds_of (fd : Z) : list Z := if 0 <=? fd then [fd] else [].
Definition base_fds (b : base_members) : list Z := fds_of (data_fd b) ++ fds_of (dev_fd b).
(** What the destructor of a device closes. *)
Definition device_fds (dev : poll_device) : list Z :=
  (pd_bases dev ≫= base_fds) ++ option_list (mPollFds dev !! wake) ++ [mWritePipeFd dev].

Lemma close_run fd t r : held t ≡ₚ fd :: r → held (close_fd fd t) ≡ₚ r.
Proof.
  intros Hh. apply (Permutation_cons_inv (a := fd)). rewrite <- Hh. apply held_delete.
  rewrite Hh. left.
Qed.

Lemma close_fds fd t r :
  held t ≡ₚ fds_of fd ++ r → held (if 0 <=? fd then close_fd fd t else t) ≡ₚ r.
Proof. unfold fds_of. destruct (0 <=? fd); [apply close_run|done]. Qed.

Lemma openInput_held inputName dir nm t fd nm' t' :
  openInput inputName dir nm t = (fd, nm', t') → held t' ≡ₚ fds_of fd ++ held t.
Proof.
  pose proof (openInput_run inputName dir nm t) as Hr. destruct (found inputName dir) as [de|].
  - destruct Hr as (fd1 & Hf & H0 & ->). intros [= <- <- <-].
    unfold fds_of. destruct (Z.leb_spec 0 fd1); [|lia]. by apply held_insert.
  - rewrite Hr. by intros [= <- <- <-].
Qed.

Lemma new_SensorBase_held dev data dir nm t b t' :
  new_SensorBase dev data dir nm t = (b, t') → held t' ≡ₚ base_fds b ++ held t.
Proof.
  unfold new_SensorBase. destruct data as [name|]; [|by intros [= <- <-]].
  destruct (openInput _ _ _ _) as [[fd nm'] t1] eqn:E. intros [= <- <-].
  unfold base_fds. cbn [data_fd dev_fd fds_of Z.leb Z.compare]. rewrite app_nil_r.
  by eapply openInput_held.
Qed.

Lemma delete_SensorBase_held b t r :
  held t ≡ₚ base_fds b ++ r → held (delete_SensorBase b t) ≡ₚ r.
Proof.
  unfold base_fds, delete_SensorBase. rewrite <- (assoc_L (++)). intros Hh.
  by apply close_fds, close_fds.
Qed.

(** The invariant the driver of an object keeps. *)
Definition object_ok (o : SensorBase) : Prop := @drv_ok _ (sb_driver o) (sb_state o).
Definition context_ok (c : sensors_poll_context) : Prop :=
  length (mSensors c) = numSensorDrivers ∧ Forall object_ok (mSensors c).

(** A device has its four objects, and polls their descriptors and the pipe. *)
Definition device_ok (dev : poll_device) : Prop :=
  length (pd_bases dev) = numSensorDrivers ∧ context_ok (pd_context dev) ∧
  ∃ rfd, mPollFds dev = (getFd <$> pd_bases dev) ++ [rfd].

Lemma new_small_held io d dir nm junk t o t' :
  new_small io d dir nm junk t = (o, t') →
  held t' ≡ₚ base_fds (so_base o) ++ held t ∧ object_ok (so_driver o).
Proof.
  unfold new_small. destruct (new_SensorBase _ _ _ _ _) as [b t1] eqn:E.
  intros [= <- <-]. split; [by eapply new_SensorBase_held|]. apply new_sensor_node.
Qed.

Section owners.
Context `{SensorTypes}.

Lemma new_akm_held e t o t' :
  new_akm_object e t = (o, t') →
  held t' ≡ₚ base_fds (so_base o) ++ held t ∧ object_ok (so_driver o).
Proof.
  unfold new_akm_object. cbn [new_SensorBase]. destruct (oe_lib e).
  - destruct (openInput _ _ _ _) as [[fd nm] t1] eqn:E. intros [= <- <-]. split; [|done].
    unfold base_fds. cbn. rewrite app_nil_r. by eapply openInput_held.
  - by intros [= <- <-].
Qed.

Lemma pipe_held t r w t' : pipe (inl tt) t = (r, w, t') → held t' ≡ₚ [r; w] ++ held t.
Proof.
  unfold pipe. destruct (open_fd_run "pipe" t) as (r1 & -> & Hr & _).
  destruct (open_fd_run "pipe" (<[r1 := "pipe"%string]> t)) as (w1 & -> & Hw & _).
  intros [= <- <- <-]. rewrite held_insert, held_insert by done. apply perm_swap.
Qed.

Lemma open_sensors_held e t ret dev t' :
  open_sensors e t = (ret, dev, t') →
  (pipe_fails (oe_pipe e) = false → held t' ≡ₚ device_fds dev ++ held t) ∧ device_ok dev.
Proof.
  unfold open_sensors, new_poll_context.
  destruct (new_small _ light _ _ _ _) as [l t1] eqn:E1.
  destruct (new_small _ proximity _ _ _ _) as [p t2] eqn:E2.
  destruct (new_akm_object _ _) as [a t3] eqn:E3.
  destruct (new_small _ gyro _ _ _ _) as [g t4] eqn:E4.
  destruct (pipe _ _) as [[r w] t5] eqn:E5. intros [= <- <- <-].
  apply new_small_held in E1 as [E1 O1], E2 as [E2 O2], E4 as [E4 O4].
  apply new_akm_held in E3 as [E3 O3].
  split; [|split; [done|split; [by repeat constructor|by eexists]]].
  destruct (oe_pipe e) as [[]|]; [|done]. intros _. apply pipe_held in E5. unfold device_fds. cbn. rewrite E5, E4, E3, E2, E1, app_nil_r. solve_Permutation.
Qed.

Lemma delete_objects_run os t ds t' r :
  delete_objects os t = (ds, t') → held t ≡ₚ ((so_base <$> os) ≫= base_fds) ++ r → held t' ≡ₚ r.
Proof.
  revert t ds. induction os as [|o os IH]; intros t ds; cbn [delete_objects].
  { by intros [= <- <-]. }
  unfold delete_object. destruct (delete_objects os _) as [ds1 t1] eqn:E. intros [= <- <-] Hh.
  eapply IH; [done|]. apply delete_SensorBase_held. rewrite Hh. cbn. by rewrite (assoc_L (++)).
Qed.

(** The nodes the destructors of some objects switch off: those an object
    last switched on and that take the write. *)
Definition switched_off (os : list SensorBase) : list string :=
  omap (λ o, if @drv_on _ (sb_driver o) (sb_state o) && @drv_stoppable _ (sb_driver o) (sb_state o)
             then Some (@drv_node _ (sb_driver o) (sb_state o)) else None) os.
Definition set_off (paths : list string) (nodes : gmap string string) : gmap string string :=
  foldl (λ nodes path, <[path := off_data]> nodes) nodes paths.

Lemma lookup_set_off paths nodes path :
  set_off paths nodes !! path =
    if decide (path ∈ paths) then Some off_data else nodes !! path.
Proof.
  revert nodes. induction paths as [|p paths IH]; intros nodes; cbn.
  { case_decide as Hin; [by apply elem_of_nil in Hin|done]. }
  fold (set_off paths (<[p := off_data]> nodes)). rewrite IH.
  destruct (decide (path = p)) as [->|Hne].
  - rewrite lookup_insert_eq, (decide_True (P := p ∈ p :: paths)) by left. by case_decide.
  - rewrite lookup_insert_ne by done. repeat case_decide; set_solver.
Qed.

Lemma play_app ws ws' nodes : play (ws ++ ws') nodes = play ws' (play ws nodes).
Proof. apply foldl_app. Qed.

Lemma delete_objects_stop os t nodes :
  Forall (object_ok ∘ so_driver) os →
  play (new_writes (so_driver <$> os) (delete_objects os t).1) nodes =
    set_off (switched_off (so_driver <$> os)) nodes.
Proof.
  intros Hos. revert t nodes. induction Hos as [|o os Ho _ IH]; intros t nodes; [done|].
  cbn [delete_objects]. unfold delete_object. specialize (IH (delete_SensorBase (so_base o) t)).
  destruct (delete_objects os _) as [ds t1]. unfold new_writes in *.
  cbn [fst fmap list_fmap zip_with concat] in *. rewrite play_app, IH.
  unfold obj_writes. cbn [sb_driver sb_state]. rewrite drv_delete_nodes by done.
  unfold switched_off. cbn [omap list_omap]. by break_if.
Qed.

Lemma poll__close_run dev t ret ds t' :
  device_ok dev → poll__close (Some dev) t = Some (ret, ds, t') →
  (∀ r, held t ≡ₚ device_fds dev ++ r → held t' ≡ₚ r) ∧
  ∀ nodes, play (new_writes (mSensors (pd_context dev)) ds) nodes =
    set_off (switched_off (mSensors (pd_context dev))) nodes.
Proof.
  intros (Hb & (Ho & Hok) & rfd & Hp). unfold poll__close, delete_poll_context, device_fds.
  assert (length (pd_bases dev) = length (mSensors (pd_context dev))) as Hl by by rewrite Hb, Ho.
  pose proof (λ nodes,
    delete_objects_stop (zip_with Object (pd_bases dev) (mSensors (pd_context dev))) t nodes) as Hst.
  destruct (delete_objects _ _) as [ds1 t1] eqn:E.
  assert (mPollFds dev !! wake = Some rfd) as ->.
  { rewrite Hp, lookup_app_r by (rewrite length_fmap, Hb; done). by rewrite length_fmap, Hb. }
  cbn. intros [= <- <- <-]. split.
  - intros r Hh. apply close_run, close_run. eapply delete_objects_run; [done|].
    rewrite Hh, <- (assoc_L (++)). apply Permutation_app_tail. by rewrite fmap_zip_with_l by (done || lia).
  - intros nodes. specialize (Hst nodes). cbn [fst] in Hst.
    rewrite fmap_zip_with_r in Hst by (done || lia). apply Hst.
    apply Forall_fmap. rewrite fmap_zip_with_r by (done || lia). done.
Qed.
End owners.

(** *** The calls keep the objects *)

Lemma set_sensor_ok i o c : context_ok c → object_ok o → context_ok (set_sensor i o c).
Proof.
  intros [Hl Hf] Ho. split; cbn [set_sensor mSensors]; [by rewrite length_insert|].
  by apply Forall_insert.
Qed.
Lemma context_object c i o : context_ok c → mSensors c !! i = Some o → object_ok o.
Proof. intros [_ Hf] Hi. by eapply Forall_lookup_1. Qed.

Lemma activate_ok handle en c ret c' :
  context_ok c → activate handle en c = Some (ret, c') → context_ok c'.
Proof.
  intros Hc. unfold activate. break_if; [by intros [= <- <-]|].
  destruct (mSensors c !! _) as [o|] eqn:Eo; [|done]. cbn [mbind option_bind].
  pose proof (context_object _ _ _ Hc Eo) as Ho. unfold sb_enable.
  pose proof (@drv_enable_ok _ (sb_driver o) handle en _ Ho) as Ho'.
  destruct (drv_enable _ _ _) as [err s]. cbn [snd] in Ho'.
  pose proof (set_sensor_ok (Z.to_nat (handleToDriver handle)) (AnySensor _ _ s) c Hc Ho') as Hs.
  break_if; by intros [= <- <-].
Qed.

Lemma setDelay_ok handle ns c ret c' :
  context_ok c → SensorsPoll.setDelay handle ns c = Some (ret, c') → context_ok c'.
Proof.
  intros Hc. unfold SensorsPoll.setDelay. break_if; [by intros [= <- <-]|].
  destruct (mSensors c !! _) as [o|] eqn:Eo; [|done]. cbn [mbind option_bind].
  pose proof (context_object _ _ _ Hc Eo) as Ho. unfold sb_setDelay.
  destruct (drv_setDelay _ _ _) as [[err s]|] eqn:Er; [|done]. cbn [mbind option_bind].
  intros [= <- <-]. apply set_sensor_ok; [done|].
  by eapply (@drv_setDelay_ok _ (sb_driver o)).
Qed.

Lemma scan_ok feed ids k count nb buf c k' count' nb' buf' c' :
  context_ok c → scan feed ids k count nb buf c = Returns (k', count', nb', buf', c') →
  context_ok c'.
Proof.
  revert k count nb buf c. induction ids as [|i ids IH]; intros k count nb buf c Hc; cbn [scan].
  { by intros [= <- <- <- <- <-]. }
  break_if; [by intros [= <- <- <- <- <-]|].
  destruct (mSensors c !! i) as [o|] eqn:Eo; [|done]. destruct (mRevents c !! i); [|done].
  break_if; [|by apply IH]. unfold sb_readEvents.
  destruct (drv_readEvents _ _ _) as [[[n evs] s]|] eqn:Er; [|done].
  destruct (store_events _ _ _); [|done]. apply IH.
  apply (@drv_readEvents_ok _ (sb_driver o)) in Er; [|by eapply context_object].
  pose proof (set_sensor_ok i (AnySensor _ (sb_driver o) s) c Hc Er) as Hs. by break_if.
Qed.

Lemma poll_loop_ok feed polls k count nb buf c ret buf' c' :
  context_ok c → poll_loop feed polls k count nb buf c = Returns (ret, buf', c') → context_ok c'.
Proof.
  revert k count nb buf c. induction polls as [|a polls IH]; intros k count nb buf c Hc;
    cbn [poll_loop]; (destruct (scan _ _ _ _ _ _ _) as [[[[[k1 count1] nb1] buf1] c1]| |] eqn:Er; [|done..]);
    apply scan_ok in Er; try done; (break_if; [by intros [= <- <- <-]|]); [done|].
  destruct a as [errno|revents w]; [by intros [= <- <- <-]|].
  break_if; [by intros [= <- <- <-]|]. by apply IH.
Qed.

(** *** The invariant of the process *)

Definition devices_fds (m : gmap nat poll_device) : list Z := (map_to_list m).*2 ≫= device_fds.

Lemma devices_insert m a dev :
  m !! a = None → devices_fds (<[a := dev]> m) ≡ₚ device_fds dev ++ devices_fds m.
Proof. intros Ha. unfold devices_fds. by rewrite map_to_list_insert. Qed.
Lemma devices_delete m a dev :
  m !! a = Some dev → devices_fds m ≡ₚ device_fds dev ++ devices_fds (delete a m).
Proof. intros Ha. unfold devices_fds. by rewrite <- (map_to_list_delete m a dev Ha). Qed.
Lemma devices_update m a dev dev' :
  m !! a = Some dev → device_fds dev' = device_fds dev →
  devices_fds (<[a := dev']> m) ≡ₚ devices_fds m.
Proof.
  intros Ha Hd. rewrite (devices_delete m a dev Ha), <- insert_delete_eq, devices_insert
    by apply lookup_delete_eq. by rewrite Hd.
Qed.
Lemma elem_of_devices m fd :
  fd ∈ devices_fds m ↔ ∃ a dev, m !! a = Some dev ∧ fd ∈ device_fds dev.
Proof.
  unfold devices_fds. rewrite list_elem_of_bind. split.
  - intros (dev & Hin & [[a dev'] [-> Hm%elem_of_map_to_list]]%list_elem_of_fmap). by exists a, dev'.
  - intros (a & dev & Ha & Hin). exists dev. split; [done|].
    apply list_elem_of_fmap. exists (a, dev). split; [done|]. by apply elem_of_map_to_list.
Qed.

Definition hal_inv (p : process) : Prop :=
  (p_pipe_failed p = false →
     held (p_fds p) ≡ₚ elements (p_others p) ++ devices_fds (p_devices p)) ∧
  map_Forall (λ _, device_ok) (p_devices p).

Lemma hal_inv_update p a dev c nodes :
  hal_inv p → p_devices p !! a = Some dev → context_ok c →
  hal_inv (Process (p_fds p)
    (<[a := PollDevice (pd_bases dev) c (mPollFds dev) (mWritePipeFd dev)]> (p_devices p)) (p_others p)
    nodes (p_pipe_failed p)).
Proof.
  intros [Hh Hd] Ha Hc. split; cbn [p_fds p_devices p_others p_pipe_failed].
  - intros Hf. rewrite (Hh Hf). f_equiv. symmetry. by eapply devices_update.
  - apply map_Forall_insert_2; [|done]. apply Hd in Ha as (Hb & _ & Hp). by split.
Qed.

Lemma hal_inv_init p : hal_init p → hal_inv p.
Proof.
  intros (Hd & Ho & _). split; rewrite Hd; [|apply map_Forall_empty]. intros _.
  unfold devices_fds. rewrite map_to_list_empty, app_nil_r, Ho.
  apply NoDup_Permutation; [apply held_NoDup|apply NoDup_elements|].
  intros fd. by rewrite elem_of_held, elem_of_elements, elem_of_dom.
Qed.

Lemma same_objects_ok os os' :
  Forall2 same_object os os' → Forall object_ok os → Forall object_ok os'.
Proof.
  induction 1 as [|o o' os os' Hs _ IH]; [done|]. intros [Ho Hos]%Forall_cons.
  constructor; [|by apply IH]. destruct Hs. unfold object_ok in *. cbn in *. auto.
Qed.

Lemma hal_inv_step `{SensorTypes} p p' : hal_inv p → hal_step p p' → hal_inv p'.
Proof.
  intros Hinv Hstep. pose proof Hinv as [Hh Hd].
  destruct Hstep as [e p a ret dev t Ha Eo|p a dev ret ds t Ha Ec|p a dev handle enabled ret dev' Ha Ea
    |p a dev handle ns ret dev' Ha Es|p a dev feed polls data count ret data' dev' Ha Ep
    |p a dev objects Ha Ho|p nodes|p path fd t Eo|p fd Hfd].
  - apply open_sensors_held in Eo as [Hn Hok]. split; cbn [p_fds p_devices p_others p_pipe_failed].
    + intros [Hf Hpf]%orb_false_iff. rewrite (Hn Hpf), devices_insert, (Hh Hf) by done.
      solve_Permutation.
    + by apply map_Forall_insert_2.
  - apply poll__close_run in Ec as [Hc _]; [|by eapply Hd].
    split; cbn [p_fds p_devices p_others p_pipe_failed].
    + intros Hf. apply Hc. rewrite (Hh Hf), devices_delete by done. solve_Permutation.
    + by apply map_Forall_delete.
  - unfold poll__activate in Ea. destruct (activate _ _ _) as [[r c]|] eqn:E; [|done].
    cbn [mbind option_bind] in Ea. injection Ea as <- <-.
    eapply hal_inv_update; [done..|]. eapply activate_ok; [|done]. by eapply Hd.
  - unfold poll__setDelay in Es. destruct (SensorsPoll.setDelay _ _ _) as [[r c]|] eqn:E; [|done].
    cbn [mbind option_bind] in Es. injection Es as <- <-.
    eapply hal_inv_update; [done..|]. eapply setDelay_ok; [|done]. by eapply Hd.
  - unfold poll__poll in Ep. destruct (pollEvents _ _ _ _ _) as [[[r b] c]| |] eqn:E; [|done..].
    injection Ep as <- <- <-.
    eapply hal_inv_update; [done..|]. eapply poll_loop_ok; [|done]. by eapply Hd.
  - eapply hal_inv_update; [done..|]. destruct (Hd _ _ Ha) as (_ & [Hl Hok] & _).
    split; cbn [mSensors]; [by rewrite <- (Forall2_length _ _ _ Ho)|by eapply same_objects_ok].
  - done.
  - destruct (open_fd_run path (p_fds p)) as (fd1 & Ho & Hf & _). rewrite Ho in Eo.
    injection Eo as <- <-. split; cbn [p_fds p_devices p_others p_pipe_failed]; [|done]. intros Hpf.
    assert (fd1 ∉ p_others p) as Hnew.
    { intros Hin%elem_of_elements. assert (fd1 ∈ held (p_fds p)) as Hx
        by (rewrite (Hh Hpf); apply elem_of_app; by left).
      apply elem_of_held in Hx as [? Hx]. congruence. }
    by rewrite held_insert, (Hh Hpf), elements_union_singleton by done.
  - split; cbn [p_fds p_devices p_others p_pipe_failed]; [|done]. intros Hpf. apply close_run.
    rewrite (Hh Hpf), (union_difference_L {[fd]} (p_others p)) at 1 by set_solver.
    rewrite elements_union_singleton by set_solver. done.
Qed.

(** What the device polls and is open belongs to it. *)
Lemma polled_owned dev fd : device_ok dev → fd ∈ mPollFds dev → 0 <= fd → fd ∈ device_fds dev.
Proof.
  intros (Hb & _ & rfd & Hp) Hin H0. unfold device_fds.
  assert (mPollFds dev !! wake = Some rfd) as ->.
  { rewrite Hp, lookup_app_r by (rewrite length_fmap, Hb; done). by rewrite length_fmap, Hb. }
  rewrite Hp in Hin. apply elem_of_app in Hin as [[b [-> Hb']]%list_elem_of_fmap| ->%list_elem_of_singleton].
  - apply elem_of_app. left. apply list_elem_of_bind. exists b. split; [|done].
    unfold getFd in *. unfold base_fds, fds_of.
    destruct (data_name b); destruct (Z.leb_spec 0 (data_fd b)), (Z.leb_spec 0 (dev_fd b)); set_solver by lia.
  - apply elem_of_app. right. cbn. set_solver.
Qed.

(** *** What opening binds *)

Definition bound (inputName : string) (dir : directory) (b : base_members) (t : fd_table) : Prop :=
  match found inputName dir with
  | Some de => 0 <= data_fd b ∧ input_name b = d_name de ∧
      t !! data_fd b = Some (dirname +:+ "/" +:+ d_name de)%string
  | None => data_fd b = -1
  end.

Lemma bound_mono inputName dir b t t' : t ⊆ t' → bound inputName dir b t → bound inputName dir b t'.
Proof.
  intros Ht. unfold bound. destruct (found _ _); [|done].
  intros (H0 & Hn & Hl). split; [done|]. split; [done|]. by eapply lookup_weaken.
Qed.

Lemma openInput_bound inputName dir nm t fd nm' t' dn dt :
  openInput inputName dir nm t = (fd, nm', t') →
  bound inputName dir (Base dn dt nm' (-1) fd) t' ∧ t ⊆ t'.
Proof.
  pose proof (openInput_run inputName dir nm t) as Hr. unfold bound.
  destruct (found inputName dir) as [de|].
  - destruct Hr as (fd1 & Hf & H0 & ->). intros [= <- <- <-]. cbn.
    split; [|by apply insert_subseteq]. split; [done|]. split; [done|]. by rewrite lookup_insert_eq.
  - rewrite Hr. by intros [= <- <- <-].
Qed.

Lemma new_small_bound io d dir nm junk t o t' :
  new_small io d dir nm junk t = (o, t') →
  bound (input_of d) dir (so_base o) t' ∧ t ⊆ t' ∧ getFd (so_base o) = data_fd (so_base o).
Proof.
  unfold new_small, new_SensorBase. destruct (openInput _ _ _ _) as [[fd nm'] t1] eqn:E.
  intros [= <- <-]. cbn [so_base].
  eapply openInput_bound in E as [Hb Ht]. split; [exact Hb|]. by split.
Qed.

Lemma new_akm_bound `{SensorTypes} e t o t' :
  new_akm_object e t = (o, t') →
  match oe_lib e with
  | Some _ => bound "compass_sensor" (oe_akm_dir e) (so_base o) t' ∧
      getFd (so_base o) = data_fd (so_base o)
  | None => getFd (so_base o) = -1
  end ∧ t ⊆ t'.
Proof.
  unfold new_akm_object. cbn [new_SensorBase]. destruct (oe_lib e).
  - destruct (openInput _ _ _ _) as [[fd nm] t1] eqn:E. intros [= <- <-]. cbn [so_base].
    eapply openInput_bound in E as [Hb Ht]. split; [split; [exact Hb|done]|done].
  - by intros [= <- <-].
Qed.

(** Each driver gets the first device of its name that opens. *)
Lemma open_sensors_run `{SensorTypes} e t :
  oe_pipe e = inl tt →
  ∃ l p a g rfd dev t', open_sensors e t = (0, dev, t') ∧ pd_bases dev = [l; p; a; g] ∧
    bound "light_sensor" (oe_dir e light) l t' ∧
    bound "proximity_sensor" (oe_dir e proximity) p t' ∧
    bound "gyro_sensor" (oe_dir e gyro) g t' ∧
    (is_Some (oe_lib e) → bound "compass_sensor" (oe_akm_dir e) a t' ∧ getFd a = data_fd a) ∧
    (oe_lib e = None → getFd a = -1) ∧
    mPollFds dev = [data_fd l; data_fd p; getFd a; data_fd g; rfd] ∧
    t' !! rfd = Some "pipe"%string ∧ t ⊆ t'.
Proof.
  intros Hp. unfold open_sensors, new_poll_context. rewrite Hp.
  destruct (new_small _ light _ _ _ _) as [l t1] eqn:E1.
  destruct (new_small _ proximity _ _ _ _) as [p t2] eqn:E2.
  destruct (new_akm_object _ _) as [a t3] eqn:E3.
  destruct (new_small _ gyro _ _ _ _) as [g t4] eqn:E4.
  unfold pipe. destruct (open_fd_run "pipe" t4) as (r & -> & Hr & _).
  destruct (open_fd_run "pipe" (<[r := "pipe"%string]> t4)) as (w & -> & Hw & _).
  apply new_small_bound in E1 as (B1 & S1 & G1), E2 as (B2 & S2 & G2), E4 as (B4 & S4 & G4).
  apply new_akm_bound in E3 as (B3 & S3).
  assert (t4 ⊆ <[w := "pipe"%string]> (<[r := "pipe"%string]> t4)) as S5.
  { etrans; [by apply insert_subseteq|by apply insert_subseteq]. }
  apply lookup_insert_None in Hw as [_ Hne].
  eexists _, _, _, _, r, _, _. split; [reflexivity|]. split; [reflexivity|].
  split; [eapply bound_mono; [|exact B1]; by do 3 (etrans; [eassumption|])|].
  split; [eapply bound_mono; [|exact B2]; by do 2 (etrans; [eassumption|])|].
  split; [by eapply bound_mono|].
  split; [intros [lib Hl]; rewrite Hl in B3; destruct B3; split; [|done];
          eapply bound_mono; [|eassumption]; by etrans|].
  split; [by intros Hl; rewrite Hl in B3|].
  split; [cbn; by rewrite G1, G2, G4|].
  split; [by rewrite lookup_insert_ne, lookup_insert_eq by done|].
  by do 4 (etrans; [eassumption|]).
Qed.

(** ** Properties *)

Section properties.
Context `{SensorTypes}.

(** C33: in every sequence of openings, calls and closings, with the rest of
    the process opening and closing its own files in between, as long as the
    [pipe] of no opening has failed (its failure is only logged, see
    [failed_pipe_closes_another]), each live device and the rest of the process
    own their descriptors separately, what is open is exactly what they own, a
    live device polls open descriptors only, and when all devices are closed
    nothing of theirs is open. *)
Theorem hal_descriptors p (Hr : reachable hal_step hal_init p) (Hpf : p_pipe_failed p = false) :
  NoDup (elements (p_others p) ++ devices_fds (p_devices p)) ∧
  (∀ fd, is_Some (p_fds p !! fd) ↔
    fd ∈ p_others p ∨ ∃ a dev, p_devices p !! a = Some dev ∧ fd ∈ device_fds dev) ∧
  (∀ a dev fd, p_devices p !! a = Some dev → fd ∈ mPollFds dev → 0 <= fd → is_Some (p_fds p !! fd)) ∧
  (p_devices p = ∅ → dom (p_fds p) = p_others p).
Proof.
  apply (invariant_reachable _ _ hal_inv hal_inv_init hal_inv_step) in Hr as [Hh Hd].
  specialize (Hh Hpf).
  assert (∀ fd, is_Some (p_fds p !! fd) ↔
    fd ∈ p_others p ∨ ∃ a dev, p_devices p !! a = Some dev ∧ fd ∈ device_fds dev) as Hown.
  { intros fd. rewrite <- elem_of_held, Hh, elem_of_app, elem_of_elements. by rewrite elem_of_devices. }
  split; [rewrite <- Hh; apply held_NoDup|]. split; [done|]. split.
  - intros a dev fd Ha Hin H0. apply Hown. right. exists a, dev. split; [done|].
    apply polled_owned; [by eapply Hd|done..].
  - intros He. apply set_eq. intros fd. rewrite elem_of_dom, Hown, He. split; [|by left].
    intros [?|(a & dev & Ha & _)]; [done|by rewrite lookup_empty in Ha].
Qed.

(** C34: closing a device that was opened and used in any way, other devices
    being open or not, succeeds; on the sysfs nodes, which all devices share,
    it leaves 0 exactly in the nodes that a light, proximity or gyroscope
    driver of this device last switched on and that open and take the write at
    that moment, and every other node as it was (so a sensor that only another
    device has on stays on, and one that both have on is switched off for
    both); and, as long as the [pipe] of no opening has failed, it closes
    exactly the device's descriptors. *)
Theorem close_switches_off p a dev
    (Hr : reachable hal_step hal_init p) (Ha : p_devices p !! a = Some dev) :
  ∃ ds t, poll__close (Some dev) (p_fds p) = Some (0, ds, t) ∧
    (∀ path, play (new_writes (mSensors (pd_context dev)) ds) (p_nodes p) !! path =
       if decide (path ∈ switched_off (mSensors (pd_context dev))) then Some off_data
       else p_nodes p !! path) ∧
    (p_pipe_failed p = false →
       ∀ fd, is_Some (t !! fd) ↔ is_Some (p_fds p !! fd) ∧ fd ∉ device_fds dev).
Proof.
  apply (invariant_reachable _ _ hal_inv hal_inv_init hal_inv_step) in Hr as [Hh Hd].
  pose proof (Hd _ _ Ha) as Hok. pose proof Hok as (Hb & _ & rfd & Hp).
  destruct (poll__close (Some dev) (p_fds p)) as [[[ret ds] t]|] eqn:E.
  - pose proof E as E'. unfold poll__close in E'.
    destruct (delete_poll_context _ _) as [[ds' t']|]; [|done]. cbn in E'. injection E' as <- <- <-.
    apply poll__close_run in E as [Hc Hs]; [|done]. exists ds', t'. split; [done|].
    split; [intros path; by rewrite Hs, lookup_set_off|]. intros Hpf. specialize (Hh Hpf).
    rewrite (devices_delete _ _ _ Ha), (assoc_L (++)), (comm (++) (elements _)), <- (assoc_L (++)) in Hh.
    pose proof (Hc _ Hh) as Ht. intros fd. rewrite <- !elem_of_held, Hh, Ht, !elem_of_app.
    pose proof (held_NoDup (p_fds p)) as Hnd. rewrite Hh in Hnd.
    apply NoDup_app in Hnd as (_ & Hdis & _). specialize (Hdis fd). rewrite elem_of_app in Hdis. tauto.
  - exfalso. unfold poll__close, delete_poll_context in E.
    destruct (delete_objects _ _) as [ds t]. cbn in E.
    assert (mPollFds dev !! wake = Some rfd) as Hw; [|by rewrite Hw in E].
    rewrite Hp, lookup_app_r by (rewrite length_fmap, Hb; done). by rewrite length_fmap, Hb.
Qed.
End properties.

Lemma open_sensors_answer `{SensorTypes} e t ret dev t' : open_sensors e t = (ret, dev, t') → ret = 0.
Proof. unfold open_sensors. destruct (new_poll_context e t) as [dev1 t1]. by intros [= <- _ _]. Qed.

(** ** The list of sensors *)

(** Every sensor of the list has a handle of its own, which one of the four
    drivers serves. *)
Lemma sensors_list_routed :
  NoDup (st_handle <$> sSensorList) ∧
  Forall (λ s, 0 <= handleToDriver (st_handle s) < Z.of_nat numSensorDrivers) sSensorList ∧
  (sensors__get_sensors_list).1 = 7.
Proof. by_compute. Qed.

(** ** Findings and witnesses *)

(** When no input device is found [data_fd] is -1, which the constructors take
    for true: the node's path is made from an uninitialised member. *)
Lemma missing_device_uses_junk io d junk_name junk t :
  ∃ s, (new_small io d None junk_name junk t).1 =
      Object (Base None (Some (input_of d)) junk_name (-1) (-1)) (AnySensor sensor (small_driver d) s) ∧
    input_sysfs_path s = ("/sys/class/input/" +:+ junk_name +:+ "/device/")%string.
Proof.
  eexists. split; [reflexivity|]. destruct d; unfold new_sensor; cbn [truth Z.eqb negb];
    cbn [Sensors.enable]; unfold LightSensor.enable, ProximitySensor.enable, GyroSensor.enable;
    cbn [b2i Sensors.mEnabled Z.eqb negb]; destruct (node_opens _); try done.
  - cbn. unfold ProximitySensor.setInitialState. by destruct (ioctl_abs _).
  - cbn. unfold GyroSensor.setInitialState. by destruct (ioctl_abs _).
Qed.

Definition demo_dir : directory :=
  Some [Dirent "." true None; Dirent "event0" true (Some "gpio-keys"%string);
        Dirent "event1" true (Some "light_sensor"%string);
        Dirent "event2" false (Some "proximity_sensor"%string);
        Dirent "event3" true (Some "proximity_sensor"%string);
        Dirent "event4" true (Some "gyro_sensor"%string);
        Dirent "event5" true (Some "compass_sensor"%string)].
Definition demo_env (lib : option akm_lib) (p : unit + Z * Z) : open_env :=
  OpenEnv (λ _, demo_dir) demo_dir lib demo_io (λ _, 0) (λ _, None) "junk" (replicate 64 (syn_event 0))
    [0; 0; 0; 0] p.
Definition opened_process `{SensorTypes} (t0 : fd_table) (dev : poll_device) (t : fd_table) : process :=
  Process t (<[0%nat := dev]> ∅) (dom t0) (play (mSensors (pd_context dev) ≫= obj_writes) ∅) false.
Lemma opened_reachable `{SensorTypes} e t0 ret dev t :
  oe_pipe e = inl tt → open_sensors e t0 = (ret, dev, t) →
  reachable hal_step hal_init (opened_process t0 dev t).
Proof.
  intros Hp Eo. exists (Process t0 ∅ (dom t0) ∅ false). split; [by split|]. apply rtc_once.
  pose proof (StepOpen e (Process t0 ∅ (dom t0) ∅ false) 0%nat ret dev t) as Hs.
  cbn [p_devices p_others p_fds p_nodes p_pipe_failed] in Hs. rewrite Hp in Hs.
  apply Hs; [apply lookup_empty|done].
Qed.

Definition demo_world : open_env := demo_env (Some (demo_lib false)) (inl tt).
Lemma demo_closes :
  (let '(_, dev, t) := open_sensors (H := demo_types) demo_world ∅ in snd <$> poll__close (Some dev) t) = Some ∅.
Proof. vm_compute. reflexivity. Qed.

(** The result of [pipe] is not tested: if it fails, the descriptors the device
    closes later are whatever the array held, here a file of the process. *)
Lemma failed_pipe_closes_another :
  let t : fd_table := {[7 := "log"%string]} in
  let '(_, dev, t') := open_sensors (H := demo_types) (demo_env None (inr (7, 8))) t in
  match poll__close (Some dev) t' with Some (0, _, t'') => t'' = ∅ | _ => False end.
Proof. vm_compute. reflexivity. Qed.

(** The destructor of the AKM driver stops nothing: what the library was told
    to run still runs. *)
Lemma akm_left_running : hw (delete_akm demo_on) ≠ ∅.
Proof. apply (bool_decide_unpack _). vm_compute. exact I. Qed.

(** Two devices share the nodes: closing one switches the light sensor off
    while the other still has it enabled. *)
Lemma close_switches_off_another :
  let '(_, dev1, t1) := open_sensors (H := demo_types) demo_world ∅ in
  let '(_, dev2, t2) := open_sensors (H := demo_types) demo_world t1 in
  let nodes := play (mSensors (pd_context dev2) ≫= obj_writes)
    (play (mSensors (pd_context dev1) ≫= obj_writes) ∅) in
  let light_node := "/sys/class/input/event1/device/enable"%string in
  nodes !! light_node = Some ("1" +:+ nul)%string ∧
  match poll__close (Some dev1) t2 with
  | Some (_, ds, _) =>
      play (new_writes (mSensors (pd_context dev1)) ds) nodes !! light_node = Some off_data
  | None => False
  end ∧
  switched_off (mSensors (pd_context dev2)) !! 0%nat = Some light_node.
Proof. vm_compute. by split. Qed.

(** The result of the write is ignored: a driver whose node refuses it answers
    0 and takes the sensor for switched on. *)
Lemma refused_write_ignored :
  let io := {| node_opens := λ _, true; node_accepts := λ _, false; ioctl_abs := λ _, None; now := 0 |} in
  let o := new_sensor (H := demo_io) light 5 "event1" (replicate 8 (syn_event 0)) in
  let '(err, o') := Sensors.enable (H := io) light 0 o in
  err = 0 ∧ Sensors.mEnabled o' = 0 ∧
  play (node_writes o') ∅ !! enable_node_of o' = Some ("1" +:+ nul)%string.
Proof. vm_compute. by split. Qed.

Lemma hal_descriptors_witness :
  ∃ dev t, open_sensors (H := demo_types) demo_world ∅ = (0, dev, t) ∧ elements (dom t) ≡ₚ device_fds dev.
Proof.
  destruct (open_sensors (H := demo_types) demo_world ∅) as [[ret dev] t] eqn:Eo. exists dev, t.
  pose proof (open_sensors_answer _ _ _ _ _ Eo) as ->. split; [reflexivity|].
  destruct (hal_descriptors _ (opened_reachable (H := demo_types) demo_world ∅ 0 dev t eq_refl Eo) eq_refl)
    as (Hn & Hown & _ & _).
  clear Eo. unfold devices_fds in Hn. cbn [opened_process p_others p_devices p_fds] in *.
  rewrite dom_empty_L, insert_empty in *. rewrite map_to_list_singleton in Hn. cbn in Hn. rewrite app_nil_r in Hn.
  apply NoDup_Permutation; [apply NoDup_elements|exact Hn|].
  intros fd. rewrite elem_of_elements, elem_of_dom, Hown. split.
  - intros [Hf|(a & dev' & Ha & Hin)]; [by apply elem_of_empty in Hf|].
    apply lookup_singleton_Some in Ha as [_ ->]. exact Hin.
  - intros Hin. right. exists 0%nat, dev. split; [apply lookup_singleton_eq|exact Hin].
Defined.

Lemma demo_switched_off :
  (let '(_, dev, t) := open_sensors (H := demo_types) demo_world ∅ in
   switched_off (mSensors (pd_context dev))) =
  ["/sys/class/input/event1/device/enable"; "/sys/class/input/event3/device/enable";
   "/sys/class/input/event4/device/enable"]%string.
Proof. vm_compute. reflexivity. Qed.

Lemma close_switches_off_witness :
  ∃ dev t ds, open_sensors (H := demo_types) demo_world ∅ = (0, dev, t) ∧ poll__close (Some dev) t = Some (0, ds, ∅) ∧
    play (new_writes (mSensors (pd_context dev)) ds)
      (play (mSensors (pd_context dev) ≫= obj_writes) ∅) !! "/sys/class/input/event4/device/enable"%string
    = Some off_data.
Proof.
  pose proof demo_closes as Hc. pose proof demo_switched_off as Hso.
  destruct (open_sensors (H := demo_types) demo_world ∅) as [[ret dev] t] eqn:Eo.
  pose proof (open_sensors_answer _ _ _ _ _ Eo) as ->.
  destruct (close_switches_off _ 0%nat dev
    (opened_reachable (H := demo_types) demo_world ∅ 0 dev t eq_refl Eo) (lookup_insert_eq _ _ _))
    as (ds & t' & E & Hs & _).
  clear Eo. cbn [opened_process p_fds] in E. rewrite E in Hc. injection Hc as Ht. subst t'.
  exists dev, t, ds. split; [reflexivity|]. split; [exact E|].
  specialize (Hs "/sys/class/input/event4/device/enable"%string). rewrite Hso in Hs.
  rewrite decide_True in Hs; [exact Hs|]. right; right; left.
Defined.
