(* ===== verification/LocCfg.v ===== *)
(** * The configuration reader: gps/utils/loc_cfg.cpp

    Strings are the characters before the NUL.  The table entries point into a
    memory of variables [mem]; the marks [param_set] are in [marks].  The file
    is its lines as [fgets] returns them; [atof] is a parameter (the model
    does no double arithmetic). *)

From Stdlib Require Import String Ascii.
From S2P Require Import Prelude.
Local Open Scope Z_scope.

Definition LOC_MAX_PARAM_STRING : nat := 80.
Definition LOC_MAX_PARAM_LINE : nat := 80.

Abbreviation chars := (list ascii).
Definition str (s : string) : chars := list_ascii_of_string s.

(** ** Library functions *)

Definition code (c : ascii) : Z := Z.of_nat (nat_of_ascii c).
Definition isspace (c : ascii) : bool := ((9 <=? code c) && (code c <=? 13)) || (code c =? 32).
Definition isdigit (c : ascii) : bool := (48 <=? code c) && (code c <=? 57).
Definition tolower (c : ascii) : Z := if (65 <=? code c) && (code c <=? 90) then code c + 32 else code c.

(** The digit [c] stands for in bases up to 16. *)
Definition digit (base : Z) (c : ascii) : option Z :=
  let d := if isdigit c then Some (code c - 48)
           else if (97 <=? tolower c) && (tolower c <=? 102) then Some (tolower c - 87) else None in
  match d with Some v => if v <? base then Some v else None | None => None end.
Fixpoint digits (base acc : Z) (s : chars) : Z :=
  match s with
  | c :: s => match digit base c with Some d => digits base (acc * base + d) s | None => acc end
  | [] => acc
  end.
Fixpoint skip_spaces (s : chars) : chars :=
  match s with c :: s' => if isspace c then skip_spaces s' else s | [] => [] end.
(** [strtol], [long] being 32 bits wide: out of range it answers the nearest
    limit.  In base 16 a prefix 0x may precede the digits. *)
Definition clamp (z : Z) : Z := Z.max (- 2 ^ 31) (Z.min (2 ^ 31 - 1) z).
Definition strip_0x (base : Z) (s : chars) : chars :=
  match s with
  | z :: x :: d :: s' =>
      if (base =? 16) && (code z =? 48) && (tolower x =? 120) && bool_decide (is_Some (digit base d))
      then d :: s' else s
  | _ => s
  end.
Definition strtol (base : Z) (s : chars) : Z :=
  match skip_spaces s with
  | c :: s' =>
      if code c =? 45 then clamp (- digits base 0 (strip_0x base s'))
      else if code c =? 43 then clamp (digits base 0 (strip_0x base s'))
      else clamp (digits base 0 (strip_0x base (c :: s')))
  | [] => 0
  end.
Definition atoi (s : chars) : Z := strtol 10 s.

(** [strlcpy(dst, src, n)] *)
Definition strlcpy (n : nat) (src : chars) : chars := take (n - 1) src.

(** [strtok_r] with the single delimiter [d]: the token and what is saved;
    [None] for NULL. *)
Fixpoint skip_delim (d : ascii) (s : chars) : chars :=
  match s with c :: s' => if Ascii.eqb c d then skip_delim d s' else s | [] => [] end.
Fixpoint until (d : ascii) (s : chars) : chars * option chars :=
  match s with
  | [] => ([], None)
  | c :: s => if Ascii.eqb c d then ([], Some s) else let '(t, r) := until d s in (c :: t, r)
  end.
Definition strtok_r (d : ascii) (s : option chars) : option (chars * option chars) :=
  match s with
  | None => None
  | Some s => match skip_delim d s with [] => None | s' => Some (until d s') end
  end.

(** ** trim_space *)

(** The scan: the characters written so far and how many of them end at
    [last_nonspace], if [first_nonspace] has been met. *)
Fixpoint trim_scan (s : chars) (written : option (chars * option nat)) : option (chars * option nat) :=
  match s with
  | [] => written
  | c :: s =>
      let started :=
        match written with
        | Some w => Some w
        | None => if negb (isspace c) then Some ([], None) else None
        end in
      trim_scan s
        match started with
        | Some (w, last) => Some (w ++ [c], if negb (isspace c) then Some (length (w ++ [c])) else last)
        | None => None
        end
  end.
(** What the buffer holds afterwards: the characters written, over those that
    were there. *)
Definition trim_space (org_string : chars) : chars :=
  match trim_scan org_string None with
  | Some (w, Some last) => take last (w ++ drop (length w) org_string)
  | Some (w, None) => w ++ drop (length w) org_string
  | None => org_string
  end.

(** ** Tables *)

Section config.
Context {double : Type} (atof : chars → double) (d_zero : double).

Inductive value := VInt (z : Z) | VStr (s : chars) | VDouble (d : double) | VByte (b : Z).

(** [loc_param_s_type]; variables and marks are numbered. *)
Record loc_param_s_type := Param {
  param_name : chars;
  param_ptr : option positive;
  param_set : option positive;
  param_type : ascii
}.

Record loc_param_v_type := ParamValue {
  v_name : chars;
  v_str : chars;
  v_int : Z;
  v_double : double
}.

Record cfg := Cfg {
  mem : gmap positive value;
  marks : gmap positive Z;
  logger : Z * Z;            (* loc_logger.DEBUG_LEVEL, loc_logger.TIMESTAMP *)
  overrun : bool             (* a store ran past its variable *)
}.

Definition DEBUG_LEVEL : positive := 1.
Definition TIMESTAMP : positive := 2.
Definition loc_parameter_table : list loc_param_s_type :=
  [Param (str "DEBUG_LEVEL") (Some DEBUG_LEVEL) None "n"%char;
   Param (str "TIMESTAMP") (Some TIMESTAMP) None "n"%char].

(** Storing an [int]: a [uint8_t] takes its low byte and the other three
    bytes run past it. *)
Definition store_int (p : positive) (z : Z) (c : cfg) : cfg :=
  match mem c !! p with
  | Some (VByte _) => Cfg (<[p := VByte (uint8 z)]> (mem c)) (marks c) (logger c) true
  | _ => Cfg (<[p := VInt z]> (mem c)) (marks c) (logger c) (overrun c)
  end.
Definition store (p : positive) (v : value) (c : cfg) : cfg :=
  Cfg (<[p := v]> (mem c)) (marks c) (logger c) (overrun c).
Definition mark (m : option positive) (b : Z) (c : cfg) : cfg :=
  match m with
  | Some m => Cfg (mem c) (<[m := b]> (marks c)) (logger c) (overrun c)
  | None => c
  end.

Definition byte_of (p : positive) (c : cfg) : Z :=
  match mem c !! p with Some (VByte b) => b | _ => 0 end.
Definition loc_logger_init (debug timestamp : Z) (c : cfg) : cfg :=
  Cfg (mem c) (marks c) (debug, timestamp) (overrun c).
Definition loc_default_parameters (c : cfg) : cfg :=
  loc_logger_init 3 0 (store TIMESTAMP (VByte 0) (store DEBUG_LEVEL (VByte 3) c)).

Definition loc_set_config_entry (config_entry : loc_param_s_type) (config_value : loc_param_v_type)
    (c : cfg) : cfg :=
  match param_ptr config_entry with
  | Some p =>
      if decide (param_name config_entry = v_name config_value) then
        if Ascii.eqb (param_type config_entry) "s" then
          let s := if decide (v_str config_value = str "NULL") then []
                   else strlcpy (LOC_MAX_PARAM_STRING + 1) (v_str config_value) in
          mark (param_set config_entry) 1 (store p (VStr s) c)
        else if Ascii.eqb (param_type config_entry) "n" then
          mark (param_set config_entry) 1 (store_int p (v_int config_value) c)
        else if Ascii.eqb (param_type config_entry) "f" then
          mark (param_set config_entry) 1 (store p (VDouble (v_double config_value)) c)
        else c
      else c
  | None => c
  end.

(** One line: the two operands and their numerical values; [None] for a line
    that is skipped. *)
Definition parse_line (input_buf : chars) : option loc_param_v_type :=
  match strtok_r "=" (Some input_buf) with
  | None => None
  | Some (name, lasts) =>
      match strtok_r "=" lasts with
      | None => None
      | Some (value, _) =>
          let name := trim_space name in
          let value := trim_space value in
          Some match value with
               | z :: x :: hex =>
                   if (code z =? 48) && (tolower x =? 120)
                   then ParamValue name value (strtol 16 hex) d_zero
                   else ParamValue name value (atoi value) (atof value)
               | _ => ParamValue name value (atoi value) (atof value)
               end
      end
  end.

Definition set_entries (table : list loc_param_s_type) (v : loc_param_v_type) (c : cfg) : cfg :=
  foldl (λ c e, loc_set_config_entry e v c) c table.

Definition read_line (config_table : list loc_param_s_type) (c : cfg) (line : chars) : cfg :=
  match parse_line line with
  | None => c
  | Some v => set_entries loc_parameter_table v (set_entries config_table v c)
  end.

(** [lines]: what [fgets] returns, or [None] when the file does not open. *)
Definition loc_read_conf (lines : option (list chars)) (config_table : list loc_param_s_type)
    (c : cfg) : cfg :=
  let c := loc_default_parameters c in
  match lines with
  | None => c
  | Some lines =>
      let c := foldl (λ c e, mark (param_set e) 0 c) c config_table in
      let c := foldl (read_line config_table) c lines in
      loc_logger_init (byte_of DEBUG_LEVEL c) (byte_of TIMESTAMP c) c
  end.
End config.

(** The calls of [fgets] on the contents of a file: a line ends after its
    newline, or after [LOC_MAX_PARAM_LINE - 1] characters. *)
Definition newline : ascii := ascii_of_nat 10.
Fixpoint fgets_lines (room : nat) (line : chars) (s : chars) : list chars :=
  match s with
  | [] => match line with [] => [] | _ => [line] end
  | c :: s =>
      let line := line ++ [c] in
      if Ascii.eqb c newline then line :: fgets_lines (LOC_MAX_PARAM_LINE - 1) [] s
      else match room with
           | S (S room) => fgets_lines (S room) line s
           | _ => line :: fgets_lines (LOC_MAX_PARAM_LINE - 1) [] s
           end
  end.
Definition conf_lines (file : chars) : list chars := fgets_lines (LOC_MAX_PARAM_LINE - 1) [] file.

(** ** trim_space *)

Definition spaces (s : chars) : Prop := Forall (λ c, isspace c = true) s.

Lemma trim_scan_spaces s : spaces s → trim_scan s None = None.
Proof. induction 1 as [|c s Hc _ IH]; [done|]. cbn. by rewrite Hc. Qed.
Lemma trim_scan_lead l s : spaces l → trim_scan (l ++ s) None = trim_scan s None.
Proof. induction 1 as [|c l Hc _ IH]; [done|]. cbn. by rewrite Hc. Qed.
Lemma trim_scan_started s w last :
  ∃ last', trim_scan s (Some (w, last)) = Some (w ++ s, last').
Proof.
  revert w last. induction s as [|c s IH]; intros w last; cbn [trim_scan].
  - exists last. by rewrite app_nil_r.
  - destruct (IH (w ++ [c]) (if negb (isspace c) then Some (length (w ++ [c])) else last)) as [l' E].
    exists l'. rewrite E. by rewrite <- app_assoc.
Qed.
Lemma trim_scan_trail r w last : spaces r → trim_scan r (Some (w, last)) = Some (w ++ r, last).
Proof.
  intros Hr. revert w. induction Hr as [|c r Hc _ IH]; intros w; cbn [trim_scan].
  - by rewrite app_nil_r.
  - rewrite Hc. cbn [negb]. by rewrite IH, <- app_assoc.
Qed.
Lemma trim_scan_app s t w last :
  trim_scan (s ++ t) (Some (w, last)) = trim_scan t (trim_scan s (Some (w, last))).
Proof.
  revert w last. induction s as [|c s IH]; intros w last; [done|]. cbn [app trim_scan]. apply IH.
Qed.

(** ** The entries of a table *)

Section entries.
Context {double : Type} (atof : chars → double) (d_zero : double).

(** What an assignment stores through an entry of one of the three types. *)
Definition conv (e : loc_param_s_type) (v : @loc_param_v_type double) : option (@value double) :=
  if Ascii.eqb (param_type e) "s" then
    Some (VStr (if decide (v_str v = str "NULL") then [] else take LOC_MAX_PARAM_STRING (v_str v)))
  else if Ascii.eqb (param_type e) "n" then Some (VInt (v_int v))
  else if Ascii.eqb (param_type e) "f" then Some (VDouble (v_double v))
  else None.

(** What the assignment [v] does to entry [e]: nothing unless it is its name. *)
Definition assigned (e : loc_param_s_type) (v : @loc_param_v_type double) : option (@value double) :=
  if decide (param_name e = v_name v) then conv e v else None.
(** The values the lines give to an entry, in order. *)
Definition assignments (e : loc_param_s_type) (lines : list chars) : list (@value double) :=
  omap (λ line, v ← parse_line atof d_zero line; assigned e v) lines.

Definition no_byte (p : positive) (c : @cfg double) : Prop := ∀ b, mem c !! p ≠ Some (VByte b).

Lemma mark_mem m b (c : @cfg double) : mem (mark m b c) = mem c.
Proof. by destruct m. Qed.

Lemma set_entry_other e v (c : @cfg double) p :
  param_ptr e ≠ Some p → mem (loc_set_config_entry e v c) !! p = mem c !! p.
Proof.
  intros Hp. unfold loc_set_config_entry. destruct (param_ptr e) as [q|]; [|done].
  assert (q ≠ p) as Hne by congruence.
  repeat (break_if; [|]); rewrite ?mark_mem; unfold store, store_int; try done;
    try (destruct (mem c !! q) as [[]|]); cbn [mem]; by rewrite ?lookup_insert_ne.
Qed.

Lemma set_entry_same e v (c : @cfg double) p :
  param_ptr e = Some p → no_byte p c →
  mem (loc_set_config_entry e v c) !! p =
    match assigned e v with Some x => Some x | None => mem c !! p end.
Proof.
  intros Hp Hb. unfold loc_set_config_entry, assigned, conv. rewrite Hp.
  case_decide; [|done]. repeat (break_if; [|]); rewrite ?mark_mem; unfold store, store_int, strlcpy;
    cbn [mem]; try (by rewrite lookup_insert_eq); [|done].
  specialize (Hb). destruct (mem c !! p) as [[]|] eqn:Em; cbn [mem]; rewrite ?lookup_insert_eq; try done.
  by destruct (Hb b).
Qed.

Lemma set_entry_marks e v (c : @cfg double) m :
  marks (loc_set_config_entry e v c) !! m =
    if decide (param_set e = Some m ∧ is_Some (param_ptr e) ∧ is_Some (assigned e v))
    then Some 1 else marks c !! m.
Proof.
  unfold loc_set_config_entry, assigned, conv.
  destruct (param_ptr e) as [p|]; [|rewrite decide_False by naive_solver; done].
  case_decide as Hn; [|rewrite decide_False by naive_solver; done].
  assert (∀ c' : @cfg double, marks c' = marks c → marks (mark (param_set e) 1 c') !! m =
    if decide (param_set e = Some m) then Some 1 else marks c !! m) as Hmark.
  { intros c' Hc. unfold mark. destruct (param_set e) as [q|]; cbn [marks]; rewrite ?Hc.
    - destruct (decide (q = m)) as [->|Hne]; [by rewrite lookup_insert_eq, decide_True|].
      rewrite lookup_insert_ne, decide_False by congruence. done.
    - by rewrite decide_False. }
  repeat (break_if; [|]); try (rewrite Hmark by (unfold store_int; by repeat case_match));
    repeat case_decide; try done; naive_solver.
Qed.
End entries.

Section reading.
Context {double : Type} (atof : chars → double) (d_zero : double).
Context (t1 t2 : list loc_param_s_type) (e : loc_param_s_type) (p : positive).
Context (Hp : param_ptr e = Some p)
  (Hptr : Forall (λ e', param_ptr e' ≠ Some p) (t1 ++ t2 ++ loc_parameter_table)).

Lemma set_entries_other table v (c : @cfg double) :
  Forall (λ e', param_ptr e' ≠ Some p) table → mem (set_entries table v c) !! p = mem c !! p.
Proof.
  intros H. revert c. induction H as [|e' table He' _ IH]; intros c; [done|].
  cbn [set_entries foldl]. fold (set_entries table v (loc_set_config_entry e' v c)).
  by rewrite IH, set_entry_other.
Qed.

Lemma read_line_mem (c : @cfg double) line :
  no_byte p c →
  mem (read_line atof d_zero (t1 ++ e :: t2) c line) !! p =
    match v ← parse_line atof d_zero line; assigned e v with
    | Some x => Some x | None => mem c !! p end.
Proof.
  intros Hb. unfold read_line. destruct (parse_line atof d_zero line) as [v|]; [|done].
  cbn [mbind option_bind]. apply Forall_app in Hptr as [H1 [H2 H3]%Forall_app].
  rewrite set_entries_other by done. unfold set_entries. rewrite foldl_app. cbn [foldl].
  fold (set_entries t1 v c). fold (set_entries t2 v (loc_set_config_entry e v (set_entries t1 v c))).
  rewrite set_entries_other by done. rewrite (set_entry_same e v _ p Hp).
  - by rewrite set_entries_other.
  - intros b. rewrite set_entries_other by done. apply Hb.
Qed.

Lemma conv_no_byte v b : conv e v ≠ Some (VByte (double := double) b).
Proof. unfold conv. by repeat break_if. Qed.
Lemma assigned_no_byte line b :
  (v ← parse_line atof d_zero line; assigned e v) ≠ Some (VByte (double := double) b).
Proof.
  destruct (parse_line _ _ _) as [v|]; [|done]. cbn. unfold assigned.
  case_decide; [apply conv_no_byte|done].
Qed.

Lemma read_lines_mem lines (c : @cfg double) :
  no_byte p c →
  mem (foldl (read_line atof d_zero (t1 ++ e :: t2)) c lines) !! p =
    match last (assignments atof d_zero e lines) with Some x => Some x | None => mem c !! p end.
Proof.
  revert c. induction lines as [|line lines IH]; intros c Hb; [done|].
  pose proof (read_line_mem c line Hb) as Hl. pose proof (assigned_no_byte line) as Hnb.
  cbn [foldl assignments omap list_omap]. fold (assignments atof d_zero e lines).
  rewrite IH.
  - rewrite Hl. destruct (v ← parse_line atof d_zero line; assigned e v) as [x|]; [|done].
    rewrite last_cons. by destruct (last _).
  - intros b. rewrite Hl.
    destruct (v ← parse_line atof d_zero line; assigned e v) as [x|]; [|apply Hb].
    intros [= ->]. by apply (Hnb b).
Qed.

(** The mark of the entry, shared with no other. *)
Context (m : positive) (Hm : param_set e = Some m)
  (Hset : Forall (λ e', param_set e' ≠ Some m) (t1 ++ t2)).

Lemma set_entries_marks table v (c : @cfg double) :
  Forall (λ e', param_set e' ≠ Some m) table → marks (set_entries table v c) !! m = marks c !! m.
Proof.
  intros H. revert c. induction H as [|e' table He' _ IH]; intros c; [done|].
  cbn [set_entries foldl]. fold (set_entries table v (loc_set_config_entry e' v c)).
  rewrite IH, set_entry_marks. by rewrite decide_False by naive_solver.
Qed.

Lemma read_line_marks (c : @cfg double) line :
  marks (read_line atof d_zero (t1 ++ e :: t2) c line) !! m =
    match v ← parse_line atof d_zero line; assigned e v with
    | Some _ => Some 1 | None => marks c !! m end.
Proof.
  unfold read_line. destruct (parse_line atof d_zero line) as [v|]; [|done].
  cbn [mbind option_bind]. apply Forall_app in Hset as [H1 H2].
  rewrite set_entries_marks by (repeat constructor; done). unfold set_entries.
  rewrite foldl_app. cbn [foldl].
  fold (set_entries t1 v c). fold (set_entries t2 v (loc_set_config_entry e v (set_entries t1 v c))).
  rewrite set_entries_marks, set_entry_marks, Hp, Hm by done.
  destruct (assigned e v) as [x|].
  - rewrite decide_True by (split_and!; by try eexists). done.
  - rewrite decide_False by (intros (_ & _ & [? [=]])). by rewrite set_entries_marks.
Qed.

Lemma read_lines_marks lines (c : @cfg double) :
  marks (foldl (read_line atof d_zero (t1 ++ e :: t2)) c lines) !! m =
    match assignments atof d_zero e lines with [] => marks c !! m | _ => Some 1 end.
Proof.
  revert c. induction lines as [|line lines IH]; intros c; [done|].
  cbn [foldl assignments omap list_omap]. fold (assignments atof d_zero e lines).
  rewrite IH, read_line_marks.
  destruct (v ← parse_line atof d_zero line; assigned e v); [by destruct (assignments _ _ _ _)|done].
Qed.

Lemma clear_marks_other (table : list loc_param_s_type) (c : @cfg double) :
  mem (foldl (λ c e, mark (param_set e) 0 c) c table) = mem c.
Proof.
  revert c. induction table as [|e' table IH]; intros c; [done|]. cbn [foldl].
  by rewrite IH, mark_mem.
Qed.
Lemma clear_marks_same (c : @cfg double) :
  marks (foldl (λ c e, mark (param_set e) 0 c) c (t1 ++ e :: t2)) !! m = Some 0.
Proof.
  assert (∀ table (c : @cfg double), Forall (λ e', param_set e' ≠ Some m) table →
    marks (foldl (λ c e, mark (param_set e) 0 c) c table) !! m = marks c !! m) as Hother.
  { intros table c0 H. revert c0. induction H as [|e' table He' _ IH]; intros c0; [done|].
    cbn [foldl]. rewrite IH. unfold mark. destruct (param_set e') as [q|]; [|done].
    cbn [marks]. apply lookup_insert_ne. congruence. }
  apply Forall_app in Hset as [H1 H2]. rewrite foldl_app. cbn [foldl].
  rewrite Hother by done. unfold mark at 1. rewrite Hm. cbn [marks]. apply lookup_insert_eq.
Qed.
End reading.

(** *** The whole reader *)

Section reader.
Context {double : Type} (atof : chars → double) (d_zero : double).
Context (t1 t2 : list loc_param_s_type) (e : loc_param_s_type) (p : positive).
Context (Hp : param_ptr e = Some p)
  (Hptr : Forall (λ e', param_ptr e' ≠ Some p) (t1 ++ t2 ++ loc_parameter_table)).
Local Abbreviation table := (t1 ++ e :: t2).

Lemma default_mem (c : @cfg double) : mem (loc_default_parameters c) !! p = mem c !! p.
Proof.
  apply Forall_app in Hptr as [_ [_ Hpt]%Forall_app]. unfold loc_parameter_table in Hpt.
  rewrite !Forall_cons in Hpt. cbn in Hpt.
  cbn. rewrite !lookup_insert_ne; [done|intros <-; naive_solver..].
Qed.

Lemma loc_read_conf_mem lines (c : @cfg double) :
  no_byte p c →
  mem (loc_read_conf atof d_zero (Some lines) table c) !! p =
    match last (assignments atof d_zero e lines) with Some x => Some x | None => mem c !! p end.
Proof.
  intros Hb. unfold loc_read_conf. cbn [loc_logger_init mem].
  rewrite (read_lines_mem atof d_zero t1 t2 e p Hp Hptr).
  - by rewrite clear_marks_other, default_mem.
  - intros b. rewrite clear_marks_other, default_mem. apply Hb.
Qed.

Lemma loc_read_conf_marks m lines (c : @cfg double) :
  param_set e = Some m → Forall (λ e', param_set e' ≠ Some m) (t1 ++ t2) →
  marks (loc_read_conf atof d_zero (Some lines) table c) !! m =
    Some (match assignments atof d_zero e lines with [] => 0 | _ => 1 end).
Proof.
  intros Hm Hset. unfold loc_read_conf. cbn [loc_logger_init marks].
  rewrite (read_lines_marks atof d_zero t1 t2 e p Hp m Hm Hset).
  rewrite (clear_marks_same t1 t2 e m Hm Hset). by destruct (assignments _ _ _ _).
Qed.

Definition ints (l : list (@value double)) : list Z :=
  omap (λ x, match x with VInt z => Some z | _ => None end) l.

(** A variable of one byte keeps the low byte of what it is given. *)
Lemma read_line_byte (c : @cfg double) line :
  param_type e = "n"%char → (∃ b, mem c !! p = Some (VByte b)) →
  mem (read_line atof d_zero table c line) !! p =
    match v ← parse_line atof d_zero line; assigned e v with
    | Some (VInt z) => Some (VByte (uint8 z)) | _ => mem c !! p end.
Proof.
  intros Ht (b & Hb). unfold read_line. destruct (parse_line atof d_zero line) as [v|]; [|done].
  cbn [mbind option_bind]. pose proof Hptr as [H1 [H2 H3]%Forall_app]%Forall_app.
  rewrite (set_entries_other p) by done.
  unfold set_entries. rewrite foldl_app. cbn [foldl].
  fold (set_entries t1 v c). fold (set_entries t2 v (loc_set_config_entry e v (set_entries t1 v c))).
  rewrite (set_entries_other p) by done.
  unfold loc_set_config_entry, assigned, conv. rewrite Hp, Ht. case_decide.
  - change (Ascii.eqb "n" "s") with false. change (Ascii.eqb "n" "n") with true. cbn iota.
    rewrite mark_mem. unfold store_int. rewrite (set_entries_other p t1), Hb by done. cbn [mem]. apply lookup_insert_eq.
  - by rewrite (set_entries_other p t1) by done.
Qed.

Lemma read_lines_byte lines (c : @cfg double) b :
  param_type e = "n"%char → mem c !! p = Some (VByte b) →
  mem (foldl (read_line atof d_zero table) c lines) !! p =
    Some (VByte (match last (ints (assignments atof d_zero e lines)) with
                 | Some z => uint8 z | None => b end)).
Proof.
  intros Ht. revert c b. induction lines as [|line lines IH]; intros c b Hb; [done|].
  pose proof (read_line_byte c line Ht (ex_intro _ b Hb)) as Hl.
  cbn [foldl assignments omap list_omap]. fold (assignments atof d_zero e lines).
  destruct (v ← parse_line atof d_zero line; assigned e v) as [x|] eqn:Ea.
  - assert (∃ z, x = VInt z) as [z ->].
    { clear -Ht Ea. revert Ea. destruct (parse_line _ _ _) as [v|]; [|done]. cbn. unfold assigned, conv.
      rewrite Ht. case_decide; [|done]. intros [= <-]. by eexists. }
    rewrite (IH _ _ Hl). unfold ints. cbn [omap list_omap]. rewrite last_cons. by destruct (last _).
  - rewrite Hb in Hl. apply (IH _ _ Hl).
Qed.

Lemma loc_read_conf_byte lines (c : @cfg double) b :
  param_type e = "n"%char → mem c !! p = Some (VByte b) →
  mem (loc_read_conf atof d_zero (Some lines) table c) !! p =
    Some (VByte (match last (ints (assignments atof d_zero e lines)) with
                 | Some z => uint8 z | None => b end)).
Proof.
  intros Ht Hb. unfold loc_read_conf. cbn [loc_logger_init mem].
  apply read_lines_byte; [done|]. by rewrite clear_marks_other, default_mem.
Qed.
End reader.

(** ** Properties *)

(** [trim_space] removes exactly the leading and trailing spaces of a
    string that has another character, and leaves a string of spaces as it
    is. *)
Theorem trim_space_spec s :
  (spaces s → trim_space s = s) ∧
  (∀ l m r, s = l ++ m ++ r → spaces l → spaces r →
     (∃ c, head m = Some c ∧ isspace c = false) → (∃ c, last m = Some c ∧ isspace c = false) →
     trim_space s = m).
Proof.
  unfold trim_space. split; [intros Hs; by rewrite trim_scan_spaces|].
  intros l m r -> Hl Hr (c & Hc & Hcs) (d & Hd & Hds).
  rewrite trim_scan_lead by done. destruct m as [|c' m]; [done|]. injection Hc as ->.
  cbn [app trim_scan]. rewrite Hcs. cbn [negb app length]. rewrite trim_scan_app.
  assert (trim_scan m (Some ([c], Some 1%nat)) = Some (c :: m, Some (S (length m)))) as ->.
  { destruct m as [|x m _] using rev_ind; [done|]. rewrite trim_scan_app.
    assert (x = d) as -> by (rewrite app_comm_cons, last_snoc in Hd; congruence).
    destruct (trim_scan_started m [c] (Some 1%nat)) as [l' ->]. cbn [trim_scan].
    rewrite Hds. cbn [negb]. done. }
  rewrite trim_scan_trail by done.
  rewrite <- app_assoc. change (S (length m)) with (length (c :: m)). by rewrite take_app_length.
Qed.

(** for an entry of type string, number or float whose variable and mark
    no other entry shares, reading a file leaves in the variable the value of
    the last line that assigns to its name (a string cut to 80 characters, a
    number decimal or hexadecimal), or what it held if no line does, and in
    the mark whether one did; a file that does not open leaves both. *)
Theorem loc_read_conf_spec {double : Type} (atof : chars → double) (d_zero : double)
    (t1 t2 : list loc_param_s_type) (e : loc_param_s_type) (p m : positive) (lines : list chars)
    (c : @cfg double)
    (Hp : param_ptr e = Some p) (Hm : param_set e = Some m) (Hb : no_byte p c)
    (Hptr : Forall (λ e', param_ptr e' ≠ Some p) (t1 ++ t2 ++ loc_parameter_table))
    (Hset : Forall (λ e', param_set e' ≠ Some m) (t1 ++ t2)) :
  let table := t1 ++ e :: t2 in
  let c' := loc_read_conf atof d_zero (Some lines) table c in
  mem c' !! p =
    match last (assignments atof d_zero e lines) with Some x => Some x | None => mem c !! p end ∧
  marks c' !! m = Some (match assignments atof d_zero e lines with [] => 0 | _ => 1 end) ∧
  mem (loc_read_conf atof d_zero None table c) !! p = mem c !! p ∧
  marks (loc_read_conf atof d_zero None table c) !! m = marks c !! m.
Proof.
  intros table c'. split; [|split; [|split]].
  - by apply loc_read_conf_mem.
  - by eapply loc_read_conf_marks.
  - by eapply default_mem.
  - done.
Qed.

(** ** Findings and witnesses *)

(** The number types of the library's own table are one byte wide and are
    stored as [int]s. *)
Lemma debug_level_overruns :
  overrun (loc_read_conf (λ _, tt) tt (Some [str "DEBUG_LEVEL = 4"]) []
    (Cfg ∅ ∅ (0, 0) false)) = true.
Proof. vm_compute. reflexivity. Qed.

(** A string of spaces keeps its spaces. *)
Lemma spaces_not_trimmed : trim_space (str "   ") = str "   ".
Proof. vm_compute. reflexivity. Qed.

Definition demo_entry : loc_param_s_type := Param (str "SUPL_PORT") (Some 5%positive) (Some 9%positive) "n".
Definition demo_file : chars :=
  str "# ports" ++ [newline] ++ str " SUPL_PORT = 7276 " ++ [newline] ++
  str "SUPL_PORT=0x1C6D" ++ [newline].

Lemma trim_space_spec_witness : trim_space (str "  a b ") = str "a b".
Proof.
  apply (trim_space_spec (str "  a b ")) with (l := str "  ") (r := str " ").
  - reflexivity.
  - repeat constructor.
  - repeat constructor.
  - exists "a"%char. split; reflexivity.
  - exists "b"%char. split; reflexivity.
Defined.

Lemma loc_read_conf_spec_witness :
  mem (loc_read_conf (λ _, tt) tt (Some (conf_lines demo_file)) [demo_entry]
    (Cfg ∅ ∅ (0, 0) false)) !! 5%positive = Some (VInt 7277).
Proof.
  destruct (loc_read_conf_spec (λ _, tt) tt [] [] demo_entry 5 9 (conf_lines demo_file)
    (Cfg ∅ ∅ (0, 0) false)) as [Hmem _].
  - reflexivity.
  - reflexivity.
  - intros b. discriminate.
  - repeat constructor; discriminate.
  - constructor.
  - refine (eq_trans Hmem _). vm_compute. reflexivity.
Defined.
