(* ===== verification/Nmea.v ===== *)
(** * NMEA sentences: loc_eng_nmea.cpp

    A sentence is built in a buffer of [NMEA_SENTENCE_MAX_LENGTH] bytes by
    appending formatted pieces; a piece that does not fit ends the function, a
    write past the buffer is [None].  Formatting and arithmetic of floating
    point numbers, [gmtime] and the class of the numbers are the parameter
    [NmeaEnv]; integers are formatted by the model. *)

From stdpp Require Import pretty.
From Stdlib Require Import String Ascii.
From S2P Require Import Prelude.
Local Open Scope Z_scope.

Definition NMEA_SENTENCE_MAX_LENGTH : nat := 200.
Definition GPS_MAX_SVS : nat := 32.
Definition GPS_LOCATION_HAS_LAT_LONG : Z := 0x0001.
Definition GPS_LOCATION_HAS_ALTITUDE : Z := 0x0002.
Definition GPS_LOCATION_HAS_SPEED : Z := 0x0004.
Definition GPS_LOCATION_HAS_BEARING : Z := 0x0008.
Definition GPS_LOCATION_EXTENDED_HAS_DOP : Z := 0x0001.
Definition GPS_LOCATION_EXTENDED_HAS_ALTITUDE_MEAN_SEA_LEVEL : Z := 0x0002.
Definition GPS_LOCATION_EXTENDED_HAS_MAG_DEV : Z := 0x0004.

Abbreviation chars := (list ascii).
Definition str (s : string) : chars := list_ascii_of_string s.
Definition has (flags bit : Z) : bool := truth (Z.land flags bit).

(** Broken-down time, as the source uses it. *)
Record tm := Tm { tm_year : Z; tm_mon : Z; tm_mday : Z; tm_hour : Z; tm_min : Z; tm_sec : Z }.

Class NmeaEnv := {
  real : Type;
  fmt_1 : real → chars;            (* %.1f and %.1lf *)
  fmt_09_6 : real → chars;         (* %09.6lf *)
  gt0 : real → bool;
  lt0 : real → bool;
  r_neg : real → real;             (* times -1.0 *)
  r_sub : real → real → real;
  to_knots : real → real;          (* times 3600.0/1852.0 *)
  to_kmh : real → real;            (* times 3.6 *)
  minutes : real → real;           (* fmod(x * 60.0, 60.0) *)
  floor_u8 : real → Z;             (* (uint8_t)floor(x) *)
  round : real → Z;                (* (int)(0.5 + x) *)
  r_float : real → real;           (* a double converted to float *)
  r_zero : real;
  gmtime : Z → tm
}.

(** ** Formats *)

Definition digits_of (z : Z) : chars := str (pretty (Z.abs z)).
(** [%0<w>d] *)
Definition fmt_d0 (w : nat) (z : Z) : chars :=
  let d := digits_of z in
  let sign := if z <? 0 then ["-"%char] else [] in
  sign ++ replicate (w - length sign - length d) "0"%char ++ d.
Definition fmt_d (z : Z) : chars := fmt_d0 0 z.

Definition hex_digit (v : nat) : ascii :=
  ascii_of_nat (if (v <? 10)%nat then 48 + v else 55 + v).
(** [%02X] of a byte *)
Definition fmt_02X (b : nat) : chars := [hex_digit (b / 16); hex_digit (b mod 16)].

Definition comma : chars := [","%char].
Definition crlf : chars := [ascii_of_nat 13; ascii_of_nat 10].

(** ** Checksum *)

(** The exclusive or of the characters, a byte. *)
Definition xor_chars (s : chars) : nat :=
  foldl (λ acc c, Nat.lxor acc (nat_of_ascii c)) 0%nat s.

(** The sentence with its checksum and the length returned: the one of the
    sentence without its first character. *)
Definition loc_eng_nmea_put_checksum (pNmea : chars) : option (chars * Z) :=
  match pNmea with
  | [] => None
  | d :: body =>
      let out := d :: body ++ ["*"%char] ++ fmt_02X (xor_chars body) ++ crlf in
      if (length out <? NMEA_SENTENCE_MAX_LENGTH)%nat
      then Some (out, Z.of_nat (length body) + 5) else None
  end.

(** ** State: the members of [loc_eng_data] used here *)

Section nmea.
Context `{NmeaEnv}.

Record nmea := Nmea {
  sv_used_mask : Z;               (* uint32_t *)
  pdop : real;
  hdop : real;
  vdop : real;
  standalone : bool;              (* the position mode *)
  nmea_sent : list (chars * Z)    (* the calls of nmea_cb *)
}.

(** Of the struct, the members [size], [is_indoor], [floor_number] and the map
    name are not used. *)
Record GpsLocation := Location {
  l_flags : Z;
  position_source : Z;
  latitude : real;
  longitude : real;
  altitude : real;
  speed : real;
  bearing : real;
  accuracy : real;
  timestamp : Z;
  rawData : option positive
}.

Record GpsLocationExtended := LocationExtended {
  e_flags : Z;
  altitudeMeanSeaLevel : real;
  e_pdop : real;
  e_hdop : real;
  e_vdop : real;
  magneticDeviation : real
}.

Record GpsSvInfo := SvInfo { prn : Z; snr : real; elevation : real; azimuth : real }.

(** [svl]: the used part of [sv_list]. *)
Record GpsSvStatus := SvStatus { num_svs : Z; svl : list GpsSvInfo; used_in_fix_mask : Z }.

Definition loc_eng_nmea_send (pNmea : chars) (length : Z) (st : nmea) : nmea :=
  Nmea (sv_used_mask st) (pdop st) (hdop st) (vdop st) (standalone st)
    (nmea_sent st ++ [(pNmea, length)]).
Definition set_mask (m : Z) (st : nmea) : nmea :=
  Nmea m (pdop st) (hdop st) (vdop st) (standalone st) (nmea_sent st).
Definition set_dop (p h v : real) (st : nmea) : nmea :=
  Nmea (sv_used_mask st) p h v (standalone st) (nmea_sent st).

(** Appending a piece; if it does not fit the function returns. *)
Definition emit (piece : chars) (st : nmea) (k : chars → option nmea) (sentence : chars) : option nmea :=
  if (length sentence + length piece <? NMEA_SENTENCE_MAX_LENGTH)%nat
  then k (sentence ++ piece) else Some st.
Fixpoint emits (pieces : list chars) (st : nmea) (k : chars → option nmea) (sentence : chars)
    : option nmea :=
  match pieces with
  | [] => k sentence
  | piece :: pieces => emit piece st (emits pieces st k) sentence
  end.
(** The last piece is cut to what fits; then the checksum and the sending. *)
Definition finish (piece : chars) (st : nmea) (k : nmea → option nmea) (sentence : chars) : option nmea :=
  '(out, length) ← loc_eng_nmea_put_checksum (take (NMEA_SENTENCE_MAX_LENGTH - 1) (sentence ++ piece));
  k (loc_eng_nmea_send out length st).

(** ** loc_eng_nmea_generate_pos *)

(** The numbers of the satellites in the mask, from bit [i] - 1 on. *)
Fixpoint sv_used_list (n : nat) (i mask : Z) : list Z :=
  match n with
  | O => []
  | S n =>
      if negb (0 <? mask) then []
      else (if truth (Z.land mask 1) then [i] else []) ++ sv_used_list n (i + 1) (Z.shiftr mask 1)
  end.

Definition has_dop_cache (st : nmea) : bool := gt0 (pdop st) && gt0 (hdop st) && gt0 (vdop st).

Definition dop_piece (ext : GpsLocationExtended) (st : nmea) : chars :=
  let dops p h v := fmt_1 p ++ comma ++ fmt_1 h ++ comma ++ fmt_1 v in
  if has (e_flags ext) GPS_LOCATION_EXTENDED_HAS_DOP then dops (e_pdop ext) (e_hdop ext) (e_vdop ext)
  else if has_dop_cache st then dops (pdop st) (hdop st) (vdop st)
  else str ",,".

Definition fix_type (svUsedCount : nat) : chars :=
  if (svUsedCount =? 0)%nat then str "1" else if (svUsedCount <=? 3)%nat then str "2" else str "3".

Definition gsa_pieces (used : list Z) : list chars :=
  (str "$GPGSA,A," ++ fix_type (length used) ++ comma) ::
  ((λ i, match used !! i with Some sv => fmt_d0 2 sv ++ comma | None => comma end) <$> seq 0 12).

(** The magnetic deviation is subtracted from a variable of an inner block;
    the one that is printed keeps the bearing. *)
Definition vtg_pieces (loc : GpsLocation) (ext : GpsLocationExtended) : list chars :=
  [ (if has (l_flags loc) GPS_LOCATION_HAS_BEARING then
       let magTrack := bearing loc in
       str "$GPVTG," ++ fmt_1 (bearing loc) ++ str ",T," ++ fmt_1 magTrack ++ str ",M,"
     else str "$GPVTG,,T,,M,");
    (if has (l_flags loc) GPS_LOCATION_HAS_SPEED then
       fmt_1 (to_knots (speed loc)) ++ str ",N," ++ fmt_1 (to_kmh (speed loc)) ++ str ",K,"
     else str ",N,,K,") ].

Definition mode_piece (none alone other : string) (loc : GpsLocation) (st : nmea) : chars :=
  if negb (has (l_flags loc) GPS_LOCATION_HAS_LAT_LONG) then str none
  else if standalone st then str alone else str other.

Definition lat_long_piece (loc : GpsLocation) : chars :=
  if has (l_flags loc) GPS_LOCATION_HAS_LAT_LONG then
    let '(lat, ns) := if gt0 (latitude loc) then (latitude loc, str "N")
                      else (r_neg (latitude loc), str "S") in
    let '(lon, ew) := if lt0 (longitude loc) then (r_neg (longitude loc), str "W")
                      else (longitude loc, str "E") in
    fmt_d0 2 (floor_u8 lat) ++ fmt_09_6 (minutes lat) ++ comma ++ ns ++ comma ++
    fmt_d0 3 (floor_u8 lon) ++ fmt_09_6 (minutes lon) ++ comma ++ ew ++ comma
  else str ",,,,".

Definition time_piece (t : tm) : chars := fmt_d0 2 (tm_hour t) ++ fmt_d0 2 (tm_min t) ++ fmt_d0 2 (tm_sec t).

Definition rmc_pieces (t : tm) (loc : GpsLocation) (ext : GpsLocationExtended) : list chars :=
  [ str "$GPRMC," ++ time_piece t ++ str ",A,";
    lat_long_piece loc;
    (if has (l_flags loc) GPS_LOCATION_HAS_SPEED then fmt_1 (to_knots (speed loc)) ++ comma else comma);
    (if has (l_flags loc) GPS_LOCATION_HAS_BEARING then fmt_1 (bearing loc) ++ comma else comma);
    fmt_d0 2 (tm_mday t) ++ fmt_d0 2 (tm_mon t + 1) ++ fmt_d0 2 (Z.rem (tm_year t) 100) ++ comma;
    (if has (e_flags ext) GPS_LOCATION_EXTENDED_HAS_MAG_DEV then
       let '(v, dir) := if lt0 (magneticDeviation ext) then (r_neg (magneticDeviation ext), str "W")
                        else (magneticDeviation ext, str "E") in
       fmt_1 v ++ comma ++ dir ++ comma
     else str ",,") ].

Definition gga_pieces (t : tm) (used : list Z) (loc : GpsLocation) (ext : GpsLocationExtended)
    (st : nmea) : list chars :=
  let quality := mode_piece "0" "1" "2" loc st in
  let fix_part := quality ++ comma ++ fmt_d0 2 (Z.of_nat (length used)) ++ comma in
  [ str "$GPGGA," ++ time_piece t ++ comma;
    lat_long_piece loc;
    fix_part ++
      (if has (e_flags ext) GPS_LOCATION_EXTENDED_HAS_DOP then fmt_1 (e_hdop ext) ++ comma
       else if has_dop_cache st then fmt_1 (hdop st) ++ comma else comma);
    (if has (e_flags ext) GPS_LOCATION_EXTENDED_HAS_ALTITUDE_MEAN_SEA_LEVEL
     then fmt_1 (altitudeMeanSeaLevel ext) ++ str ",M," else str ",,") ].

Definition geoid_piece (loc : GpsLocation) (ext : GpsLocationExtended) : chars :=
  if has (l_flags loc) GPS_LOCATION_HAS_ALTITUDE &&
     has (e_flags ext) GPS_LOCATION_EXTENDED_HAS_ALTITUDE_MEAN_SEA_LEVEL
  then fmt_1 (r_sub (altitude loc) (altitudeMeanSeaLevel ext)) ++ str ",M,,"
  else str ",,,".

Definition loc_eng_nmea_generate_pos (location : GpsLocation) (locationExtended : GpsLocationExtended)
    (st : nmea) : option nmea :=
  let t := gmtime (Z.quot (timestamp location) 1000) in
  let used := sv_used_list 32 1 (sv_used_mask st) in
  let st := set_mask 0 st in
  emits (gsa_pieces used) st (finish (dop_piece locationExtended st) st (λ st,
  emits (vtg_pieces location locationExtended) st (finish (mode_piece "N" "A" "D" location st) st (λ st,
  emits (rmc_pieces t location locationExtended) st (finish (mode_piece "N" "A" "D" location st) st (λ st,
  emits (gga_pieces t used location locationExtended st) st
    (finish (geoid_piece location locationExtended) st (λ st,
     Some (set_dop r_zero r_zero r_zero st))) [])) [])) [])) [].

(** ** loc_eng_nmea_generate_sv *)

Definition sv_pieces (sv : GpsSvInfo) : list chars :=
  (comma ++ fmt_d0 2 (prn sv) ++ comma ++ fmt_d0 2 (round (elevation sv)) ++ comma ++
   fmt_d0 3 (round (azimuth sv)) ++ comma) ::
  (if gt0 (snr sv) then [fmt_d0 2 (round (snr sv))] else []).

(** The inner loop: at most [i] more satellites, the next being [svNumber]. *)
Fixpoint sv_loop (i : nat) (svNumber svCount : Z) (sv_list : list GpsSvInfo) (st : nmea)
    (k : Z → chars → option nmea) (sentence : chars) : option nmea :=
  match i with
  | O => k svNumber sentence
  | S i =>
      if svNumber <=? svCount then
        if (GPS_MAX_SVS <? Z.to_nat svNumber)%nat then None
        else
          sv ← sv_list !! Z.to_nat (svNumber - 1);
          emits (sv_pieces sv) st (sv_loop i (svNumber + 1) svCount sv_list st k) sentence
      else k svNumber sentence
  end.

(** [n] sentences are left. *)
Fixpoint gsv_loop (n : nat) (sentenceNumber sentenceCount svNumber svCount : Z)
    (sv_list : list GpsSvInfo) (st : nmea) (k : nmea → option nmea) : option nmea :=
  match n with
  | O => k st
  | S n =>
      emit (str "$GPGSV," ++ fmt_d sentenceCount ++ comma ++ fmt_d sentenceNumber ++ comma ++
            fmt_d0 2 svCount) st
        (sv_loop 4 svNumber svCount sv_list st (λ svNumber sentence,
           finish [] st (λ st,
             gsv_loop n (sentenceNumber + 1) sentenceCount svNumber svCount sv_list st k) sentence)) []
  end.

Definition send_fixed (s : string) (st : nmea) (k : nmea → option nmea) : option nmea :=
  finish (str s) st k [].

Definition loc_eng_nmea_generate_sv (svStatus : GpsSvStatus) (locationExtended : GpsLocationExtended)
    (st : nmea) : option nmea :=
  let rest st :=
    if used_in_fix_mask svStatus =? 0 then
      send_fixed "$GPGSA,A,1,,,,,,,,,,,,,,," st (λ st,
      send_fixed "$GPVTG,,T,,M,,N,,K,N" st (λ st,
      send_fixed "$GPRMC,,V,,,,,,,,,,N" st (λ st,
      send_fixed "$GPGGA,,,,,,0,,,,,,,," st (λ st, Some st))))
    else
      let st := set_mask (used_in_fix_mask svStatus) st in
      Some (if has (e_flags locationExtended) GPS_LOCATION_EXTENDED_HAS_DOP
            then set_dop (e_pdop locationExtended) (e_hdop locationExtended) (e_vdop locationExtended) st
            else set_dop r_zero r_zero r_zero st) in
  if num_svs svStatus <=? 0 then send_fixed "$GPGSV,1,1,0," st rest
  else
    let svCount := num_svs svStatus in
    let sentenceCount := Z.quot svCount 4 + (if truth (Z.rem svCount 4) then 1 else 0) in
    gsv_loop (Z.to_nat sentenceCount) 1 sentenceCount 1 svCount (svl svStatus) st rest.
End nmea.

(** ** Reading a sentence back

    A receiver of the sentences, independent of the code: the dollar, the body
    up to the star, two hexadecimal digits equal to the exclusive or of the
    body, the end of the line. *)

Definition hex_value (c : ascii) : option nat :=
  let v := nat_of_ascii c in
  if ((48 <=? v) && (v <=? 57))%nat then Some (v - 48)%nat
  else if ((65 <=? v) && (v <=? 70))%nat then Some (v - 55)%nat else None.

Fixpoint split_star (s : chars) : chars * chars :=
  match s with
  | [] => ([], [])
  | c :: s' => if decide (c = "*"%char) then ([], s)
               else let '(a, b) := split_star s' in (c :: a, b)
  end.

Definition nmea_read (s : chars) : option chars :=
  match s with
  | "$"%char :: rest =>
      match split_star rest with
      | (body, "*"%char :: h :: l :: eol) =>
          h ← hex_value h; l ← hex_value l;
          if decide ((16 * h + l)%nat = xor_chars body ∧ eol = crlf) then Some body else None
      | _ => None
      end
  | _ => None
  end.

(** The number of fields of a body. *)
Definition fields (s : chars) : nat := S (length (filter (λ c, c = ","%char) s)).

(** The sentence made of some pieces, with the length the code reports. *)
Definition sentence_of (pieces : list chars) : chars * Z :=
  let s := concat pieces in
  (s ++ str "*" ++ fmt_02X (xor_chars (tail s)) ++ crlf, Z.of_nat (length s) + 4).

Definition plain (s : chars) : Prop := Forall (λ c, c ≠ "*"%char) s.
(** A formatted number. *)
Definition number (s : chars) : Prop := Forall (λ c, c ≠ "*"%char ∧ c ≠ ","%char) s.

Lemma lxor_byte a b : (a < 256)%nat → (b < 256)%nat → (Nat.lxor a b < 256)%nat.
Proof.
  intros Ha Hb. destruct (decide (Nat.lxor a b = 0)%nat) as [->|Hz]; [lia|].
  apply Nat.log2_lt_pow2 with (b := 8%nat); [lia|].
  pose proof (Nat.log2_lxor a b).
  assert (∀ x, x < 256 → Nat.log2 x < 8)%nat as Hl.
  { intros x Hx. destruct (decide (x = 0)%nat) as [->|]; [cbn; lia|].
    apply Nat.log2_lt_pow2; cbn; lia. }
  pose proof (Hl a Ha). pose proof (Hl b Hb). lia.
Qed.

Lemma xor_chars_byte s : (xor_chars s < 256)%nat.
Proof.
  unfold xor_chars. assert (∀ acc, acc < 256 →
    foldl (λ acc c, Nat.lxor acc (nat_of_ascii c)) acc s < 256)%nat as Hx.
  { induction s as [|c s IH]; cbn; [done|]. intros acc Hacc.
    apply IH, lxor_byte; [done|]. apply nat_ascii_bounded. }
  apply Hx. lia.
Qed.

Lemma hex_read b : (b < 256)%nat →
  ∃ h l vh vl, fmt_02X b = [h; l] ∧ hex_value h = Some vh ∧ hex_value l = Some vl ∧
               (16 * vh + vl)%nat = b.
Proof.
  intros Hb.
  assert (∀ d, d < 16 → hex_value (hex_digit d) = Some d)%nat as Hd.
  { intros d H. do 16 (destruct d as [|d]; [done|]). lia. }
  exists (hex_digit (b / 16)), (hex_digit (b mod 16)), (b / 16)%nat, (b mod 16)%nat.
  split; [done|]. split; [|split].
  - apply Hd. apply Nat.Div0.div_lt_upper_bound. lia.
  - apply Hd. apply Nat.mod_upper_bound. lia.
  - pose proof (Nat.div_mod_eq b 16). lia.
Qed.

Lemma split_star_plain a b : plain a → split_star (a ++ "*"%char :: b) = (a, "*"%char :: b).
Proof.
  induction 1 as [|c a Hc _ IH]; cbn; [done|].
  rewrite decide_False by done. by rewrite IH.
Qed.

(** The sentence the code makes of a body is read back. *)
Lemma nmea_read_sentence body :
  plain body → nmea_read (fst (sentence_of ["$"%char :: body])) = Some body.
Proof.
  intros Hb. unfold sentence_of. cbn [concat fst tail app]. rewrite app_nil_r.
  cbn [tail]. destruct (hex_read _ (xor_chars_byte body)) as (h & l & vh & vl & -> & Hh & Hl & Hv).
  cbn -[split_star crlf]. rewrite split_star_plain by done.
  rewrite Hh. cbn. rewrite Hl. cbn -[crlf]. rewrite decide_True by (split; [cbn in Hv; lia|done]). done.
Qed.

(** The checksum round trip: a body without a star that fits the buffer is
    framed so that a receiver reads exactly the body back, the length handed
    on is one less than that of the sentence, and a body that does not fit is
    written past the end of the buffer. *)
Theorem put_checksum_roundtrip body :
  plain body →
  if (length body + 6 <? NMEA_SENTENCE_MAX_LENGTH)%nat then
    ∃ out n, loc_eng_nmea_put_checksum ("$"%char :: body) = Some (out, n) ∧
      nmea_read out = Some body ∧ n = Z.of_nat (length out) - 1
  else loc_eng_nmea_put_checksum ("$"%char :: body) = None.
Proof.
  intros Hb. pose proof (nmea_read_sentence body Hb) as Hr.
  unfold sentence_of in Hr. cbn [concat fst tail app] in Hr. rewrite app_nil_r in Hr. cbn [tail] in Hr.
  unfold loc_eng_nmea_put_checksum. cbn [app].
  set (out := "$"%char :: body ++ _).
  assert (length out = length body + 6)%nat as Hl.
  { subst out. cbn [length]. rewrite !length_app. cbn. lia. }
  rewrite Hl. destruct (_ <? _)%nat; [|done].
  exists out, (Z.of_nat (length body) + 5). split; [done|]. split; [|lia].
  exact Hr.
Qed.

Lemma put_checksum_roundtrip_witness :
  plain (str "GPVTG,,T,,M,,N,,K,N") ∧
  nmea_read (str "$GPVTG,,T,,M,,N,,K,N*2C" ++ crlf) = Some (str "GPVTG,,T,,M,,N,,K,N").
Proof.
  assert (plain (str "GPVTG,,T,,M,,N,,K,N")) as Hp by by_compute.
  split; [exact Hp|].
  pose proof (put_checksum_roundtrip (str "GPVTG,,T,,M,,N,,K,N") Hp) as Ht.
  change (length (str "GPVTG,,T,,M,,N,,K,N") + 6 <? NMEA_SENTENCE_MAX_LENGTH)%nat with true in Ht.
  destruct Ht as (out & n & Ho & Hr & _).
  replace (str "$GPVTG,,T,,M,,N,,K,N*2C" ++ crlf) with out; [exact Hr|].
  vm_compute in Ho. injection Ho as <- _. reflexivity.
Defined.

(** ** The satellites of a mask *)

Lemma sv_used_list_shift n : ∀ i mask,
  0 ≤ mask →
  sv_used_list n i mask =
  filter (λ sv, Z.testbit mask (sv - i) = true) (seqZ i (Z.of_nat n)).
Proof.
  induction n as [|n IH]; intros i mask Hm; [done|].
  rewrite seqZ_cons by lia. replace (Z.pred (Z.of_nat (S n))) with (Z.of_nat n) by lia.
  cbn [sv_used_list]. rewrite filter_cons.
  replace (i - i) with 0 by lia.
  destruct (Z.ltb_spec 0 mask) as [Hp|Hp]; cbn [negb].
  - rewrite IH by (by apply Z.shiftr_nonneg).
    replace (Z.succ i) with (i + 1) by lia.
    replace (truth (Z.land mask 1)) with (Z.testbit mask 0).
    2: { change 1 with (Z.ones 1). rewrite Z.land_ones, Z.bit0_odd by lia.
         change (2 ^ 1) with 2. rewrite Zmod_odd. by destruct (Z.odd mask). }
    assert (filter (λ sv, Z.testbit (Z.shiftr mask 1) (sv - (i + 1)) = true) (seqZ (i + 1) (Z.of_nat n)) =
            filter (λ sv, Z.testbit mask (sv - i) = true) (seqZ (i + 1) (Z.of_nat n))) as ->.
    { apply list_filter_ext. apply Forall_forall. intros x Hx.
      apply elem_of_seqZ in Hx.
      rewrite Z.shiftr_spec by lia. by replace (x - (i + 1) + 1) with (x - i) by lia. }
    by destruct (Z.testbit mask 0).
  - assert (mask = 0) as -> by lia. rewrite decide_False by (by rewrite Z.testbit_0_l).
    symmetry. apply list_filter_none, Forall_forall. intros x _. by rewrite Z.testbit_0_l.
Qed.

(** The loop over the bits of the mask of used satellites computes the
    reference definition: the satellites 1 to 32 whose bit is set, in
    increasing order, each once. *)
Theorem sv_used_list_spec mask :
  0 ≤ mask →
  sv_used_list 32 1 mask = filter (λ sv, Z.testbit mask (sv - 1) = true) (seqZ 1 32) ∧
  NoDup (sv_used_list 32 1 mask).
Proof.
  intros Hm. rewrite sv_used_list_shift by done. split; [done|].
  apply NoDup_filter, NoDup_seqZ.
Qed.

Lemma sv_used_list_spec_witness :
  sv_used_list 32 1 0x80000005 = [1; 3; 32] ∧ NoDup (sv_used_list 32 1 0x80000005).
Proof.
  destruct (sv_used_list_spec 0x80000005) as [H1 H2]; [lia|].
  split; [rewrite H1; reflexivity|exact H2].
Defined.

(** ** Formatted integers *)

Lemma fmt_d0_small w z : (w ≤ 3)%nat → -1000 < z < 1000 →
  (length (fmt_d0 w z) ≤ 4)%nat ∧ number (fmt_d0 w z).
Proof.
  intros Hw Hz.
  assert (Forall (λ w, Forall (λ z, length (fmt_d0 w z) ≤ 4 ∧ number (fmt_d0 w z))%nat
            (seqZ (-999) 1999)) (seq 0 4)) as Hall by by_compute.
  rewrite Forall_forall in Hall.
  specialize (Hall w ltac:(apply elem_of_seq; lia)). cbn beta in Hall.
  rewrite Forall_forall in Hall. apply Hall, elem_of_seqZ. lia.
Qed.

Lemma fmt_d0_length w z : (w ≤ 3)%nat → -1000 < z < 1000 → (length (fmt_d0 w z) ≤ 4)%nat.
Proof. intros. by apply fmt_d0_small. Qed.

Lemma fmt_d0_number w z : (w ≤ 3)%nat → -1000 < z < 1000 → number (fmt_d0 w z).
Proof. intros. by apply fmt_d0_small. Qed.

Lemma fmt_d0_two z : 0 ≤ z < 100 → length (fmt_d0 2 z) = 2%nat.
Proof.
  intros Hz.
  assert (Forall (λ z, length (fmt_d0 2 z) = 2%nat) (seqZ 0 100)) as Hall by by_compute.
  rewrite Forall_forall in Hall. apply Hall, elem_of_seqZ. lia.
Qed.

(** ** Pieces

    What is needed of a piece: its length and its commas are bounded, and it
    has no star. *)

Record piece (n c : nat) (s : chars) : Prop := {
  piece_length : (length s ≤ n)%nat;
  piece_commas : length (filter (λ c, c = ","%char) s) = c;
  piece_plain : plain s
}.

Lemma piece_app n1 c1 s1 n2 c2 s2 :
  piece n1 c1 s1 → piece n2 c2 s2 → piece (n1 + n2) (c1 + c2) (s1 ++ s2).
Proof.
  intros [] []. split.
  - rewrite length_app. lia.
  - rewrite filter_app, length_app. lia.
  - by apply Forall_app.
Qed.

Lemma piece_number n s : number s → (length s ≤ n)%nat → piece n 0 s.
Proof.
  intros Hs Hn. split; [done| |].
  - rewrite list_filter_none; [done|]. by eapply Forall_impl; [exact Hs|]; intros ? [].
  - by eapply Forall_impl; [exact Hs|]; intros ? [].
Qed.

Lemma piece_weaken n m c s : piece n c s → (n ≤ m)%nat → piece m c s.
Proof. intros [] ?. split; [lia|done|done]. Qed.

Lemma piece_concat l : ∀ n c, Forall (piece n c) l → piece (length l * n) (length l * c) (concat l).
Proof.
  intros n c. induction 1 as [|s l Hs _ IH]; [split; [done..|constructor]|].
  apply (piece_app n c s (length l * n) (length l * c)); done.
Qed.

Lemma piece_str s : plain (str s) →
  piece (length (str s)) (length (filter (λ c, c = ","%char) (str s))) (str s).
Proof. by split. Qed.

#[export] Hint Extern 5 (plain _) => by_compute : msm.

(** ** Building a sentence *)

Section nmea_proofs.
Context `{NmeaEnv}.

Lemma emits_fit pieces st k : ∀ sentence,
  (length sentence + length (concat pieces) < NMEA_SENTENCE_MAX_LENGTH)%nat →
  emits pieces st k sentence = k (sentence ++ concat pieces).
Proof.
  induction pieces as [|p ps IH]; intros s Hl; cbn [emits concat].
  - by rewrite app_nil_r.
  - cbn [concat] in Hl. rewrite length_app in Hl. unfold emit.
    rewrite (proj2 (Nat.ltb_lt _ _)) by lia.
    rewrite IH by (rewrite length_app; lia). by rewrite app_assoc.
Qed.

(** What [loc_eng_nmea_send] is called with. *)
Definition send_all (l : list (chars * Z)) (st : nmea) : nmea :=
  Nmea (sv_used_mask st) (pdop st) (hdop st) (vdop st) (standalone st) (nmea_sent st ++ l).

Lemma send_all_app a b st : send_all b (send_all a st) = send_all (a ++ b) st.
Proof. unfold send_all. cbn. by rewrite app_assoc. Qed.

Lemma finish_fit p st k sentence :
  (0 < length sentence)%nat →
  (length sentence + length p + 5 < NMEA_SENTENCE_MAX_LENGTH)%nat →
  finish p st k sentence = k (send_all [sentence_of [sentence; p]] st).
Proof.
  intros H0 Hl. unfold finish, sentence_of. cbn [concat]. rewrite app_nil_r.
  rewrite take_ge by (rewrite length_app; lia).
  destruct sentence as [|d s]; [cbn in H0; lia|]. cbn [app tail loc_eng_nmea_put_checksum].
  cbn [length] in Hl |- *.
  rewrite (proj2 (Nat.ltb_lt _ _)) by (rewrite !length_app; cbn; lia).
  cbn [mbind option_bind]. f_equal. unfold send_all, loc_eng_nmea_send. cbn [str list_ascii_of_string app].
  do 4 f_equal. lia.
Qed.

(** A sentence built from [pieces] and ended with [p]. *)
Lemma sentence_fit pieces p st k :
  (0 < length (concat pieces))%nat →
  (length (concat pieces) + length p + 5 < NMEA_SENTENCE_MAX_LENGTH)%nat →
  emits pieces st (finish p st k) [] = k (send_all [sentence_of (pieces ++ [p])] st).
Proof.
  intros H0 Hl. rewrite emits_fit by (cbn; lia). cbn [app].
  assert (concat (pieces ++ [p]) = concat [concat pieces; p]) as Hc by (by rewrite concat_app).
  rewrite finish_fit by lia. unfold sentence_of. by rewrite Hc.
Qed.

(** ** The pieces of the position sentences *)

Lemma piece_eq n c n' c' s : piece n' c' s → (n' <=? n)%nat = true → c' = c → piece n c s.
Proof. intros Hs Hn <-. eapply piece_weaken; [exact Hs|]. by apply Nat.leb_le. Qed.

Lemma piece_comma : piece 1 1 comma.
Proof. split; [done..|by_compute]. Qed.

Lemma piece_fmt_d0 w z : (w ≤ 3)%nat → -1000 < z < 1000 → piece 4 0 (fmt_d0 w z).
Proof. intros. apply piece_number; [by apply fmt_d0_number|by apply fmt_d0_length]. Qed.

Definition fits (x : real) : Prop := number (fmt_1 x) ∧ (length (fmt_1 x) ≤ 20)%nat.
Definition angle_fits (x : real) : Prop :=
  number (fmt_09_6 (minutes x)) ∧ (length (fmt_09_6 (minutes x)) ≤ 20)%nat ∧ 0 ≤ floor_u8 x < 256.

Lemma piece_fmt_1 x : fits x → piece 20 0 (fmt_1 x).
Proof. intros []. by apply piece_number. Qed.

Lemma piece_minutes x : angle_fits x → piece 20 0 (fmt_09_6 (minutes x)).
Proof. intros (? & ? & _). by apply piece_number. Qed.

Hint Resolve piece_app piece_comma piece_fmt_d0 piece_fmt_1 piece_minutes : msm.
Hint Extern 1 (piece _ _ (str _)) => apply piece_str; by_compute : msm.
Hint Extern 2 (_ ≤ _)%nat => lia : msm.
Hint Extern 2 (_ < _ < _) => lia : msm.

(** Closes [piece n c s] by the shape of [s]. *)
Ltac pieces := eapply piece_eq; [eauto 20 with msm|reflexivity|reflexivity].

(** What is asked of a report: its numbers, in the formats used, take at most
    20 characters, and the date is a date. *)
Record pos_fits (loc : GpsLocation) (ext : GpsLocationExtended) (st : nmea) : Prop := {
  pf_mask : 0 ≤ sv_used_mask st;
  pf_bearing : fits (bearing loc);
  pf_knots : fits (to_knots (speed loc));
  pf_kmh : fits (to_kmh (speed loc));
  pf_lat : angle_fits (if gt0 (latitude loc) then latitude loc else r_neg (latitude loc));
  pf_lon : angle_fits (if lt0 (longitude loc) then r_neg (longitude loc) else longitude loc);
  pf_dop : Forall fits [pdop st; hdop st; vdop st; e_pdop ext; e_hdop ext; e_vdop ext];
  pf_alt : fits (altitudeMeanSeaLevel ext);
  pf_geoid : fits (r_sub (altitude loc) (altitudeMeanSeaLevel ext));
  pf_mag : fits (if lt0 (magneticDeviation ext) then r_neg (magneticDeviation ext)
                 else magneticDeviation ext);
  pf_time : Forall (λ z, -1000 < z < 1000) (let t := gmtime (Z.quot (timestamp loc) 1000) in
              [tm_hour t; tm_min t; tm_sec t; tm_mday t; tm_mon t + 1])
}.

Section pos.
Context (loc : GpsLocation) (ext : GpsLocationExtended) (st : nmea).
Context (Hfit : pos_fits loc ext st).
Let t := gmtime (Z.quot (timestamp loc) 1000).

Lemma used_range sv : sv ∈ sv_used_list 32 1 (sv_used_mask st) → 1 ≤ sv ≤ 32.
Proof.
  destruct Hfit. rewrite sv_used_list_shift by done.
  rewrite list_elem_of_filter, elem_of_seqZ. lia.
Qed.

Lemma used_length : (length (sv_used_list 32 1 (sv_used_mask st)) ≤ 32)%nat.
Proof.
  destruct Hfit. rewrite sv_used_list_shift by done.
  etrans; [apply length_filter|]. rewrite length_seqZ. lia.
Qed.

Lemma gsa_piece : piece 71 15 (concat (gsa_pieces (sv_used_list 32 1 (sv_used_mask st)))).
Proof.
  unfold gsa_pieces. cbn [concat].
  apply (piece_app 11 3 _ 60 12).
  - unfold fix_type. repeat break_if; pieces.
  - match goal with |- piece _ _ (concat ?l) => apply (piece_concat l 5 1) end.
    apply Forall_fmap, Forall_forall. intros i _. unfold compose.
    case_match eqn:Hi.
    + apply list_elem_of_lookup_2, used_range in Hi. pieces.
    + pieces.
Qed.

Lemma dop_piece_ok st' : pdop st' = pdop st → hdop st' = hdop st → vdop st' = vdop st →
  piece 62 2 (dop_piece ext st').
Proof.
  intros Hp Hh Hv. destruct Hfit as [_ _ _ _ _ _ Hd _ _ _ _].
  repeat (apply Forall_cons in Hd as [? Hd]).
  unfold dop_piece. rewrite Hp, Hh, Hv. repeat break_if; pieces.
Qed.

Lemma vtg_piece : piece 99 9 (concat (vtg_pieces loc ext)).
Proof.
  destruct Hfit. unfold vtg_pieces. cbn [concat]. rewrite app_nil_r.
  apply (piece_app 53 5 _ 46 4); break_if; pieces.
Qed.

Lemma mode_piece_ok a b c st' :
  length (str a) = 1%nat → length (str b) = 1%nat → length (str c) = 1%nat →
  number (str a) → number (str b) → number (str c) →
  piece 1 0 (mode_piece a b c loc st').
Proof. intros. unfold mode_piece. repeat break_if; apply piece_number; try done; lia. Qed.

Lemma lat_long_piece_ok : piece 60 4 (lat_long_piece loc).
Proof.
  destruct Hfit as [_ _ _ _ Ha Ho _ _ _ _ _]. unfold lat_long_piece. break_if; [|pieces].
  assert (∀ x, angle_fits x → 0 ≤ floor_u8 x < 256) as Hf by (by intros x (_ & _ & ?)).
  revert Ha Ho. destruct (gt0 _), (lt0 _); intros Ha Ho;
    pose proof (Hf _ Ha); pose proof (Hf _ Ho); pieces.
Qed.

Lemma time_piece_ok : piece 12 0 (time_piece t).
Proof.
  destruct Hfit as [_ _ _ _ _ _ _ _ _ _ Ht]. fold t in Ht. cbv zeta in Ht.
  repeat (apply Forall_cons in Ht as [? Ht]). unfold time_piece. pieces.
Qed.

Lemma rmc_piece : piece 160 12 (concat (rmc_pieces t loc ext)).
Proof.
  pose proof lat_long_piece_ok as Hll. pose proof time_piece_ok as Htm.
  destruct Hfit as [_ Hb Hk _ _ _ _ _ _ Hm Ht]. fold t in Ht. cbv zeta in Ht.
  repeat (apply Forall_cons in Ht as [? Ht]).
  assert (-1000 < Z.rem (tm_year t) 100 < 1000).
  { pose proof (Z.rem_bound_abs (tm_year t) 100). lia. }
  unfold rmc_pieces. cbn [concat]. rewrite app_nil_r.
  apply (piece_app 22 3 _ 138 9); [pieces|].
  apply (piece_app 60 4 _ 78 5); [done|].
  apply (piece_app 21 1 _ 57 4); [break_if; pieces|].
  apply (piece_app 21 1 _ 36 3); [break_if; pieces|].
  apply (piece_app 13 1 _ 23 2); [pieces|].
  break_if; [|pieces]. revert Hm. destruct (lt0 _); intros Hm; pieces.
Qed.

Lemma gga_piece st' : hdop st' = hdop st →
  piece 147 11 (concat (gga_pieces t (sv_used_list 32 1 (sv_used_mask st)) loc ext st')).
Proof.
  intros Hh. pose proof lat_long_piece_ok as Hll. pose proof time_piece_ok as Htm.
  pose proof used_length as Hu.
  destruct Hfit as [_ _ _ _ _ _ Hd Ha _ _ _].
  repeat (apply Forall_cons in Hd as [? Hd]).
  unfold gga_pieces. cbn [concat]. rewrite app_nil_r, Hh.
  apply (piece_app 20 2 _ 127 9); [pieces|].
  apply (piece_app 60 4 _ 67 5); [done|].
  apply (piece_app 40 3 _ 27 2); [|break_if; pieces].
  assert (piece 1 0 (mode_piece "0" "1" "2" loc st')) by (apply mode_piece_ok; (done || by_compute)).
  cbv zeta. repeat break_if; pieces.
Qed.

Lemma geoid_piece_ok : piece 24 3 (geoid_piece loc ext).
Proof. destruct Hfit. unfold geoid_piece. break_if; pieces. Qed.
End pos.

(** A sentence of a kind: readable, of the kind's number of fields, and
    announced with its length less one. *)
Definition well_formed (tag : string) (n : nat) (out : chars * Z) : Prop :=
  ∃ body, nmea_read (fst out) = Some body ∧ take 6 body = str tag ++ comma ∧
          fields body = n ∧ snd out = Z.of_nat (length (fst out)) - 1.

Lemma sentence_well_formed tag m c pieces :
  piece m c (concat pieces) → take 7 (concat pieces) = str "$" ++ str tag ++ comma →
  well_formed tag (S c) (sentence_of pieces).
Proof.
  intros [_ Hc Hp] Ht. destruct (concat pieces) as [|d body] eqn:Hb; [done|].
  cbn in Ht. injection Ht as -> Ht.
  apply Forall_cons in Hp as [_ Hp]. exists body.
  assert (sentence_of pieces = sentence_of ["$"%char :: body]) as ->.
  { unfold sentence_of. cbn [concat]. by rewrite Hb, app_nil_r. }
  split; [by apply nmea_read_sentence|]. split; [done|]. split.
  - unfold fields. by rewrite <- Hc.
  - unfold sentence_of. cbn [fst snd concat]. rewrite app_nil_r, !length_app. cbn. lia.
Qed.

(** The four sentences of a position report. *)
Definition pos_sentences (loc : GpsLocation) (ext : GpsLocationExtended) (st : nmea) : list (list chars) :=
  let t := gmtime (Z.quot (timestamp loc) 1000) in
  let used := sv_used_list 32 1 (sv_used_mask st) in
  let mode := mode_piece "N" "A" "D" loc st in
  [ gsa_pieces used ++ [dop_piece ext st]; vtg_pieces loc ext ++ [mode];
    rmc_pieces t loc ext ++ [mode]; gga_pieces t used loc ext st ++ [geoid_piece loc ext] ].

Lemma sentence_run n1 c1 n2 c2 pieces p st k :
  piece n1 c1 (concat pieces) → piece n2 c2 p → (0 <? length (concat pieces))%nat = true →
  (n1 + n2 + 5 <? NMEA_SENTENCE_MAX_LENGTH)%nat = true →
  emits pieces st (finish p st k) [] = k (send_all [sentence_of (pieces ++ [p])] st).
Proof.
  intros H1 H2 H0%Nat.ltb_lt Hl%Nat.ltb_lt.
  pose proof (piece_length _ _ _ H1). pose proof (piece_length _ _ _ H2).
  apply sentence_fit; lia.
Qed.

Lemma well_formed_snoc tag n n1 c1 n2 c2 pieces p :
  piece n1 c1 (concat pieces) → piece n2 c2 p → S (c1 + c2) = n →
  take 7 (concat (pieces ++ [p])) = str "$" ++ str tag ++ comma →
  well_formed tag n (sentence_of (pieces ++ [p])).
Proof.
  intros H1 H2 <- Ht. eapply sentence_well_formed; [|done].
  rewrite concat_app. cbn [concat]. rewrite app_nil_r. by apply piece_app.
Qed.

Lemma mode_NAD loc st : piece 1 0 (mode_piece "N" "A" "D" loc st).
Proof. apply mode_piece_ok; (done || by_compute). Qed.

Lemma generate_pos_run loc ext st :
  pos_fits loc ext st →
  loc_eng_nmea_generate_pos loc ext st =
    Some (set_dop r_zero r_zero r_zero (set_mask 0 (send_all (sentence_of <$> pos_sentences loc ext st) st))).
Proof.
  intros Hf. unfold loc_eng_nmea_generate_pos.
  erewrite sentence_run; [|by eapply gsa_piece|by eapply dop_piece_ok|done|done].
  erewrite sentence_run; [|by eapply vtg_piece|apply mode_NAD|unfold vtg_pieces; by break_if|done].
  erewrite sentence_run; [|by eapply rmc_piece|apply mode_NAD|done|done].
  erewrite sentence_run; [|by eapply gga_piece|by eapply geoid_piece_ok|done|done].
  by rewrite !send_all_app.
Qed.

(** C39: A position report whose numbers have a common length sends exactly
    the four sentences GSA, VTG, RMC and GGA, in that order, made of their
    pieces: none overruns the buffer, each has the number of fields of its
    kind whatever the report lacks, a checksum a receiver accepts; the masks
    and DOP kept for the report are cleared. *)
Theorem generate_pos_spec loc ext st :
  pos_fits loc ext st →
  let out := sentence_of <$> pos_sentences loc ext st in
  loc_eng_nmea_generate_pos loc ext st =
    Some (set_dop r_zero r_zero r_zero (set_mask 0 (send_all out st))) ∧
  Forall2 (λ '(tag, n), well_formed tag n)
    [("GPGSA", 18); ("GPVTG", 10); ("GPRMC", 13); ("GPGGA", 15)]%nat out.
Proof.
  intros Hf out. split; [by apply generate_pos_run|].
  unfold out, pos_sentences. cbn [fmap list_fmap]. repeat constructor; cbn beta iota.
  - by eapply well_formed_snoc; [by eapply gsa_piece|by eapply dop_piece_ok|..].
  - eapply well_formed_snoc; [by eapply vtg_piece|apply mode_NAD|done|].
    unfold vtg_pieces. by break_if.
  - by eapply well_formed_snoc; [by eapply rmc_piece|apply mode_NAD|..].
  - by eapply well_formed_snoc; [by eapply gga_piece|by eapply geoid_piece_ok|..].
Qed.

(** ** The satellites in view *)

Record sv_fits (sv : GpsSvInfo) : Prop := {
  sf_prn : -1000 < prn sv < 1000;
  sf_snr : -1000 < round (snr sv) < 1000;
  sf_elevation : -1000 < round (elevation sv) < 1000;
  sf_azimuth : -1000 < round (azimuth sv) < 1000
}.

Definition gsv_header (sentenceCount sentenceNumber svCount : Z) : chars :=
  str "$GPGSV," ++ fmt_d sentenceCount ++ comma ++ fmt_d sentenceNumber ++ comma ++ fmt_d0 2 svCount.

(** The pieces of the sentence [sentenceNumber]: the header and the next four
    satellites. *)
Definition gsv_pieces (svs : list GpsSvInfo) (sentenceCount : Z) (k : nat) : list chars :=
  gsv_header sentenceCount (Z.of_nat k + 1) (Z.of_nat (length svs)) ::
  concat (sv_pieces <$> take 4 (drop (4 * k) svs)).

Definition gsv_sentences (svs : list GpsSvInfo) : list (chars * Z) :=
  let count := ((length svs + 3) / 4)%nat in
  (λ k, sentence_of (gsv_pieces svs (Z.of_nat count) k)) <$> seq 0 count.

(** What is sent for the satellites in view: the empty sentence if none is. *)
Definition sv_sentences (svs : list GpsSvInfo) : list (chars * Z) :=
  if (length svs =? 0)%nat then [sentence_of [str "$GPGSV,1,1,0,"]] else gsv_sentences svs.

Lemma sentence_count (n : nat) :
  let count := ((n + 3) / 4)%nat in
  (4 * count ≤ n + 3 ∧ n ≤ 4 * count)%nat ∧
  Z.quot (Z.of_nat n) 4 + (if truth (Z.rem (Z.of_nat n) 4) then 1 else 0) = Z.of_nat count.
Proof.
  intros count. assert (4 * count ≤ n + 3 ∧ n ≤ 4 * count)%nat as [Hc1 Hc2].
  { pose proof (Nat.div_mod_eq (n + 3) 4). subst count.
    pose proof (Nat.mod_upper_bound (n + 3) 4). lia. }
  split; [done|]. rewrite Z.quot_div_nonneg, Z.rem_mod_nonneg by lia. unfold truth.
  pose proof (Z.div_mod (Z.of_nat n) 4 ltac:(lia)).
  pose proof (Z.mod_pos_bound (Z.of_nat n) 4 ltac:(lia)).
  destruct (Z.eqb_spec (Z.of_nat n mod 4) 0); cbn [negb]; lia.
Qed.

Definition blank_sentences : list (chars * Z) :=
  (λ s, sentence_of [str s]) <$>
  ["$GPGSA,A,1,,,,,,,,,,,,,,,"; "$GPVTG,,T,,M,,N,,K,N"; "$GPRMC,,V,,,,,,,,,,N"; "$GPGGA,,,,,,0,,,,,,,,"]%string.

Lemma sv_piece sv : sv_fits sv → piece 20 4 (concat (sv_pieces sv)).
Proof. intros []. unfold sv_pieces. cbn [concat]. break_if; cbn [concat]; rewrite app_nil_r; pieces. Qed.

Lemma svs_piece svs : Forall sv_fits svs →
  piece (length svs * 20) (length svs * 4) (concat (concat (sv_pieces <$> svs))).
Proof.
  induction 1 as [|sv svs Hsv _ IH]; [by repeat constructor|].
  cbn [fmap list_fmap concat]. rewrite concat_app.
  change (length (sv :: svs) * 20)%nat with (20 + length svs * 20)%nat.
  change (length (sv :: svs) * 4)%nat with (4 + length svs * 4)%nat.
  apply piece_app; [by apply sv_piece|done].
Qed.

Lemma gsv_header_piece a b c : -1000 < a < 1000 → -1000 < b < 1000 → -1000 < c < 1000 →
  piece 21 3 (gsv_header a b c).
Proof. intros. unfold gsv_header, fmt_d. pieces. Qed.

Lemma gsv_piece svs c k : Forall sv_fits svs → (length svs ≤ 32)%nat → (k < 32)%nat →
  -1000 < c < 1000 →
  piece 101 (3 + 4 * length (take 4 (drop (4 * k) svs))) (concat (gsv_pieces svs c k)).
Proof.
  intros Hsv Hl Hk Hc. unfold gsv_pieces. cbn [concat].
  rewrite (Nat.mul_comm 4 (length _)). apply (piece_app 21 3 _ 80).
  - apply gsv_header_piece; lia.
  - eapply piece_weaken; [apply svs_piece, Forall_take, Forall_drop, Hsv|].
    rewrite length_take. lia.
Qed.

(** The inner loop appends at most [i] satellites from index [j] on. *)
Lemma sv_loop_run svs st k : Forall sv_fits svs → (length svs ≤ 32)%nat →
  ∀ i j sentence, (j ≤ length svs)%nat →
  (length sentence + i * 20 < NMEA_SENTENCE_MAX_LENGTH)%nat →
  sv_loop i (Z.of_nat j + 1) (Z.of_nat (length svs)) svs st k sentence =
  k (Z.of_nat (j + length (take i (drop j svs))) + 1)
    (sentence ++ concat (concat (sv_pieces <$> take i (drop j svs)))).
Proof.
  intros Hf H32 i. induction i as [|i IH]; intros j s Hj Hl; cbn [sv_loop].
  - rewrite take_0. cbn. by rewrite Nat.add_0_r, app_nil_r.
  - destruct (Z.leb_spec (Z.of_nat j + 1) (Z.of_nat (length svs))) as [Hn|Hn].
    + rewrite (proj2 (Nat.ltb_ge _ _)) by (unfold GPS_MAX_SVS; lia).
      replace (Z.of_nat j + 1 - 1) with (Z.of_nat j) by lia. rewrite Nat2Z.id.
      destruct (lookup_lt_is_Some_2 svs j ltac:(lia)) as [sv Hsv].
      rewrite Hsv. cbn [mbind option_bind].
      rewrite (drop_S _ _ _ Hsv). cbn [take fmap list_fmap concat length].
      pose proof (sv_piece sv (Forall_lookup_1 _ _ _ _ Hf Hsv)) as Hp. apply piece_length in Hp.
      rewrite emits_fit by lia.
      replace (Z.of_nat j + 1 + 1) with (Z.of_nat (S j) + 1) by lia.
      rewrite IH by (rewrite ?length_app; lia).
      rewrite concat_app, app_assoc. f_equal. lia.
    + rewrite drop_ge by lia. cbn. by rewrite Nat.add_0_r, app_nil_r.
Qed.

Lemma gsv_loop_run svs k (count : nat) : Forall sv_fits svs → (length svs ≤ 32)%nat →
  (count ≤ 32)%nat → ∀ n i, (i + n = count)%nat → (4 * count ≤ length svs + 3)%nat → ∀ st,
  gsv_loop n (Z.of_nat i + 1) (Z.of_nat count) (Z.of_nat ((4 * i) `min` length svs) + 1)
    (Z.of_nat (length svs)) svs st k =
  k (send_all ((λ k, sentence_of (gsv_pieces svs (Z.of_nat count) k)) <$> seq i n) st).
Proof.
  intros Hf H32 Hc n. induction n as [|n IH]; intros i Hi H4 st'; cbn [gsv_loop].
  - f_equal. unfold send_all. cbn. rewrite app_nil_r. by destruct st'.
  - fold (gsv_header (Z.of_nat count) (Z.of_nat i + 1) (Z.of_nat (length svs))).
    pose proof (gsv_header_piece (Z.of_nat count) (Z.of_nat i + 1) (Z.of_nat (length svs))
      ltac:(lia) ltac:(lia) ltac:(lia)) as Hh.
    pose proof (gsv_piece svs (Z.of_nat count) i Hf H32 ltac:(lia) ltac:(lia)) as Hg.
    apply piece_length in Hh. apply piece_length in Hg.
    rewrite Nat.min_l by lia.
    unfold emit. rewrite (proj2 (Nat.ltb_lt _ _)) by (cbn [length]; unfold NMEA_SENTENCE_MAX_LENGTH; lia).
    cbn [app]. rewrite sv_loop_run; [|done|done|lia|unfold NMEA_SENTENCE_MAX_LENGTH; lia].
    match goal with |- context [finish [] st' _ ?s] =>
      change s with (concat (gsv_pieces svs (Z.of_nat count) i)) end.
    rewrite finish_fit.
    2: { unfold gsv_pieces. cbn. lia. }
    2: { unfold NMEA_SENTENCE_MAX_LENGTH. cbn [length]. lia. }
    replace (4 * i + length (take 4 (drop (4 * i) svs)))%nat with ((4 * S i) `min` length svs)%nat
      by (rewrite length_take, length_drop; lia).
    replace (Z.of_nat i + 1 + 1) with (Z.of_nat (S i) + 1) by lia.
    rewrite IH by lia. cbn [seq fmap list_fmap]. f_equal.
    rewrite send_all_app. cbn [app]. do 2 f_equal.
    unfold sentence_of. cbn [concat]. by rewrite !app_nil_r.
Qed.

Lemma send_fixed_run s st k : plain (str s) → (0 <? length (str s))%nat = true →
  (length (str s) + 5 <? NMEA_SENTENCE_MAX_LENGTH)%nat = true →
  send_fixed s st k = k (send_all [sentence_of [str s]] st).
Proof.
  intros _ H0%Nat.ltb_lt Hl%Nat.ltb_lt. unfold send_fixed, finish. cbn [app].
  destruct (str s) as [|d b] eqn:Hs; [cbn in H0; lia|].
  rewrite take_ge by lia. cbn [loc_eng_nmea_put_checksum]. cbn [length] in Hl.
  rewrite (proj2 (Nat.ltb_lt _ _)) by (cbn [length]; rewrite !length_app; cbn; lia).
  cbn [mbind option_bind]. f_equal. unfold send_all, loc_eng_nmea_send, sentence_of.
  cbn [concat]. rewrite app_nil_r. cbn [tail str list_ascii_of_string app length]. do 4 f_equal. lia.
Qed.

(** What a satellite report leaves for the position report. *)
Definition sv_cache (svStatus : GpsSvStatus) (ext : GpsLocationExtended) (st : nmea) : nmea :=
  let st := set_mask (used_in_fix_mask svStatus) st in
  if has (e_flags ext) GPS_LOCATION_EXTENDED_HAS_DOP
  then set_dop (e_pdop ext) (e_hdop ext) (e_vdop ext) st
  else set_dop r_zero r_zero r_zero st.

Lemma generate_sv_run svs mask ext st :
  (length svs ≤ GPS_MAX_SVS)%nat → Forall sv_fits svs →
  loc_eng_nmea_generate_sv (SvStatus (Z.of_nat (length svs)) svs mask) ext st =
    Some (if mask =? 0 then send_all (sv_sentences svs ++ blank_sentences) st
          else sv_cache (SvStatus (Z.of_nat (length svs)) svs mask) ext (send_all (sv_sentences svs) st)).
Proof.
  intros H32 Hf. unfold GPS_MAX_SVS in H32. unfold loc_eng_nmea_generate_sv. cbn [num_svs svl used_in_fix_mask].
  set (rest := λ st, if mask =? 0 then _ else _).
  assert (∀ st, rest st = Some (if mask =? 0 then send_all blank_sentences st
          else sv_cache (SvStatus (Z.of_nat (length svs)) svs mask) ext st)) as Hrest.
  { intros st'. subst rest. cbn beta. break_if; [|done].
    rewrite !send_fixed_run by (by_compute || reflexivity). by rewrite !send_all_app. }
  clearbody rest. unfold sv_sentences. destruct (decide (svs = [])) as [->|Hne].
  { cbn [length Z.of_nat Nat.eqb]. rewrite Z.leb_refl.
    rewrite send_fixed_run by (by_compute || reflexivity). rewrite Hrest.
    break_if; [|done]. by rewrite send_all_app. }
  assert (0 < length svs)%nat by (destruct svs; [done|cbn; lia]).
  rewrite (proj2 (Nat.eqb_neq _ 0)), (proj2 (Z.leb_gt _ _)) by lia.
  destruct (sentence_count (length svs)) as ((Hc1 & _) & ->). rewrite Nat2Z.id.
  unfold gsv_sentences. set (count := ((length svs + 3) / 4)%nat) in *.
  etrans; [exact (gsv_loop_run svs rest count Hf H32 ltac:(lia) count 0%nat eq_refl Hc1 st)|].
  rewrite Hrest.
  break_if; [|done]. by rewrite send_all_app.
Qed.

(** A satellite report of at most 32 satellites sends one GSV sentence for
    each four of them, in order, every satellite once, or the empty one; then
    the four blank sentences if none is used in the fix, and else keeps the
    mask and the DOP for the position report.  Every sentence is accepted by a
    receiver, no buffer is overrun and no satellite beyond the list is read. *)
Theorem generate_sv_spec svs mask ext st :
  (length svs ≤ GPS_MAX_SVS)%nat → Forall sv_fits svs →
  loc_eng_nmea_generate_sv (SvStatus (Z.of_nat (length svs)) svs mask) ext st =
    Some (if mask =? 0 then send_all (sv_sentences svs ++ blank_sentences) st
          else sv_cache (SvStatus (Z.of_nat (length svs)) svs mask) ext (send_all (sv_sentences svs) st)) ∧
  Forall2 (λ n, well_formed "GPGSV" n)
    (if (length svs =? 0)%nat then [5%nat]
     else (λ k, 4 + 4 * length (take 4 (drop (4 * k) svs)))%nat <$> seq 0 ((length svs + 3) / 4))
    (sv_sentences svs).
Proof.
  intros H32 Hf. split; [by apply generate_sv_run|].
  unfold GPS_MAX_SVS in H32. unfold sv_sentences. destruct (Nat.eqb_spec (length svs) 0).
  - constructor; [|constructor].
    eapply (sentence_well_formed _ 13); [|done]. cbn [concat]. rewrite app_nil_r.
    exact (piece_str "$GPGSV,1,1,0," ltac:(by_compute)).
  - destruct (sentence_count (length svs)) as ((Hc1 & Hc2) & _). unfold gsv_sentences.
    set (count := ((length svs + 3) / 4)%nat) in *.
    apply Forall2_fmap, Forall_Forall2_diag, Forall_forall.
    intros k Hk. apply elem_of_seq in Hk.
    pose proof (gsv_piece svs (Z.of_nat count) k Hf H32 ltac:(lia) ltac:(lia)) as Hg.
    by eapply sentence_well_formed in Hg.
Qed.
End nmea_proofs.

(** ** A concrete environment: integers for the real numbers *)

#[local] Instance demo_nmea : NmeaEnv := {|
  real := Z;
  fmt_1 x := fmt_d x ++ str ".0";
  fmt_09_6 x := fmt_d0 2 x ++ str ".000000";
  gt0 x := 0 <? x;
  lt0 x := x <? 0;
  r_neg x := - x;
  r_sub x y := x - y;
  to_knots x := Z.quot (x * 3600) 1852;
  to_kmh x := Z.quot (x * 36) 10;
  minutes x := Z.rem (x * 60) 60;
  floor_u8 x := x mod 256;
  round x := x;
  r_float x := if Z.abs x <? 2 ^ 24 then x
                else let m := 2 ^ (Z.log2 (Z.abs x) - 23) in x / m * m;
  r_zero := 0;
  gmtime s := Tm 112 (s / 2592000 mod 12) (s / 86400 mod 30) (s / 3600 mod 24) (s / 60 mod 60) (s mod 60)
|}.

Definition demo_loc : GpsLocation := Location 15 2 47 (-122) 56 10 90 5 1350000000000 None.
Definition demo_ext : GpsLocationExtended := LocationExtended 3 50 2 1 1 0.
Definition demo_st : nmea := Nmea 0x80000005 0 0 0 true [].

Lemma demo_fits (x : Z) : -1000 < x < 1000 → fits x.
Proof.
  intros Hx. destruct (fmt_d0_small 0 x) as [Hl Hn]; [lia|lia|]. split.
  - apply Forall_app. split; [exact Hn|by_compute].
  - cbn [fmt_1 demo_nmea]. rewrite length_app. unfold fmt_d. cbn. lia.
Qed.

Lemma demo_pos_fits st : 0 ≤ sv_used_mask st → fits (pdop st) → fits (hdop st) → fits (vdop st) →
  pos_fits demo_loc demo_ext st.
Proof.
  intros Hm Hp Hh Hv. split; cbn; try (apply demo_fits; by_compute); try done.
  - by split; [by_compute|split; by_compute].
  - by split; [by_compute|split; by_compute].
  - constructor; [done|]. constructor; [done|]. constructor; [done|].
    repeat (constructor; [apply demo_fits; lia|]). constructor.
  - by_compute.
Qed.

Lemma generate_pos_spec_witness :
  pos_fits demo_loc demo_ext demo_st ∧
  nmea_sent <$> loc_eng_nmea_generate_pos demo_loc demo_ext demo_st =
    Some (sentence_of <$> pos_sentences demo_loc demo_ext demo_st).
Proof.
  assert (pos_fits demo_loc demo_ext demo_st) as Hf.
  { apply demo_pos_fits; [done|apply demo_fits; cbn; lia..]. }
  split; [exact Hf|].
  destruct (generate_pos_spec demo_loc demo_ext demo_st Hf) as [Hr _]. rewrite Hr. reflexivity.
Defined.

Definition demo_svs : list GpsSvInfo :=
  (λ i, SvInfo i (i + 20) (10 * i) (40 * i)) <$> [1; 3; 7; 12; 15].

Lemma generate_sv_spec_witness :
  (length demo_svs ≤ GPS_MAX_SVS)%nat ∧ Forall sv_fits demo_svs ∧
  (nmea_sent <$> loc_eng_nmea_generate_sv (SvStatus 5 demo_svs 0) demo_ext demo_st) =
    Some (gsv_sentences demo_svs ++ blank_sentences) ∧
  length (gsv_sentences demo_svs) = 2%nat.
Proof.
  assert (length demo_svs ≤ GPS_MAX_SVS)%nat as Hl by (vm_compute; lia).
  assert (Forall sv_fits demo_svs) as Hf.
  { repeat (constructor; [split; cbn; lia|]). constructor. }
  split; [exact Hl|]. split; [exact Hf|]. split; [|reflexivity].
  destruct (generate_sv_spec demo_svs 0 demo_ext demo_st Hl Hf) as [Hr _].
  change 5 with (Z.of_nat (length demo_svs)). rewrite Hr. vm_compute. reflexivity.
Defined.

(** A report that counts more satellites than its array holds is read past
    the array. *)
Lemma too_many_satellites :
  nmea_sent <$> loc_eng_nmea_generate_sv (SvStatus 33 (replicate 32 (SvInfo 1 20 30 40)) 0)
                  demo_ext demo_st = None.
Proof. vm_compute. reflexivity. Qed.

(** The magnetic deviation has no effect on the track printed as magnetic. *)
Lemma deviation_ignored :
  concat (vtg_pieces demo_loc (LocationExtended 4 0 0 0 0 15)) =
  str "$GPVTG,90.0,T,90.0,M,19.0,N,36.0,K,".
Proof. vm_compute. reflexivity. Qed.
