(* ===== verification/Ni.v ===== *)
(** * Network-initiated requests: loc_eng_ni.cpp

    Three parties share [loc_eng_ni_data]: the engine thread, which receives
    the requests of the modem and its restarts, the framework, which answers
    ([loc_eng_ni_respond]), and one thread per request ([ni_thread_proc]) that
    waits for the answer or for the time to run out.  A transition is a
    critical section of [tLock] or a stretch of code between two accesses to
    the shared data; the accesses that the source makes without the lock are
    transitions of their own: the request handler and the restart are split at
    each of them ([epc]), and so are the tests of [loc_eng_ni_respond].  The
    functions named as in the source run such a sequence to its end, as when
    nothing interferes ([handler_run], [restart_run], [respond_run]).  (The
    increment of [reqID] is one transition.)  A raw request is a location;
    [seen] lists those the modem ever handed over, [freed] those given back to
    [free], [sent] the responses posted to the engine's queue.  Two members
    are not in the source: [created], whether the last [pthread_create]
    succeeded, and [collided], whether a thread ever took the request between
    the [free] of a restart and the store of NULL after it. *)

From S2P Require Import Prelude.
Local Open Scope Z_scope.

Definition GPS_NI_PRIVACY_OVERRIDE : Z := 4.
Definition GPS_NI_RESPONSE_ACCEPT : Z := 1.
Definition GPS_NI_RESPONSE_DENY : Z := 2.
Definition GPS_NI_RESPONSE_NORESP : Z := 3.
Definition LOC_NI_NO_RESPONSE_TIME : Z := 20.

Abbreviation loc := positive.

(** The members of [GpsNiNotification] the source reads. *)
Record GpsNiNotification := Notification {
  notify_flags : Z;
  timeout : Z
}.

(** [loc_eng_msg_inform_ni_response] *)
Record ni_response := Response { ir_response : Z; ir_payload : loc }.

(** Where a thread of [ni_thread_proc] stands. *)
Inductive npc :=
| NStart                                (* before locking *)
| NWaiting                              (* in pthread_cond_timedwait *)
| NWoken (timedout : bool)              (* woken, about to lock again *)
| NUnlocked (msg : option ni_response)  (* unlocked *)
| NCleared (msg : option ni_response)   (* respTimeLeft reset *)
| NCounted (msg : option ni_response)   (* reqID incremented *)
| NDone.

#[export] Instance ni_response_eq_dec : EqDecision ni_response.
Proof. solve_decision. Defined.
#[export] Instance npc_eq_dec : EqDecision npc.
Proof. solve_decision. Defined.

(** Where the engine thread stands in the request handler or in a restart. *)
Inductive epc :=
| EIdle
| EStored (notif : GpsNiNotification)               (* rawRequest stored *)
| EIdentified (id : Z) (notif : GpsNiNotification)  (* reqID read, session muted *)
| ETimed (id : Z) (notif : GpsNiNotification)       (* respTimeLeft stored *)
| ECreated (id : Z) (notif : GpsNiNotification)     (* pthread_create returned *)
| ETested                                           (* restart: rawRequest was not NULL *)
| EFreed                                            (* freed, not yet NULL *)
| EResetting.                                       (* NULL, about to lock *)

#[export] Instance GpsNiNotification_eq_dec : EqDecision GpsNiNotification.
Proof. solve_decision. Defined.
#[export] Instance epc_eq_dec : EqDecision epc.
Proof. solve_decision. Defined.

Record ni := Ni {
  ni_notify_cb : bool;
  respTimeLeft : Z;
  respRecvd : bool;
  rawRequest : option loc;
  reqID : Z;
  resp : Z;
  threads : list npc;
  matched : list Z;  (* answers whose id was found current *)
  responders : list Z;  (* answers about to be stored *)
  engine : epc;
  muted : bool;  (* mute_session_state is LOC_MUTE_SESS_WAIT *)
  notified : list (Z * GpsNiNotification);  (* calls of ni_notify_cb *)
  sent : list ni_response;
  freed : list loc;
  seen : list loc;
  created : bool;
  collided : bool
}.

Definition set_raw (r : option loc) (s : ni) : ni :=
  Ni (ni_notify_cb s) (respTimeLeft s) (respRecvd s) r (reqID s) (resp s) (threads s)
    (matched s) (responders s) (engine s) (muted s) (notified s) (sent s) (freed s) (seen s)
    (created s) (collided s).
Definition set_recvd (b : bool) (s : ni) : ni :=
  Ni (ni_notify_cb s) (respTimeLeft s) b (rawRequest s) (reqID s) (resp s) (threads s)
    (matched s) (responders s) (engine s) (muted s) (notified s) (sent s) (freed s) (seen s)
    (created s) (collided s).
Definition set_resp (r : Z) (s : ni) : ni :=
  Ni (ni_notify_cb s) (respTimeLeft s) (respRecvd s) (rawRequest s) (reqID s) r (threads s)
    (matched s) (responders s) (engine s) (muted s) (notified s) (sent s) (freed s) (seen s)
    (created s) (collided s).
Definition set_time (t : Z) (s : ni) : ni :=
  Ni (ni_notify_cb s) t (respRecvd s) (rawRequest s) (reqID s) (resp s) (threads s) (matched s)
    (responders s) (engine s) (muted s) (notified s) (sent s) (freed s) (seen s) (created s)
    (collided s).
Definition set_id (i : Z) (s : ni) : ni :=
  Ni (ni_notify_cb s) (respTimeLeft s) (respRecvd s) (rawRequest s) i (resp s) (threads s)
    (matched s) (responders s) (engine s) (muted s) (notified s) (sent s) (freed s) (seen s)
    (created s) (collided s).
Definition set_threads (l : list npc) (s : ni) : ni :=
  Ni (ni_notify_cb s) (respTimeLeft s) (respRecvd s) (rawRequest s) (reqID s) (resp s) l
    (matched s) (responders s) (engine s) (muted s) (notified s) (sent s) (freed s) (seen s)
    (created s) (collided s).
Definition set_matched (l : list Z) (s : ni) : ni :=
  Ni (ni_notify_cb s) (respTimeLeft s) (respRecvd s) (rawRequest s) (reqID s) (resp s)
    (threads s) l (responders s) (engine s) (muted s) (notified s) (sent s) (freed s) (seen s)
    (created s) (collided s).
Definition set_responders (l : list Z) (s : ni) : ni :=
  Ni (ni_notify_cb s) (respTimeLeft s) (respRecvd s) (rawRequest s) (reqID s) (resp s)
    (threads s) (matched s) l (engine s) (muted s) (notified s) (sent s) (freed s) (seen s)
    (created s) (collided s).
Definition set_engine (e : epc) (s : ni) : ni :=
  Ni (ni_notify_cb s) (respTimeLeft s) (respRecvd s) (rawRequest s) (reqID s) (resp s)
    (threads s) (matched s) (responders s) e (muted s) (notified s) (sent s) (freed s) (seen s)
    (created s) (collided s).
Definition set_muted (b : bool) (s : ni) : ni :=
  Ni (ni_notify_cb s) (respTimeLeft s) (respRecvd s) (rawRequest s) (reqID s) (resp s)
    (threads s) (matched s) (responders s) (engine s) b (notified s) (sent s) (freed s) (seen s)
    (created s) (collided s).
Definition set_created (b : bool) (s : ni) : ni :=
  Ni (ni_notify_cb s) (respTimeLeft s) (respRecvd s) (rawRequest s) (reqID s) (resp s)
    (threads s) (matched s) (responders s) (engine s) (muted s) (notified s) (sent s) (freed s)
    (seen s) b (collided s).
Definition set_collided (b : bool) (s : ni) : ni :=
  Ni (ni_notify_cb s) (respTimeLeft s) (respRecvd s) (rawRequest s) (reqID s) (resp s)
    (threads s) (matched s) (responders s) (engine s) (muted s) (notified s) (sent s) (freed s)
    (seen s) (created s) b.
Definition ni_notify (n : Z * GpsNiNotification) (s : ni) : ni :=
  Ni (ni_notify_cb s) (respTimeLeft s) (respRecvd s) (rawRequest s) (reqID s) (resp s)
    (threads s) (matched s) (responders s) (engine s) (muted s) (notified s ++ [n]) (sent s)
    (freed s) (seen s) (created s) (collided s).
Definition loc_eng_msg_sender (m : ni_response) (s : ni) : ni :=
  Ni (ni_notify_cb s) (respTimeLeft s) (respRecvd s) (rawRequest s) (reqID s) (resp s)
    (threads s) (matched s) (responders s) (engine s) (muted s) (notified s) (sent s ++ [m])
    (freed s) (seen s) (created s) (collided s).
Definition free (r : loc) (s : ni) : ni :=
  Ni (ni_notify_cb s) (respTimeLeft s) (respRecvd s) (rawRequest s) (reqID s) (resp s)
    (threads s) (matched s) (responders s) (engine s) (muted s) (notified s) (sent s)
    (freed s ++ [r]) (seen s) (created s) (collided s).
(** The modem hands over a request. *)
Definition hand_over (r : loc) (s : ni) : ni :=
  Ni (ni_notify_cb s) (respTimeLeft s) (respRecvd s) (rawRequest s) (reqID s) (resp s)
    (threads s) (matched s) (responders s) (engine s) (muted s) (notified s) (sent s) (freed s)
    (seen s ++ [r]) (created s) (collided s).

(** [pthread_cond_signal]: one waiter is woken, the [pick]-th of them. *)
Definition is_waiting (p : npc) : bool := bool_decide (p = NWaiting).
Fixpoint wake (pick : nat) (l : list npc) : list npc :=
  match l with
  | [] => []
  | NWaiting :: l =>
      match pick with O => NWoken false :: l | S pick => NWaiting :: wake pick l end
  | p :: l => p :: wake pick l
  end.
Definition waiters (l : list npc) : nat := length (filter (λ p, p = NWaiting) l).
Definition cond_signal (pick : nat) (s : ni) : ni :=
  set_threads (wake (pick mod waiters (threads s)) (threads s)) s.

(** ** Functions of loc_eng_ni.cpp *)

Definition loc_eng_mute_one_session (s : ni) : ni := set_muted true s.

(** *** The request handler, piece by piece *)

(** A request that comes while another is held is dropped. *)
Definition handler_start (notif : GpsNiNotification) (passThrough : option loc) (s : ni) : ni :=
  if negb (ni_notify_cb s) then s
  else
    match rawRequest s with
    | Some _ => match passThrough with Some r => free r s | None => s end
    | None => set_engine (EStored notif) (set_raw passThrough s)
    end.
Definition handler_identify (notif : GpsNiNotification) (s : ni) : ni :=
  let id := reqID s in
  let s := if notify_flags notif =? GPS_NI_PRIVACY_OVERRIDE then loc_eng_mute_one_session s else s in
  set_engine (EIdentified id notif) s.
Definition handler_time (id : Z) (notif : GpsNiNotification) (s : ni) : ni :=
  set_engine (ETimed id notif)
    (set_time (5 + (if negb (timeout notif =? 0) then timeout notif else LOC_NI_NO_RESPONSE_TIME)) s).
(** [create_rc]: the result of [pthread_create], which is only logged. *)
Definition handler_create (create_rc : Z) (id : Z) (notif : GpsNiNotification) (s : ni) : ni :=
  let s := set_created (create_rc =? 0) s in
  set_engine (ECreated id notif)
    (if create_rc =? 0 then set_threads (threads s ++ [NStart]) s else s).
Definition handler_notify (id : Z) (notif : GpsNiNotification) (s : ni) : ni :=
  set_engine EIdle (ni_notify (id, notif) s).

Definition loc_eng_ni_request_handler (create_rc : Z) (notif : GpsNiNotification)
    (passThrough : option loc) (s : ni) : ni :=
  if negb (ni_notify_cb s) then s
  else
    match rawRequest s with
    | Some _ => match passThrough with Some r => free r s | None => s end
    | None =>
        let s := set_raw passThrough s in
        let id := reqID s in
        let s := if notify_flags notif =? GPS_NI_PRIVACY_OVERRIDE
                 then loc_eng_mute_one_session s else s in
        let s := set_time (5 + (if negb (timeout notif =? 0) then timeout notif
                                else LOC_NI_NO_RESPONSE_TIME)) s in
        let s := set_created (create_rc =? 0) s in
        let s := if create_rc =? 0 then set_threads (threads s ++ [NStart]) s else s in
        ni_notify (id, notif) s
    end.

(** The end of the critical section of [ni_thread_proc], after its loop: the
    message, if there is one to post. *)
Definition ni_collect (s : ni) : option ni_response * ni :=
  let s := set_recvd false s in
  match rawRequest s with
  | Some r =>
      (Some (Response (resp s) r),
       set_raw None (set_collided (collided s || bool_decide (engine s = EFreed)) s))
  | None => (None, s)
  end.

(** One transition of the [i]-th thread; [rc_timeout] is whether the wait ends
    by time-out (when it is woken by nobody). *)
Definition ni_thread_proc (i : nat) (s : ni) : option ni :=
  let at_pc p s := set_threads (<[i := p]> (threads s)) s in
  match threads s !! i with
  | Some NStart =>
      Some (if negb (respRecvd s) then at_pc NWaiting s
            else let '(msg, s) := ni_collect s in at_pc (NUnlocked msg) s)
  | Some (NWoken true) =>
      let '(msg, s) := ni_collect (set_resp GPS_NI_RESPONSE_NORESP s) in
      Some (at_pc (NUnlocked msg) s)
  | Some (NWoken false) =>
      Some (if negb (respRecvd s) then at_pc NWaiting s
            else let '(msg, s) := ni_collect s in at_pc (NUnlocked msg) s)
  | Some (NUnlocked msg) => Some (at_pc (NCleared msg) (set_time 0 s))
  | Some (NCleared msg) => Some (at_pc (NCounted msg) (set_id (int32 (reqID s + 1)) s))
  | Some (NCounted msg) =>
      Some (at_pc NDone match msg with Some m => loc_eng_msg_sender m s | None => s end)
  | Some (NWaiting | NDone) | None => None
  end.

(** [pthread_cond_timedwait] returns without a signal: the time is out, or
    spuriously. *)
Definition wait_ends (timedout : bool) (i : nat) (s : ni) : option ni :=
  match threads s !! i with
  | Some NWaiting => Some (set_threads (<[i := NWoken timedout]> (threads s)) s)
  | _ => None
  end.

(** *** The restart of the modem, piece by piece: the test, the [free] (it
    reads the pointer again), the store of NULL, none of them under the lock,
    and the critical section. *)
Definition reset_test (s : ni) : ni :=
  if negb (ni_notify_cb s) then s
  else match rawRequest s with Some _ => set_engine ETested s | None => s end.
Definition reset_free (s : ni) : ni :=
  set_engine EFreed (match rawRequest s with Some r => free r s | None => s end).
Definition reset_clear (s : ni) : ni := set_engine EResetting (set_raw None s).
Definition reset_signal (pick : nat) (s : ni) : ni :=
  set_engine EIdle (cond_signal pick (set_recvd true s)).

Definition loc_eng_ni_reset_on_engine_restart (pick : nat) (s : ni) : ni :=
  if negb (ni_notify_cb s) then s
  else
    match rawRequest s with
    | Some r => cond_signal pick (set_recvd true (set_raw None (free r s)))
    | None => s
    end.

(** The next transition of the engine thread inside one of the two. *)
Definition engine_step (create_rc : Z) (pick : nat) (s : ni) : option ni :=
  match engine s with
  | EIdle => None
  | EStored notif => Some (handler_identify notif s)
  | EIdentified id notif => Some (handler_time id notif s)
  | ETimed id notif => Some (handler_create create_rc id notif s)
  | ECreated id notif => Some (handler_notify id notif s)
  | ETested => Some (reset_free s)
  | EFreed => Some (reset_clear s)
  | EResetting => Some (reset_signal pick s)
  end.

Definition loc_eng_ni_init (notify_cb : bool) (s : ni) : ni :=
  if negb notify_cb then s
  else if ni_notify_cb s then s
  else
    Ni true 0 false None 0 (resp s) (threads s) (matched s) (responders s) (engine s) (muted s)
      (notified s) (sent s) (freed s) (seen s) (created s) (collided s).

(** [loc_eng_ni_respond] up to its lock: the test of the id, that of the
    request, and both. *)
Definition respond_match (notif_id user_response : Z) (s : ni) : ni :=
  if negb (ni_notify_cb s) then s
  else if notif_id =? reqID s then set_matched (matched s ++ [user_response]) s else s.
Definition respond_held (k : nat) (s : ni) : option ni :=
  match matched s !! k with
  | Some r =>
      let s := set_matched (delete k (matched s)) s in
      Some (if bool_decide (is_Some (rawRequest s)) then set_responders (responders s ++ [r]) s else s)
  | None => None
  end.
Definition loc_eng_ni_respond (notif_id user_response : Z) (s : ni) : ni :=
  if negb (ni_notify_cb s) then s
  else if (notif_id =? reqID s) && bool_decide (is_Some (rawRequest s)) then
    set_responders (responders s ++ [user_response]) s
  else s.
(** Its critical section. *)
Definition respond_store (pick k : nat) (s : ni) : option ni :=
  match responders s !! k with
  | Some r =>
      Some (cond_signal pick (set_recvd true (set_resp r
        (set_responders (delete k (responders s)) s))))
  | None => None
  end.

(** ** Interleaving *)

Inductive ni_event :=
| EvRequest (notif : GpsNiNotification) (r : loc)   (* the modem's request *)
| EvReset                                           (* the modem restarts *)
| EvEngine (create_rc : Z) (pick : nat)             (* the engine thread goes on *)
| EvRespond (notif_id user_response : Z)            (* the framework answers *)
| EvHeld (k : nat)
| EvStore (pick k : nat)
| EvThread (i : nat)
| EvWaitEnds (timedout : bool) (i : nat).

(** The engine thread runs one function at a time; a request is newly
    allocated, so it is none of those seen before. *)
Definition ni_exec (ev : ni_event) (s : ni) : option ni :=
  match ev with
  | EvRequest notif r =>
      if decide (engine s = EIdle ∧ r ∉ seen s)
      then Some (handler_start notif (Some r) (hand_over r s)) else None
  | EvReset => if decide (engine s = EIdle) then Some (reset_test s) else None
  | EvEngine rc pick => engine_step rc pick s
  | EvRespond id r => Some (respond_match id r s)
  | EvHeld k => respond_held k s
  | EvStore pick k => respond_store pick k s
  | EvThread i => ni_thread_proc i s
  | EvWaitEnds b i => wait_ends b i s
  end.
Fixpoint ni_run (evs : list ni_event) (s : ni) : option ni :=
  match evs with
  | [] => Some s
  | ev :: evs => s ← ni_exec ev s; ni_run evs s
  end.
Definition ni_step (s s' : ni) : Prop := ∃ ev, ni_exec ev s = Some s'.

(** Before [loc_eng_ni_init] the static data are zero. *)
Definition ni_zero : ni := Ni false 0 false None 0 0 [] [] [] EIdle false [] [] [] [] true false.
Definition ni_start (s : ni) : Prop := s = loc_eng_ni_init true ni_zero.

(** ** Where the requests are *)

Definition pc_payload (p : npc) : list loc :=
  match p with
  | NUnlocked (Some m) | NCleared (Some m) | NCounted (Some m) => [ir_payload m]
  | _ => []
  end.
(** The request held; a restart that has freed it holds it no more. *)
Definition held (s : ni) : list loc :=
  match engine s with EFreed => [] | _ => option_list (rawRequest s) end.
(** Held, about to be posted, posted, freed. *)
Definition live (s : ni) : list loc :=
  held s ++ (threads s ≫= pc_payload) ++ (ir_payload <$> sent s) ++ freed s.

(** A thread that has not collected the request yet. *)
Definition active (p : npc) : Prop :=
  match p with NStart | NWaiting | NWoken _ => True | _ => False end.

(** The handler has stored a request and not yet created its thread. *)
Definition creating (e : epc) : bool :=
  match e with EStored _ | EIdentified _ _ | ETimed _ _ => true | _ => false end.

Definition ni_inv (s : ni) : Prop :=
  ni_notify_cb s = true ∧ (collided s = false → live s ≡ₚ seen s) ∧ NoDup (seen s) ∧
  (is_Some (rawRequest s) → creating (engine s) = false → created s = true →
     Exists active (threads s)).

(** ** Lemmas *)

Lemma insert_payload (l : list npc) i p p' :
  l !! i = Some p →
  pc_payload p ++ (<[i := p']> l ≫= pc_payload) ≡ₚ pc_payload p' ++ (l ≫= pc_payload).
Proof.
  revert i. induction l as [|q l IH]; intros [|i] Hi; cbn in Hi; try done.
  - injection Hi as ->. cbn. solve_Permutation.
  - specialize (IH i Hi). cbn. rewrite !(Permutation_app_swap_app _ (pc_payload q)). by rewrite IH.
Qed.
Lemma insert_active (l : list npc) i p p' :
  l !! i = Some p → (active p → active p') → Exists active l → Exists active (<[i := p']> l).
Proof.
  revert i. induction l as [|q l IH]; intros [|i] Hi Ha Hx; cbn in Hi |- *; try done.
  - injection Hi as ->. apply Exists_cons in Hx as [Hx|Hx]; apply Exists_cons; auto.
  - apply Exists_cons in Hx as [Hx|Hx]; apply Exists_cons; [by left|right]. by eapply IH.
Qed.
Lemma wake_payload pick l : wake pick l ≫= pc_payload = l ≫= pc_payload.
Proof.
  revert pick. induction l as [|p l IH]; intros pick; [done|].
  destruct p; cbn; try (by rewrite IH). destruct pick; [done|]. cbn. apply IH.
Qed.
Lemma wake_active pick l : Exists active l → Exists active (wake pick l).
Proof.
  revert pick. induction l as [|p l IH]; intros pick Hx; [done|].
  apply Exists_cons in Hx as [Hx|Hx].
  - destruct p; cbn in Hx |- *; try done; [by left|destruct pick; by left|by left].
  - destruct p; cbn; try (right; by apply IH). destruct pick; [by left|right; by apply IH].
Qed.

Lemma cond_signal_inv pick s : ni_inv s → ni_inv (cond_signal pick s).
Proof.
  intros (Hcb & Hl & Hn & Ha). split; [done|]. split; [|split; [done|]].
  - intros Hc. specialize (Hl Hc). unfold live in *.
    cbn [cond_signal set_threads held engine rawRequest threads sent freed]. by rewrite wake_payload.
  - intros Hr He Hc. by apply wake_active, Ha.
Qed.

(** A thread moves on without collecting or posting anything. *)
Lemma move_inv i p p' s :
  threads s !! i = Some p → pc_payload p = pc_payload p' → (active p → active p') →
  ni_inv s → ni_inv (set_threads (<[i := p']> (threads s)) s).
Proof.
  intros Hi Hp Hact (Hcb & Hl & Hn & Ha). split; [done|]. split; [|split; [done|]].
  - intros Hc. rewrite <- (Hl Hc). unfold live. cbn [set_threads held engine rawRequest threads sent freed].
    pose proof (insert_payload (threads s) i p p' Hi) as Hins. rewrite Hp in Hins.
    apply Permutation_app_inv_l in Hins. by rewrite Hins.
  - intros Hr He Hc. cbn [set_threads threads]. eapply insert_active; eauto.
Qed.

(** A thread collects the request. *)
Lemma collect_inv i p s :
  threads s !! i = Some p → pc_payload p = [] → ni_inv s →
  let '(msg, s') := ni_collect s in
  ni_inv (set_threads (<[i := NUnlocked msg]> (threads s')) s').
Proof.
  intros Hi Hp (Hcb & Hl & Hn & Ha). unfold ni_collect.
  cbn [set_recvd rawRequest resp].
  pose proof (insert_payload (threads s) i p
    (NUnlocked (Response (resp s) <$> rawRequest s)) Hi) as Hins. rewrite Hp in Hins.
  unfold live, held in Hl. destruct (rawRequest s) as [r|] eqn:Hr; cbn in Hins.
  - split; [done|]. split; [|split; [done|intros [x [=]]]]. cbn.
    intros [Hc Hne%bool_decide_eq_false]%orb_false_iff. rewrite <- (Hl Hc). unfold live, held. cbn.
    destruct (engine s); cbn; rewrite Hins; done.
  - split; [done|]. split; [|split; [done|intros [x [=]]; congruence]].
    intros Hc. rewrite <- (Hl Hc). unfold live, held. cbn. rewrite Hr. destruct (engine s); cbn; by rewrite Hins.
Qed.

Lemma thread_inv i s s' : ni_thread_proc i s = Some s' → ni_inv s → ni_inv s'.
Proof.
  unfold ni_thread_proc. intros E Hs. destruct (threads s !! i) as [p|] eqn:Hi; [|done].
  destruct p as [| |[]|msg|msg|msg|]; try done.
  - destruct (respRecvd s); cbn [negb] in E.
    + pose proof (collect_inv i NStart s Hi eq_refl Hs) as Hc.
      destruct (ni_collect s) as [m s1]. by injection E as <-.
    + injection E as <-. by apply (move_inv i NStart).
  - pose proof (collect_inv i (NWoken true) (set_resp GPS_NI_RESPONSE_NORESP s) Hi eq_refl Hs) as Hc.
    destruct (ni_collect _) as [m s1]. by injection E as <-.
  - destruct (respRecvd s); cbn [negb] in E.
    + pose proof (collect_inv i (NWoken false) s Hi eq_refl Hs) as Hc.
      destruct (ni_collect s) as [m s1]. by injection E as <-.
    + injection E as <-. by apply (move_inv i (NWoken false)).
  - injection E as <-. by apply (move_inv i (NUnlocked msg) (NCleared msg) (set_time 0 s)).
  - injection E as <-. by apply (move_inv i (NCleared msg) (NCounted msg) (set_id _ s)).
  - injection E as <-. destruct Hs as (Hcb & Hl & Hn & Ha).
    pose proof (insert_payload (threads s) i (NCounted msg) NDone Hi) as Hins.
    assert (is_Some (rawRequest s) → creating (engine s) = false → created s = true →
      Exists active (<[i := NDone]> (threads s))) as Hact.
    { intros Hr He Hc. eapply insert_active; [exact Hi|intros []|by apply Ha]. }
    destruct msg as [m|]; (split; [done|]; split; [|split; [done|exact Hact]]);
      intros Hc; rewrite <- (Hl Hc); unfold live, held; cbn in Hins |- *; rewrite <- Hins.
    + rewrite fmap_app. cbn. solve_Permutation.
    + done.
Qed.

Lemma start_inv notif r s :
  engine s = EIdle → r ∉ seen s → ni_inv s → ni_inv (handler_start notif (Some r) (hand_over r s)).
Proof.
  intros He Hr (Hcb & Hl & Hn & Ha). unfold handler_start.
  change (ni_notify_cb (hand_over r s)) with (ni_notify_cb s). rewrite Hcb. cbn [negb].
  change (rawRequest (hand_over r s)) with (rawRequest s).
  assert (NoDup (seen s ++ [r])) as Hnd.
  { apply NoDup_app. split; [done|]. split; [|apply NoDup_singleton].
    intros x Hx ->%list_elem_of_singleton. done. }
  unfold live, held in Hl. rewrite He in Hl.
  destruct (rawRequest s) as [r0|] eqn:Hraw.
  - split; [done|]. split; [|split; [done|]].
    + cbn [seen hand_over free collided]. intros Hc. rewrite <- (Hl Hc). unfold live, held. cbn.
      rewrite He, Hraw. cbn. solve_Permutation.
    + intros _. cbn. apply Ha. by eexists.
  - split; [done|]. split; [|split; [done|by intros _ [=]]].
    cbn. intros Hc. rewrite <- (Hl Hc). unfold live, held. cbn. solve_Permutation.
Qed.

Lemma engine_inv rc pick s s' : engine_step rc pick s = Some s' → ni_inv s → ni_inv s'.
Proof.
  unfold engine_step. intros E Hs. pose proof Hs as (Hcb & Hl & Hn & Ha). unfold live, held in Hl.
  destruct (engine s) eqn:He; [done|..]; injection E as <-.
  - unfold handler_identify.
    break_if; (split; [done|]; split; [exact Hl|]; split; [done|by intros _ [=]]).
  - split; [done|]. split; [exact Hl|]. split; [done|by intros _ [=]].
  - unfold handler_create. break_if; (split; [done|]; split; [|split; [done|]]); try done.
    + intros Hc. cbn. rewrite <- (Hl Hc). unfold live, held. cbn. by rewrite bind_app, app_nil_r.
    + intros _ _ _. cbn. apply Exists_app. right. by constructor.
  - split; [done|]. split; [exact Hl|]. split; [done|exact Ha].
  - unfold reset_free. destruct (rawRequest s) as [r|] eqn:Hr;
      (split; [done|]; split; [|split; [done|cbn; rewrite ?Hr; intros ? _; by apply Ha]]);
      cbn; intros Hc; rewrite <- (Hl Hc); unfold live, held; cbn; solve_Permutation.
  - split; [done|]. split; [exact Hl|]. split; [done|by intros [? [=]]].
  - assert (ni_inv (cond_signal pick (set_recvd true s))) as (H1 & H2 & H3 & H4) by by apply cond_signal_inv.
    split; [done|]. unfold live, held in H2. cbn in H2, H4 |- *. rewrite He in H2, H4.
    split; [exact H2|]. split; [done|exact H4].
Qed.

Lemma ni_exec_inv ev s s' : ni_exec ev s = Some s' → ni_inv s → ni_inv s'.
Proof.
  intros E Hs. destruct ev as [notif r| |rc pick|id r|k|pick k|i|b i]; cbn [ni_exec] in E.
  - case_decide as Hc; [|done]. injection E as <-. by apply start_inv; [apply Hc..|].
  - case_decide as He; [|done]. injection E as <-. unfold reset_test.
    pose proof Hs as (Hcb & Hl & Hn & Ha). rewrite Hcb. cbn [negb].
    destruct (rawRequest s) as [r|] eqn:Hr; [|exact Hs].
    split; [done|]. unfold live, held in *. cbn. rewrite He, Hr in *.
    split; [exact Hl|]. split; [done|exact Ha].
  - by eapply engine_inv.
  - injection E as <-. unfold respond_match. repeat break_if; exact Hs.
  - unfold respond_held in E. destruct (matched s !! k) as [r|]; [|done]. injection E as <-. by break_if.
  - unfold respond_store in E. destruct (responders s !! k) as [r|]; [|done]. injection E as <-.
    by apply (cond_signal_inv pick (set_recvd true (set_resp r (set_responders (delete k (responders s)) s)))).
  - by eapply thread_inv.
  - unfold wait_ends in E. destruct (threads s !! i) as [[]|] eqn:Hi; try done.
    injection E as <-. by apply (move_inv i NWaiting).
Qed.

Lemma ni_reachable_inv s : reachable ni_step ni_start s → ni_inv s.
Proof.
  apply invariant_reachable.
  - intros ? ->. split; [done|]. split; [done|]. split; [constructor|intros [x [=]]].
  - intros s0 s1 Hs [ev E]. by eapply ni_exec_inv.
Qed.

(** ** Runs of one thread *)

Lemma ni_run_cons ev evs s s1 : ni_exec ev s = Some s1 → ni_run (ev :: evs) s = ni_run evs s1.
Proof. intros E. cbn [ni_run]. by rewrite E. Qed.

Lemma at_pc_lookup i p p0 (s : ni) :
  threads s !! i = Some p0 → (<[i := p]> (threads s)) !! i = Some p.
Proof. intros Hi. apply list_lookup_insert_eq. by eapply lookup_lt_Some. Qed.

(** From the unlocking to the end. *)
Lemma finish_run i m s :
  threads s !! i = Some (NUnlocked (Some m)) →
  ni_run [EvThread i; EvThread i; EvThread i] s =
    Some (set_threads (<[i := NDone]> (threads s))
      (loc_eng_msg_sender m (set_id (int32 (reqID s + 1)) (set_time 0 s)))).
Proof.
  intros Hi. erewrite ni_run_cons; [|cbn [ni_exec]; unfold ni_thread_proc; by rewrite Hi].
  erewrite ni_run_cons.
  2: { cbn [ni_exec]. unfold ni_thread_proc. cbn [set_threads threads].
       by rewrite (at_pc_lookup i _ _ s Hi). }
  erewrite ni_run_cons.
  2: { cbn [ni_exec]. unfold ni_thread_proc. cbn [set_threads threads set_id set_time].
       rewrite list_insert_insert_eq. by rewrite (at_pc_lookup i _ _ s Hi). }
  cbn [ni_run]. unfold set_threads. cbn. by rewrite !list_insert_insert_eq.
Qed.

(** The state of a thread that has collected the request, [x] the answer. *)
Definition collected (x : Z) (s : ni) : ni :=
  set_raw None (set_collided (collided s || bool_decide (engine s = EFreed)) (set_recvd false (set_resp x s))).

(** From the end of the wait (or of the first look) to the end. *)
Lemma collect_run i p r s :
  threads s !! i = Some p → rawRequest s = Some r →
  (p = NStart ∧ respRecvd s = true ∨ p = NWoken false ∧ respRecvd s = true ∨ p = NWoken true) →
  let x := if decide (p = NWoken true) then GPS_NI_RESPONSE_NORESP else resp s in
  ni_run [EvThread i; EvThread i; EvThread i; EvThread i] s =
    Some (set_threads (<[i := NDone]> (threads s))
      (loc_eng_msg_sender (Response x r) (set_id (int32 (reqID s + 1)) (set_time 0 (collected x s))))).
Proof.
  intros Hi Hr Hp x. erewrite ni_run_cons.
  2: { cbn [ni_exec]. unfold ni_thread_proc. rewrite Hi.
       instantiate (1 := set_threads (<[i := NUnlocked (Some (Response x r))]> (threads s))
         (collected x s)).
       destruct Hp as [[-> Hrec]|[[-> Hrec]| ->]]; rewrite ?Hrec; cbn [negb]; unfold ni_collect;
         cbn [set_recvd rawRequest set_resp resp]; rewrite Hr; unfold x;
         first [rewrite decide_True by done|rewrite decide_False by done]; by destruct s. }
  rewrite (finish_run i (Response x r)).
  - unfold set_threads. cbn. by rewrite list_insert_insert_eq.
  - cbn [set_threads threads]. by apply (at_pc_lookup i _ p).
Qed.

Lemma waiting_run i r s :
  threads s !! i = Some NWaiting → rawRequest s = Some r →
  ∃ s', ni_run [EvWaitEnds true i; EvThread i; EvThread i; EvThread i; EvThread i] s = Some s' ∧
    Response GPS_NI_RESPONSE_NORESP r ∈ sent s'.
Proof.
  intros Hi Hr. eexists. split.
  - erewrite ni_run_cons; [|cbn [ni_exec]; unfold wait_ends; by rewrite Hi].
    eapply (collect_run i (NWoken true) r); [by apply (at_pc_lookup i _ _ s Hi)|exact Hr|auto].
  - rewrite decide_True by done. cbn. set_solver.
Qed.

Definition own_event (i : nat) (ev : ni_event) : Prop := ev = EvThread i ∨ ev = EvWaitEnds true i.

(** ** Properties *)

(** C20: in every interleaving of the engine, the framework and the waiting
    threads, the unlocked accesses included, in which no thread took the
    request between the [free] of a restart and the store of NULL that follows
    it (a window without lock, see [restart_frees_answered]), each request the
    modem ever handed over is in exactly one place: held, in a response about
    to be posted, in a response posted, or freed; so none is answered twice,
    freed twice, freed and answered, or leaked. *)
Theorem ni_requests_conserved s
    (Hr : reachable ni_step ni_start s) (Hc : collided s = false) :
  held s ++ (threads s ≫= pc_payload) ++ (ir_payload <$> sent s) ++ freed s ≡ₚ seen s ∧
  NoDup (held s ++ (threads s ≫= pc_payload) ++ (ir_payload <$> sent s) ++ freed s).
Proof.
  apply ni_reachable_inv in Hr as (_ & Hl & Hn & _). specialize (Hl Hc). split; [exact Hl|].
  unfold live in Hl. by rewrite Hl.
Qed.

(** C21: a request that is held, while the engine is neither in the request
    handler nor in a restart, and whose time-out thread was created (the
    failure of [pthread_create] is only logged, see [thread_not_created]), is
    always answered: in every reachable state some waiting thread, left alone,
    posts a response to it within six transitions (the sixth if it had yet to
    find out that no answer is there and to run out of time).  A time-out of 0,
    which gps.h documents as no limit, makes no difference: it counts as
    [LOC_NI_NO_RESPONSE_TIME] (see [zero_timeout_limited]). *)
Theorem ni_always_answered s r
    (Hs : reachable ni_step ni_start s) (Hr : rawRequest s = Some r)
    (He : engine s = EIdle) (Hc : created s = true) :
  ∃ i evs s' x, Forall (own_event i) evs ∧ (length evs <= 6)%nat ∧
    ni_run evs s = Some s' ∧ Response x r ∈ sent s'.
Proof.
  apply ni_reachable_inv in Hs as (_ & _ & _ & Ha).
  specialize (Ha ltac:(by eexists) ltac:(by rewrite He) Hc). apply Exists_exists in Ha as (p & Hp & Hact).
  apply list_elem_of_lookup in Hp as [i Hi]. exists i.
  assert (∀ k, Forall (own_event i) (replicate k (EvThread i))) as Hown.
  { intros k. apply Forall_replicate. by left. }
  assert (∀ s1, threads s1 !! i = Some p → rawRequest s1 = Some r →
    (p = NStart ∧ respRecvd s1 = true ∨ p = NWoken false ∧ respRecvd s1 = true ∨ p = NWoken true) →
    ∃ evs s' x, Forall (own_event i) evs ∧ (length evs <= 6)%nat ∧
      ni_run evs s1 = Some s' ∧ Response x r ∈ sent s') as Hcollect.
  { intros s1 Hi1 Hr1 Hp. pose proof (collect_run i p r s1 Hi1 Hr1 Hp) as E.
    eexists _, _, _. split; [apply (Hown 4%nat)|]. split; [cbn; lia|]. split; [exact E|].
    cbn. apply elem_of_app. right. by apply list_elem_of_singleton. }
  assert (∀ s1, threads s1 !! i = Some NWaiting → rawRequest s1 = Some r →
    ∃ evs s', Forall (own_event i) evs ∧ (length evs <= 5)%nat ∧
      ni_run evs s1 = Some s' ∧ Response GPS_NI_RESPONSE_NORESP r ∈ sent s') as Hwait.
  { intros s1 Hi1 Hr1. destruct (waiting_run i r s1 Hi1 Hr1) as (s' & E & Hin).
    eexists _, s'. split; [|split; [|split; [exact E|exact Hin]]]; [|cbn; lia].
    constructor; [by right|apply (Hown 4%nat)]. }
  assert (∀ s1, ni_exec (EvThread i) s = Some s1 → threads s1 !! i = Some NWaiting →
    rawRequest s1 = Some r → ∃ evs s' x, Forall (own_event i) evs ∧ (length evs <= 6)%nat ∧
      ni_run evs s = Some s' ∧ Response x r ∈ sent s') as Hlook.
  { intros s1 E1 Hi1 Hr1. destruct (Hwait s1 Hi1 Hr1) as (evs & s' & Hf & Hl & E & Hin).
    exists (EvThread i :: evs), s', GPS_NI_RESPONSE_NORESP. split; [constructor; [by left|done]|].
    split; [cbn; lia|]. split; [by rewrite (ni_run_cons _ _ _ _ E1)|done]. }
  pose proof (at_pc_lookup i NWaiting p s Hi) as Hat.
  destruct p as [| |[]|?|?|?|]; try done.
  - destruct (respRecvd s) eqn:Hrec; [apply (Hcollect s); auto|].
    eapply Hlook; [cbn [ni_exec]; unfold ni_thread_proc; by rewrite Hi, Hrec|exact Hat|exact Hr].
  - destruct (Hwait s Hi Hr) as (evs & s' & Hf & Hl & E & Hin).
    exists evs, s', GPS_NI_RESPONSE_NORESP. split; [done|]. split; [lia|done].
  - apply (Hcollect s); auto.
  - destruct (respRecvd s) eqn:Hrec; [apply (Hcollect s); auto|].
    eapply Hlook; [cbn [ni_exec]; unfold ni_thread_proc; by rewrite Hi, Hrec|exact Hat|exact Hr].
Qed.

(** Nothing is under way. *)
Definition quiet (s : ni) : Prop :=
  ni_notify_cb s = true ∧ rawRequest s = None ∧ respRecvd s = false ∧ matched s = [] ∧ responders s = [] ∧
  engine s = EIdle ∧ Forall (λ p, p = NDone) (threads s).

(** The events of a request answered by [answer], or left to time out. *)
Definition round (s : ni) (notif : GpsNiNotification) (r : loc) (answer : option Z) : list ni_event :=
  let i := length (threads s) in
  EvRequest notif r :: replicate 4 (EvEngine 0 0) ++ [EvThread i] ++
  match answer with
  | Some x => [EvRespond (reqID s) x; EvHeld 0; EvStore 0 0]
  | None => [EvWaitEnds true i]
  end ++ [EvThread i; EvThread i; EvThread i; EvThread i].

Lemma wake_last l : Forall (λ p, p = NDone) l →
  waiters (l ++ [NWaiting]) = 1%nat ∧ wake 0 (l ++ [NWaiting]) = l ++ [NWoken false].
Proof.
  unfold waiters. induction 1 as [|p l -> _ [IH1 IH2]]; [done|]. cbn [app wake].
  rewrite filter_cons_False by done. split; [exact IH1|]. by rewrite IH2.
Qed.

Lemma signal_last l s : Forall (λ p, p = NDone) l → threads s = l ++ [NWaiting] →
  cond_signal 0 s = set_threads (l ++ [NWoken false]) s.
Proof. intros Hl Ht. unfold cond_signal. rewrite Ht. destruct (wake_last l Hl) as [-> Hw].
  rewrite Nat.Div0.mod_0_l. by rewrite Hw. Qed.

Lemma insert_last (l : list npc) p q : <[length l := q]> (l ++ [p]) = l ++ [q].
Proof. rewrite insert_app_r_alt by lia. by rewrite Nat.sub_diag. Qed.
Lemma lookup_last (l : list npc) p : (l ++ [p]) !! length l = Some p.
Proof. rewrite lookup_app_r by lia. by rewrite Nat.sub_diag. Qed.

(** The state while the thread waits. *)
Definition asked (notif : GpsNiNotification) (r : loc) (s : ni) : ni :=
  Ni true (5 + (if negb (timeout notif =? 0) then timeout notif else LOC_NI_NO_RESPONSE_TIME))
    false (Some r) (reqID s) (resp s) (threads s ++ [NWaiting]) [] [] EIdle
    (if notify_flags notif =? GPS_NI_PRIVACY_OVERRIDE then true else muted s)
    (notified s ++ [(reqID s, notif)]) (sent s) (freed s) (seen s ++ [r]) true (collided s).

(** The functions of the source are their transitions run without anything
    in between. *)
Lemma handler_run rc pick notif r s :
  engine s = EIdle → r ∉ seen s → ni_notify_cb s = true → rawRequest s = None →
  ni_run (EvRequest notif r :: replicate 4 (EvEngine rc pick)) s =
    Some (loc_eng_ni_request_handler rc notif (Some r) (hand_over r s)).
Proof.
  intros He Hr Hcb Hraw. destruct s as [cb t rec raw id rs ths mt rsp e m n sn f sd cr co]. cbn in He, Hr, Hcb, Hraw. subst.
  erewrite ni_run_cons; [|cbn [ni_exec]; by rewrite decide_True].
  unfold loc_eng_ni_request_handler, handler_start. cbn [ni_notify_cb rawRequest hand_over negb].
  remember (5 + _) as t' eqn:Ht. remember (notify_flags notif =? GPS_NI_PRIVACY_OVERRIDE) as b eqn:Hb.
  remember (rc =? 0) as c eqn:Hc.
  do 4 (cbn [replicate]; erewrite ni_run_cons; [|reflexivity]). cbn [ni_run]. f_equal.
  unfold handler_notify, handler_create, handler_time, handler_identify. rewrite <- Hb, <- Ht, <- Hc.
  clear. destruct b, c; reflexivity.
Qed.
Lemma handler_busy rc notif r r0 s :
  engine s = EIdle → r ∉ seen s → ni_notify_cb s = true → rawRequest s = Some r0 →
  ni_exec (EvRequest notif r) s = Some (loc_eng_ni_request_handler rc notif (Some r) (hand_over r s)).
Proof.
  intros He Hr Hcb Hraw. cbn [ni_exec]. rewrite decide_True by done.
  unfold loc_eng_ni_request_handler, handler_start. cbn. by rewrite Hcb, Hraw.
Qed.
Lemma restart_run rc pick r s :
  engine s = EIdle → ni_notify_cb s = true → rawRequest s = Some r →
  ni_run (EvReset :: replicate 3 (EvEngine rc pick)) s = Some (loc_eng_ni_reset_on_engine_restart pick s).
Proof.
  intros He Hcb Hraw. destruct s as [cb t rec raw id rs ths mt rsp e m n sn f sd cr co]. cbn in He, Hcb, Hraw. by subst.
Qed.
Lemma respond_run x s :
  matched s = [] → ni_notify_cb s = true →
  ni_run [EvRespond (reqID s) x; EvHeld 0] s = Some (loc_eng_ni_respond (reqID s) x s).
Proof.
  intros Hm Hcb. destruct s as [cb t rec raw id rs ths mt rsp e m n sn f sd cr co]. cbn in Hm, Hcb. subst.
  cbn [ni_run ni_exec]. unfold respond_match, loc_eng_ni_respond. cbn. rewrite Z.eqb_refl. cbn.
  by destruct raw.
Qed.

Lemma ni_run_app l1 l2 t : ni_run (l1 ++ l2) t = t ← ni_run l1 t; ni_run l2 t.
Proof.
  revert t. induction l1 as [|ev l1 IH]; intros t; [done|]. cbn [app ni_run].
  destruct (ni_exec ev t); cbn; [apply IH|done].
Qed.

Lemma request_run notif r s :
  quiet s →
  loc_eng_ni_request_handler 0 notif (Some r) (hand_over r s) =
    set_threads (threads s ++ [NStart]) (asked notif r s).
Proof.
  intros (Hcb & Hraw & Hrec & Hm & Hresp & He & Hd).
  destruct s as [cb t rec raw id rs ths mt rsp e m n sn f sd cr co]. cbn in Hcb, Hraw, Hrec, Hm, Hresp, He. subst.
  unfold loc_eng_ni_request_handler, asked.
  destruct (notify_flags notif =? GPS_NI_PRIVACY_OVERRIDE); reflexivity.
Qed.

Lemma ask_run notif r s :
  quiet s → r ∉ seen s →
  ni_run (EvRequest notif r :: replicate 4 (EvEngine 0 0) ++ [EvThread (length (threads s))]) s =
    Some (asked notif r s).
Proof.
  intros Hq Hr. rewrite app_comm_cons, ni_run_app.
  pose proof Hq as (Hcb & Hraw & _ & _ & _ & He & _). rewrite handler_run by done. cbn [mbind option_bind].
  rewrite (request_run notif r s Hq).
  erewrite ni_run_cons; [|cbn [ni_exec]; unfold ni_thread_proc, set_threads;
    cbn [threads]; rewrite lookup_last; cbn [respRecvd asked negb]; reflexivity].
  cbn [ni_run]. unfold set_threads, asked. cbn [threads ni_notify_cb respTimeLeft respRecvd rawRequest reqID resp
    matched responders engine muted notified sent freed seen created collided]. by rewrite insert_last.
Qed.

(** in a quiet state a request is announced to the framework with the
    current id, and its round ends in a quiet state with exactly one response
    posted for it: the answer the framework gave for that id, or "no response"
    when the time ran out; the id has advanced by one. *)
Theorem ni_round s notif r answer (Hq : quiet s) (Hr : r ∉ seen s) :
  ∃ s', ni_run (round s notif r answer) s = Some s' ∧
    sent s' = sent s ++ [Response (default GPS_NI_RESPONSE_NORESP answer) r] ∧
    notified s' = notified s ++ [(reqID s, notif)] ∧
    reqID s' = int32 (reqID s + 1) ∧ freed s' = freed s ∧ quiet s'.
Proof.
  unfold round. rewrite (assoc_L (++)), app_comm_cons, ni_run_app, (ask_run notif r s Hq Hr). cbn [mbind option_bind].
  destruct Hq as (Hcb & Hraw & Hrec & Hm & Hresp & He & Hd).
  assert (∀ p, Forall (λ p, p = NDone) (<[length (threads s) := NDone]> (threads s ++ [p]))) as Hdone.
  { intros p. rewrite insert_last. apply Forall_app. by split; [|constructor]. }
  set (i := length (threads s)) in *. rewrite ni_run_app. destruct answer as [x|].
  - assert (ni_run [EvRespond (reqID s) x; EvHeld 0; EvStore 0 0] (asked notif r s) =
      Some (set_threads (threads s ++ [NWoken false]) (set_recvd true (set_resp x (asked notif r s)))))
      as ->.
    { cbn [ni_run ni_exec mbind option_bind]. unfold respond_match. cbn.
      rewrite Z.eqb_refl. cbn. by rewrite (signal_last (threads s)). }
    cbn [mbind option_bind]. rewrite (collect_run i (NWoken false) r);
      [|by apply lookup_last|done|by right; left].
    eexists. split; [reflexivity|]. rewrite decide_False by done.
    repeat (split; [done|]). cbn. apply Hdone.
  - assert (ni_run [EvWaitEnds true i] (asked notif r s) =
      Some (set_threads (threads s ++ [NWoken true]) (asked notif r s))) as ->.
    { cbn [ni_run ni_exec mbind option_bind]. unfold wait_ends. cbn. unfold i.
      by rewrite lookup_last, insert_last. }
    cbn [mbind option_bind]. rewrite (collect_run i (NWoken true) r);
      [|by apply lookup_last|done|by right; right].
    eexists. split; [reflexivity|]. rewrite decide_True by done.
    repeat (split; [done|]). cbn. apply Hdone.
Qed.

(** ** Findings *)

Definition demo_notif : GpsNiNotification := Notification 1 8.
Definition demo_start : ni := loc_eng_ni_init true ni_zero.
Definition demo_ni (evs : list ni_event) : ni := default demo_start (ni_run evs demo_start).

Definition demo_request (r : loc) : list ni_event :=
  EvRequest demo_notif r :: replicate 4 (EvEngine 0 0).

(** An answer that the framework gave for one request, tested before the time
    ran out and stored after it, is posted as the answer to the next. *)
Definition stale_events : list ni_event :=
  demo_request 1%positive ++ [EvThread 0; EvRespond 0 GPS_NI_RESPONSE_ACCEPT; EvHeld 0;
   EvWaitEnds true 0; EvThread 0; EvThread 0; EvThread 0; EvThread 0; EvStore 0 0] ++
  demo_request 2%positive ++ [EvThread 1; EvThread 1; EvThread 1; EvThread 1].
Lemma stale_answer_posted :
  sent (demo_ni stale_events) =
    [Response GPS_NI_RESPONSE_NORESP 1; Response GPS_NI_RESPONSE_ACCEPT 2].
Proof. vm_compute. reflexivity. Qed.

(** A request that arrives before the last thread has advanced the id is
    announced with an id that is no longer current when the framework answers:
    the answer is ignored. *)
Definition early_events : list ni_event :=
  demo_request 1%positive ++ [EvThread 0; EvWaitEnds true 0; EvThread 0] ++
  demo_request 2%positive ++ [EvThread 0; EvThread 0; EvThread 0].
Lemma answer_ignored :
  notified (demo_ni early_events) = [(0, demo_notif); (0, demo_notif)] ∧
  rawRequest (demo_ni early_events) = Some 2%positive ∧
  loc_eng_ni_respond 0 GPS_NI_RESPONSE_ACCEPT (demo_ni early_events) = demo_ni early_events.
Proof. vm_compute. done. Qed.

(** When the thread is not created the request stays held and those that
    follow are dropped. *)
Lemma thread_not_created rc notif r s :
  rc ≠ 0 → ni_notify_cb s = true → rawRequest s = None →
  let s' := loc_eng_ni_request_handler rc notif (Some r) s in
  rawRequest s' = Some r ∧ threads s' = threads s ∧
  ∀ notif2 r2, loc_eng_ni_request_handler 0 notif2 (Some r2) s' = free r2 s'.
Proof.
  intros Hrc Hcb Hraw s'. assert (rawRequest s' = Some r ∧ threads s' = threads s ∧ ni_notify_cb s' = true)
    as (H1 & H2 & H3).
  { unfold s', loc_eng_ni_request_handler. rewrite Hcb, Hraw. cbn [negb].
    destruct (Z.eqb_spec rc 0); [done|]. by destruct (notify_flags notif =? GPS_NI_PRIVACY_OVERRIDE). }
  split; [done|]. split; [done|]. intros notif2 r2. unfold loc_eng_ni_request_handler at 1.
  by rewrite H3, H1.
Qed.

(** A time-out of 0, documented as no limit in gps.h, is one of 25 seconds. *)
Lemma zero_timeout_limited rc notif r s :
  ni_notify_cb s = true → rawRequest s = None → timeout notif = 0 →
  respTimeLeft (loc_eng_ni_request_handler rc notif (Some r) s) = 25.
Proof.
  intros Hcb Hraw Ht. unfold loc_eng_ni_request_handler. rewrite Hcb, Hraw, Ht.
  destruct (notify_flags notif =? GPS_NI_PRIVACY_OVERRIDE); cbn; by destruct (rc =? 0).
Qed.

(** The restart frees the request without the lock: a thread whose time runs
    out between that and the store of NULL posts a response with the request
    that was freed, and the message frees it again. *)
Definition race_events : list ni_event :=
  demo_request 1%positive ++ [EvThread 0; EvReset; EvEngine 0 0;
    EvWaitEnds true 0; EvThread 0; EvThread 0; EvThread 0; EvThread 0].
Lemma restart_frees_answered :
  freed (demo_ni race_events) = [1%positive] ∧
  sent (demo_ni race_events) = [Response GPS_NI_RESPONSE_NORESP 1] ∧
  collided (demo_ni race_events) = true.
Proof. vm_compute. done. Qed.

(** ** Witnesses *)

Lemma demo_ni_reachable evs s :
  ni_run evs demo_start = Some s → reachable ni_step ni_start s.
Proof.
  assert (∀ t, reachable ni_step ni_start t → ni_run evs t = Some s → reachable ni_step ni_start s) as H.
  { induction evs as [|ev evs IH]; intros t Ht E; cbn [ni_run] in E; [by injection E as <-|].
    destruct (ni_exec ev t) as [t1|] eqn:E1; [|done]. cbn in E.
    apply (IH t1); [|done]. eapply reachable_step; [exact Ht|by exists ev]. }
  apply H. exists demo_start. split; [done|apply rtc_refl].
Qed.

Lemma ni_requests_conserved_witness :
  ∃ s, reachable ni_step ni_start s ∧
    held s ++ (threads s ≫= pc_payload) ++ (ir_payload <$> sent s) ++ freed s
      ≡ₚ [1%positive; 2%positive].
Proof.
  assert (reachable ni_step ni_start (demo_ni early_events)) as Hr.
  { apply (demo_ni_reachable early_events). vm_compute. reflexivity. }
  exists (demo_ni early_events). split; [exact Hr|].
  destruct (ni_requests_conserved _ Hr) as [Hp _]; [vm_compute; reflexivity|].
  rewrite Hp. vm_compute. reflexivity.
Defined.

Lemma ni_always_answered_witness :
  ∃ s s' x, reachable ni_step ni_start s ∧ Response x 2 ∈ sent s'.
Proof.
  assert (reachable ni_step ni_start (demo_ni early_events)) as Hr.
  { apply (demo_ni_reachable early_events). vm_compute. reflexivity. }
  destruct (ni_always_answered _ 2%positive Hr) as (i & evs & s' & x & _ & _ & _ & Hin).
  - vm_compute. reflexivity.
  - vm_compute. reflexivity.
  - vm_compute. reflexivity.
  - exists (demo_ni early_events), s', x. split; [exact Hr|exact Hin].
Defined.

Lemma ni_round_witness :
  ∃ s', ni_run (round demo_start demo_notif 1 (Some GPS_NI_RESPONSE_DENY)) demo_start = Some s' ∧
    sent s' = [Response GPS_NI_RESPONSE_DENY 1].
Proof.
  destruct (ni_round demo_start demo_notif 1%positive (Some GPS_NI_RESPONSE_DENY))
    as (s' & E & Hs & _).
  - repeat split. constructor.
  - apply not_elem_of_nil.
  - exists s'. split; [exact E|exact Hs].
Defined.
