(* ===== verification/EngMsg.v ===== *)
(** * The messages of the location engine: loc_eng_msg.h, loc_eng_msg_id.h

    A message has the address of its owner, an identifier and the members of
    its struct ([payload], one constructor per struct).  The functions named as
    the structs are their constructors, which copy strings and arrays; [cast_*]
    is the static cast of the receiver, undefined ([None]) on an object of
    another struct.  Floating point members are of the type [real] of
    [NmeaEnv]. *)

From Stdlib Require Import String Ascii.
From S2P Require Import Prelude Agps Nmea Ni.
Local Open Scope Z_scope.

(** ** Identifiers *)

Definition LOC_ENG_MSG_QUIT : Z := 0x200.
Definition LOC_ENG_MSG_ENGINE_DOWN : Z := 0x201.
Definition LOC_ENG_MSG_ENGINE_UP : Z := 0x202.
Definition LOC_ENG_MSG_START_FIX : Z := 0x203.
Definition LOC_ENG_MSG_STOP_FIX : Z := 0x204.
Definition LOC_ENG_MSG_SET_POSITION_MODE : Z := 0x205.
Definition LOC_ENG_MSG_SET_TIME : Z := 0x206.
Definition LOC_ENG_MSG_INJECT_XTRA_DATA : Z := 0x207.
Definition LOC_ENG_MSG_INJECT_LOCATION : Z := 0x208.
Definition LOC_ENG_MSG_DELETE_AIDING_DATA : Z := 0x209.
Definition LOC_ENG_MSG_SET_APN : Z := 0x20A.
Definition LOC_ENG_MSG_SET_SERVER_URL : Z := 0x20B.
Definition LOC_ENG_MSG_SET_SERVER_IPV4 : Z := 0x20C.
Definition LOC_ENG_MSG_ENABLE_DATA : Z := 0x20D.
Definition LOC_ENG_MSG_SUPL_VERSION : Z := 0x20E.
Definition LOC_ENG_MSG_SET_SENSOR_CONTROL_CONFIG : Z := 0x20F.
Definition LOC_ENG_MSG_SET_SENSOR_PROPERTIES : Z := 0x210.
Definition LOC_ENG_MSG_SET_SENSOR_PERF_CONTROL_CONFIG : Z := 0x211.
Definition LOC_ENG_MSG_MUTE_SESSION : Z := 0x212.
Definition LOC_ENG_MSG_ATL_OPEN_SUCCESS : Z := 0x213.
Definition LOC_ENG_MSG_ATL_CLOSED : Z := 0x214.
Definition LOC_ENG_MSG_ATL_OPEN_FAILED : Z := 0x215.
Definition LOC_ENG_MSG_REPORT_POSITION : Z := 0x216.
Definition LOC_ENG_MSG_REPORT_SV : Z := 0x217.
Definition LOC_ENG_MSG_REPORT_STATUS : Z := 0x218.
Definition LOC_ENG_MSG_REPORT_NMEA : Z := 0x219.
Definition LOC_ENG_MSG_REQUEST_ATL : Z := 0x21A.
Definition LOC_ENG_MSG_RELEASE_ATL : Z := 0x21B.
Definition LOC_ENG_MSG_REQUEST_BIT : Z := 0x21C.
Definition LOC_ENG_MSG_RELEASE_BIT : Z := 0x21D.
Definition LOC_ENG_MSG_REQUEST_WIFI : Z := 0x21E.
Definition LOC_ENG_MSG_RELEASE_WIFI : Z := 0x21F.
Definition LOC_ENG_MSG_REQUEST_NI : Z := 0x220.
Definition LOC_ENG_MSG_INFORM_NI_RESPONSE : Z := 0x221.
Definition LOC_ENG_MSG_REQUEST_XTRA_DATA : Z := 0x222.
Definition LOC_ENG_MSG_REQUEST_TIME : Z := 0x223.
Definition LOC_ENG_MSG_EXT_POWER_CONFIG : Z := 0x224.
Definition LOC_ENG_MSG_REQUEST_POSITION : Z := 0x225.
Definition LOC_ENG_MSG_REQUEST_PHONE_CONTEXT : Z := 0x226.
Definition LOC_ENG_MSG_REQUEST_NETWORK_POSIITON : Z := 0x227.
Definition ULP_MSG_UPDATE_CRITERIA : Z := 0x600.
Definition ULP_MSG_START_FIX : Z := 0x601.
Definition ULP_MSG_STOP_FIX : Z := 0x602.
Definition ULP_MSG_INJECT_PHONE_CONTEXT_SETTINGS : Z := 0x603.
Definition ULP_MSG_INJECT_NETWORK_POSITION : Z := 0x604.
Definition ULP_MSG_REPORT_QUIPC_POSITION : Z := 0x605.
Definition LOC_ENG_MSG_LPP_CONFIG : Z := 0x701.
Definition ULP_MSG_INJECT_RAW_COMMAND : Z := 0x707.

(** ** Position modes *)

Definition MIN_POSSIBLE_FIX_INTERVAL : Z := 1000.
Definition LOC_POSITION_MODE_STANDALONE : Z := 0.
Definition LOC_POSITION_MODE_MS_BASED : Z := 1.
Definition GPS_POSITION_RECURRENCE_PERIODIC : Z := 0.
Definition GPS_POSITION_RECURRENCE_SINGLE : Z := 1.

Record LocPosMode := PosMode {
  mode : Z;
  recurrence : Z;
  min_interval : Z;
  preferred_accuracy : Z;
  preferred_time : Z;
  credentials : list Z;          (* 14 bytes *)
  provider : list Z              (* 8 bytes *)
}.

(** [memcpy] of [n] bytes over [n + 1] zero bytes; fewer are an access outside
    the source. *)
Definition copy_chars (n : nat) (src : option (list Z)) : option (list Z) :=
  match src with
  | None => Some (replicate (S n) 0)
  | Some a => if (length a <? n)%nat then None else Some (take n a ++ [0])
  end.

(** The constructor with arguments. *)
Definition new_LocPosMode (m recr gap accu time : Z) (cred prov : option (list Z)) : option LocPosMode :=
  cred ← copy_chars 13 cred;
  prov ← copy_chars 7 prov;
  Some (PosMode m recr (if gap <? MIN_POSSIBLE_FIX_INTERVAL then MIN_POSSIBLE_FIX_INTERVAL else gap)
          accu time cred prov).

Definition default_LocPosMode : LocPosMode :=
  PosMode LOC_POSITION_MODE_MS_BASED GPS_POSITION_RECURRENCE_PERIODIC MIN_POSSIBLE_FIX_INTERVAL
    50 120000 (replicate 14 0) (replicate 8 0).

Definition LocPosMode_equals (this anotherMode : LocPosMode) : bool :=
  (mode anotherMode =? mode this) && (recurrence anotherMode =? recurrence this) &&
  (min_interval anotherMode =? min_interval this) &&
  (preferred_accuracy anotherMode =? preferred_accuracy this) &&
  (preferred_time anotherMode =? preferred_time this) &&
  strncmp_eq 13 (credentials anotherMode) (credentials this) &&
  strncmp_eq 7 (provider anotherMode) (provider this).

(** ** Structs of gps.h that messages carry *)

Record UlpNetworkRequestPos := NetworkRequest { request_type : Z; interval_ms : Z; desired_position_source : Z }.
Record UlpPhoneContextRequest := ContextRequest { c_context_type : Z; c_request_type : Z; c_interval_ms : Z }.
Record UlpPhoneContextSettings := ContextSettings {
  context_type : Z; is_gps_enabled : bool; is_network_position_available : bool;
  is_wifi_setting_enabled : bool; is_battery_charging : bool; is_agps_enabled : bool;
  is_enh_location_services_enabled : bool }.

Section messages.
Context `{NmeaEnv}.

Record UlpLocationCriteria := Criteria {
  valid_mask : Z; action : Z; provider_source : Z; recurrence_type : Z;
  preferred_response_time : Z; u_min_interval : Z; min_distance : real; min_dist_sample_interval : Z;
  desired_output_parameter : Z; preferred_horizontal_accuracy : Z; preferred_power_consumption : Z;
  preferred_altitude_accuracy : Z; preferred_bearing_accuracy : Z; preferred_data_usage : Z;
  intermediate_pos_report_enabled : bool }.
Record UlpNetworkPosition := NetworkPosition { pos_source : Z; n_latitude : real; n_longitude : real; HEPE : Z }.
(** The landscape is copied with the access points it points to. *)
Record UlpNetworkPositionReport := NetworkReport {
  valid_flag : Z; fix_time : Z; position : UlpNetworkPosition; network_type : Z; landscape : option positive }.

Record sensor_properties := SensorProperties {
  gyroBiasVarianceRandomWalk_valid : bool; gyroBiasVarianceRandomWalk : real;
  accelRandomWalk_valid : bool; accelRandomWalk : real;
  angleRandomWalk_valid : bool; angleRandomWalk : real;
  rateRandomWalk_valid : bool; rateRandomWalk : real;
  velocityRandomWalk_valid : bool; velocityRandomWalk : real }.
Record sensor_perf := SensorPerf {
  controlMode : Z; accelSamplesPerBatch : Z; accelBatchesPerSec : Z; gyroSamplesPerBatch : Z;
  gyroBatchesPerSec : Z; accelSamplesPerBatchHigh : Z; accelBatchesPerSecHigh : Z;
  gyroSamplesPerBatchHigh : Z; gyroBatchesPerSecHigh : Z; algorithmConfig : Z }.
Record position_report := PositionReport {
  location : GpsLocation; locationExtended : GpsLocationExtended; locationExt : option positive;
  pr_status : Z; technology_mask : Z }.
Record sv_report := SvReport { svStatus : GpsSvStatus; sv_locationExtended : GpsLocationExtended; svExt : option positive }.

Inductive payload :=
| PNone                                                   (* loc_eng_msg itself *)
| PSuplVersion (supl_version : Z)
| PLppConfig (lpp_config : Z)
| PExtPower (isBatteryCharging : Z)
| PSensorControl (sensorsDisabled : Z)
| PSensorProperties (p : sensor_properties)
| PSensorPerf (p : sensor_perf)
| PPositionMode (pMode : LocPosMode)
| PSetTime (time timeReference uncertainty : Z)
| PInjectLocation (latitude longitude accuracy : real)
| PDeleteAiding (type : Z)
| PReportPosition (r : position_report)
| PReportSv (r : sv_report)
| PReportStatus (status : Z)
| PReportNmea (nmea : chars) (length : Z)
| PBit (ifType ipv4Addr : Z) (ipv6Addr : option (list Z))
| PWifi (ifType senderId : Z) (ssid password : option (list Z))
| PRequestAtl (handle type : Z)
| PReleaseAtl (handle : Z)
| PRequestNi (notify : GpsNiNotification) (passThroughData : option positive)
| PNiResponse (response : Z) (passThroughData : option positive)
| PApn (apn : list Z)
| PServerIpv4 (nl_addr port serverType : Z)
| PServerUrl (url : chars) (len : Z)
| PXtra (data : list Z) (length : Z)
| PAtlOpen (agpsType : Z) (apn : list Z) (length bearerType : Z)
| PAtl (agpsType : Z)
| PDataEnable (enable : Z) (apn : list Z) (length : Z)
| PNetworkRequest (r : UlpNetworkRequestPos)
| PContextRequest (r : UlpPhoneContextRequest)
| PCriteria (c : UlpLocationCriteria)
| PRawCommand (command : list Z) (length : Z)
| PContextSettings (s : UlpPhoneContextSettings)
| PNetworkReport (r : UlpNetworkPositionReport)
| PQuipc (loc : GpsLocation) (quipc_err : Z).

(** What the owner of a message points to. *)
Inductive owner_t := OEngine | OContext.

Record loc_eng_msg := Msg { owner : owner_t; msgid : Z; body : payload }.

(** ** Constructors *)

(** [new char[len + 1]], [memcpy] and the final zero; the source holds [len]
    characters or the copy reads past it. *)
Definition copy_len (name : list Z) (len : Z) : option (list Z) :=
  if (len <? 0) || (Z.of_nat (length name) <? len) then None else Some (take (Z.to_nat len) name ++ [0]).

Definition new_loc_eng_msg (id : Z) : loc_eng_msg := Msg OEngine id PNone.
Definition loc_eng_msg_suple_version (version : Z) := Msg OEngine LOC_ENG_MSG_SUPL_VERSION (PSuplVersion (int32 version)).
Definition loc_eng_msg_lpp_config (profile : Z) := Msg OEngine LOC_ENG_MSG_LPP_CONFIG (PLppConfig (int32 profile)).
Definition loc_eng_msg_ext_power_config (isBattCharging : Z) := Msg OEngine LOC_ENG_MSG_EXT_POWER_CONFIG (PExtPower isBattCharging).
Definition loc_eng_msg_sensor_control_config (disabled : Z) :=
  Msg OEngine LOC_ENG_MSG_SET_SENSOR_CONTROL_CONFIG (PSensorControl (int32 disabled)).
(** The parameters of these two are float and int; the callers have double and
    unsigned long. *)
Definition to_floats (p : sensor_properties) : sensor_properties := {|
  gyroBiasVarianceRandomWalk_valid := gyroBiasVarianceRandomWalk_valid p;
  gyroBiasVarianceRandomWalk := r_float (gyroBiasVarianceRandomWalk p);
  accelRandomWalk_valid := accelRandomWalk_valid p;
  accelRandomWalk := r_float (accelRandomWalk p);
  angleRandomWalk_valid := angleRandomWalk_valid p;
  angleRandomWalk := r_float (angleRandomWalk p);
  rateRandomWalk_valid := rateRandomWalk_valid p;
  rateRandomWalk := r_float (rateRandomWalk p);
  velocityRandomWalk_valid := velocityRandomWalk_valid p;
  velocityRandomWalk := r_float (velocityRandomWalk p) |}.
Definition to_ints (p : sensor_perf) : sensor_perf := {|
  controlMode := int32 (controlMode p);
  accelSamplesPerBatch := int32 (accelSamplesPerBatch p);
  accelBatchesPerSec := int32 (accelBatchesPerSec p);
  gyroSamplesPerBatch := int32 (gyroSamplesPerBatch p);
  gyroBatchesPerSec := int32 (gyroBatchesPerSec p);
  accelSamplesPerBatchHigh := int32 (accelSamplesPerBatchHigh p);
  accelBatchesPerSecHigh := int32 (accelBatchesPerSecHigh p);
  gyroSamplesPerBatchHigh := int32 (gyroSamplesPerBatchHigh p);
  gyroBatchesPerSecHigh := int32 (gyroBatchesPerSecHigh p);
  algorithmConfig := int32 (algorithmConfig p) |}.
Definition loc_eng_msg_sensor_properties (p : sensor_properties) :=
  Msg OEngine LOC_ENG_MSG_SET_SENSOR_PROPERTIES (PSensorProperties (to_floats p)).
Definition loc_eng_msg_sensor_perf_control_config (p : sensor_perf) :=
  Msg OEngine LOC_ENG_MSG_SET_SENSOR_PERF_CONTROL_CONFIG (PSensorPerf (to_ints p)).
Definition loc_eng_msg_position_mode (mode : LocPosMode) := Msg OEngine LOC_ENG_MSG_SET_POSITION_MODE (PPositionMode mode).
Definition loc_eng_msg_set_time (t tf unc : Z) := Msg OEngine LOC_ENG_MSG_SET_TIME (PSetTime t tf unc).
Definition loc_eng_msg_inject_location (lat longi accur : real) :=
  Msg OEngine LOC_ENG_MSG_INJECT_LOCATION (PInjectLocation lat longi accur).
Definition loc_eng_msg_delete_aiding_data (data : Z) := Msg OEngine LOC_ENG_MSG_DELETE_AIDING_DATA (PDeleteAiding data).
Definition loc_eng_msg_report_position (r : position_report) := Msg OEngine LOC_ENG_MSG_REPORT_POSITION (PReportPosition r).
Definition loc_eng_msg_report_sv (r : sv_report) := Msg OEngine LOC_ENG_MSG_REPORT_SV (PReportSv r).
Definition loc_eng_msg_report_status (engineStatus : Z) := Msg OEngine LOC_ENG_MSG_REPORT_STATUS (PReportStatus engineStatus).
Definition loc_eng_msg_report_nmea (data : chars) (len : Z) : option loc_eng_msg :=
  if (len <? 0) || (Z.of_nat (length data) <? len) then None
  else Some (Msg OEngine LOC_ENG_MSG_REPORT_NMEA (PReportNmea (take (Z.to_nat len) data) len)).
Definition loc_eng_msg_request_bit (type ipv4 : Z) (ipv6 : option (list Z)) :=
  Msg OEngine LOC_ENG_MSG_REQUEST_BIT (PBit type ipv4 (take 16 <$> ipv6)).
Definition loc_eng_msg_release_bit (type ipv4 : Z) (ipv6 : option (list Z)) :=
  Msg OEngine LOC_ENG_MSG_RELEASE_BIT (PBit type ipv4 (take 16 <$> ipv6)).
Definition loc_eng_msg_request_wifi (type sender_id : Z) (s p : option (list Z)) :=
  Msg OEngine LOC_ENG_MSG_REQUEST_WIFI (PWifi type sender_id (strlcpy SSID_BUF_SIZE <$> s) (strlcpy SSID_BUF_SIZE <$> p)).
Definition loc_eng_msg_release_wifi (type sender_id : Z) (s p : option (list Z)) :=
  Msg OEngine LOC_ENG_MSG_RELEASE_WIFI (PWifi type sender_id (strlcpy SSID_BUF_SIZE <$> s) (strlcpy SSID_BUF_SIZE <$> p)).
Definition loc_eng_msg_request_atl (hndl agps_type : Z) := Msg OEngine LOC_ENG_MSG_REQUEST_ATL (PRequestAtl hndl agps_type).
Definition loc_eng_msg_release_atl (hndl : Z) := Msg OEngine LOC_ENG_MSG_RELEASE_ATL (PReleaseAtl hndl).
Definition loc_eng_msg_request_ni (notif : GpsNiNotification) (data : option positive) :=
  Msg OEngine LOC_ENG_MSG_REQUEST_NI (PRequestNi notif data).
Definition loc_eng_msg_inform_ni_response (resp : Z) (data : option positive) :=
  Msg OEngine LOC_ENG_MSG_INFORM_NI_RESPONSE (PNiResponse resp data).
Definition loc_eng_msg_set_apn (name : list Z) (len : Z) : option loc_eng_msg :=
  apn ← copy_len name len; Some (Msg OEngine LOC_ENG_MSG_SET_APN (PApn apn)).
Definition loc_eng_msg_set_server_ipv4 (ip p type : Z) := Msg OEngine LOC_ENG_MSG_SET_SERVER_IPV4 (PServerIpv4 ip p type).
Definition loc_eng_msg_set_server_url (urlString : chars) (url_len : Z) : option loc_eng_msg :=
  if (url_len <? 0) || (Z.of_nat (length urlString) <? url_len) then None
  else Some (Msg OEngine LOC_ENG_MSG_SET_SERVER_URL (PServerUrl (take (Z.to_nat url_len) urlString) url_len)).
Definition loc_eng_msg_inject_xtra_data (d : list Z) (l : Z) : option loc_eng_msg :=
  if (l <? 0) || (Z.of_nat (length d) <? l) then None
  else Some (Msg OEngine LOC_ENG_MSG_INJECT_XTRA_DATA (PXtra (take (Z.to_nat l) d) l)).
Definition loc_eng_msg_atl_open_success (atype : Z) (name : list Z) (len btype : Z) : option loc_eng_msg :=
  apn ← copy_len name len; Some (Msg OEngine LOC_ENG_MSG_ATL_OPEN_SUCCESS (PAtlOpen (uint16 atype) apn len btype)).
Definition loc_eng_msg_atl_open_failed (atype : Z) := Msg OEngine LOC_ENG_MSG_ATL_OPEN_FAILED (PAtl (uint16 atype)).
Definition loc_eng_msg_atl_closed (atype : Z) := Msg OEngine LOC_ENG_MSG_ATL_CLOSED (PAtl (uint16 atype)).
Definition loc_eng_msg_set_data_enable (name : list Z) (len yes : Z) : option loc_eng_msg :=
  apn ← copy_len name len; Some (Msg OEngine LOC_ENG_MSG_ENABLE_DATA (PDataEnable yes apn len)).
Definition loc_eng_msg_request_network_position (r : UlpNetworkRequestPos) :=
  Msg OEngine LOC_ENG_MSG_REQUEST_NETWORK_POSIITON (PNetworkRequest r).
Definition loc_eng_msg_request_phone_context (r : UlpPhoneContextRequest) :=
  Msg OEngine LOC_ENG_MSG_REQUEST_PHONE_CONTEXT (PContextRequest r).
Definition ulp_msg_update_criteria (c : UlpLocationCriteria) := Msg OEngine ULP_MSG_UPDATE_CRITERIA (PCriteria c).
Definition ulp_msg_inject_raw_command (command : list Z) (len : Z) : option loc_eng_msg :=
  if (len <? 0) || (Z.of_nat (length command) <? len) then None
  else Some (Msg OEngine ULP_MSG_INJECT_RAW_COMMAND (PRawCommand (take (Z.to_nat len) command) len)).
Definition ulp_msg_inject_phone_context_settings (s : UlpPhoneContextSettings) :=
  Msg OEngine ULP_MSG_INJECT_PHONE_CONTEXT_SETTINGS (PContextSettings s).
Definition ulp_msg_inject_network_position (r : UlpNetworkPositionReport) :=
  Msg OEngine ULP_MSG_INJECT_NETWORK_POSITION (PNetworkReport r).
Definition ulp_msg_report_quipc_position (loc : GpsLocation) (quipc_err : Z) :=
  Msg OEngine ULP_MSG_REPORT_QUIPC_POSITION (PQuipc loc quipc_err).

(** ** Destructors *)

(** What [delete msg] gives back: the copies the constructors made, and the
    data that came with a request, which the message does not own. *)
Inductive given_back := Bytes (copy : list Z) | Text (copy : chars) | PassThrough (data : positive).

Definition opt_bytes (p : option (list Z)) : list given_back :=
  match p with Some a => [Bytes a] | None => [] end.
Definition destructor (msg : loc_eng_msg) : list given_back :=
  match body msg with
  | PReportNmea nmea _ => [Text nmea]
  | PBit _ _ ipv6Addr => opt_bytes ipv6Addr
  | PWifi _ _ ssid password => opt_bytes ssid ++ opt_bytes password
  | PNiResponse _ (Some d) => [PassThrough d]
  | PApn apn => [Bytes apn]
  | PServerUrl url _ => [Text url]
  | PXtra data _ => [Bytes data]
  | PAtlOpen _ apn _ _ => [Bytes apn]
  | PDataEnable _ apn _ => [Bytes apn]
  | PRawCommand rawCommand _ => [Bytes rawCommand]
  | _ => []
  end.

End messages.
