(* ===== verification/EngCtx.v ===== *)
(** * The context of the engine: LocEngContext in loc_eng.cpp

    The queues and the thread the clients of the engine share, how the first
    client creates them and the last one gives them back, as a step relation
    on the clients and the threads.  A critical section is one step; [drop] is
    two, since [pthread_cond_wait] releases the lock.  What a message makes the
    thread do is in LocEng.v; here the messages the thread hands to its switch
    and those it frees are recorded.

    The thread looks for the member [context] of a [loc_eng_data_s_type] in the
    owner of every message, also of the one that tells it to end, whose owner
    is the [LocEngContext]: what lies behind that object is a parameter, memory
    that cannot be read (a fault), a null word or another one.

    [pthread_cond_wait] may return without a signal ([EWake]); [drop] does not
    look again.  That it has happened is kept in [spurious], and what is proved
    supposes it has not.  [msg_q_snd] may be refused the memory for the node;
    the message then is lost, which is kept in [refused]. *)

From S2P Require Import Prelude Nmea EngMsg.
Local Open Scope Z_scope.

(** ** State *)

Inductive thread_state := Running | Returned.
(** A client: its [loc_eng_data.context] is the number of the context, if any. *)
Inductive client := In (c : nat) | Dropping (c : nat).

Section context.
Context `{NmeaEnv} (past_context : nat → option bool).

(** A message with the client or the context that owns it. *)
Record entry := Entry { e_of : nat; e_msg : loc_eng_msg }.

(** The members; a queue that could not be created is a null pointer. *)
Record LocEngContext := Ctx { c_deferred_q : option (list entry); c_ulp_q : option (list entry); counter : Z }.

Record world := World {
  me : option nat;
  ctxs : gmap nat LocEngContext;          (* the objects that live *)
  threads : gmap nat thread_state;        (* the action thread each one started *)
  clients : gmap nat client;
  cond_waits : list nat;                  (* clients asleep on [cond] *)
  cond_woken : list nat;
  next : nat;
  sent : list entry;                      (* accepted by a deferred queue *)
  handled : list entry;                   (* given to the switch *)
  freed : list entry;
  refused : list entry;                   (* lost by [msg_q_snd] *)
  spurious : bool                         (* a wait has ended without a signal *)
}.
Definition nothing : world := World None ∅ ∅ ∅ [] [] 0 [] [] [] [] false.

Abbreviation WM := (ST world).

(** ** Accesses; those to an object that is gone fault *)

Definition set_me (v : option nat) (w : world) : world :=
  World v (ctxs w) (threads w) (clients w) (cond_waits w) (cond_woken w) (next w) (sent w) (handled w) (freed w) (refused w) (spurious w).
Definition set_ctxs (v : gmap nat LocEngContext) (w : world) : world :=
  World (me w) v (threads w) (clients w) (cond_waits w) (cond_woken w) (next w) (sent w) (handled w) (freed w) (refused w) (spurious w).
Definition set_threads (v : gmap nat thread_state) (w : world) : world :=
  World (me w) (ctxs w) v (clients w) (cond_waits w) (cond_woken w) (next w) (sent w) (handled w) (freed w) (refused w) (spurious w).
Definition set_clients (v : gmap nat client) (w : world) : world :=
  World (me w) (ctxs w) (threads w) v (cond_waits w) (cond_woken w) (next w) (sent w) (handled w) (freed w) (refused w) (spurious w).
Definition set_cond (waits woken : list nat) (w : world) : world :=
  World (me w) (ctxs w) (threads w) (clients w) waits woken (next w) (sent w) (handled w) (freed w) (refused w) (spurious w).
Definition set_log (s h f : list entry) (w : world) : world :=
  World (me w) (ctxs w) (threads w) (clients w) (cond_waits w) (cond_woken w) (next w) s h f (refused w) (spurious w).
Definition set_refused (v : list entry) (w : world) : world :=
  World (me w) (ctxs w) (threads w) (clients w) (cond_waits w) (cond_woken w) (next w) (sent w) (handled w) (freed w) v (spurious w).
Definition set_spurious (v : bool) (w : world) : world :=
  World (me w) (ctxs w) (threads w) (clients w) (cond_waits w) (cond_woken w) (next w) (sent w) (handled w) (freed w) (refused w) v.

Definition get_ctx (c : nat) : WM LocEngContext := st_read (λ w, ctxs w !! c).
Definition put_ctx (c : nat) (x : LocEngContext) : WM unit := st_modify (λ w, set_ctxs (<[c := x]> (ctxs w)) w).
Definition log_free (l : list entry) : WM unit := st_modify (λ w, set_log (sent w) (handled w) (freed w ++ l) w).

(** [msg_q_snd]: refused without a queue and without memory for the node ([ok]);
    nobody looks at what it returns, and the message is lost. *)
Definition snd_deferred (ok : bool) (c : nat) (m : entry) : WM unit :=
  x ← get_ctx c;
  match c_deferred_q x with
  | Some q =>
      if ok then
        _ ← put_ctx c (Ctx (Some (q ++ [m])) (c_ulp_q x) (counter x));
        st_modify (λ w, set_log (sent w ++ [m]) (handled w) (freed w) w)
      else st_modify (λ w, set_refused (refused w ++ [m]) w)
  | None => st_modify (λ w, set_refused (refused w ++ [m]) w)
  end.
Definition snd_ulp (ok : bool) (c : nat) (m : entry) : WM unit :=
  x ← get_ctx c;
  if ok then put_ctx c (Ctx (c_deferred_q x) ((λ q, q ++ [m]) <$> c_ulp_q x) (counter x)) else mret tt.

(** ** Functions of loc_eng.cpp *)

(** [ok]: whether [msg_q_init] succeeds. *)
Definition loc_eng_create_msg_q (ok : bool) : option (list entry) := if ok then Some [] else None.
Definition loc_eng_free_msg (m : entry) : WM unit := log_free [m].

(** The constructor: the object and its thread. *)
Definition new_LocEngContext (ok1 ok2 : bool) : WM nat :=
  c ← st_get next;
  _ ← st_modify (λ w, World (me w)
        (<[c := Ctx (loc_eng_create_msg_q ok1) (loc_eng_create_msg_q ok2) 0]> (ctxs w))
        (<[c := Running]> (threads w)) (clients w) (cond_waits w) (cond_woken w) (S c)
        (sent w) (handled w) (freed w) (refused w) (spurious w));
  mret c.

Definition LocEngContext_get (ok1 ok2 : bool) : WM nat :=
  m ← st_get me;
  c ← match m with
      | None => c ← new_LocEngContext ok1 ok2; _ ← st_modify (set_me (Some c)); mret c
      | Some c => mret c
      end;
  x ← get_ctx c;
  _ ← put_ctx c (Ctx (c_deferred_q x) (c_ulp_q x) (counter x + 1));
  mret c.

(** [drop] of the context [c] by client [t], up to [pthread_cond_wait]; the
    result is whether it waits.  [self]: the caller is the action thread; [ok]:
    there is memory for the message. *)
Definition drop_enter (self ok : bool) (t c : nat) : WM bool :=
  x ← get_ctx c;
  if negb self then
    _ ← put_ctx c (Ctx (c_deferred_q x) (c_ulp_q x) (counter x - 1));
    if counter x - 1 =? 0 then
      _ ← snd_deferred ok c (Entry c (Msg OContext LOC_ENG_MSG_QUIT PNone));
      _ ← st_modify (λ w, set_cond (cond_waits w ++ [t]) (cond_woken w) w);
      mret true
    else mret false
  else mret false.

(** After the wait: [msg_q_destroy] frees what is left in the queues. *)
Definition drop_leave (t c : nat) : WM unit :=
  x ← get_ctx c;
  _ ← log_free (default [] (c_deferred_q x) ++ default [] (c_ulp_q x));
  st_modify (λ w, set_me None (set_ctxs (delete c (ctxs w)) w)).

(** A message the engine of client [t] posts. *)
Definition engine_context (t : nat) (w : world) : option nat :=
  match clients w !! t with Some (In c | Dropping c) => Some c | None => None end.
Definition loc_eng_msg_sender (t : nat) (ok : bool) (m : loc_eng_msg) : WM unit :=
  c ← st_read (engine_context t); snd_deferred ok c (Entry t m).
Definition loc_ulp_msg_sender (t : nat) (ok : bool) (m : loc_eng_msg) : WM unit :=
  c ← st_read (engine_context t); snd_ulp ok c (Entry t m).

(** ** Threads *)

Definition end_thread (c : nat) : WM unit := st_modify (λ w, set_threads (<[c := Returned]> (threads w)) w).
(** [pthread_cond_signal] wakes one of the sleeping clients, the [pick]-th. *)
Definition signal (pick : nat) : WM unit := st_modify (λ w,
  match cond_waits w !! (pick mod length (cond_waits w))%nat with
  | Some t => set_cond (delete (pick mod length (cond_waits w))%nat (cond_waits w)) (cond_woken w ++ [t]) w
  | None => w
  end).

(** The member [context] found in the owner of a message, [None] where there is
    nothing to read. *)
Definition owner_context (m : entry) (w : world) : option bool :=
  match owner (e_msg m) with
  | OEngine => Some $ bool_decide (is_Some (engine_context (e_of m) w))
  | OContext => past_context (e_of m)
  end.

(** One round of [loc_eng_deferred_action_thread]. *)
Definition thread_round (pick c : nat) : WM unit :=
  x ← get_ctx c;
  match c_deferred_q x with
  | None => end_thread c                                   (* the receive fails *)
  | Some [] => mret tt                                     (* it sleeps *)
  | Some (m :: q) =>
      _ ← put_ctx c (Ctx (Some q) (c_ulp_q x) (counter x));
      valid ← st_read (owner_context m);
      if negb valid then _ ← loc_eng_free_msg m; end_thread c
      else if msgid (e_msg m) =? LOC_ENG_MSG_QUIT then _ ← signal pick; end_thread c
      else
        _ ← st_modify (λ w, set_log (sent w) (handled w ++ [m]) (freed w) w);
        loc_eng_free_msg m
  end.

(** A client: [loc_eng_data.context] is set when [get] returns and cleared when
    [drop] does. *)
Definition client_get (t : nat) (ok1 ok2 : bool) : WM unit :=
  c ← LocEngContext_get ok1 ok2; st_modify (λ w, set_clients (<[t := In c]> (clients w)) w).
Definition client_drop (t c : nat) (ok : bool) : WM unit :=
  waits ← drop_enter false ok t c;
  st_modify (λ w, set_clients (if waits : bool then <[t := Dropping c]> (clients w) else delete t (clients w)) w).
Definition client_wake (t c : nat) : WM unit :=
  _ ← st_modify (λ w, if bool_decide (t ∈ cond_woken w) then w else set_spurious true w);
  _ ← st_modify (λ w, set_cond (filter (λ u, u ≠ t) (cond_waits w)) (filter (λ u, u ≠ t) (cond_woken w)) w);
  _ ← drop_leave t c;
  st_modify (λ w, set_clients (delete t (clients w)) w).

(** What may happen, and whether it can. *)
Inductive event :=
| EGet (t : nat) (ok1 ok2 : bool)
| ESend (t : nat) (ok : bool) (m : loc_eng_msg)
| ESendUlp (t : nat) (ok : bool) (m : loc_eng_msg)
| EDrop (t c : nat) (ok : bool)
| EWake (t c : nat)                       (* signalled or not *)
| EThread (pick c : nat).

Definition exec (e : event) : WM unit :=
  match e with
  | EGet t ok1 ok2 => client_get t ok1 ok2
  | ESend t ok m => loc_eng_msg_sender t ok m
  | ESendUlp t ok m => loc_ulp_msg_sender t ok m
  | EDrop t c ok => client_drop t c ok
  | EWake t c => client_wake t c
  | EThread pick c => thread_round pick c
  end.

Definition ready (c : nat) (w : world) : Prop :=
  match ctxs w !! c with Some x => c_deferred_q x ≠ Some [] | None => True end.
Definition enabled (e : event) (w : world) : Prop :=
  match e with
  | EGet t _ _ => clients w !! t = None
  | ESend t _ m | ESendUlp t _ m =>
      is_Some (clients w !! t) ∧ owner m = OEngine ∧ msgid m ≠ LOC_ENG_MSG_QUIT
  | EDrop t c _ => clients w !! t = Some (In c)
  | EWake t c => clients w !! t = Some (Dropping c)
  | EThread _ c => threads w !! c = Some Running ∧ ready c w
  end.
Definition signalled (t : nat) (w : world) : Prop := t ∈ cond_woken w.

(** The program has one [loc_eng_data]: its engine is initialised when no
    context is left, and does not post while it drops; the queues exist. *)
Definition one_engine (e : event) (w : world) : Prop :=
  match e with
  | EGet _ ok1 _ => me w = None ∧ ok1 = true
  | ESend t _ _ | ESendUlp t _ _ => ∃ c, clients w !! t = Some (In c)
  | _ => True
  end.

Definition any_step (w w' : world) : Prop := ∃ e, enabled e w ∧ exec e w = Some (tt, w').
Definition step (w w' : world) : Prop := ∃ e, enabled e w ∧ one_engine e w ∧ exec e w = Some (tt, w').
Definition thread_step (w w' : world) : Prop := ∃ pick c, enabled (EThread pick c) w ∧ exec (EThread pick c) w = Some (tt, w').
Definition starts (w : world) : Prop := w = nothing.

(** ** The invariant *)

(** The deferred queue of a context. *)
Definition queue (c : nat) (w : world) : list entry :=
  match ctxs w !! c with Some x => default [] (c_deferred_q x) | None => [] end.

#[local] Instance owner_eq_dec : EqDecision owner_t.
Proof. solve_decision. Defined.

Definition from_engine (m : entry) : Prop := owner (e_msg m) = OEngine.
(** What the engines posted, in order. *)
Definition posted (w : world) : list entry := filter from_engine (sent w).
Definition quit (c : nat) : entry := Entry c (Msg OContext LOC_ENG_MSG_QUIT PNone).
Definition posts (t : nat) (q : list entry) : Prop :=
  Forall (λ m, e_of m = t ∧ owner (e_msg m) = OEngine ∧ msgid (e_msg m) ≠ LOC_ENG_MSG_QUIT) q.
(** The threads that run are among those of [cs]. *)
Definition only_runs (cs : list nat) (w : world) : Prop := ∀ c, threads w !! c = Some Running → c ∈ cs.
Definition fresh (w : world) : Prop := ∀ c, is_Some (threads w !! c) → (c < next w)%nat.

Inductive phase (w : world) : Prop :=
| Absent :
    me w = None → ctxs w = ∅ → clients w = ∅ → cond_waits w = [] → cond_woken w = [] →
    only_runs [] w → posted w = handled w → phase w
| Used t c q u :
    me w = Some c → ctxs w = {[c := Ctx (Some q) u 1]} → clients w = {[t := In c]} →
    cond_waits w = [] → cond_woken w = [] → threads w !! c = Some Running → only_runs [c] w →
    posts t q → posted w = handled w ++ q → phase w
| Quitting t c q u :
    me w = Some c → ctxs w = {[c := Ctx (Some (q ++ [quit c])) u 0]} → clients w = {[t := Dropping c]} →
    cond_waits w = [t] → cond_woken w = [] → threads w !! c = Some Running → only_runs [c] w →
    posts t q → posted w = handled w ++ q → phase w
| Orphaned t c q u :                      (* the message that ends the thread was refused *)
    me w = Some c → ctxs w = {[c := Ctx (Some q) u 0]} → clients w = {[t := Dropping c]} →
    cond_waits w = [t] → cond_woken w = [] → threads w !! c = Some Running → only_runs [c] w →
    posts t q → posted w = handled w ++ q → phase w
| Ended t c u :
    me w = Some c → ctxs w = {[c := Ctx (Some []) u 0]} → clients w = {[t := Dropping c]} →
    only_runs [] w → posted w = handled w →
    (past_context c = Some true ∧ cond_waits w = [] ∧ cond_woken w = [t] ∨
     past_context c = Some false ∧ cond_waits w = [t] ∧ cond_woken w = []) → phase w.

(** Nothing is known once a wait has ended without a signal. *)
Definition inv (w : world) : Prop := phase w ∧ fresh w ∧ spurious w = false.

(** The message that ends the thread of [c] waits or was taken: it was not refused. *)
Definition quit_posted (c : nat) (w : world) : Prop := quit c ∈ queue c w ∨ threads w !! c ≠ Some Running.
(** The thread can read behind the context when it takes that message. *)
Definition can_read (e : event) (w : world) : Prop :=
  match e with
  | EThread _ c => head (queue c w) = Some (quit c) → is_Some (past_context c)
  | _ => True
  end.

(** ** Lemmas *)

#[local] Arguments Nat.modulo : simpl never.

Lemma singleton_lookup {A} (k k' : nat) (a a' : A) :
  ({[k := a]} : gmap nat A) !! k' = Some a' → k' = k ∧ a' = a.
Proof. intros [-> ->]%lookup_singleton_Some. done. Qed.

Lemma only_runs_insert c cs w : only_runs (c :: cs) w → only_runs cs (set_threads (<[c := Returned]> (threads w)) w).
Proof.
  intros Hr c' Hc'. cbn in Hc'. apply lookup_insert_Some in Hc' as [[_ ?]|[Hn Hc']]; [done|].
  by apply Hr, elem_of_cons in Hc' as [->|].
Qed.
Lemma fresh_insert c s w : fresh w → is_Some (threads w !! c) → fresh (set_threads (<[c := s]> (threads w)) w).
Proof.
  intros Hf Hc c' Hc'. cbn in *. apply Hf. destruct (decide (c = c')) as [->|]; [done|].
  by rewrite lookup_insert_ne in Hc'.
Qed.

(** Run a function on the known objects. *)
Ltac run_ctx :=
  unfold exec, client_get, client_drop, client_wake, drop_enter, drop_leave, thread_round, LocEngContext_get,
    new_LocEngContext, loc_eng_msg_sender, loc_ulp_msg_sender, engine_context, snd_deferred, snd_ulp,
    loc_eng_free_msg, log_free, end_thread, signal, put_ctx, get_ctx, st_read;
  repeat first [progress st_run | progress (cbn) | rewrite lookup_insert_eq | rewrite lookup_singleton_eq
    | rewrite Nat.mod_1_r].

Lemma get_ok w t ok2 : inv w → me w = None → ∃ c w', exec (EGet t true ok2) w = Some (tt, w') ∧ inv w' ∧
  clients w' !! t = Some (In c) ∧ queue c w' = [] ∧ handled w' = handled w ∧ refused w' = refused w.
Proof.
  intros (Hp & Hf & Hsp) Hme. destruct Hp as [_ Hc Hcl Hw Hk Hr Hlog|? ? ? ? Hme'|? ? ? ? Hme'|? ? ? ? Hme'|? ? ? Hme']; try congruence.
  destruct w as [m cs th cl wa wo n se ha fr rf sp]. cbn in *. subst.
  run_ctx. exists n. eexists. split; [done|]. split;
    [split|unfold queue; cbn; by rewrite !lookup_insert_eq].
  - apply (Used _ t n [] (loc_eng_create_msg_q ok2)); cbn; try done.
    + by rewrite insert_insert_eq.
    + by rewrite lookup_insert_eq.
    + intros c'. cbn. intros Hc'. apply list_elem_of_singleton.
      destruct (decide (n = c')) as [|Hn]; [done|]. rewrite lookup_insert_ne in Hc' by done.
      apply Hr in Hc'. by apply not_elem_of_nil in Hc'.
    + constructor.
    + by rewrite app_nil_r.
  - split; [|done]. intros c'. cbn. destruct (decide (n = c')) as [<-|Hn]; [lia|]. rewrite lookup_insert_ne by done.
    intros Hc'. apply Hf in Hc'. cbn in Hc'. lia.
Qed.

Lemma send_ok w t c ok m : inv w → clients w !! t = Some (In c) → owner m = OEngine → msgid m ≠ LOC_ENG_MSG_QUIT →
  ∃ w', exec (ESend t ok m) w = Some (tt, w') ∧ inv w' ∧
    clients w' = clients w ∧ queue c w' = queue c w ++ (if ok then [Entry t m] else []) ∧ handled w' = handled w ∧
    refused w' = refused w ++ (if ok then [] else [Entry t m]).
Proof.
  intros (Hp & Hf & Hsp) Hcl Ho Hid.
  destruct Hp as [_ _ Hcl'|t' c' q u Hme Hc Hcl' Hw Hk Ht Hr Hq Hlog|? ? ? ? _ _ Hcl'|? ? ? ? _ _ Hcl'|? ? ? _ _ Hcl'];
    rewrite Hcl' in Hcl; [done| |by apply singleton_lookup in Hcl as [_ [=]]..].
  apply singleton_lookup in Hcl as [-> [= ->]].
  destruct w as [me0 cs th cl wa wo n se ha fr rf sp]. cbn in *. subst. destruct ok.
  2: { run_ctx. eexists. split; [done|]. unfold queue. cbn. rewrite !lookup_singleton_eq, app_nil_r.
    split; [|done]. split; [|done]. by apply (Used _ t' c' q u). }
  run_ctx.
  eexists. split; [done|]. unfold queue. cbn. rewrite insert_singleton_eq, !lookup_singleton_eq, app_nil_r.
  split; [|done]. split; [|done].
  apply (Used _ t' c' (q ++ [Entry t' m]) u); cbn; try done.
  - apply Forall_app. split; [done|]. by repeat constructor.
  - unfold posted in *. cbn in *. rewrite filter_app, Hlog, <- (assoc_L (++)). do 2 f_equal.
    by apply list_filter_all; repeat constructor.
Qed.

Lemma send_ulp_ok w t c ok m : inv w → clients w !! t = Some (In c) →
  ∃ w', exec (ESendUlp t ok m) w = Some (tt, w') ∧ inv w' ∧
    clients w' = clients w ∧ queue c w' = queue c w ∧ handled w' = handled w ∧ refused w' = refused w.
Proof.
  intros (Hp & Hf & Hsp) Hcl.
  destruct Hp as [_ _ Hcl'|t' c' q u Hme Hc Hcl' Hw Hk Ht Hr Hq Hlog|? ? ? ? _ _ Hcl'|? ? ? ? _ _ Hcl'|? ? ? _ _ Hcl'];
    rewrite Hcl' in Hcl; [done| |by apply singleton_lookup in Hcl as [_ [=]]..].
  apply singleton_lookup in Hcl as [-> [= ->]].
  destruct w as [me0 cs th cl wa wo n se ha fr rf sp]. cbn in *. subst.
  destruct ok.
  2: { run_ctx. eexists. split; [done|]. split; [|done]. split; [|done]. by apply (Used _ t' c' q u). }
  run_ctx.
  eexists. split; [done|]. unfold queue. cbn. rewrite insert_singleton_eq, !lookup_singleton_eq.
  split; [|done]. split; [|done].
  by apply (Used _ t' c' q ((λ q, q ++ [Entry t' m]) <$> u)).
Qed.

Lemma drop_ok w t c ok : inv w → clients w !! t = Some (In c) → ∃ w', exec (EDrop t c ok) w = Some (tt, w') ∧ inv w' ∧
  clients w' !! t = Some (Dropping c) ∧ queue c w' = queue c w ++ (if ok then [quit c] else []) ∧ handled w' = handled w ∧
  refused w' = refused w ++ (if ok then [] else [quit c]).
Proof.
  intros (Hp & Hf & Hsp) Hcl.
  destruct Hp as [_ _ Hcl'|t' c' q u Hme Hc Hcl' Hw Hk Ht Hr Hq Hlog|? ? ? ? _ _ Hcl'|? ? ? ? _ _ Hcl'|? ? ? _ _ Hcl'];
    rewrite Hcl' in Hcl; [done| |by apply singleton_lookup in Hcl as [_ [=]]..].
  apply singleton_lookup in Hcl as [-> [= ->]].
  destruct w as [me0 cs th cl wa wo n se ha fr rf sp]. cbn in *. subst. destruct ok.
  2: { run_ctx. change (1 - 1) with 0. change (0 =? 0) with true. run_ctx.
    eexists. split; [done|]. unfold queue. cbn. rewrite !insert_singleton_eq, !lookup_singleton_eq, app_nil_r.
    split; [|done]. split; [|done]. by apply (Orphaned _ t' c' q u). }
  run_ctx. change (1 - 1) with 0. change (0 =? 0) with true. run_ctx.
  eexists. split; [done|]. unfold queue. cbn. rewrite !insert_singleton_eq, !lookup_singleton_eq, app_nil_r.
  split; [|done]. split; [|done].
  apply (Quitting _ t' c' q u); cbn; try done.
  - unfold posted in *. cbn in *. rewrite filter_app, Hlog. cbn. by rewrite app_nil_r.
Qed.

Lemma wake_ok w t c : inv w → clients w !! t = Some (Dropping c) → t ∈ cond_woken w →
  ∃ w', exec (EWake t c) w = Some (tt, w') ∧ inv w' ∧
    me w' = None ∧ ctxs w' = ∅ ∧ clients w' = ∅ ∧ handled w' = handled w ∧ refused w' = refused w ∧
    handled w' = posted w'.
Proof.
  intros (Hp & Hf & Hsp) Hcl Hin.
  destruct Hp as [_ _ _ _ Hk|? ? ? ? _ _ _ _ Hk|? ? ? ? _ _ _ _ Hk|? ? ? ? _ _ _ _ Hk|t' c' u Hme Hc Hcl' Hr Hlog Hend];
    [rewrite Hk in Hin; by apply not_elem_of_nil in Hin..|].
  rewrite Hcl' in Hcl. apply singleton_lookup in Hcl as [-> [= ->]].
  destruct Hend as [(_ & Hw & Hk)|(_ & _ & Hk)]; [|rewrite Hk in Hin; by apply not_elem_of_nil in Hin].
  destruct w as [me0 cs th cl wa wo n se ha fr rf sp]. cbn in *. subst.
  unfold exec, client_wake. st_run. cbn [cond_woken]. rewrite bool_decide_eq_true_2 by by apply list_elem_of_singleton.
  run_ctx.
  eexists. split; [done|]. cbn. rewrite !delete_singleton_eq. split; [|done]. split; [|done].
  apply Absent; cbn; try done. by rewrite decide_False by auto.
Qed.

(** A wait that ends without a signal goes through all the same. *)
Lemma wake_runs w t c : inv w → clients w !! t = Some (Dropping c) → ∃ w', exec (EWake t c) w = Some (tt, w').
Proof.
  intros (Hp & _ & _) Hcl.
  assert (∃ x, ctxs w !! c = Some x) as [x Hx].
  { destruct Hp as [_ _ Hcl'|? ? ? ? _ _ Hcl'|t' c' q u _ Hc Hcl'|t' c' q u _ Hc Hcl'|t' c' u _ Hc Hcl'];
      rewrite Hcl' in Hcl; [done|by apply singleton_lookup in Hcl as [_ [=]]|..];
      apply singleton_lookup in Hcl as [-> [= ->]]; rewrite Hc, lookup_singleton_eq; by eexists. }
  unfold exec, client_wake, drop_leave, get_ctx, st_read, log_free. st_run.
  destruct (bool_decide _); cbn; rewrite Hx; st_run; by eexists.
Qed.

Lemma wake_spurious t c w w' : ¬ signalled t w → exec (EWake t c) w = Some (tt, w') → spurious w' = true.
Proof.
  intros Hs. unfold exec, client_wake. st_run. rewrite bool_decide_eq_false_2 by done.
  unfold drop_leave, get_ctx, st_read, log_free. st_run. cbn.
  destruct (ctxs w !! c); [|done]. st_run. cbn. by intros [= <-].
Qed.

(** A round on a message an engine posted. *)
Lemma round_posted pick t c m q u w k cl :
  ctxs w = {[c := Ctx (Some (m :: q)) u k]} → clients w = {[t := cl]} → is_Some (engine_context t w) →
  posts t (m :: q) ∨ (∃ q', posts t (m :: q') ∧ q = q' ++ [quit c]) →
  ∃ f, thread_round pick c w = Some (tt, set_log (sent w) (handled w ++ [m]) f
    (set_ctxs {[c := Ctx (Some q) u k]} w)).
Proof.
  intros Hc Hcl Hv Hq.
  assert (e_of m = t ∧ owner (e_msg m) = OEngine ∧ msgid (e_msg m) ≠ LOC_ENG_MSG_QUIT) as (Hof & Ho & Hid).
  { destruct Hq as [Hq|(? & Hq & _)]; by inversion Hq. }
  apply Z.eqb_neq in Hid. destruct w as [me0 cs th cls wa wo n se ha fr rf sp]. cbn in *. subst.
  eexists. unfold thread_round, loc_eng_free_msg, log_free, put_ctx, get_ctx, st_read. st_run. cbn.
  rewrite lookup_singleton_eq. st_run. cbn [c_deferred_q c_ulp_q counter set_ctxs me ctxs threads clients
    cond_waits cond_woken next sent handled freed]. st_run.
  unfold owner_context. rewrite Ho, bool_decide_eq_true_2 by done. cbn. rewrite Hid. st_run.
  rewrite insert_singleton_eq. reflexivity.
Qed.

(** What the thread finds: a message of an engine, or the one that ends it. *)
Lemma thread_ok w pick c : inv w → threads w !! c = Some Running → ready c w → can_read (EThread pick c) w →
  ∃ m w', exec (EThread pick c) w = Some (tt, w') ∧ inv w' ∧ clients w' = clients w ∧
    queue c w = m :: queue c w' ∧ refused w' = refused w ∧
    (owner (e_msg m) = OEngine ∧ handled w' = handled w ++ [m] ∧ threads w' = threads w ∨
     m = quit c ∧ queue c w' = [] ∧ handled w' = handled w ∧ threads w' !! c = Some Returned).
Proof.
  intros (Hp & Hf & Hsp) Hth Hrd Hread.
  destruct Hp as [_ _ _ _ _ Hr|t c' q u Hme Hc Hcl Hw Hk Ht Hr Hq Hlog|t c' q u Hme Hc Hcl Hw Hk Ht Hr Hq Hlog
    |t c' q u Hme Hc Hcl Hw Hk Ht Hr Hq Hlog|? ? ? _ _ _ Hr];
    [by apply Hr, not_elem_of_nil in Hth| | | |by apply Hr, not_elem_of_nil in Hth];
    apply Hr, list_elem_of_singleton in Hth as ->; unfold ready in Hrd; rewrite Hc, lookup_singleton_eq in Hrd.
  - destruct q as [|m q]; [done|].
    destruct (round_posted pick t c' m q u w _ _ Hc Hcl) as (f & E); [|by left|].
    { unfold engine_context. rewrite Hcl, lookup_singleton_eq. by eexists. }
    exists m. eexists. split; [exact E|]. unfold queue. cbn. rewrite Hc, !lookup_singleton_eq. cbn.
    apply Forall_cons in Hq as [(? & ? & ?) Hq].
    split; [|by split_and!; [..|left]]. split; [|done].
    apply (Used _ t c' q u); cbn; try done. unfold posted in *. cbn. by rewrite <- (assoc_L (++)).
  - destruct q as [|m q].
    + cbn [can_read] in Hread. unfold queue in Hread. rewrite Hc, lookup_singleton_eq in Hread.
      destruct (Hread eq_refl) as [b Hpast]. clear Hread Hrd. destruct w as [me0 cs th cl wa wo n se ha fr rf sp]. cbn in *. subst.
      unfold exec, thread_round, get_ctx, st_read. st_run. cbn. rewrite lookup_singleton_eq. st_run. cbn.
      unfold owner_context. cbn. rewrite Hpast. destruct b; cbn; exists (quit c'); eexists.
      all: split; [run_ctx; reflexivity|]; rewrite ?Nat.mod_1_r; split;
        [|unfold queue; cbn; rewrite ?lookup_insert_eq, ?lookup_singleton_eq, ?lookup_insert_eq; by split_and!; [..|right]].
      all: split; [|split; [by apply (fresh_insert c' Returned) in Hf|done]].
      all: apply (Ended _ t c' u); cbn; rewrite ?insert_singleton_eq; try done;
        [by apply (only_runs_insert c' []) in Hr
        |by unfold posted in *; cbn in *; rewrite app_nil_r in Hlog
        |tauto].
    + destruct (round_posted pick t c' m (q ++ [quit c']) u w _ _ Hc Hcl) as (f & E); [|right; eauto|].
      { unfold engine_context. rewrite Hcl, lookup_singleton_eq. by eexists. }
      exists m. eexists. split; [exact E|]. unfold queue. cbn. rewrite Hc, !lookup_singleton_eq. cbn.
      apply Forall_cons in Hq as [(? & ? & ?) Hq].
      split; [|by split_and!; [..|left]]. split; [|done].
      apply (Quitting _ t c' q u); cbn; try done. unfold posted in *. cbn. by rewrite <- (assoc_L (++)).
  - destruct q as [|m q]; [done|].
    destruct (round_posted pick t c' m q u w _ _ Hc Hcl) as (f & E); [|by left|].
    { unfold engine_context. rewrite Hcl, lookup_singleton_eq. by eexists. }
    exists m. eexists. split; [exact E|]. unfold queue. cbn. rewrite Hc, !lookup_singleton_eq. cbn.
    apply Forall_cons in Hq as [(? & ? & ?) Hq].
    split; [|by split_and!; [..|left]]. split; [|done].
    apply (Orphaned _ t c' q u); cbn; try done. unfold posted in *. cbn. by rewrite <- (assoc_L (++)).
Qed.

(** Every step runs, and keeps the invariant unless a wait ends without a signal. *)
Lemma exec_ok e w : inv w → enabled e w → one_engine e w → can_read e w →
  ∃ w', exec e w = Some (tt, w') ∧ (spurious w' = false → inv w').
Proof.
  intros Hi He Ho Hrd. destruct e as [t ok1 ok2|t ok m|t ok m|t c ok|t c|pick c]; cbn in He, Ho.
  - destruct Ho as [Hme ->]. destruct (get_ok w t ok2 Hi Hme) as (c & w' & E & Hi' & _). by exists w'.
  - destruct He as (_ & Hm & Hid), Ho as [c Hc]. destruct (send_ok w t c ok m) as (w' & ? & ? & _); eauto.
  - destruct Ho as [c Hc]. destruct (send_ulp_ok w t c ok m) as (w' & ? & ? & _); eauto.
  - destruct (drop_ok w t c ok) as (w' & ? & ? & _); eauto.
  - destruct (decide (t ∈ cond_woken w)) as [Hs|Hs].
    + destruct (wake_ok w t c) as (w' & ? & ? & _); eauto.
    + destruct (wake_runs w t c Hi He) as [w' E]. exists w'. split; [done|]. intros Hsp.
      by rewrite (wake_spurious t c w w' Hs E) in Hsp.
  - destruct He as [Hth Hrd']. destruct (thread_ok w pick c Hi Hth Hrd' Hrd) as (m & w' & E & Hi' & _). by exists w'.
Qed.

(** *** What no step undoes *)

(** A wait that has ended without a signal; a message that was lost. *)
Definition remembers (w w' : world) : Prop :=
  (spurious w = true → spurious w' = true) ∧ ∃ l, refused w' = refused w ++ l.
#[global] Instance remembers_preorder : PreOrder remembers.
Proof.
  split.
  - intros w. split; [done|]. exists []. by rewrite app_nil_r.
  - intros w1 w2 w3 [H1 [l1 E1]] [H2 [l2 E2]]. split; [auto|]. exists (l1 ++ l2). by rewrite E2, E1, (assoc_L (++)).
Qed.
Lemma remembers_same w w' : spurious w' = spurious w → refused w' = refused w → remembers w w'.
Proof. intros Hs Hr. split; [by rewrite Hs|]. exists []. by rewrite Hr, app_nil_r. Qed.

Ltac remembers :=
  repeat first
  [ apply moves_bind; [apply _| |intros ?]
  | apply moves_read, _
  | apply moves_get, _
  | apply moves_ret, _
  | apply moves_modify; intros w; first [by apply remembers_same|split; [done|by eexists]]
  | match goal with
    | |- moves _ (match ?x with _ => _ end) => destruct x
    end
  | progress unfold get_ctx, put_ctx, loc_eng_free_msg, log_free, end_thread, snd_deferred, snd_ulp, drop_leave ].

Lemma remembers_exec e : moves remembers (exec e).
Proof.
  destruct e as [t ok1 ok2|t ok m|t ok m|t c ok|t c|pick c]; cbn [exec].
  - unfold client_get, LocEngContext_get, new_LocEngContext. remembers.
  - unfold loc_eng_msg_sender. remembers.
  - unfold loc_ulp_msg_sender. remembers.
  - unfold client_drop, drop_enter. cbn [negb]. remembers.
  - unfold client_wake. remembers. apply moves_modify. intros w. destruct (bool_decide _); [by apply remembers_same|].
    split; [done|]. exists []. by rewrite app_nil_r.
  - unfold thread_round, signal. remembers. apply moves_modify. intros w. destruct (cond_waits w !! _); by apply remembers_same.
Qed.
Lemma step_calm e w w' : exec e w = Some (tt, w') → spurious w' = false → spurious w = false.
Proof. intros [Hs _]%remembers_exec Hw. destruct (spurious w); [by rewrite Hs in Hw|done]. Qed.
(** A round that succeeded could read what it had to. *)
Lemma exec_reads e w w' : exec e w = Some (tt, w') → can_read e w.
Proof.
  destruct e as [| | | | |pick c]; try done. unfold exec, thread_round, get_ctx, st_read, can_read, queue. rewrite st_bind_run.
  destruct (ctxs w !! c) as [[q u k]|]; [|done]. cbn. destruct q as [[|m q]|]; [done| |done]. cbn. intros E [= ->].
  revert E. unfold put_ctx. st_run. unfold owner_context. cbn [owner e_msg quit e_of]. by destruct (past_context c).
Qed.

Lemma inv_init w : starts w → inv w.
Proof.
  intros ->. split; [by apply Absent|]. split; [|done]. by intros c; cbn; intros [? ?].
Qed.
Lemma context_reachable_inv w : reachable step starts w → spurious w = false → inv w.
Proof.
  intros Hr. revert w Hr. apply (invariant_reachable step starts (λ w, spurious w = false → inv w)); [intros ? ? _; by apply inv_init|].
  intros w1 w2 Hi (e & He & Ho & E) Hs. specialize (Hi (step_calm _ _ _ E Hs)).
  destruct (exec_ok e w1 Hi He Ho (exec_reads _ _ _ E)) as (w' & E' & Hi'). assert (w' = w2) as -> by congruence. auto.
Qed.

(** While there is something for it the thread of a context runs; the thread of
    a context that is gone does not. *)
Lemma queued_runs w t c : inv w → clients w !! t = Some (In c) ∨ clients w !! t = Some (Dropping c) →
  queue c w ≠ [] → threads w !! c = Some Running ∧ ready c w.
Proof.
  intros (Hp & _) Hcl Hq. unfold queue, ready in *.
  destruct Hp as [_ _ Hcl'|t' c' q u _ Hc Hcl' _ _ Hth|t' c' q u _ Hc Hcl' _ _ Hth|t' c' q u _ Hc Hcl' _ _ Hth|t' c' u _ Hc Hcl'];
    rewrite Hcl' in Hcl; destruct Hcl as [Hcl|Hcl]; try done; apply singleton_lookup in Hcl as [-> [=]]; subst c;
    rewrite Hc, lookup_singleton_eq in *; try done; (split; [done|]); cbn in *; by intros [= ?].
Qed.
Lemma running_client w c : inv w → threads w !! c = Some Running →
  ∃ t, clients w = {[t := In c]} ∨ clients w = {[t := Dropping c]}.
Proof.
  intros (Hp & _) Hth.
  destruct Hp as [_ _ _ _ _ Hr|t ? ? ? _ _ Hcl _ _ _ Hr|t ? ? ? _ _ Hcl _ _ _ Hr|t ? ? ? _ _ Hcl _ _ _ Hr|? ? ? _ _ _ Hr];
    apply Hr in Hth; try (by apply not_elem_of_nil in Hth); apply list_elem_of_singleton in Hth as ->; eauto.
Qed.

(** The thread of a context that is used; what has been posted is in the queue
    or has been handled; the queue has nothing but messages of the engine. *)
Lemma used_context w t c : inv w → clients w !! t = Some (In c) →
  me w = Some c ∧ threads w !! c = Some Running ∧ posted w = handled w ++ queue c w ∧ posts t (queue c w).
Proof.
  intros (Hp & _) Hcl. unfold queue.
  destruct Hp as [_ _ Hcl'|t' c' q u Hme Hc Hcl' _ _ Hth _ Hq Hl|? ? ? ? _ _ Hcl'|? ? ? ? _ _ Hcl'|? ? ? _ _ Hcl'];
    rewrite Hcl' in Hcl; [done| |by apply singleton_lookup in Hcl as [_ [=]]..].
  apply singleton_lookup in Hcl as [-> [= ->]]. by rewrite Hc, lookup_singleton_eq.
Qed.
Lemma used_reads w t pick c : inv w → clients w !! t = Some (In c) → can_read (EThread pick c) w.
Proof.
  intros Hi Hcl. destruct (used_context w t c Hi Hcl) as (_ & _ & _ & Hq). cbn. destruct (queue c w) as [|m q]; [done|].
  intros [= ->]. apply Forall_cons in Hq as [(_ & ? & _) _]. done.
Qed.

(** Nothing is left of a context that nobody has. *)
Lemma absent_context w : inv w → clients w = ∅ →
  me w = None ∧ ctxs w = ∅ ∧ cond_waits w = [] ∧ (∀ c, threads w !! c ≠ Some Running) ∧ handled w = posted w.
Proof.
  intros (Hp & _) Hcl.
  destruct Hp as [Hme Hc _ Hw _ Hr Hl|? ? ? ? _ _ Hcl'|? ? ? ? _ _ Hcl'|? ? ? ? _ _ Hcl'|? ? ? _ _ Hcl'];
    [|rewrite Hcl in Hcl'; by apply symmetry, map_non_empty_singleton in Hcl'..].
  do 3 (split; [done|]). split; [|done]. intros c Hc'. by apply Hr, not_elem_of_nil in Hc'.
Qed.

(** A client that has dropped the context: its message to the thread waits, was
    refused, or the thread has taken it. *)
Inductive drop_state (t c : nat) (w : world) : Prop :=
| QuitWaits q :
    queue c w = q ++ [quit c] → posts t q → cond_woken w = [] → threads w !! c = Some Running → drop_state t c w
| QuitRefused :
    posts t (queue c w) → cond_woken w = [] → threads w !! c = Some Running → drop_state t c w
| QuitTaken b :
    past_context c = Some b → queue c w = [] → threads w !! c ≠ Some Running → posted w = handled w →
    cond_woken w = (if b then [t] else []) → drop_state t c w.
Lemma dropping_state w t c : inv w → clients w !! t = Some (Dropping c) → drop_state t c w.
Proof.
  intros (Hp & _) Hcl.
  destruct Hp as [_ _ Hcl'|? ? ? ? _ _ Hcl'|t' c' q u _ Hc Hcl' _ Hk Hth _ Hq|t' c' q u _ Hc Hcl' _ Hk Hth _ Hq|t' c' u _ Hc Hcl' Hr Hl Hend];
    rewrite Hcl' in Hcl; [done|by apply singleton_lookup in Hcl as [_ [=]]|..];
    apply singleton_lookup in Hcl as [-> [= ->]].
  - apply (QuitWaits _ _ _ q); try done. unfold queue. by rewrite Hc, lookup_singleton_eq.
  - apply QuitRefused; try done. unfold queue. by rewrite Hc, lookup_singleton_eq.
  - destruct Hend as [(Hb & _ & Hk)|(Hb & _ & Hk)]; (apply (QuitTaken _ _ _ _ Hb); try done;
      [unfold queue; by rewrite Hc, lookup_singleton_eq|intros Ht; by apply Hr, not_elem_of_nil in Ht]).
Qed.
Lemma posts_quit t c q : posts t q → quit c ∉ q.
Proof. intros Hq Hin. eapply Forall_forall in Hin; [|exact Hq]. by destruct Hin as (_ & [=] & _). Qed.

(** The client is woken exactly when the thread has found the message and a word
    that is not null behind the context. *)
Lemma woken_spec w t c : inv w → clients w !! t = Some (Dropping c) →
  signalled t w ↔ past_context c = Some true ∧ quit_posted c w ∧ queue c w = [].
Proof.
  intros Hi Hcl. unfold signalled, quit_posted.
  destruct (dropping_state w t c Hi Hcl) as [q Hq Hp Hk Hth|Hp Hk Hth|b Hb Hq Hth _ Hk]; rewrite Hk.
  - rewrite elem_of_nil, Hq. split; [done|]. intros (_ & _ & [_ [=]]%app_nil).
  - rewrite elem_of_nil. split; [done|]. intros (_ & [Hin|?] & _); [by apply posts_quit with (c := c) in Hp|done].
  - rewrite Hb, Hq. destruct b; [|rewrite elem_of_nil; split; [done|by intros ([=] & _)]].
    rewrite list_elem_of_singleton. split; [|done]. intros _. split; [done|]. split; [by right|done].
Qed.

(** From the moment a client drops, the thread needs a round per message. *)
Lemma drop_drains n : ∀ w t c, inv w → clients w !! t = Some (Dropping c) → past_context c = Some true → quit_posted c w →
  length (queue c w) = n →
  ∃ w', rtc thread_step w w' ∧ enabled (EWake t c) w' ∧ signalled t w' ∧ inv w'.
Proof.
  induction n as [|n IH]; intros w t c Hi Hcl Hpast Hqp Hn.
  - exists w. split; [reflexivity|]. split; [done|]. split; [|done]. apply (woken_spec w t c); [done..|].
    by split_and!; [..|apply nil_length_inv].
  - destruct (queued_runs w t c) as [Hth Hrd]; [done|by right|by intros Hq; rewrite Hq in Hn|].
    destruct (thread_ok w 0 c Hi Hth Hrd) as (m & w1 & E & Hi1 & Hcl1 & Hq & _ & Hm); [cbn; by rewrite Hpast|].
    destruct (IH w1 t c Hi1) as (w2 & Hr & He).
    + by rewrite Hcl1.
    + done.
    + unfold quit_posted. destruct Hm as [(Ho & _ & Hth1)|(_ & _ & _ & ->)]; [|by right].
      destruct Hqp as [Hin|?]; [|by rewrite Hth1; right]. rewrite Hq in Hin. left.
      apply elem_of_cons in Hin as [<-|]; [|done]. done.
    + rewrite Hq in Hn. cbn in Hn. lia.
    + exists w2. split; [|done]. eapply rtc_l; [|exact Hr]. by exists 0%nat, c.
Qed.
End context.

(** ** Properties *)

Section properties.
Context `{NmeaEnv} (past_context : nat → option bool).

(** As long as one engine at a time uses the context, whatever it posts, however
    its calls and the thread interleave and whichever messages are refused, and
    as long as no wait has ended without a signal: no step touches a context that
    is gone, and each succeeds, except the round that takes the message that ends
    the thread where the memory behind the context cannot be read; the accepted
    messages are handled in the order they were posted, each at most once; and
    when the context has been given back nothing of it is left: no object, no
    running thread, no waiting client, and every accepted message has been
    handled. *)
Theorem context_lifecycle w (Hr : reachable (step past_context) starts w) (Hcalm : spurious w = false) :
  (∀ e, enabled e w → one_engine e w → can_read past_context e w → ∃ w', exec past_context e w = Some (tt, w')) ∧
  (∃ q, posted w = handled w ++ q) ∧
  (clients w = ∅ → me w = None ∧ ctxs w = ∅ ∧ cond_waits w = [] ∧
    (∀ c, threads w !! c ≠ Some Running) ∧ handled w = posted w).
Proof.
  pose proof (context_reachable_inv _ _ Hr Hcalm) as Hi. split.
  { intros e He Ho Hrd. destruct (exec_ok _ e w Hi He Ho Hrd) as (w' & E & _). by exists w'. }
  split; [|by apply (absent_context past_context)].
  destruct Hi as ([? ? ? ? ? ? Hl|? ? q ? ? ? ? ? ? ? ? ? Hl|? ? q ? ? ? ? ? ? ? ? ? Hl|? ? q ? ? ? ? ? ? ? ? ? Hl|? ? ? ? ? ? ? Hl] & _);
    [exists []; by rewrite app_nil_r|by exists q..|exists []; by rewrite app_nil_r].
Qed.

(** A client that drops the context gets it back: from every reachable
    state, if its message to the thread was not refused and the word behind the
    context is not null, rounds of the thread lead to its wake-up, after which it
    returns with the context released. *)
Theorem drop_returns w t c (Hr : reachable (step past_context) starts w) (Hcalm : spurious w = false)
    (Hdrop : clients w !! t = Some (Dropping c)) (Hpast : past_context c = Some true) (Hq : quit_posted c w) :
  ∃ w' w'', rtc (thread_step past_context) w w' ∧ enabled (EWake t c) w' ∧ signalled t w' ∧
    exec past_context (EWake t c) w' = Some (tt, w'') ∧ me w'' = None ∧ ctxs w'' = ∅ ∧
    handled w'' = posted w''.
Proof.
  pose proof (context_reachable_inv _ _ Hr Hcalm) as Hi.
  destruct (drop_drains past_context _ w t c Hi Hdrop Hpast Hq eq_refl) as (w' & Hrt & He & Hs & Hi').
  destruct (wake_ok past_context w' t c Hi' He Hs) as (w'' & E & _ & Hme & Hc & _ & _ & _ & Hh).
  by exists w', w''.
Qed.
End properties.

(** ** Findings and witnesses *)

#[local] Existing Instance demo_nmea.

(** Run events, whether they are enabled or not; [None]: a fault. *)
Fixpoint run_events (past : nat → option bool) (l : list event) (w : world) : option world :=
  match l with
  | [] => Some w
  | e :: l => match exec past e w with Some (_, w') => run_events past l w' | None => None end
  end.
Definition after_events (past : nat → option bool) (l : list event) : world := default nothing (run_events past l nothing).

(** Whether an event is enabled and one of a single engine. *)
Definition may (e : event) (w : world) : bool :=
  match e with
  | EGet t ok1 _ => match clients w !! t, me w with None, None => ok1 | _, _ => false end
  | ESend t _ m | ESendUlp t _ m =>
      match clients w !! t, owner m with
      | Some (In _), OEngine => negb (msgid m =? LOC_ENG_MSG_QUIT)
      | _, _ => false
      end
  | EDrop t c _ => match clients w !! t with Some (In c') => (c =? c')%nat | _ => false end
  | EWake t c =>
      match clients w !! t with Some (Dropping c') => (c =? c')%nat | _ => false end
  | EThread _ c =>
      match threads w !! c, c_deferred_q <$> ctxs w !! c with
      | Some Running, Some (Some (_ :: _)) => true
      | _, _ => false
      end
  end.
Lemma may_step past e w w' : may e w = true → exec past e w = Some (tt, w') → step past w w'.
Proof.
  intros Hm E. exists e. enough (enabled e w ∧ one_engine e w) as [? ?] by done.
  destruct e as [t ok1 ok2|t ok m|t ok m|t c ok|t c|pick c]; cbn in *.
  - destruct (clients w !! t), (me w); done.
  - destruct (clients w !! t) as [[]|], (owner m) eqn:Ho; try done.
    split; [split; [by eexists|split; [done|by apply Z.eqb_neq, negb_true_iff]]|by eexists].
  - destruct (clients w !! t) as [[]|], (owner m) eqn:Ho; try done.
    split; [split; [by eexists|split; [done|by apply Z.eqb_neq, negb_true_iff]]|by eexists].
  - destruct (clients w !! t) as [[c'|]|]; try done. apply Nat.eqb_eq in Hm as ->. done.
  - destruct (clients w !! t) as [[|c']|]; try done. apply Nat.eqb_eq in Hm as ->. done.
  - destruct (threads w !! c) as [[]|]; try done. unfold ready.
    destruct (ctxs w !! c) as [x|]; [|done]. cbn in Hm. destruct (c_deferred_q x) as [[]|]; done.
Qed.

Fixpoint all_may (past : nat → option bool) (l : list event) (w : world) : bool :=
  match l with
  | [] => true
  | e :: l => may e w && match exec past e w with Some (_, w') => all_may past l w' | None => false end
  end.
Lemma all_may_reachable past l : all_may past l nothing = true → reachable (step past) starts (after_events past l).
Proof.
  intros Hl. exists nothing. split; [reflexivity|]. unfold after_events. revert Hl. generalize nothing at 1 2 4.
  induction l as [|e l IH]; intros w Hl; [reflexivity|]. cbn [all_may run_events] in *.
  apply andb_true_iff in Hl as [Hm Hl]. destruct (exec past e w) as [[[] w']|] eqn:E; [|done].
  eapply rtc_l; [by eapply may_step|by apply IH].
Qed.

Definition demo_start_fix : loc_eng_msg := new_loc_eng_msg LOC_ENG_MSG_START_FIX.
Definition demo_dropping : world :=
  after_events (λ _, Some true) [EGet 0 true true; ESend 0 true demo_start_fix; EDrop 0 0 true].
Lemma demo_dropping_reachable : reachable (step (λ _, Some true)) starts demo_dropping.
Proof. apply all_may_reachable. vm_compute. reflexivity. Qed.
Lemma demo_dropping_client : clients demo_dropping !! 0%nat = Some (Dropping 0).
Proof. vm_compute. reflexivity. Qed.

Lemma demo_dropping_quit : quit_posted 0 demo_dropping.
Proof.
  left. assert (queue 0 demo_dropping = [Entry 0 demo_start_fix; quit 0]) as ->.
  { vm_cast_no_check (eq_refl (queue 0 demo_dropping)). }
  apply list_elem_of_further, list_elem_of_here.
Qed.

Lemma context_lifecycle_witness : ∃ q, posted demo_dropping = handled demo_dropping ++ q.
Proof. exact (proj1 (proj2 (context_lifecycle (λ _, Some true) _ demo_dropping_reachable eq_refl))). Defined.
Lemma drop_returns_witness :
  ∃ w' w'', rtc (thread_step (λ _, Some true)) demo_dropping w' ∧
    exec (λ _, Some true) (EWake 0 0) w' = Some (tt, w'') ∧ me w'' = None.
Proof.
  destruct (drop_returns (λ _, Some true) demo_dropping 0 0 demo_dropping_reachable eq_refl demo_dropping_client eq_refl
    demo_dropping_quit) as (w' & w'' & Hr & _ & _ & E & Hme & _). by exists w', w''.
Defined.

(** The owner of the message that ends the thread has no member [context]: if
    the word behind it is null the thread ends without waking the client. *)
Lemma quit_without_wake :
  let w := after_events (λ _, Some false)
    [EGet 0 true true; ESend 0 true demo_start_fix; EDrop 0 0 true; EThread 0 0; EThread 0 0] in
  clients w !! 0%nat = Some (Dropping 0) ∧ threads w !! 0%nat = Some Returned ∧ cond_woken w = [].
Proof. vm_compute. done. Qed.

(** The message that ends the thread is never freed. *)
Lemma quit_leaked :
  let w := after_events (λ _, Some true)
    [EGet 0 true true; ESend 0 true demo_start_fix; EDrop 0 0 true; EThread 0 0; EThread 0 0; EWake 0 0] in
  length (sent w) = 2%nat ∧ length (freed w) = 1%nat ∧ me w = None.
Proof. vm_compute. done. Qed.

(** A client that asks for the context while the last one waits gets the object
    the latter is about to delete. *)
Lemma get_during_drop :
  let w := after_events (λ _, Some true) [EGet 0 true true; EDrop 0 0 true; EGet 1 true true; EThread 0 0; EWake 0 0] in
  clients w !! 1%nat = Some (In 0) ∧ bool_decide (is_Some (exec (λ _, Some true) (ESend 1 true demo_start_fix) w)) = false.
Proof. vm_compute. done. Qed.

(** With two clients a message of the one that has dropped ends the thread of
    the other. *)
Lemma thread_lost :
  let w := after_events (λ _, Some true)
    [EGet 0 true true; EGet 1 true true; ESend 0 true demo_start_fix; EDrop 0 0 true; EThread 0 0] in
  clients w !! 1%nat = Some (In 0) ∧ threads w !! 0%nat = Some Returned ∧ length (handled w) = 0%nat.
Proof. vm_compute. done. Qed.

(** [pthread_cond_wait] is not in a loop: after a spurious return the queue is
    destroyed under the thread. *)
Lemma spurious_release :
  let w := after_events (λ _, Some true) [EGet 0 true true; EDrop 0 0 true; EWake 0 0] in
  threads w !! 0%nat = Some Running ∧ bool_decide (is_Some (exec (λ _, Some true) (EThread 0 0) w)) = false.
Proof. vm_compute. done. Qed.

(** Without memory for the message that ends the thread, [drop] waits all the same:
    nothing is left for the thread to do, and nobody will wake the client. *)
Lemma quit_refused :
  let w := after_events (λ _, Some true) [EGet 0 true true; EDrop 0 0 false] in
  clients w !! 0%nat = Some (Dropping 0) ∧ threads w !! 0%nat = Some Running ∧ length (queue 0 w) = 0%nat ∧
  cond_waits w = [0%nat] ∧ cond_woken w = [].
Proof. vm_compute. done. Qed.

(** Where no memory follows the context the thread faults when it reads the owner
    of the message that ends it. *)
Lemma quit_reads_past_context :
  let w := after_events (λ _, None) [EGet 0 true true; EDrop 0 0 true] in
  bool_decide (is_Some (exec (λ _, None) (EThread 0 0) w)) = false.
Proof. vm_compute. done. Qed.
