(* ===== verification/EngQueue.v ===== *)
(** * The deferred queue of the engine on the message queue of gps/utils

    Elsewhere the queue of the engine is the list of its messages, and a post or a
    round of the thread is one step.  Here the clients and the thread call the
    functions of [MsgQueue] on a queue in memory: a message is an object the client
    makes and whose pointer it sends, the thread sleeps in [msg_q_rcv], and the
    clients, the thread and spurious wake-ups interleave.  The theorems are that this
    behaves as the list: every message accepted is handled once, in order, and
    then freed.  What the thread does with a message is [LocEng]; of it only
    whether it ends the thread is here, and the owner keeps its context ([EngCtx]
    has the owner without one). *)

From S2P Require Import Prelude LinkedList MsgQueue Nmea EngMsg.
Local Open Scope nat_scope.

(** Where the action thread is: before [msg_q_rcv], suspended in it, with a
    message, or returned. *)
Inductive whereabouts := Fetch | InRcv | Got | Ended.
#[export] Instance whereabouts_eq_dec : EqDecision whereabouts.
Proof. solve_decision. Defined.

Section queue.
Context {H W : Type} `{!ListStore H W} `{NmeaEnv}.
(** The queue, the variable [msg] of the thread and [loc_eng_free_msg]. *)
Context (deferred_q msg free_msg : loc).

Record equeue := EQueue {
  mem : qmem H;
  objects : gmap loc loc_eng_msg;      (* the messages that live *)
  fetching : whereabouts;
  accepted : list loc_eng_msg;         (* by [msg_q_snd] *)
  handled : list loc_eng_msg;
  leaked : list loc                    (* never freed: refused, and the QUIT message *)
}.
Abbreviation QM := (ST equeue).

Definition on_mem {A} (m : ST (qmem H) A) : QM A := λ s,
  match m (mem s) with
  | Some (a, m') => Some (a, EQueue m' (objects s) (fetching s) (accepted s) (handled s) (leaked s))
  | None => None
  end.
Definition set_fetching (f : whereabouts) (s : equeue) : equeue :=
  EQueue (mem s) (objects s) f (accepted s) (handled s) (leaked s).

(** A client: [new] gives the message an address, then it is sent; nobody looks at
    the result. *)
Definition new_msg (obj : loc) (m : loc_eng_msg) (s : equeue) : equeue :=
  EQueue (mem s) (<[obj := m]> (objects s)) (fetching s) (accepted s) (handled s) (leaked s).
Definition loc_eng_msg_sender (pick : nat) (obj : loc) (m : loc_eng_msg) : QM unit :=
  _ ← st_modify (new_msg obj m);
  r ← on_mem (msg_q_snd pick (Some deferred_q) (Some obj) (Some free_msg));
  st_modify (λ s,
    if decide (r = eMSG_Q_SUCCESS)
    then EQueue (mem s) (objects s) (fetching s) (accepted s ++ [m]) (handled s) (leaked s)
    else EQueue (mem s) (objects s) (fetching s) (accepted s) (handled s) (leaked s ++ [obj])).

(** The thread: what the receive gave, and the message handled and deleted; the
    QUIT message ends it, and is not deleted. *)
Definition after_rcv (r : rcv_outcome) : QM unit :=
  match r with
  | Waiting => st_modify (set_fetching InRcv)
  | Returned rv => st_modify (set_fetching (if decide (rv = eMSG_Q_SUCCESS) then Got else Ended))
  end.
Definition free_object (d : loc) (m : loc_eng_msg) (s : equeue) : equeue :=
  EQueue (mem s) (delete d (objects s)) Fetch (accepted s) (handled s ++ [m]) (leaked s).
Definition take_msg : QM unit :=
  p ← st_read (λ s, ls_var (q_heap (mem s)) msg);
  d ← st_read (λ _, p);
  m ← st_read (λ s, objects s !! d);
  st_modify (λ s,
    if (msgid m =? LOC_ENG_MSG_QUIT)%Z
    then EQueue (mem s) (objects s) Ended (accepted s) (handled s ++ [m]) (leaked s ++ [d])
    else free_object d m s).
(** [i]: which of the threads released from the condition variable it is. *)
Definition take_turn (i : nat) : QM unit :=
  f ← st_get fetching;
  match f with
  | Fetch => r ← on_mem (msg_q_rcv 0 (Some deferred_q) (Some msg)); after_rcv r
  | InRcv => r ← on_mem (msg_q_rcv_resume i deferred_q); after_rcv r
  | Got => take_msg
  | Ended => st_fault
  end.

(** Where a message leaves the thread. *)
Definition after_msg (m : loc_eng_msg) : whereabouts := if (msgid m =? LOC_ENG_MSG_QUIT)%Z then Ended else Fetch.

(** The thread can run: it is not asleep on the condition variable. *)
Definition may_run (i : nat) (s : equeue) : Prop :=
  match fetching s with
  | Fetch | Got => True
  | InRcv => ∃ o, q_objs (mem s) !! deferred_q = Some o ∧ i < length (woken o)
  | Ended => False
  end.
Definition runs (s s' : equeue) : Prop := ∃ i, may_run i s ∧ take_turn i s = Some (tt, s').

Inductive qstep : equeue → equeue → Prop :=
| Q_post s pick obj m s' :
    objects s !! obj = None → loc_eng_msg_sender pick obj m s = Some (tt, s') → qstep s s'
| Q_thread s s' : runs s s' → qstep s s'
| Q_spurious s i s' : on_mem (write_q deferred_q (cond_spurious i)) s = Some (tt, s') → qstep s s'.

(** A new queue, and the thread about to receive. *)
Definition qstarts (s : equeue) : Prop :=
  queue_at (mem s) deferred_q [] [] [] 0 ∧ is_Some (ls_var (q_heap (mem s)) msg) ∧ msg ≠ deferred_q ∧
  objects s = ∅ ∧ fetching s = Fetch ∧ accepted s = [] ∧ handled s = [] ∧ leaked s = [].

(** ** The invariant *)

(** [ds] are the objects from which the messages [ms] still have to be taken. *)
Definition hold (s : equeue) (ds : list loc) (ms : list loc_eng_msg) : Prop :=
  Forall2 (λ d m, objects s !! d = Some m) ds ms ∧ NoDup ds ∧
  (∀ d, is_Some (objects s !! d) ↔ d ∈ ds ∨ d ∈ leaked s) ∧ (∀ d, d ∈ ds → d ∉ leaked s).

Record queue_ok (s : equeue) (xs : list node) (a w : list waiter) (hand : list loc) (ms : list loc_eng_msg) : Prop := {
  qo_at : queue_at (mem s) deferred_q xs a w 0;
  qo_var : is_Some (ls_var (q_heap (mem s)) msg) ∧ msg ≠ deferred_q;
  qo_hold : hold s (hand ++ pending xs) ms;
  qo_accepted : accepted s = handled s ++ ms;
  qo_thread : match fetching s with
    | Fetch => a = [] ∧ w = [] ∧ hand = []
    | InRcv => hand = [] ∧ (a = [(0, msg)] ∧ w = [] ∧ xs = [] ∨ a = [] ∧ w = [(0, msg)])
    | Got => a = [] ∧ w = [] ∧ ∃ d, hand = [d] ∧ ls_var (q_heap (mem s)) msg = Some (Some d)
    | Ended => a = [] ∧ w = [] ∧ hand = [] ∧ Exists (λ m, msgid m = LOC_ENG_MSG_QUIT) (handled s)
    end
}.
Definition qinv (s : equeue) : Prop := ∃ xs a w hand ms, queue_ok s xs a w hand ms.

Lemma run_on_mem {A} (m : ST (qmem H) A) s a m' : m (mem s) = Some (a, m') →
  on_mem m s = Some (a, EQueue m' (objects s) (fetching s) (accepted s) (handled s) (leaked s)).
Proof. intros E. unfold on_mem. by rewrite E. Qed.

Lemma qstarts_inv s : qstarts s → qinv s.
Proof.
  intros (Hq & Hv & Hne & Ho & Hf & Ha & Hh & Hr). exists [], [], [], [], []. split; [done|by split| | |].
  - split; [constructor|]. split; [constructor|]. rewrite Ho, Hr. split; [|set_solver].
    intros d. rewrite lookup_empty. split; [by intros []|set_solver].
  - by rewrite Ha, Hh.
  - by rewrite Hf.
Qed.

(** *** Clients *)

Lemma hold_fresh s ds ms obj : objects s !! obj = None → hold s ds ms → (obj ∉ ds) ∧ (obj ∉ leaked s).
Proof.
  intros Hn (_ & _ & Hd & _). split; intros Hin;
    assert (is_Some (objects s !! obj)) as [? ?] by (apply Hd; auto); congruence.
Qed.
Lemma hold_insert s ds ms obj (m : loc_eng_msg) : objects s !! obj = None → hold s ds ms →
  Forall2 (λ d m', <[obj := m]> (objects s) !! d = Some m') ds ms.
Proof.
  intros Hn (Hf & _). eapply Forall2_impl; [exact Hf|]. cbn. intros d m' Hd.
  rewrite lookup_insert_ne; [done|]. congruence.
Qed.
Lemma hold_accept s s' ds ms obj (m : loc_eng_msg) : objects s !! obj = None → hold s ds ms →
  objects s' = <[obj := m]> (objects s) → leaked s' = leaked s → hold s' (ds ++ [obj]) (ms ++ [m]).
Proof.
  intros Hn Hh Ho Hr. destruct (hold_fresh _ _ _ _ Hn Hh) as [Hds Hre].
  pose proof (hold_insert _ _ _ _ m Hn Hh) as Hf. destruct Hh as (_ & Hnd & Hdom & Hdis).
  unfold hold. rewrite Ho, Hr. split_and!.
  - apply Forall2_app; [done|]. constructor; [|constructor]. by rewrite lookup_insert_eq.
  - apply NoDup_app. split; [done|]. split; [set_solver|apply NoDup_singleton].
  - intros d. destruct (decide (d = obj)) as [->|Hne].
    + rewrite lookup_insert_eq. split; [set_solver|by eexists].
    + rewrite lookup_insert_ne, Hdom by done. set_solver.
  - intros d. rewrite elem_of_app, list_elem_of_singleton. intros [Hd| ->]; [by apply Hdis|done].
Qed.
Lemma hold_refuse s s' ds ms obj (m : loc_eng_msg) : objects s !! obj = None → hold s ds ms →
  objects s' = <[obj := m]> (objects s) → leaked s' = leaked s ++ [obj] → hold s' ds ms.
Proof.
  intros Hn Hh Ho Hr. destruct (hold_fresh _ _ _ _ Hn Hh) as [Hds Hre].
  pose proof (hold_insert _ _ _ _ m Hn Hh) as Hf. destruct Hh as (_ & Hnd & Hdom & Hdis).
  unfold hold. rewrite Ho, Hr. split_and!; [done|done| |].
  - intros d. destruct (decide (d = obj)) as [->|Hne].
    + rewrite lookup_insert_eq. split; [set_solver|by eexists].
    + rewrite lookup_insert_ne, Hdom by done. set_solver.
  - intros d Hd. rewrite elem_of_app, list_elem_of_singleton. intros [Hin| ->]; [by eapply Hdis|done].
Qed.
Lemma hold_take s s' d ds ms : hold s (d :: ds) ms → objects s' = delete d (objects s) → leaked s' = leaked s →
  ∃ m ms', ms = m :: ms' ∧ objects s !! d = Some m ∧ hold s' ds ms'.
Proof.
  intros (Hf & Hnd & Hdom & Hdis) Ho Hr. apply NoDup_cons in Hnd as [Hd Hnd].
  destruct (Forall2_cons_inv_l _ _ _ _ Hf) as (m & ms' & Hm & Hf' & ->). exists m, ms'. do 2 (split; [done|]).
  unfold hold. rewrite Ho, Hr. split_and!; [|done| |].
  - apply Forall2_same_length_lookup_2; [by eapply Forall2_length|]. intros i d' m' Hi Hi'.
    rewrite lookup_delete_ne; [exact (Forall2_lookup_lr _ _ _ _ _ _ Hf' Hi Hi')|]. intros ->. by apply list_elem_of_lookup_2 in Hi.
  - intros d'. destruct (decide (d' = d)) as [->|Hne].
    + rewrite lookup_delete_eq. split; [by intros []|]. intros [?|Hin]; [done|]. exfalso. eapply Hdis; [|exact Hin]. by left.
    + rewrite lookup_delete_ne, Hdom, elem_of_cons by done. by intuition.
  - intros d' Hd'. apply Hdis. by right.
Qed.
Lemma hold_leak s s' d ds ms : hold s (d :: ds) ms → objects s' = objects s → leaked s' = leaked s ++ [d] →
  ∃ m ms', ms = m :: ms' ∧ objects s !! d = Some m ∧ hold s' ds ms'.
Proof.
  intros (Hf & Hnd & Hdom & Hdis) Ho Hr. apply NoDup_cons in Hnd as [Hd Hnd].
  destruct (Forall2_cons_inv_l _ _ _ _ Hf) as (m & ms' & Hm & Hf' & ->). exists m, ms'. do 2 (split; [done|]).
  unfold hold. rewrite Ho, Hr. split_and!; [done|done| |].
  - intros d'. rewrite Hdom, elem_of_cons, elem_of_app, list_elem_of_singleton. by intuition.
  - intros d' Hd'. rewrite elem_of_app, list_elem_of_singleton. intros [Hin| ->]; [|done].
    eapply Hdis; [|exact Hin]. by right.
Qed.

Lemma signalled_one pick (t : waiter) : signalled pick [t] [] = ([], [t]).
Proof. unfold signalled. cbn [length]. by rewrite Nat.mod_1_r. Qed.

(** What a signal does to the thread. *)
Lemma thread_signalled pick s (xs ys : list node) a w hand m' :
  match fetching s with
  | Fetch => a = [] ∧ w = [] ∧ hand = []
  | InRcv => hand = [] ∧ (a = [(0, msg)] ∧ w = [] ∧ xs = [] ∨ a = [] ∧ w = [(0, msg)])
  | Got => a = [] ∧ w = [] ∧ ∃ d, hand = [d] ∧ ls_var (q_heap (mem s)) msg = Some (Some d)
  | Ended => a = [] ∧ w = [] ∧ hand = [] ∧ Exists (λ m, msgid m = LOC_ENG_MSG_QUIT) (handled s)
  end →
  (∀ c, ls_var (q_heap m') c = ls_var (q_heap (mem s)) c) →
  let a' := (signalled pick a w).1 in let w' := (signalled pick a w).2 in
  match fetching s with
  | Fetch => a' = [] ∧ w' = [] ∧ hand = []
  | InRcv => hand = [] ∧ (a' = [(0, msg)] ∧ w' = [] ∧ ys = [] ∨ a' = [] ∧ w' = [(0, msg)])
  | Got => a' = [] ∧ w' = [] ∧ ∃ d, hand = [d] ∧ ls_var (q_heap m') msg = Some (Some d)
  | Ended => a' = [] ∧ w' = [] ∧ hand = [] ∧ Exists (λ m, msgid m = LOC_ENG_MSG_QUIT) (handled s)
  end.
Proof.
  intros Ht Hv. rewrite Hv. destruct (fetching s); [by destruct Ht as (-> & -> & ->)| |by destruct Ht as (-> & -> & ?)|by destruct Ht as (-> & -> & ?)].
  destruct Ht as [-> [(-> & -> & _)|[-> ->]]]; [rewrite signalled_one|]; by split; [|right].
Qed.

Lemma post_ok s pick obj m : qinv s → objects s !! obj = None →
  ∃ s', loc_eng_msg_sender pick obj m s = Some (tt, s') ∧ qinv s' ∧ handled s' = handled s.
Proof.
  intros (xs & a & w & hand & ms & [Hat [Hvar Hne] Hh Hacc Ht]) Hn.
  destruct (msg_q_snd_spec (mem s) deferred_q xs a w pick obj (Some free_msg) Hat) as (r & m' & E & Hv & Hr).
  pose proof (λ ys, thread_signalled pick s xs ys a w hand m' Ht Hv) as Ht'. cbn zeta in Ht'.
  unfold loc_eng_msg_sender. st_run. rewrite (run_on_mem _ (new_msg obj m s) r m' E). st_run.
  destruct Hr as [[-> Hat']|[-> Hat']].
  - eexists. split; [done|]. split; [|done].
    eexists _, _, _, hand, (ms ++ [m]). split; cbn [mem accepted handled fetching new_msg].
    + exact Hat'.
    + by rewrite Hv.
    + unfold pending. rewrite fmap_cons, reverse_cons, (assoc_L (++)). by eapply hold_accept.
    + by rewrite Hacc, (assoc_L (++)).
    + apply Ht'.
  - eexists. split; [done|]. split; [|done].
    eexists _, _, _, hand, ms. split; cbn [mem accepted handled fetching new_msg].
    + exact Hat'.
    + by rewrite Hv.
    + by eapply hold_refuse.
    + exact Hacc.
    + apply Ht'.
Qed.

(** *** The thread *)

(** What a receive, entered or resumed, leaves. *)
Lemma received_ok s m' xs a w ms r :
  hold s (pending xs) ms → accepted s = handled s ++ ms → msg ≠ deferred_q →
  is_Some (ls_var (q_heap (mem s)) msg) → a = [] → w = [] →
  match Spec.remove xs with
  | Some (nd, ys) => r = Returned eMSG_Q_SUCCESS ∧ queue_at m' deferred_q ys a w 0 ∧
      ls_var (q_heap m') msg = Some (Some (n_data nd))
  | None => r = Waiting ∧ queue_at m' deferred_q xs (a ++ [(0, msg)]) w 0
  end →
  ∃ s', after_rcv r (EQueue m' (objects s) (fetching s) (accepted s) (handled s) (leaked s)) = Some (tt, s') ∧
    handled s' = handled s ∧ accepted s' = accepted s ∧ leaked s' = leaked s ∧
    match xs with
    | [] => fetching s' = InRcv ∧ queue_ok s' [] [(0, msg)] [] [] ms
    | _ => fetching s' = Got ∧ ∃ ys d, queue_ok s' ys [] [] [d] ms
    end.
Proof.
  intros Hh Hacc Hne Hvar -> -> Hr. pose proof (pending_remove xs) as Hrem.
  destruct (Spec.remove xs) as [[nd ys]|].
  - destruct Hr as (-> & Hat & Hv), Hrem as [Hp Hl]. eexists. split; [done|]. do 3 (split; [done|]).
    destruct xs as [|x xs]; [done|]. split; [done|]. exists ys, (n_data nd).
    split; cbn [set_fetching mem fetching].
    + exact Hat.
    + split; [by rewrite Hv|done].
    + rewrite Hp in Hh. exact Hh.
    + exact Hacc.
    + by repeat split; eauto.
  - subst xs. destruct Hr as [-> Hat]. eexists. split; [done|]. do 4 (split; [done|]).
    split; cbn [set_fetching mem fetching].
    + exact Hat.
    + split; [|done]. destruct Hat as (_ & _ & Hws). by apply Forall_cons in Hws as [[_ ?] _].
    + exact Hh.
    + exact Hacc.
    + split; [done|]. by left.
Qed.

Lemma take_ok s xs d ms : queue_ok s xs [] [] [d] ms → fetching s = Got → ls_var (q_heap (mem s)) msg = Some (Some d) →
  ∃ s' m ms', take_msg s = Some (tt, s') ∧ accepted s' = accepted s ∧ ms = m :: ms' ∧ handled s' = handled s ++ [m] ∧
    (msgid m ≠ LOC_ENG_MSG_QUIT → leaked s' = leaked s) ∧ fetching s' = after_msg m ∧ queue_ok s' xs [] [] [] ms'.
Proof.
  intros [Hat [Hvar Hne] Hh Hacc _] Hf Hv. unfold take_msg, st_read, after_msg. st_run. rewrite Hv. st_run.
  destruct (hold_take s (EQueue (mem s) (delete d (objects s)) Fetch (accepted s) (handled s ++ ms) (leaked s))
    d (pending xs) ms Hh) as (m & ms' & -> & Hm & Hh'); [done..|].
  destruct (hold_leak s (EQueue (mem s) (objects s) Ended (accepted s) (handled s ++ m :: ms') (leaked s ++ [d]))
    d (pending xs) (m :: ms') Hh) as (m1 & ms1 & [= <- <-] & _ & Hl); [done..|].
  rewrite Hm. st_run. destruct (Z.eqb_spec (msgid m) LOC_ENG_MSG_QUIT) as [Hq|Hq];
    (eexists _, m, ms'; split; [done|]; rewrite (proj2 (Z.eqb_eq _ _) Hq) || rewrite (proj2 (Z.eqb_neq _ _) Hq); do 5 (split; [done|]);
     split; cbn [mem accepted handled fetching free_object]; [done|by split| |by rewrite Hacc, <- (assoc_L (++))|]); try done.
  do 3 (split; [done|]). apply Exists_app. right. by constructor.
Qed.

Lemma turn_ok s i xs a w hand ms : queue_ok s xs a w hand ms → may_run i s →
  ∃ s', take_turn i s = Some (tt, s') ∧ accepted s' = accepted s ∧
    match hand, xs with
    | _ :: _, _ => ∃ m ms', ms = m :: ms' ∧ handled s' = handled s ++ [m] ∧
        (msgid m ≠ LOC_ENG_MSG_QUIT → leaked s' = leaked s) ∧ fetching s' = after_msg m ∧ queue_ok s' xs [] [] [] ms'
    | [], [] => handled s' = handled s ∧ leaked s' = leaked s ∧ fetching s' = InRcv ∧ queue_ok s' [] [(0, msg)] [] [] ms
    | [], _ => handled s' = handled s ∧ leaked s' = leaked s ∧ fetching s' = Got ∧ ∃ ys d, queue_ok s' ys [] [] [d] ms
    end.
Proof.
  intros Hok Hrun. pose proof Hok as [Hat [Hvar Hne] Hh Hacc Ht]. unfold take_turn, may_run in *. st_run. destruct (fetching s) eqn:Hf.
  - destruct Ht as (-> & -> & ->).
    destruct (msg_q_rcv_spec (mem s) deferred_q xs [] [] 0 msg Hat Hne Hvar) as (r & m' & E & Hr).
    rewrite st_bind_run, (run_on_mem _ s r m' E). cbn beta iota.
    destruct (received_ok s m' xs [] [] ms r) as (s' & E' & Hh' & Ha' & Hl' & Hs'); try done.
    rewrite E'. exists s'. split; [done|]. split; [done|]. by destruct xs.
  - destruct Hrun as (o & Ho & Hi). destruct Hat as (Hq & Hl & Hws). pose proof Hq as Hq'. rewrite Ho in Hq'.
    injection Hq' as ->. cbn [woken] in Hi. destruct Ht as [-> [(_ & -> & _)|[-> ->]]]; [cbn in Hi; lia|].
    destruct i as [|i]; [|cbn in Hi; lia].
    destruct (msg_q_rcv_resume_spec (mem s) deferred_q xs [] [(0, msg)] 0 0 0 msg) as (r & m' & E & _ & Hr);
      [by split|done|]. rewrite st_bind_run, (run_on_mem _ s r m' E). cbn beta iota.
    destruct (received_ok s m' xs [] [] ms r) as (s' & E' & Hh' & Ha' & Hl' & Hs'); try done.
    rewrite E'. exists s'. split; [done|]. split; [done|]. by destruct xs.
  - destruct Ht as (-> & -> & d & -> & Hv).
    destruct (take_ok s xs d ms) as (s' & m & ms' & E & Ha & -> & Hs'); [done..|]. eauto 10.
  - done.
Qed.
(** *** All steps *)

Lemma spurious_ok s i s' : qinv s → on_mem (write_q deferred_q (cond_spurious i)) s = Some (tt, s') → qinv s'.
Proof.
  intros (xs & a & w & hand & ms & [(Hq & Hl & Hws) Hv Hh Hacc Ht]) Hr.
  rewrite (run_on_mem _ s _ _ (run_write_q _ _ _ _ Hq)) in Hr. injection Hr as <-. unfold cond_spurious.
  cbn [asleep list_mutex woken unblocked]. destruct (a !! i) as [t|] eqn:Hi.
  - exists xs, (delete i a), (w ++ [t]), hand, ms. split; cbn [mem fetching accepted handled]; [|done|done|done|].
    + split; [cbn; by simplify_map_eq|]. split; [done|]. by rewrite (wake_perm _ _ _ _ Hi).
    + destruct (fetching s); [by destruct Ht as (-> & _)| |by destruct Ht as (-> & _)..].
      destruct Ht as [-> [(-> & -> & _)|(-> & _)]]; [|done]. destruct i; [|done]. injection Hi as <-. eauto.
  - exists xs, a, w, hand, ms. split; [|done..]. split; [cbn; by simplify_map_eq|done].
Qed.

Lemma runs_inv s s' : qinv s → runs s s' → qinv s'.
Proof.
  intros (xs & a & w & hand & ms & Hok) (i & Hm & Hr).
  destruct (turn_ok _ _ _ _ _ _ _ Hok Hm) as (s1 & Hr1 & _ & Hs). rewrite Hr in Hr1. injection Hr1 as <-.
  destruct hand as [|d hand].
  - destruct xs as [|x xs].
    + destruct Hs as (_ & _ & _ & Hs). by do 5 eexists.
    + destruct Hs as (_ & _ & _ & ys & d & Hs). by do 5 eexists.
  - destruct Hs as (m & ms' & _ & _ & _ & _ & Hs). by do 5 eexists.
Qed.

Lemma qstep_inv s s' : qinv s → qstep s s' → qinv s'.
Proof.
  intros Hs Hst. destruct Hst as [s pick obj m s1 Hn Hr|s s1 Hr|s i s1 Hr].
  - destruct (post_ok _ pick obj m Hs Hn) as (s2 & Hr2 & Hi & _). rewrite Hr in Hr2. by injection Hr2 as <-.
  - by eapply runs_inv.
  - by eapply spurious_ok.
Qed.

Lemma reachable_qinv s : reachable qstep qstarts s → qinv s.
Proof. apply invariant_reachable; [exact qstarts_inv|exact qstep_inv]. Qed.

(** *** What waits is handled *)

Lemma hold_nil s ms : hold s [] ms → ms = [].
Proof. intros (Hf & _). by inversion Hf. Qed.

(** A thread with nothing in hand and messages waiting takes one. *)
Lemma fetches s xs a w m ms : queue_ok s xs a w [] (m :: ms) → fetching s ≠ Ended →
  ∃ s', runs s s' ∧ accepted s' = accepted s ∧ handled s' = handled s ∧ leaked s' = leaked s ∧
    ∃ ys d, queue_ok s' ys [] [] [d] (m :: ms).
Proof.
  intros Hok Hf. assert (may_run 0 s) as Hm.
  { unfold may_run. destruct Hok as [(Hq & _) _ Hh _ Ht]. destruct (fetching s); [done| |done|done].
    eexists. split; [exact Hq|]. destruct Ht as [_ [(-> & -> & ->)|(_ & ->)]]; [|cbn; lia]. by apply hold_nil in Hh. }
  destruct (turn_ok _ _ _ _ _ _ _ Hok Hm) as (s' & Hr & Ha & Hs). destruct xs as [|x xs].
  - destruct Hs as (_ & _ & _ & [_ _ Hh _ _]). by apply hold_nil in Hh.
  - destruct Hs as (? & ? & _ & ys & d & Hs). exists s'. split; [by exists 0|]. eauto 10.
Qed.

(** One with a message in hand handles it. *)
Lemma handles s xs a w d m ms : queue_ok s xs a w [d] (m :: ms) → msgid m ≠ LOC_ENG_MSG_QUIT →
  ∃ s', runs s s' ∧ accepted s' = accepted s ∧ handled s' = handled s ++ [m] ∧ leaked s' = leaked s ∧
    fetching s' = Fetch ∧ queue_ok s' xs [] [] [] ms.
Proof.
  intros Hok Hq. assert (may_run 0 s) as Hm.
  { unfold may_run. destruct Hok as [_ _ _ _ Ht]. destruct (fetching s); naive_solver. }
  destruct (turn_ok _ _ _ _ _ _ _ Hok Hm) as (s' & Hr & Ha & m' & ms' & [= <- <-] & Hh & Hl & Hf & Hs).
  exists s'. split; [by exists 0|]. do 2 (split; [done|]). split; [auto|]. split; [|done].
  rewrite Hf. unfold after_msg. by apply Z.eqb_neq in Hq as ->.
Qed.

Lemma serves ms s xs a w hand : queue_ok s xs a w hand ms → fetching s ≠ Ended →
  Forall (λ m, msgid m ≠ LOC_ENG_MSG_QUIT) ms →
  ∃ s', rtc runs s s' ∧ accepted s' = accepted s ∧ handled s' = accepted s ∧ leaked s' = leaked s ∧
    ∀ d, is_Some (objects s' !! d) ↔ d ∈ leaked s'.
Proof.
  revert s xs a w hand. induction ms as [|m ms IH]; intros s xs a w hand Hok Hf Hms.
  - exists s. split; [done|]. destruct Hok as [_ _ (Hl & _ & Hd & _) Ha _]. rewrite app_nil_r in Ha. inversion Hl as [Hn|].
    do 3 (split; [done|]). intros d. rewrite Hd, <- Hn. set_solver.
  - apply Forall_cons in Hms as [Hm Hms].
    assert (∃ s1 ys b v d, rtc runs s s1 ∧ accepted s1 = accepted s ∧ leaked s1 = leaked s ∧ queue_ok s1 ys b v [d] (m :: ms))
      as (s1 & ys & b & v & d & Hr1 & Ha1 & Hl1 & Hok1).
    { destruct hand as [|d hand].
      - destruct (fetches _ _ _ _ _ _ Hok Hf) as (s1 & Hr & Ha & _ & Hl & ys & d & Hs).
        exists s1, ys, [], [], d. split; [by apply rtc_once|done].
      - exists s, xs, a, w, d. do 3 (split; [done|]). pose proof Hok as [_ _ _ _ Ht].
        destruct (fetching s); naive_solver. }
    destruct (handles _ _ _ _ _ _ _ Hok1 Hm) as (s2 & Hr2 & Ha2 & _ & Hl2 & Hf2 & Hok2).
    destruct (IH _ _ _ _ _ Hok2) as (s3 & Hr3 & Ha3 & Hh3 & Hl3 & Hd3); [by rewrite Hf2|done|].
    exists s3. split; [etrans; [exact Hr1|]; by eapply rtc_l|]. by rewrite Ha3, Ha2, Ha1, Hl3, Hl2, Hl1 in *.
Qed.

Lemma ended_quit s : qinv s → fetching s = Ended → Exists (λ m, msgid m = LOC_ENG_MSG_QUIT) (handled s).
Proof. intros (xs & a & w & hand & ms & [_ _ _ _ Ht]) Hf. rewrite Hf in Ht. by destruct Ht as (_ & _ & _ & ?). Qed.

(** C4: whatever clients, the thread and spurious wake-ups do, the queue in memory is
    the list of the messages sent: what was handled, in the order it was accepted,
    and then what waits, each in an object of its own that is still alive; no other
    object is alive but those of refused sends and of QUIT.  No call faults or blocks on
    the mutex, and the thread returns only by QUIT. *)
Theorem deferred_queue_refines s : reachable qstep qstarts s →
  (∃ ds ms, accepted s = handled s ++ ms ∧ Forall2 (λ d m, objects s !! d = Some m) ds ms ∧ NoDup ds ∧
     ∀ d, is_Some (objects s !! d) ↔ d ∈ ds ∨ d ∈ leaked s) ∧
  (fetching s = Ended → Exists (λ m, msgid m = LOC_ENG_MSG_QUIT) (handled s)) ∧
  (∀ pick obj m, objects s !! obj = None →
     ∃ s', loc_eng_msg_sender pick obj m s = Some (tt, s') ∧ handled s' = handled s) ∧
  (∀ i, may_run i s →
     ∃ s', take_turn i s = Some (tt, s') ∧ accepted s' = accepted s ∧ handled s `prefix_of` handled s').
Proof.
  intros Hi%reachable_qinv. pose proof Hi as (xs & a & w & hand & ms & Hok). split_and!.
  - exists (hand ++ pending xs), ms. by destruct Hok as [_ _ (? & ? & ? & _) ? _].
  - by apply ended_quit.
  - intros pick obj m Hn. destruct (post_ok _ pick obj m Hi Hn) as (s' & ? & _ & ?). eauto.
  - intros i Hm. destruct (turn_ok _ _ _ _ _ _ _ Hok Hm) as (s' & Hr & Ha & Hs). exists s'. do 2 (split; [done|]).
    destruct hand; [destruct xs; destruct Hs as (-> & _); by exists []; rewrite app_nil_r|]. destruct Hs as (m & ? & _ & -> & _). by exists [m].
Qed.

(** C5: as long as no QUIT message is sent, from every state the thread alone, woken
    as the signals made it, gets to handle every message accepted, once and in order,
    and frees them: what is left alive are the objects of refused sends. *)
Theorem deferred_queue_serves s : reachable qstep qstarts s →
  Forall (λ m, msgid m ≠ LOC_ENG_MSG_QUIT) (accepted s) →
  ∃ s', rtc runs s s' ∧ accepted s' = accepted s ∧ handled s' = accepted s ∧ leaked s' = leaked s ∧
    ∀ d, is_Some (objects s' !! d) ↔ d ∈ leaked s'.
Proof.
  intros Hi%reachable_qinv Hq. pose proof Hi as (xs & a & w & hand & ms & Hok).
  pose proof (qo_accepted _ _ _ _ _ _ Hok) as Ha. rewrite Ha in Hq. apply Forall_app in Hq as [Hh Hms].
  eapply serves; [exact Hok| |exact Hms]. intros He. apply (ended_quit s Hi) in He.
  apply Exists_exists in He as (m & Hm & Hm'). rewrite Forall_forall in Hh. by apply (Hh m).
Qed.
End queue.

(** ** Findings and witnesses *)

Section demo.
#[local] Existing Instance demo_nmea.
Local Open Scope positive_scope.

Definition demo_q_new : equeue := EQueue demo_q0 ∅ Fetch [] [] [].
Definition demo_msg : loc_eng_msg := new_loc_eng_msg LOC_ENG_MSG_START_FIX.
(** The thread falls asleep and two messages arrive. *)
Definition demo_q_asleep := after (take_turn 50 4 0 demo_q_new) demo_q_new.
Definition demo_q_one := after (loc_eng_msg_sender 50 77 0 20 demo_msg demo_q_asleep) demo_q_asleep.
Definition demo_q_two :=
  after (loc_eng_msg_sender 50 77 0 21 (new_loc_eng_msg LOC_ENG_MSG_STOP_FIX) demo_q_one) demo_q_one.

Lemma demo_q_two_reachable : reachable (qstep 50 4 77) (qstarts 50 4) demo_q_two.
Proof.
  apply reachable_step with demo_q_one; [apply reachable_step with demo_q_asleep; [apply reachable_step with demo_q_new|]|].
  - exists demo_q_new. split; [|reflexivity]. split; [exact demo_at0|]. split; [by eexists|]. done.
  - apply Q_thread. exists 0%nat. split; [done|]. reflexivity.
  - apply (Q_post 50 4 77 demo_q_asleep 0 20 demo_msg); reflexivity.
  - apply (Q_post 50 4 77 demo_q_one 0 21 (new_loc_eng_msg LOC_ENG_MSG_STOP_FIX)); reflexivity.
Qed.

Lemma deferred_queue_refines_witness :
  may_run 50 0 demo_q_two ∧ ∃ s', take_turn 50 4 0 demo_q_two = Some (tt, s') ∧ handled demo_q_two `prefix_of` handled s'.
Proof.
  assert (may_run 50 0 demo_q_two) as Hm.
  { exists (MsgQ false [] [(0%nat, 4)] 0%Z). split; [reflexivity|]. cbn. lia. }
  split; [exact Hm|].
  destruct (proj2 (proj2 (proj2 (deferred_queue_refines 50 4 77 demo_q_two demo_q_two_reachable))) 0%nat Hm) as (s' & E & _ & Hp).
  exists s'. split; [exact E|exact Hp].
Defined.

Lemma deferred_queue_serves_witness :
  ∃ s', rtc (runs 50 4) demo_q_two s' ∧
    handled s' = [demo_msg; new_loc_eng_msg LOC_ENG_MSG_STOP_FIX] ∧ ∀ d, objects s' !! d = None.
Proof.
  destruct (deferred_queue_serves 50 4 77 demo_q_two demo_q_two_reachable) as (s' & Hr & _ & Hh & Hl & Hd).
  { repeat constructor; discriminate. }
  exists s'. split; [exact Hr|]. split; [exact Hh|]. intros d. apply eq_None_not_Some. rewrite Hd, Hl.
  assert (leaked demo_q_two = []) as -> by reflexivity. apply not_elem_of_nil.
Defined.

(** Nobody looks at the result of [msg_q_snd]: without memory for the list element
    the message is lost, and its object stays. *)
#[local] Instance no_allocator : Allocator.
Proof. refine {| alloc n live := None |}. done. Defined.
Lemma message_lost :
  let s := after (loc_eng_msg_sender (ListStore0 := heap_ListStore (H := no_allocator)) 50 77 0 20 demo_msg demo_q_asleep) demo_q_asleep in
  accepted s = [] ∧ leaked s = [20] ∧ objects s !! 20 = Some demo_msg.
Proof. repeat split; reflexivity. Qed.
End demo.
