(* ===== verification/LocEng.v ===== *)
(** * The location engine: loc_eng.{h,cpp}, loc_eng_xtra.cpp

    The engine's data, the functions its clients call, which post messages, and
    the thread that handles them.  The queue is the sequence [MsgQueue]
    implements, the three connection machines are those of [Agps], requests of
    the network those of [Ni], the sentences those of [Nmea].  The adapter of
    the modem is outside the program (its base class does nothing): its calls
    are recorded in [trace], their results and the position mode it keeps are
    parameters that may depend on the calls so far.  A call of a client and the
    handling of a message are one step each. *)

From stdpp Require Import pretty.
From Stdlib Require Import String Ascii.
From S2P Require Import Prelude Agps Nmea Ni EngMsg.
Local Open Scope Z_scope.

(** ** Constants *)

Definition GPS_STATUS_NONE : Z := 0.
Definition GPS_STATUS_SESSION_BEGIN : Z := 1.
Definition GPS_STATUS_SESSION_END : Z := 2.
Definition GPS_STATUS_ENGINE_ON : Z := 3.
Definition GPS_STATUS_ENGINE_OFF : Z := 4.
Definition LOC_SESS_SUCCESS : Z := 0.
Definition LOC_SESS_INTERMEDIATE : Z := 1.
Definition LOC_SESS_FAILURE : Z := 2.
Definition LOC_API_ADAPTER_ERR_SUCCESS : Z := 0.
Definition LOC_API_ADAPTER_ERR_ENGINE_DOWN : Z := 100.
Definition LOC_API_ADAPTER_BIT_NMEA_1HZ_REPORT : Z := 4.
Definition LOC_POS_TECH_MASK_SATELLITE : Z := 1.
Definition LOC_POS_TECH_MASK_SENSORS : Z := 8.
Definition GPS_LOCATION_HAS_ACCURACY : Z := 0x0010.
Definition LOCATION_HAS_SOURCE_INFO : Z := 0x0020.
Definition ULP_LOCATION_IS_FROM_HYBRID : Z := 1.
Definition ULP_LOCATION_IS_FROM_GNSS : Z := 2.
Definition ULP_CAPABILITY : Z := 256.
Definition ULP_PHONE_CONTEXT_BATTERY_CHARGING_STATE : Z := 8.
Definition NMEA_PROVIDER_AP : Z := 0.
Definition AGPS_TYPE_SUPL : Z := 1.
Definition AGPS_TYPE_WWAN_ANY : Z := 3.
Definition AGPS_TYPE_WIFI : Z := 4.
Definition LOC_AGPS_CDMA_PDE_SERVER : Z := 0.
Definition LOC_AGPS_CUSTOM_PDE_SERVER : Z := 1.
Definition LOC_AGPS_MPC_SERVER : Z := 2.
Definition LOC_AGPS_SUPL_SERVER : Z := 3.
Definition MAX_APN_LEN : Z := 100.
Definition MAX_URL_LEN : Z := 256.
Definition LOC_ENG_IF_REQUEST_TYPE_SUPL : Z := 0.
Definition LOC_ENG_IF_REQUEST_TYPE_ANY : Z := 2.

(** ** Data *)

Inductive loc_mute_session_e_type := LOC_MUTE_SESS_NONE | LOC_MUTE_SESS_WAIT | LOC_MUTE_SESS_IN_SESSION.
#[export] Instance mute_eq_dec : EqDecision loc_mute_session_e_type.
Proof. solve_decision. Defined.

(** The callbacks that are not NULL. *)
Record callbacks := Callbacks {
  location_cb : bool;
  status_cb : bool;
  sv_status_cb : bool;
  nmea_cb : bool;
  request_utc_time_cb : bool;
  agps_status_cb : bool;
  download_request_cb : bool;
  ulp_network_callback : bool;
  ulp_phone_context_req_cb : bool
}.

Section effects.
Context `{NmeaEnv}.

(** The functions of [LocApiAdapter] that the engine calls. *)
Inductive adapter_call :=
| A_create (eventMask : Z)               (* getLocApiAdapter *)
| A_reinit | A_startFix | A_stopFix
| A_deleteAidingData (f : Z)
| A_enableData (enable : Z)
| A_setAPN (apn : list Z) (len : Z)
| A_injectPosition (latitude longitude accuracy : real)
| A_setTime (time timeReference uncertainty : Z)
| A_setXtraData (data : list Z) (length : Z)
| A_setPositionMode (posMode : option LocPosMode)
| A_setServer_url (url : chars) (len : Z)
| A_setServer (ip port type : Z)
| A_informNiResponse (userResponse : Z) (passThroughData : option positive)
| A_setSUPLVersion (version : Z)
| A_setLPPConfig (profile : Z)
| A_setSensorControlConfig (sensorUsage : Z)
| A_setSensorProperties (p : sensor_properties)
| A_setSensorPerfControlConfig (p : sensor_perf)
| A_setExtPowerConfig (isBatteryCharging : Z).

(** The callbacks of the framework. *)
Inductive framework_call :=
| F_location (loc : option GpsLocation) (ext : option positive)
| F_sv_status (sv : GpsSvStatus) (ext : option positive)
| F_status (status : Z)
| F_nmea (now : Z) (nmea : chars) (length : Z)
| F_capabilities (c : Z)
| F_download_request
| F_request_utc_time
| F_network_request (r : UlpNetworkRequestPos)
| F_phone_context_request (r : UlpPhoneContextRequest).

(** The calls out of the engine, and the buffers it frees. *)
Inductive effect := ToModem (c : adapter_call) | ToFramework (c : framework_call) | Delete_rawData (p : positive).

(** [gps_conf]: the members the engine reads. *)
Record loc_gps_cfg_s_type := GpsConf {
  INTERMEDIATE_POS : Z;
  ACCURACY_THRES : Z;
  NMEA_PROVIDER : Z;
  SUPL_VER : Z;
  CAPABILITIES : Z;
  LPP_PROFILE : Z;
  SENSOR_USAGE : Z;
  SENSOR_PROPERTIES : sensor_properties;   (* the random walks and their validity *)
  SENSOR_PERF : sensor_perf
}.

Class EngEnv := {
  gps_conf : loc_gps_cfg_s_type;
  adapter_rc : list effect → adapter_call → Z;
  fixCriteria : list effect → LocPosMode;
  accuracy_exceeds : real → Z → bool;      (* a float and an unsigned long *)
  gethostbyname : chars → option Z;        (* the first address *)
  inet_aton : chars → option Z;
  gettimeofday : list effect → Z * Z;      (* seconds, microseconds *)
  client_handle : positive;
  uninit : list Z;                         (* what memory from new holds *)
  pthread_create_rc : list effect → Z;
  cond_pick : list effect → nat;
  bearer0 : Z
}.

Record eng := Eng {
  context : bool;   (* the message queue and thread exist *)
  cb : callbacks;
  intermediateFix : Z;
  generateNmea : bool;
  navigating : bool;   (* the adapter's flag *)
  agps_request_pending : bool;
  stop_request_pending : bool;
  engine_status : Z;
  fix_session_status : Z;
  aiding_data_for_deletion : Z;
  mute_session_state : loc_mute_session_e_type;
  agnss_nif : option AgpsStateMachine;
  internet_nif : option AgpsStateMachine;
  wifi_nif : option AgpsStateMachine;
  nm : nmea;   (* what the NMEA generator uses *)
  ni_data : ni;   (* loc_eng_ni_data *)
  supl_host : option (chars * Z);   (* host and port, if set *)
  c2k_host : option (chars * Z);
  ulp_initialized : bool;
  deferred_q : list loc_eng_msg;
  ulp_q : list loc_eng_msg;
  trace : list effect   (* the calls out of the engine, in order *)
}.

Definition set_context (v : bool) (s : eng) : eng :=
  Eng v (cb s) (intermediateFix s) (generateNmea s) (navigating s) (agps_request_pending s)
    (stop_request_pending s) (engine_status s) (fix_session_status s)
    (aiding_data_for_deletion s) (mute_session_state s) (agnss_nif s) (internet_nif s)
    (wifi_nif s) (nm s) (ni_data s) (supl_host s) (c2k_host s) (ulp_initialized s)
    (deferred_q s) (ulp_q s) (trace s).
Definition set_cb (v : callbacks) (s : eng) : eng :=
  Eng (context s) v (intermediateFix s) (generateNmea s) (navigating s) (agps_request_pending s)
    (stop_request_pending s) (engine_status s) (fix_session_status s)
    (aiding_data_for_deletion s) (mute_session_state s) (agnss_nif s) (internet_nif s)
    (wifi_nif s) (nm s) (ni_data s) (supl_host s) (c2k_host s) (ulp_initialized s)
    (deferred_q s) (ulp_q s) (trace s).
Definition set_intermediateFix (v : Z) (s : eng) : eng :=
  Eng (context s) (cb s) v (generateNmea s) (navigating s) (agps_request_pending s)
    (stop_request_pending s) (engine_status s) (fix_session_status s)
    (aiding_data_for_deletion s) (mute_session_state s) (agnss_nif s) (internet_nif s)
    (wifi_nif s) (nm s) (ni_data s) (supl_host s) (c2k_host s) (ulp_initialized s)
    (deferred_q s) (ulp_q s) (trace s).
Definition set_generateNmea (v : bool) (s : eng) : eng :=
  Eng (context s) (cb s) (intermediateFix s) v (navigating s) (agps_request_pending s)
    (stop_request_pending s) (engine_status s) (fix_session_status s)
    (aiding_data_for_deletion s) (mute_session_state s) (agnss_nif s) (internet_nif s)
    (wifi_nif s) (nm s) (ni_data s) (supl_host s) (c2k_host s) (ulp_initialized s)
    (deferred_q s) (ulp_q s) (trace s).
Definition set_navigating (v : bool) (s : eng) : eng :=
  Eng (context s) (cb s) (intermediateFix s) (generateNmea s) v (agps_request_pending s)
    (stop_request_pending s) (engine_status s) (fix_session_status s)
    (aiding_data_for_deletion s) (mute_session_state s) (agnss_nif s) (internet_nif s)
    (wifi_nif s) (nm s) (ni_data s) (supl_host s) (c2k_host s) (ulp_initialized s)
    (deferred_q s) (ulp_q s) (trace s).
Definition set_agps_request_pending (v : bool) (s : eng) : eng :=
  Eng (context s) (cb s) (intermediateFix s) (generateNmea s) (navigating s) v
    (stop_request_pending s) (engine_status s) (fix_session_status s)
    (aiding_data_for_deletion s) (mute_session_state s) (agnss_nif s) (internet_nif s)
    (wifi_nif s) (nm s) (ni_data s) (supl_host s) (c2k_host s) (ulp_initialized s)
    (deferred_q s) (ulp_q s) (trace s).
Definition set_stop_request_pending (v : bool) (s : eng) : eng :=
  Eng (context s) (cb s) (intermediateFix s) (generateNmea s) (navigating s)
    (agps_request_pending s) v (engine_status s) (fix_session_status s)
    (aiding_data_for_deletion s) (mute_session_state s) (agnss_nif s) (internet_nif s)
    (wifi_nif s) (nm s) (ni_data s) (supl_host s) (c2k_host s) (ulp_initialized s)
    (deferred_q s) (ulp_q s) (trace s).
Definition set_engine_status (v : Z) (s : eng) : eng :=
  Eng (context s) (cb s) (intermediateFix s) (generateNmea s) (navigating s)
    (agps_request_pending s) (stop_request_pending s) v (fix_session_status s)
    (aiding_data_for_deletion s) (mute_session_state s) (agnss_nif s) (internet_nif s)
    (wifi_nif s) (nm s) (ni_data s) (supl_host s) (c2k_host s) (ulp_initialized s)
    (deferred_q s) (ulp_q s) (trace s).
Definition set_fix_session_status (v : Z) (s : eng) : eng :=
  Eng (context s) (cb s) (intermediateFix s) (generateNmea s) (navigating s)
    (agps_request_pending s) (stop_request_pending s) (engine_status s) v
    (aiding_data_for_deletion s) (mute_session_state s) (agnss_nif s) (internet_nif s)
    (wifi_nif s) (nm s) (ni_data s) (supl_host s) (c2k_host s) (ulp_initialized s)
    (deferred_q s) (ulp_q s) (trace s).
Definition set_aiding_data_for_deletion (v : Z) (s : eng) : eng :=
  Eng (context s) (cb s) (intermediateFix s) (generateNmea s) (navigating s)
    (agps_request_pending s) (stop_request_pending s) (engine_status s) (fix_session_status s) v
    (mute_session_state s) (agnss_nif s) (internet_nif s) (wifi_nif s) (nm s) (ni_data s)
    (supl_host s) (c2k_host s) (ulp_initialized s) (deferred_q s) (ulp_q s) (trace s).
Definition set_mute_session_state (v : loc_mute_session_e_type) (s : eng) : eng :=
  Eng (context s) (cb s) (intermediateFix s) (generateNmea s) (navigating s)
    (agps_request_pending s) (stop_request_pending s) (engine_status s) (fix_session_status s)
    (aiding_data_for_deletion s) v (agnss_nif s) (internet_nif s) (wifi_nif s) (nm s)
    (ni_data s) (supl_host s) (c2k_host s) (ulp_initialized s) (deferred_q s) (ulp_q s)
    (trace s).
Definition set_agnss_nif (v : option AgpsStateMachine) (s : eng) : eng :=
  Eng (context s) (cb s) (intermediateFix s) (generateNmea s) (navigating s)
    (agps_request_pending s) (stop_request_pending s) (engine_status s) (fix_session_status s)
    (aiding_data_for_deletion s) (mute_session_state s) v (internet_nif s) (wifi_nif s) (nm s)
    (ni_data s) (supl_host s) (c2k_host s) (ulp_initialized s) (deferred_q s) (ulp_q s)
    (trace s).
Definition set_internet_nif (v : option AgpsStateMachine) (s : eng) : eng :=
  Eng (context s) (cb s) (intermediateFix s) (generateNmea s) (navigating s)
    (agps_request_pending s) (stop_request_pending s) (engine_status s) (fix_session_status s)
    (aiding_data_for_deletion s) (mute_session_state s) (agnss_nif s) v (wifi_nif s) (nm s)
    (ni_data s) (supl_host s) (c2k_host s) (ulp_initialized s) (deferred_q s) (ulp_q s)
    (trace s).
Definition set_wifi_nif (v : option AgpsStateMachine) (s : eng) : eng :=
  Eng (context s) (cb s) (intermediateFix s) (generateNmea s) (navigating s)
    (agps_request_pending s) (stop_request_pending s) (engine_status s) (fix_session_status s)
    (aiding_data_for_deletion s) (mute_session_state s) (agnss_nif s) (internet_nif s) v (nm s)
    (ni_data s) (supl_host s) (c2k_host s) (ulp_initialized s) (deferred_q s) (ulp_q s)
    (trace s).
Definition set_nm (v : nmea) (s : eng) : eng :=
  Eng (context s) (cb s) (intermediateFix s) (generateNmea s) (navigating s)
    (agps_request_pending s) (stop_request_pending s) (engine_status s) (fix_session_status s)
    (aiding_data_for_deletion s) (mute_session_state s) (agnss_nif s) (internet_nif s)
    (wifi_nif s) v (ni_data s) (supl_host s) (c2k_host s) (ulp_initialized s) (deferred_q s)
    (ulp_q s) (trace s).
Definition set_ni_data (v : ni) (s : eng) : eng :=
  Eng (context s) (cb s) (intermediateFix s) (generateNmea s) (navigating s)
    (agps_request_pending s) (stop_request_pending s) (engine_status s) (fix_session_status s)
    (aiding_data_for_deletion s) (mute_session_state s) (agnss_nif s) (internet_nif s)
    (wifi_nif s) (nm s) v (supl_host s) (c2k_host s) (ulp_initialized s) (deferred_q s)
    (ulp_q s) (trace s).
Definition set_supl_host (v : option (chars * Z)) (s : eng) : eng :=
  Eng (context s) (cb s) (intermediateFix s) (generateNmea s) (navigating s)
    (agps_request_pending s) (stop_request_pending s) (engine_status s) (fix_session_status s)
    (aiding_data_for_deletion s) (mute_session_state s) (agnss_nif s) (internet_nif s)
    (wifi_nif s) (nm s) (ni_data s) v (c2k_host s) (ulp_initialized s) (deferred_q s) (ulp_q s)
    (trace s).
Definition set_c2k_host (v : option (chars * Z)) (s : eng) : eng :=
  Eng (context s) (cb s) (intermediateFix s) (generateNmea s) (navigating s)
    (agps_request_pending s) (stop_request_pending s) (engine_status s) (fix_session_status s)
    (aiding_data_for_deletion s) (mute_session_state s) (agnss_nif s) (internet_nif s)
    (wifi_nif s) (nm s) (ni_data s) (supl_host s) v (ulp_initialized s) (deferred_q s) (ulp_q s)
    (trace s).
Definition set_ulp_initialized (v : bool) (s : eng) : eng :=
  Eng (context s) (cb s) (intermediateFix s) (generateNmea s) (navigating s)
    (agps_request_pending s) (stop_request_pending s) (engine_status s) (fix_session_status s)
    (aiding_data_for_deletion s) (mute_session_state s) (agnss_nif s) (internet_nif s)
    (wifi_nif s) (nm s) (ni_data s) (supl_host s) (c2k_host s) v (deferred_q s) (ulp_q s)
    (trace s).
Definition set_deferred_q (v : list loc_eng_msg) (s : eng) : eng :=
  Eng (context s) (cb s) (intermediateFix s) (generateNmea s) (navigating s)
    (agps_request_pending s) (stop_request_pending s) (engine_status s) (fix_session_status s)
    (aiding_data_for_deletion s) (mute_session_state s) (agnss_nif s) (internet_nif s)
    (wifi_nif s) (nm s) (ni_data s) (supl_host s) (c2k_host s) (ulp_initialized s) v (ulp_q s)
    (trace s).
Definition set_ulp_q (v : list loc_eng_msg) (s : eng) : eng :=
  Eng (context s) (cb s) (intermediateFix s) (generateNmea s) (navigating s)
    (agps_request_pending s) (stop_request_pending s) (engine_status s) (fix_session_status s)
    (aiding_data_for_deletion s) (mute_session_state s) (agnss_nif s) (internet_nif s)
    (wifi_nif s) (nm s) (ni_data s) (supl_host s) (c2k_host s) (ulp_initialized s)
    (deferred_q s) v (trace s).
Definition set_trace (v : list effect) (s : eng) : eng :=
  Eng (context s) (cb s) (intermediateFix s) (generateNmea s) (navigating s)
    (agps_request_pending s) (stop_request_pending s) (engine_status s) (fix_session_status s)
    (aiding_data_for_deletion s) (mute_session_state s) (agnss_nif s) (internet_nif s)
    (wifi_nif s) (nm s) (ni_data s) (supl_host s) (c2k_host s) (ulp_initialized s)
    (deferred_q s) (ulp_q s) v.
End effects.

Section engine.
Context `{EngEnv}.

Abbreviation EM := (ST eng).

Definition push (e : effect) (s : eng) : eng := set_trace (trace s ++ [e]) s.
Definition framework (c : framework_call) (s : eng) : eng := push (ToFramework c) s.
(** A call of the adapter and its result. *)
Definition modem_rc (c : adapter_call) (s : eng) : Z * eng := (adapter_rc (trace s) c, push (ToModem c) s).
Definition modem (c : adapter_call) (s : eng) : eng := push (ToModem c) s.

Definition isInSession (s : eng) : bool := navigating s.
Definition setInSession (inSession : bool) (s : eng) : eng := set_navigating inSession s.
Definition getPositionMode (s : eng) : LocPosMode := fixCriteria (trace s).

(** [msg_q_snd] on the deferred queue and on the queue of the ULP. *)
Definition post (m : loc_eng_msg) (s : eng) : eng := set_deferred_q (deferred_q s ++ [m]) s.
Definition post_ulp (m : loc_eng_msg) (s : eng) : eng := set_ulp_q (ulp_q s ++ [m]) s.

Definition ulp_active (s : eng) : bool := ulp_initialized s && has (CAPABILITIES gps_conf) ULP_CAPABILITY.

(** ** Sessions *)

Definition loc_inform_gps_status (status : Z) (s : eng) : eng :=
  if status_cb (cb s) then framework (F_status status) s else s.

Definition loc_eng_start_handler (s : eng) : Z * eng :=
  if negb (isInSession s) then
    let '(ret_val, s) := modem_rc A_startFix s in
    if (ret_val =? LOC_API_ADAPTER_ERR_SUCCESS) || (ret_val =? LOC_API_ADAPTER_ERR_ENGINE_DOWN) then
      (ret_val, loc_inform_gps_status GPS_STATUS_SESSION_BEGIN (setInSession true s))
    else (ret_val, s)
  else (LOC_API_ADAPTER_ERR_SUCCESS, s).

Definition loc_eng_stop_handler (s : eng) : Z * eng :=
  if isInSession s then
    let '(ret_val, s) := modem_rc A_stopFix s in
    let s := if ret_val =? LOC_API_ADAPTER_ERR_SUCCESS
             then loc_inform_gps_status GPS_STATUS_SESSION_END s else s in
    (ret_val, setInSession false s)
  else (LOC_API_ADAPTER_ERR_SUCCESS, s).

(** The first two tests of [loc_eng_report_status]. *)
Definition report_mute (status : Z) (m : loc_mute_session_e_type) : loc_mute_session_e_type :=
  let m := if (status =? GPS_STATUS_SESSION_BEGIN) || (status =? GPS_STATUS_ENGINE_ON) then
             match m with LOC_MUTE_SESS_WAIT => LOC_MUTE_SESS_IN_SESSION | _ => m end
           else m in
  if bool_decide (m = LOC_MUTE_SESS_IN_SESSION) &&
     ((status =? GPS_STATUS_SESSION_END) || (status =? GPS_STATUS_ENGINE_OFF))
  then LOC_MUTE_SESS_NONE else m.

Definition loc_eng_report_status (status : Z) (s : eng) : eng :=
  let s := set_mute_session_state (report_mute status (mute_session_state s)) s in
  let navigating := isInSession s in
  let s :=
    if negb (status =? GPS_STATUS_NONE) &&
       negb ((status =? GPS_STATUS_SESSION_END) && navigating) &&
       negb ((status =? GPS_STATUS_SESSION_BEGIN) && negb navigating)
    then if negb (bool_decide (mute_session_state s = LOC_MUTE_SESS_IN_SESSION))
         then loc_inform_gps_status status s else s
    else s in
  let s := if (status =? GPS_STATUS_ENGINE_ON) || (status =? GPS_STATUS_ENGINE_OFF)
           then set_engine_status status s else s in
  if (status =? GPS_STATUS_SESSION_BEGIN) || (status =? GPS_STATUS_SESSION_END)
  then set_fix_session_status status s else s.

(** ** Configuration *)

Definition loc_eng_reinit (s : eng) : Z * eng :=
  let '(ret_val, s) := modem_rc A_reinit s in
  if LOC_API_ADAPTER_ERR_SUCCESS =? ret_val then
    let s := post (loc_eng_msg_suple_version (SUPL_VER gps_conf)) s in
    let s := post (loc_eng_msg_lpp_config (LPP_PROFILE gps_conf)) s in
    let s := post (loc_eng_msg_sensor_control_config (SENSOR_USAGE gps_conf)) s in
    let p := SENSOR_PROPERTIES gps_conf in
    let s := if gyroBiasVarianceRandomWalk_valid p || accelRandomWalk_valid p ||
                angleRandomWalk_valid p || rateRandomWalk_valid p || velocityRandomWalk_valid p
             then post (loc_eng_msg_sensor_properties p) s else s in
    (ret_val, post (loc_eng_msg_sensor_perf_control_config (SENSOR_PERF gps_conf)) s)
  else (ret_val, s).

(** [htonl] on the little-endian processor. *)
Definition htonl (x : Z) : Z :=
  Z.lor (Z.lor (Z.shiftl (Z.land x 0xFF) 24) (Z.shiftl (Z.land x 0xFF00) 8))
        (Z.lor (Z.land (Z.shiftr x 8) 0xFF00) (Z.land (Z.shiftr x 24) 0xFF)).

(** ["%s:%u"] *)
Definition server_url (hostname : chars) (port : Z) : chars := hostname ++ str ":" ++ digits_of (uint32 port).

Definition resolve_in_addr (host_addr : chars) : option Z :=
  match gethostbyname host_addr with Some a => Some a | None => inet_aton host_addr end.

Definition loc_eng_set_server (type : Z) (hostname : chars) (port : Z) : EM Z :=
  if LOC_AGPS_SUPL_SERVER =? type then
    let url := server_url hostname port in
    let len := Z.of_nat (length url) in
    if len <? MAX_URL_LEN then
      msg ← st_read (λ _, loc_eng_msg_set_server_url url len);
      _ ← st_modify (post msg);
      mret 0
    else mret 0
  else if (LOC_AGPS_CDMA_PDE_SERVER =? type) || (LOC_AGPS_CUSTOM_PDE_SERVER =? type) ||
          (LOC_AGPS_MPC_SERVER =? type) then
    match resolve_in_addr hostname with
    | None => mret (-2)
    | Some addr =>
        _ ← st_modify (post (loc_eng_msg_set_server_ipv4 (htonl addr) port type));
        mret 0
    end
  else mret 0.

Definition loc_eng_agps_reinit : EM unit :=
  supl ← st_get supl_host;
  _ ← (match supl with
       | Some (host, port) => _ ← loc_eng_set_server LOC_AGPS_SUPL_SERVER host port; mret tt
       | None => mret tt
       end);
  c2k ← st_get c2k_host;
  match c2k with
  | Some (host, port) => _ ← loc_eng_set_server LOC_AGPS_CDMA_PDE_SERVER host port; mret tt
  | None => mret tt
  end.

(** A host name in its buffer of 101 bytes. *)
Definition host_buf (hostname : chars) : chars := take 100 hostname.

Definition loc_eng_set_server_proxy (type : Z) (hostname : chars) (port : Z) : EM Z :=
  c ← st_get context;
  if c : bool then loc_eng_set_server type hostname port
  else
    _ ← (if type =? LOC_AGPS_SUPL_SERVER then st_modify (set_supl_host (Some (host_buf hostname, port)))
         else if type =? LOC_AGPS_CDMA_PDE_SERVER then st_modify (set_c2k_host (Some (host_buf hostname, port)))
         else mret tt);
    mret 0.

(** ** The connection machines *)

Inductive which_nif := AGNSS | INTERNET | WIFI.
Definition get_nif (w : which_nif) (s : eng) : option AgpsStateMachine :=
  match w with AGNSS => agnss_nif s | INTERNET => internet_nif s | WIFI => wifi_nif s end.
Definition set_nif (w : which_nif) (m : AgpsStateMachine) : eng → eng :=
  match w with
  | AGNSS => set_agnss_nif (Some m)
  | INTERNET => set_internet_nif (Some m)
  | WIFI => set_wifi_nif (Some m)
  end.

(** A method of a machine; there is none before [loc_eng_agps_init]. *)
Definition on_nif {A} (w : which_nif) (op : AM A) : EM A := λ s,
  match get_nif w s with
  | None => None
  | Some m => match op m with Some (a, m') => Some (a, set_nif w m' s) | None => None end
  end.

Definition if_nif (ifType : Z) : option which_nif :=
  if ifType =? LOC_ENG_IF_REQUEST_TYPE_SUPL then Some AGNSS
  else if ifType =? LOC_ENG_IF_REQUEST_TYPE_ANY then Some INTERNET else None.
Definition agps_nif (agpsType : Z) : which_nif :=
  if agpsType =? AGPS_TYPE_WIFI then WIFI else if agpsType =? AGPS_TYPE_SUPL then AGNSS else INTERNET.

Definition loc_eng_agps_init : EM unit :=
  c ← st_get context;
  a ← st_get (λ s, agps_status_cb (cb s));
  if negb c then mret tt
  else if a : bool then mret tt
  else
    _ ← st_modify (λ s, set_cb (let c := cb s in
          Callbacks (location_cb c) (status_cb c) (sv_status_cb c) (nmea_cb c) (request_utc_time_cb c)
            true (download_request_cb c) (ulp_network_callback c) (ulp_phone_context_req_cb c)) s);
    _ ← st_modify (set_agnss_nif (Some (new_AgpsStateMachine AGPS_TYPE_SUPL bearer0 false (World ∅ [] false))));
    _ ← st_modify (set_internet_nif (Some (new_AgpsStateMachine AGPS_TYPE_WWAN_ANY bearer0 false (World ∅ [] false))));
    _ ← st_modify (set_wifi_nif (Some (new_AgpsStateMachine AGPS_TYPE_WIFI bearer0 true (World ∅ [] false))));
    loc_eng_agps_reinit.

(** ** Reports *)

(** A position worth reporting: a good fix, or an accepted inaccuracy when
    intermediate fixes are accepted. *)
Definition position_accepted (r : position_report) (s : eng) : bool :=
  let l := location r in
  ((LOC_SESS_SUCCESS =? pr_status r) &&
   ((has LOCATION_HAS_SOURCE_INFO (l_flags l) && (ULP_LOCATION_IS_FROM_HYBRID =? position_source l)) ||
    (has LOC_POS_TECH_MASK_SATELLITE (technology_mask r) || has LOC_POS_TECH_MASK_SENSORS (technology_mask r)))) ||
  ((LOC_SESS_INTERMEDIATE =? intermediateFix s) &&
   negb (has (l_flags l) GPS_LOCATION_HAS_ACCURACY && negb (ACCURACY_THRES gps_conf =? 0) &&
         accuracy_exceeds (accuracy l) (ACCURACY_THRES gps_conf))).

(** [tv_sec * 1000LL + tv_usec / 1000] *)
Definition time_after (t : list effect) : Z :=
  let '(tv_sec, tv_usec) := gettimeofday t in int64 (tv_sec * 1000 + Z.quot tv_usec 1000).
Definition send_nmea (sentence : chars) (len : Z) (s : eng) : eng := framework (F_nmea (time_after (trace s)) sentence len) s.

(** Sentences generated from the state and passed to [nmea_cb]. *)
Definition with_nmea (gen : nmea → option nmea) : EM unit := λ s,
  n ← gen (Nmea (sv_used_mask (nm s)) (pdop (nm s)) (hdop (nm s)) (vdop (nm s))
             (LOC_POSITION_MODE_STANDALONE =? mode (getPositionMode s)) []);
  if negb (nmea_cb (cb s)) && negb (length (nmea_sent n) =? 0)%nat then None
  else Some (tt, foldl (λ s '(sentence, len), send_nmea sentence len s)
                   (set_nm (Nmea (sv_used_mask n) (pdop n) (hdop n) (vdop n) false []) s) (nmea_sent n)).

Definition free_rawData (l : GpsLocation) : EM unit :=
  match rawData l with Some p => st_modify (push (Delete_rawData p)) | None => mret tt end.

Definition report_position (r : position_report) : EM unit :=
  muted ← st_get (λ s, bool_decide (mute_session_state s = LOC_MUTE_SESS_IN_SESSION));
  if muted : bool then mret tt
  else
    s ← st_get id;
    reported ←
      (if location_cb (cb s) then
         if LOC_SESS_FAILURE =? pr_status r then
           _ ← st_modify (framework (F_location None None)); mret true
         else if position_accepted r s then
           _ ← st_modify (framework (F_location (Some (location r)) (locationExt r))); mret true
         else mret false
       else mret false);
    pm ← st_get getPositionMode;
    _ ← (if reported && (GPS_POSITION_RECURRENCE_SINGLE =? recurrence pm) then
           _ ← (if LOC_SESS_INTERMEDIATE =? pr_status r then st_modify (modem A_stopFix) else mret tt);
           st_modify (setInSession false)
         else mret tt);
    _ ← (if generateNmea s && (position_source (location r) =? ULP_LOCATION_IS_FROM_GNSS)
         then with_nmea (loc_eng_nmea_generate_pos (location r) (locationExtended r))
         else mret tt);
    free_rawData (location r).

Definition report_sv (r : sv_report) : EM unit :=
  muted ← st_get (λ s, bool_decide (mute_session_state s = LOC_MUTE_SESS_IN_SESSION));
  if muted : bool then mret tt
  else
    s ← st_get id;
    _ ← (if sv_status_cb (cb s) then st_modify (framework (F_sv_status (svStatus r) (svExt r))) else mret tt);
    if generateNmea s then with_nmea (loc_eng_nmea_generate_sv (svStatus r) (sv_locationExtended r))
    else mret tt.

(** ** Requests of the network *)

Definition request_ni (notify : GpsNiNotification) (passThroughData : option positive) (s : eng) : eng :=
  let k := loc_eng_ni_request_handler (pthread_create_rc (trace s)) notify passThroughData
             (set_muted false (ni_data s)) in
  let s := set_ni_data k s in
  if muted k then set_mute_session_state LOC_MUTE_SESS_WAIT s else s.

Definition ni_reset (s : eng) : eng :=
  set_ni_data (loc_eng_ni_reset_on_engine_restart (cond_pick (trace s)) (ni_data s)) s.

(** ** Restart of the modem *)

Definition loc_eng_handle_engine_down (s : eng) : eng :=
  loc_eng_report_status GPS_STATUS_ENGINE_OFF (ni_reset s).

Definition loc_eng_handle_engine_up : EM unit :=
  _ ← st_modify (λ s, (loc_eng_reinit s).2);
  agps ← st_get (λ s, agps_status_cb (cb s));
  _ ← (if agps : bool then
         _ ← on_nif AGNSS dropAllSubscribers;
         _ ← on_nif INTERNET dropAllSubscribers;
         loc_eng_agps_reinit
       else mret tt);
  _ ← st_modify (loc_eng_report_status GPS_STATUS_ENGINE_ON);
  st_modify (λ s,
    if isInSession s then (loc_eng_start_handler (setInSession false (modem (A_setPositionMode None) s))).2
    else s).

(** ** The thread *)

Definition request_atl_nif (type : Z) : which_nif :=
  if (AGPS_TYPE_SUPL =? type) || (AGPS_TYPE_INVALID =? type) then AGNSS else INTERNET.

Definition release_atl (handle : Z) : EM unit :=
  b ← on_nif AGNSS (with_stack (new_ATLSubscriber handle client_handle false) unsubscribeRsrc);
  if b : bool then mret tt
  else
    _ ← on_nif INTERNET (with_stack (new_ATLSubscriber handle client_handle false) unsubscribeRsrc);
    mret tt.

Definition go (m : EM unit) : EM bool := _ ← m; mret true.

(** The cases of the switch that do more than one call. *)
Definition on_report_nmea (msg : loc_eng_msg) : EM bool :=
  match body msg with
  | PReportNmea n l => go (st_modify (λ s, if nmea_cb (cb s) then send_nmea n l s else s))
  | _ => st_fault end.
Definition on_request_bit (msg : loc_eng_msg) : EM bool :=
  match body msg with
  | PBit type v4 v6 =>
      match if_nif type with
      | None => mret true
      | Some w => go (on_nif w (with_stack (new_BITSubscriber uninit v4 v6) subscribeRsrc))
      end
  | _ => st_fault end.
Definition on_release_bit (msg : loc_eng_msg) : EM bool :=
  match body msg with
  | PBit type v4 v6 =>
      match if_nif type with
      | None => mret true
      | Some w => _ ← on_nif w (with_stack (new_BITSubscriber uninit v4 v6) unsubscribeRsrc); mret true
      end
  | _ => st_fault end.
Definition on_request_atl (msg : loc_eng_msg) : EM bool :=
  match body msg with
  | PRequestAtl handle type =>
      go (on_nif (request_atl_nif type)
            (with_stack (new_ATLSubscriber handle client_handle (AGPS_TYPE_INVALID =? type)) subscribeRsrc))
  | _ => st_fault end.
Definition on_request_wifi (msg : loc_eng_msg) : EM bool :=
  match body msg with
  | PWifi _ sender ssid pw =>
      if (sender =? LOC_ENG_IF_REQUEST_SENDER_ID_QUIPC) || (sender =? LOC_ENG_IF_REQUEST_SENDER_ID_MSAPM)
      then go (on_nif WIFI (with_stack (new_WIFISubscriber ssid pw sender) subscribeRsrc))
      else mret true
  | _ => st_fault end.
Definition on_release_wifi (msg : loc_eng_msg) : EM bool :=
  match body msg with
  | PWifi _ sender ssid pw =>
      _ ← on_nif WIFI (with_stack (new_WIFISubscriber ssid pw sender) unsubscribeRsrc); mret true
  | _ => st_fault end.
Definition on_request_xtra_data : EM bool :=
  go (st_modify (λ s, if download_request_cb (cb s) then framework F_download_request s else s)).
Definition on_request_time : EM bool :=
  go (st_modify (λ s, if request_utc_time_cb (cb s) then framework F_request_utc_time s else s)).
Definition on_delete_aiding_data (msg : loc_eng_msg) : EM bool :=
  match body msg with
  | PDeleteAiding f => go (st_modify (λ s, set_aiding_data_for_deletion (Z.lor (aiding_data_for_deletion s) f) s))
  | _ => st_fault end.
Definition on_enable_data (msg : loc_eng_msg) : EM bool :=
  match body msg with
  | PDataEnable e apn len => go (st_modify (λ s, modem (A_setAPN apn len) (modem (A_enableData e) s)))
  | _ => st_fault end.
Definition on_inject_xtra_data (msg : loc_eng_msg) : EM bool :=
  match body msg with PXtra d l => go (st_modify (modem (A_setXtraData d l))) | _ => st_fault end.
Definition on_atl_open_success (msg : loc_eng_msg) : EM bool :=
  match body msg with
  | PAtlOpen type apn len bearer =>
      go (_ ← on_nif (agps_nif type) (setBearer bearer);
          _ ← on_nif (agps_nif type) (setAPN (Some apn) len);
          on_nif (agps_nif type) (onRsrcEvent RSRC_GRANTED))
  | _ => st_fault end.
Definition on_atl_closed (msg : loc_eng_msg) : EM bool :=
  match body msg with PAtl type => go (on_nif (agps_nif type) (onRsrcEvent RSRC_RELEASED)) | _ => st_fault end.
Definition on_atl_open_failed (msg : loc_eng_msg) : EM bool :=
  match body msg with PAtl type => go (on_nif (agps_nif type) (onRsrcEvent RSRC_DENIED)) | _ => st_fault end.
Definition on_request_network_position (msg : loc_eng_msg) : EM bool :=
  match body msg with
  | PNetworkRequest r =>
      go (st_modify (λ s, if ulp_network_callback (cb s) then framework (F_network_request r) s else s))
  | _ => st_fault end.
Definition on_request_phone_context (msg : loc_eng_msg) : EM bool :=
  match body msg with
  | PContextRequest r =>
      go (st_modify (λ s, if ulp_phone_context_req_cb (cb s) then framework (F_phone_context_request r) s else s))
  | _ => st_fault end.

(** The switch of [loc_eng_deferred_action_thread]: the message is cast to the
    struct its identifier stands for; the result is whether the loop goes on. *)
Definition deferred_switch (msg : loc_eng_msg) : EM bool :=
  let id := msgid msg in
  if id =? LOC_ENG_MSG_QUIT then mret false
  else if id =? LOC_ENG_MSG_REQUEST_NI then
    match body msg with PRequestNi n d => go (st_modify (request_ni n d)) | _ => st_fault end
  else if id =? LOC_ENG_MSG_INFORM_NI_RESPONSE then
    match body msg with PNiResponse r d => go (st_modify (modem (A_informNiResponse r d))) | _ => st_fault end
  else if id =? LOC_ENG_MSG_START_FIX then go (st_modify (λ s, (loc_eng_start_handler s).2))
  else if id =? LOC_ENG_MSG_STOP_FIX then
    go (st_modify (λ s, if agps_request_pending s then set_stop_request_pending true s
                        else (loc_eng_stop_handler s).2))
  else if id =? LOC_ENG_MSG_SET_POSITION_MODE then
    match body msg with PPositionMode m => go (st_modify (modem (A_setPositionMode (Some m)))) | _ => st_fault end
  else if id =? LOC_ENG_MSG_SET_TIME then
    match body msg with PSetTime t r u => go (st_modify (modem (A_setTime t r u))) | _ => st_fault end
  else if id =? LOC_ENG_MSG_INJECT_LOCATION then
    match body msg with PInjectLocation a b c => go (st_modify (modem (A_injectPosition a b c))) | _ => st_fault end
  else if id =? LOC_ENG_MSG_SET_SERVER_IPV4 then
    match body msg with PServerIpv4 a p t => go (st_modify (modem (A_setServer a p t))) | _ => st_fault end
  else if id =? LOC_ENG_MSG_SET_SERVER_URL then
    match body msg with PServerUrl u n => go (st_modify (modem (A_setServer_url u n))) | _ => st_fault end
  else if id =? LOC_ENG_MSG_SUPL_VERSION then
    match body msg with PSuplVersion v => go (st_modify (modem (A_setSUPLVersion (uint32 v)))) | _ => st_fault end
  else if id =? LOC_ENG_MSG_LPP_CONFIG then
    match body msg with PLppConfig v => go (st_modify (modem (A_setLPPConfig (uint32 v)))) | _ => st_fault end
  else if id =? LOC_ENG_MSG_SET_SENSOR_CONTROL_CONFIG then
    match body msg with PSensorControl v => go (st_modify (modem (A_setSensorControlConfig v))) | _ => st_fault end
  else if id =? LOC_ENG_MSG_SET_SENSOR_PROPERTIES then
    match body msg with PSensorProperties p => go (st_modify (modem (A_setSensorProperties p))) | _ => st_fault end
  else if id =? LOC_ENG_MSG_SET_SENSOR_PERF_CONTROL_CONFIG then
    match body msg with PSensorPerf p => go (st_modify (modem (A_setSensorPerfControlConfig p))) | _ => st_fault end
  else if id =? LOC_ENG_MSG_EXT_POWER_CONFIG then
    match body msg with PExtPower b => go (st_modify (modem (A_setExtPowerConfig b))) | _ => st_fault end
  else if id =? LOC_ENG_MSG_REPORT_POSITION then
    match body msg with PReportPosition r => go (report_position r) | _ => st_fault end
  else if id =? LOC_ENG_MSG_REPORT_SV then
    match body msg with PReportSv r => go (report_sv r) | _ => st_fault end
  else if id =? LOC_ENG_MSG_REPORT_STATUS then
    match body msg with PReportStatus st => go (st_modify (loc_eng_report_status st)) | _ => st_fault end
  else if id =? LOC_ENG_MSG_REPORT_NMEA then on_report_nmea msg
  else if id =? LOC_ENG_MSG_REQUEST_BIT then on_request_bit msg
  else if id =? LOC_ENG_MSG_RELEASE_BIT then on_release_bit msg
  else if id =? LOC_ENG_MSG_REQUEST_ATL then on_request_atl msg
  else if id =? LOC_ENG_MSG_RELEASE_ATL then
    match body msg with PReleaseAtl handle => go (release_atl handle) | _ => st_fault end
  else if id =? LOC_ENG_MSG_REQUEST_WIFI then on_request_wifi msg
  else if id =? LOC_ENG_MSG_RELEASE_WIFI then on_release_wifi msg
  else if id =? LOC_ENG_MSG_REQUEST_XTRA_DATA then on_request_xtra_data
  else if id =? LOC_ENG_MSG_REQUEST_TIME then on_request_time
  else if id =? LOC_ENG_MSG_REQUEST_POSITION then mret true
  else if id =? LOC_ENG_MSG_DELETE_AIDING_DATA then on_delete_aiding_data msg
  else if id =? LOC_ENG_MSG_ENABLE_DATA then on_enable_data msg
  else if id =? LOC_ENG_MSG_INJECT_XTRA_DATA then on_inject_xtra_data msg
  else if id =? LOC_ENG_MSG_ATL_OPEN_SUCCESS then on_atl_open_success msg
  else if id =? LOC_ENG_MSG_ATL_CLOSED then on_atl_closed msg
  else if id =? LOC_ENG_MSG_ATL_OPEN_FAILED then on_atl_open_failed msg
  else if id =? LOC_ENG_MSG_ENGINE_DOWN then go (st_modify loc_eng_handle_engine_down)
  else if id =? LOC_ENG_MSG_ENGINE_UP then go loc_eng_handle_engine_up
  else if id =? LOC_ENG_MSG_REQUEST_NETWORK_POSIITON then on_request_network_position msg
  else if id =? LOC_ENG_MSG_REQUEST_PHONE_CONTEXT then on_request_phone_context msg
  else mret true.

(** What follows the switch. *)
Definition is_atl_answer (id : Z) : bool :=
  (id =? LOC_ENG_MSG_ATL_OPEN_FAILED) || (id =? LOC_ENG_MSG_ATL_CLOSED) || (id =? LOC_ENG_MSG_ATL_OPEN_SUCCESS).
Definition delete_msg (msg : loc_eng_msg) (s : eng) : eng :=
  match body msg with
  | PNiResponse _ (Some d) => set_ni_data (free d (ni_data s)) s
  | _ => s
  end.
Definition delete_aiding_data (s : eng) : eng :=
  if negb (engine_status s =? GPS_STATUS_ENGINE_ON) && negb (aiding_data_for_deletion s =? 0) then
    set_aiding_data_for_deletion 0 (modem (A_deleteAidingData (aiding_data_for_deletion s)) s)
  else s.
Definition after_switch (msg : loc_eng_msg) (s : eng) : eng :=
  let s :=
    if is_atl_answer (msgid msg) then
      let s := set_agps_request_pending false s in
      if stop_request_pending s then set_stop_request_pending false (loc_eng_stop_handler s).2 else s
    else s in
  let s := set_stop_request_pending false s in
  delete_msg msg (delete_aiding_data s).

(** One round of the loop for a message received. *)
Definition handle_msg (msg : loc_eng_msg) : EM bool :=
  match owner msg with
  | OContext => st_fault                 (* no loc_eng_data there *)
  | OEngine =>
      c ← st_get context;
      if negb c then mret false
      else
        go_on ← deferred_switch msg;
        if go_on : bool then _ ← st_modify (after_switch msg); mret true else mret false
  end.

(** The loop: at most [fuel] rounds, fewer when the queue gets empty (the thread
    sleeps) or the thread ends, which is the result [false]. *)
Fixpoint loc_eng_deferred_action_thread (fuel : nat) : EM bool :=
  match fuel with
  | O => mret true
  | S fuel =>
      q ← st_get deferred_q;
      match q with
      | [] => mret true
      | msg :: q =>
          _ ← st_modify (set_deferred_q q);
          go_on ← handle_msg msg;
          if go_on : bool then loc_eng_deferred_action_thread fuel else mret false
      end
  end.

(** ** Initialisation *)

(** [memset(&loc_eng_data, 0, ...)] and a new adapter; the queues are those of
    the context. *)
Definition zero_eng (s : eng) : eng :=
  Eng false (Callbacks false false false false false false false false false) 0 false false false
    false GPS_STATUS_NONE GPS_STATUS_NONE 0 LOC_MUTE_SESS_NONE None None None
    (Nmea 0 r_zero r_zero r_zero false []) ni_zero None None false (deferred_q s) (ulp_q s) (trace s).

(** At most [tries] attempts, with a pause of a second after a failure. *)
Fixpoint reinit_loop (tries : nat) (ret_val : Z) (s : eng) : Z * eng :=
  match tries with
  | O => (ret_val, s)
  | S tries =>
      let '(ret_val, s) := loc_eng_reinit s in
      if negb (LOC_API_ADAPTER_ERR_SUCCESS =? ret_val) then reinit_loop tries ret_val s else (ret_val, s)
  end.

(** What it sets up before the adapter is there: [c], the callbacks of the
    [LocCallbacks] that are not NULL, and [set_capabilities_cb]. *)
Definition loc_eng_init_data (c : callbacks) (set_capabilities_cb : bool) (event : Z) (s : eng) : eng :=
  let s := set_context true (zero_eng s) in
  let s := if set_capabilities_cb then framework (F_capabilities (CAPABILITIES gps_conf)) s else s in
  let s := set_cb (Callbacks (location_cb c) (status_cb c) (sv_status_cb c) (nmea_cb c)
                     (request_utc_time_cb c) false false false false) s in
  let s := set_intermediateFix (uint8 (INTERMEDIATE_POS gps_conf)) s in
  let generate := has event LOC_API_ADAPTER_BIT_NMEA_1HZ_REPORT &&
                  (NMEA_PROVIDER gps_conf =? NMEA_PROVIDER_AP) in
  let event := if generate then Z.lxor event LOC_API_ADAPTER_BIT_NMEA_1HZ_REPORT else event in
  modem (A_create event) (set_generateNmea generate s).

(** [adapter]: whether an adapter could be made; if not the context is dropped. *)
Definition loc_eng_init (cbs : option (callbacks * bool)) (event : Z) (adapter : bool) (s : eng) : Z * eng :=
  match cbs with
  | None => (0, s)
  | Some (c, set_capabilities_cb) =>
      if event =? 0 then (0, s)
      else if context s then (0, s)
      else
        let s := loc_eng_init_data c set_capabilities_cb event s in
        if negb adapter then (-1, set_context false s) else reinit_loop 30 (-1) s
  end.

(** ** What the clients call *)

(** [INIT_CHECK], then post a message and answer 0. *)
Definition client_post (m : loc_eng_msg) (s : eng) : Z * eng :=
  if negb (context s) then (-1, s) else (0, post m s).

Definition loc_eng_start (s : eng) : Z * eng :=
  if negb (context s) then (-1, s)
  else (0, if ulp_active s then post_ulp (new_loc_eng_msg ULP_MSG_START_FIX) s
           else post (new_loc_eng_msg LOC_ENG_MSG_START_FIX) s).
Definition loc_eng_stop (s : eng) : Z * eng :=
  if negb (context s) then (-1, s)
  else (0, if ulp_active s then post_ulp (new_loc_eng_msg ULP_MSG_STOP_FIX) s
           else post (new_loc_eng_msg LOC_ENG_MSG_STOP_FIX) s).
Definition loc_eng_cleanup (s : eng) : eng :=
  if negb (context s) then s else if isInSession s then (loc_eng_stop s).2 else s.

Definition loc_eng_set_position_mode (params : LocPosMode) : eng → Z * eng :=
  client_post (loc_eng_msg_position_mode params).
Definition loc_eng_inject_time (time timeReference uncertainty : Z) : eng → Z * eng :=
  client_post (loc_eng_msg_set_time time timeReference uncertainty).
Definition loc_eng_inject_location (latitude longitude accuracy : real) : eng → Z * eng :=
  client_post (loc_eng_msg_inject_location latitude longitude accuracy).
Definition loc_eng_delete_aiding_data (f : Z) (s : eng) : eng :=
  (client_post (loc_eng_msg_delete_aiding_data f) s).2.

Definition agps_ready (s : eng) : bool := context s && agps_status_cb (cb s).
(** [smaller_of(strlen(apn), MAX_APN_LEN)] *)
Definition apn_len (apn : list Z) : Z := Z.min (Z.of_nat (length (c_string apn))) MAX_APN_LEN.

Definition loc_eng_agps_open (agpsType : Z) (apn : option (list Z)) (bearerType : Z) : EM Z :=
  ready ← st_get agps_ready;
  if negb ready then mret (-1)
  else match apn with
  | None => mret 0
  | Some apn =>
      msg ← st_read (λ _, loc_eng_msg_atl_open_success agpsType apn (apn_len apn) bearerType);
      _ ← st_modify (post msg);
      mret 0
  end.
Definition loc_eng_agps_closed (agpsType : Z) (s : eng) : Z * eng :=
  if negb (agps_ready s) then (-1, s) else (0, post (loc_eng_msg_atl_closed agpsType) s).
Definition loc_eng_agps_open_failed (agpsType : Z) (s : eng) : Z * eng :=
  if negb (agps_ready s) then (-1, s) else (0, post (loc_eng_msg_atl_open_failed agpsType) s).

Definition loc_eng_agps_ril_update_network_availability (available : Z) (apn : option (list Z)) : EM unit :=
  c ← st_get context;
  if negb c then mret tt
  else match apn with
  | None => mret tt
  | Some apn =>
      msg ← st_read (λ _, loc_eng_msg_set_data_enable apn (apn_len apn) available);
      st_modify (post msg)
  end.

Definition loc_eng_ulp_init (inf : bool) (s : eng) : Z * eng :=
  (0, if inf then set_ulp_initialized true s else s).
(** The value -1 is returned as a [bool]. *)
Definition loc_eng_inject_raw_command (command : list Z) (len : Z) : EM bool :=
  c ← st_get context;
  ulp ← st_get ulp_active;
  if negb c then mret true
  else if ulp : bool then
    msg ← st_read (λ _, ulp_msg_inject_raw_command command len);
    _ ← st_modify (post_ulp msg);
    mret false
  else mret true.
Definition loc_eng_update_criteria (criteria : UlpLocationCriteria) (s : eng) : Z * eng :=
  if negb (context s) then (-1, s)
  else if ulp_active s then (0, post_ulp (ulp_msg_update_criteria criteria) s) else (-1, s).
(** There is no check of the context here: without one its queue is read
    through NULL. *)
Definition loc_eng_ulp_phone_context_settings_update (settings : UlpPhoneContextSettings) : EM Z :=
  ulp ← st_get ulp_active;
  c ← st_get context;
  ret_val ← (if ulp : bool then
               if negb c then st_fault
               else _ ← st_modify (post_ulp (ulp_msg_inject_phone_context_settings settings)); mret 0
             else mret (-1));
  _ ← (if has (context_type settings) ULP_PHONE_CONTEXT_BATTERY_CHARGING_STATE then
         if negb c then st_fault
         else st_modify (post (loc_eng_msg_ext_power_config (b2i (is_battery_charging settings))))
       else mret tt);
  mret ret_val.
Definition loc_eng_ulp_phone_context_init (callback : bool) (s : eng) : Z * eng :=
  (0, set_cb (let c := cb s in
        Callbacks (location_cb c) (status_cb c) (sv_status_cb c) (nmea_cb c) (request_utc_time_cb c)
          (agps_status_cb c) (download_request_cb c) (ulp_network_callback c) callback) s).
Definition loc_eng_ulp_network_init (callback : bool) (s : eng) : Z * eng :=
  (0, set_cb (let c := cb s in
        Callbacks (location_cb c) (status_cb c) (sv_status_cb c) (nmea_cb c) (request_utc_time_cb c)
          (agps_status_cb c) (download_request_cb c) callback (ulp_phone_context_req_cb c)) s).
Definition loc_eng_ulp_send_network_position (report : UlpNetworkPositionReport) : EM Z :=
  ulp ← st_get ulp_active;
  c ← st_get context;
  if ulp : bool then
    if negb c then st_fault
    else _ ← st_modify (post_ulp (ulp_msg_inject_network_position report)); mret 0
  else mret (-1).

(** loc_eng_xtra.cpp *)
Definition loc_eng_xtra_init (callback : bool) (s : eng) : Z * eng :=
  (0, set_cb (let c := cb s in
        Callbacks (location_cb c) (status_cb c) (sv_status_cb c) (nmea_cb c) (request_utc_time_cb c)
          (agps_status_cb c) callback (ulp_network_callback c) (ulp_phone_context_req_cb c)) s).
Definition loc_eng_xtra_inject_data (data : list Z) (len : Z) : EM Z :=
  c ← st_get context;
  msg ← st_read (λ _, loc_eng_msg_inject_xtra_data data len);
  if negb c then st_fault else _ ← st_modify (post msg); mret 0.
End engine.
