(* ===== verification/LocEngFacts.v ===== *)
(** * Theorems about the location engine

    Muted sessions, status and position reports, the deletion of aiding data,
    restarts of the modem, and that no message faults. *)

From Stdlib Require Import String Ascii.
From S2P Require Import Prelude Agps Nmea Ni EngMsg LocEng.
Local Open Scope Z_scope.

(** The switch with its cases in place. *)
Ltac unfold_switch :=
  unfold deferred_switch, on_report_nmea, on_request_bit, on_release_bit, on_request_atl, on_request_wifi,
    on_release_wifi, on_request_xtra_data, on_request_time, on_delete_aiding_data, on_enable_data,
    on_inject_xtra_data, on_atl_open_success, on_atl_closed, on_atl_open_failed, on_request_network_position,
    on_request_phone_context.

(** ** Relations the handlers preserve

    [Walk R ok]: the relation [R] of a state and a later one allows the calls
    [ok] out of the engine, the messages of its configuration, and changes of
    the session flag. *)

Section walk.
Context `{EngEnv}.

(** The messages [loc_eng_reinit] and [loc_eng_set_server] post. *)
Definition config_msg (m : loc_eng_msg) : Prop :=
  owner m = OEngine ∧
  match body m with
  | PSuplVersion _ => msgid m = LOC_ENG_MSG_SUPL_VERSION
  | PLppConfig _ => msgid m = LOC_ENG_MSG_LPP_CONFIG
  | PSensorControl _ => msgid m = LOC_ENG_MSG_SET_SENSOR_CONTROL_CONFIG
  | PSensorProperties _ => msgid m = LOC_ENG_MSG_SET_SENSOR_PROPERTIES
  | PSensorPerf _ => msgid m = LOC_ENG_MSG_SET_SENSOR_PERF_CONTROL_CONFIG
  | PServerUrl _ _ => msgid m = LOC_ENG_MSG_SET_SERVER_URL
  | PServerIpv4 _ _ _ => msgid m = LOC_ENG_MSG_SET_SERVER_IPV4
  | _ => False
  end.

(** Not a report of a position, of satellites or of a sentence. *)
Definition harmless (e : effect) : Prop :=
  match e with
  | ToFramework (F_location _ _ | F_sv_status _ _ | F_nmea _ _ _) => False
  | _ => True
  end.

(** Of what a destructor gives back the engine's state holds the data of a
    request only. *)
Lemma delete_msg_destructor `{EngEnv} msg s :
  delete_msg msg s = foldr (λ o s, match o with PassThrough d => set_ni_data (free d (ni_data s)) s | _ => s end)
    s (destructor msg).
Proof.
  unfold delete_msg, destructor, opt_bytes. destruct (body msg) as []; try reflexivity;
    repeat match goal with |- context [match ?o with Some _ => _ | None => _ end] => destruct o end; reflexivity.
Qed.

(** ** The cases of the switch *)

Inductive switch_view (m : loc_eng_msg) : ST eng bool → Prop :=
| V_quit : switch_view m (mret false)
| V_fault : switch_view m st_fault
| V_skip : switch_view m (mret true)
| V_modem c : (∀ f, c ≠ A_deleteAidingData f) → switch_view m (go (st_modify (modem c)))
| V_data e apn len :
    switch_view m (go (st_modify (λ s, modem (A_setAPN apn len) (modem (A_enableData e) s))))
| V_framework (g : callbacks → bool) (c : eng → framework_call) :
    (∀ s, harmless (ToFramework (c s))) ∨ msgid m = LOC_ENG_MSG_REPORT_NMEA →
    switch_view m (go (st_modify (λ s, if g (cb s) then framework (c s) s else s)))
| V_ni n d : body m = PRequestNi n d → switch_view m (go (st_modify (request_ni n d)))
| V_start : switch_view m (go (st_modify (λ s, (loc_eng_start_handler s).2)))
| V_stop : switch_view m (go (st_modify (λ s,
    if agps_request_pending s then set_stop_request_pending true s else (loc_eng_stop_handler s).2)))
| V_status st : body m = PReportStatus st → switch_view m (go (st_modify (loc_eng_report_status st)))
| V_position r : switch_view m (go (report_position r))
| V_sv r : switch_view m (go (report_sv r))
| V_subscribe w sub : switch_view m (go (on_nif w (with_stack sub subscribeRsrc)))
| V_unsubscribe w sub : switch_view m (_ ← on_nif w (with_stack sub unsubscribeRsrc); mret true)
| V_release_atl h : switch_view m (go (release_atl h))
| V_aiding f : msgid m = LOC_ENG_MSG_DELETE_AIDING_DATA → body m = PDeleteAiding f →
    switch_view m (go (st_modify (λ s, set_aiding_data_for_deletion (Z.lor (aiding_data_for_deletion s) f) s)))
| V_open w b apn len : switch_view m (go (
    _ ← on_nif w (setBearer b); _ ← on_nif w (setAPN apn len); on_nif w (onRsrcEvent RSRC_GRANTED)))
| V_event w ev : switch_view m (go (on_nif w (onRsrcEvent ev)))
| V_down : msgid m = LOC_ENG_MSG_ENGINE_DOWN → switch_view m (go (st_modify loc_eng_handle_engine_down))
| V_up : switch_view m (go loc_eng_handle_engine_up).

Lemma view_if (b : bool) m (x y : ST eng bool) :
  (b = true → switch_view m x) → (b = false → switch_view m y) → switch_view m (if b then x else y).
Proof. destruct b; auto. Qed.

Lemma deferred_switch_view m : switch_view m (deferred_switch m).
Proof.
  unfold_switch. cbn zeta.
  repeat (apply view_if; [intros ?%Z.eqb_eq|intros _]);
    try match goal with |- switch_view _ (match body ?m with _ => _ end) =>
      destruct (body m) eqn:Hbody; try apply V_fault end;
    try (constructor; by auto).
  - destruct (if_nif _); constructor.
  - destruct (if_nif _); constructor.
  - break_if; constructor.
  - apply V_framework. by left.
  - apply V_framework. by left.
  - apply V_framework. by left.
  - apply V_framework. by left.
Qed.

Class Walk (R : eng → eng → Prop) (ok : effect → Prop) : Prop := {
  #[global] walk_preorder :: PreOrder R;
  walk_push e s : ok e → R s (push e s);
  walk_post m s : config_msg m → R s (post m s);
  walk_session b s : R s (setInSession b s);
  walk_modem c : (∀ f, c ≠ A_deleteAidingData f) → ok (ToModem c);
  walk_told st : ok (ToFramework (F_status st))
}.

Section handlers.
Context (R : eng → eng → Prop) (ok : effect → Prop) {W : Walk R ok}.

Lemma walk_call c s : (∀ f, c ≠ A_deleteAidingData f) → R s (modem c s).
Proof. intros Hc. by apply walk_push, walk_modem. Qed.

Lemma walk_inform st s : R s (loc_inform_gps_status st s).
Proof. unfold loc_inform_gps_status. break_if; [apply walk_push, walk_told|reflexivity]. Qed.

Lemma walk_start s : R s (loc_eng_start_handler s).2.
Proof.
  unfold loc_eng_start_handler, modem_rc. break_if; [|reflexivity]. cbn zeta beta iota.
  transitivity (modem A_startFix s); [by apply walk_call|].
  break_if; cbn [snd]; [|reflexivity]. etrans; [apply walk_session|apply walk_inform].
Qed.

Lemma walk_stop s : R s (loc_eng_stop_handler s).2.
Proof.
  unfold loc_eng_stop_handler, modem_rc. break_if; [|reflexivity]. cbn zeta beta iota. cbn [snd].
  transitivity (modem A_stopFix s); [by apply walk_call|].
  etrans; [|apply walk_session]. break_if; [apply walk_inform|reflexivity].
Qed.

Lemma walk_reinit s : R s (loc_eng_reinit s).2.
Proof.
  unfold loc_eng_reinit, modem_rc. cbn zeta beta iota.
  transitivity (modem A_reinit s); [by apply walk_call|]. break_if; cbn [snd]; [|reflexivity].
  assert (∀ m t, config_msg m → R (modem A_reinit s) t → R (modem A_reinit s) (post m t)) as Hpost.
  { intros m t Hm Ht. etrans; [exact Ht|by apply walk_post]. }
  break_if; repeat (apply Hpost; [done|]); reflexivity.
Qed.

Lemma walk_set_server type hostname port : moves R (loc_eng_set_server type hostname port).
Proof.
  unfold loc_eng_set_server. break_if; [|break_if].
  - cbn zeta. break_if; [|apply moves_ret, _].
    intros s a s'. st_run. unfold st_read, loc_eng_msg_set_server_url. break_if; [done|].
    intros [= _ <-]. by apply walk_post.
  - destruct (resolve_in_addr hostname); [|apply moves_ret, _].
    apply moves_bind; [apply _| |intros; apply moves_ret, _].
    apply moves_modify. intros s. by apply walk_post.
  - apply moves_ret, _.
Qed.

Lemma walk_agps_reinit : moves R loc_eng_agps_reinit.
Proof.
  unfold loc_eng_agps_reinit.
  repeat first [apply moves_get, _ | apply walk_set_server | apply moves_ret, _
               | apply moves_bind; [apply _| |intros] | case_match].
Qed.

(** Changes of the machines. *)
Context (Hnif : ∀ w m s, R s (set_nif w m s)).

Lemma walk_on_nif {A} w (op : ST AgpsStateMachine A) : moves R (on_nif w op).
Proof.
  intros s a s'. unfold on_nif. destruct (get_nif w s) as [m|]; [|done].
  destruct (op m) as [[b m']|]; [|done]. intros [= _ <-]. apply Hnif.
Qed.

Lemma walk_release_atl h : moves R (release_atl h).
Proof.
  unfold release_atl. apply moves_bind; [apply _|apply walk_on_nif|intros []]; [apply moves_ret, _|].
  apply moves_bind; [apply _|apply walk_on_nif|intros; apply moves_ret, _].
Qed.

Context (Hup : ∀ s, R s (loc_eng_report_status GPS_STATUS_ENGINE_ON s)).

Lemma walk_engine_up : moves R loc_eng_handle_engine_up.
Proof.
  unfold loc_eng_handle_engine_up. apply moves_bind; [apply _|apply moves_modify, walk_reinit|intros _].
  apply moves_bind; [apply _|apply moves_get, _|intros agps].
  apply moves_bind; [apply _| |intros _].
  { destruct agps; [|apply moves_ret, _].
    do 2 (apply moves_bind; [apply _|apply walk_on_nif|intros _]). apply walk_agps_reinit. }
  apply moves_bind; [apply _|by apply moves_modify|intros _].
  apply moves_modify. intros s. break_if; [|reflexivity].
  transitivity (modem (A_setPositionMode None) s); [by apply walk_call|].
  etrans; [apply walk_session|apply walk_start].
Qed.

(** Sentences and reports, when every callback is allowed. *)
Section reports.
Context (Htold : ∀ c, ok (ToFramework c)) (Hfree : ∀ p, ok (Delete_rawData p)) (Hnm : ∀ n s, R s (set_nm n s)).

Lemma walk_tell c s : R s (framework c s).
Proof. by apply walk_push. Qed.

Lemma walk_nmea gen : moves R (with_nmea gen).
Proof.
  intros s a s'. unfold with_nmea. destruct (gen _) as [n|]; [|done]. cbn [mbind option_bind].
  break_if; [done|]. intros [= _ <-]. clear E.
  set (t := set_nm _ s). assert (R s t) as Ht by apply Hnm. revert Ht.
  generalize t. induction (nmea_sent n) as [|[x len] l IH]; intros u Hu; cbn [foldl]; [done|].
  apply IH. etrans; [exact Hu|]. apply walk_tell.
Qed.

Lemma walk_free_rawData l : moves R (free_rawData l).
Proof. unfold free_rawData. case_match; [by apply moves_modify; intros; apply walk_push|apply moves_ret, _]. Qed.

Lemma walk_report_position r : moves R (report_position r).
Proof.
  unfold report_position. cbn zeta.
  repeat first [apply moves_get, _ | apply moves_ret, _ | apply walk_nmea | apply walk_free_rawData
    | apply moves_bind; [apply _| |intros] | apply moves_if; intros
    | apply moves_modify; intros; first [apply walk_tell | by apply walk_call | apply walk_session] ].
Qed.
Lemma walk_report_sv r : moves R (report_sv r).
Proof.
  unfold report_sv. cbn zeta.
  repeat first [apply moves_get, _ | apply moves_ret, _ | apply walk_nmea
    | apply moves_bind; [apply _| |intros] | apply moves_if; intros | apply moves_modify; intros; apply walk_tell ].
Qed.
End reports.

(** The switch: what a relation has to say of a message besides. *)
Record allows (msg : loc_eng_msg) : Prop := {
  al_told c s : harmless (ToFramework c) ∨ msgid msg = LOC_ENG_MSG_REPORT_NMEA → R s (framework c s);
  al_ni n d s : body msg = PRequestNi n d → R s (request_ni n d s);
  al_stop s : R s (set_stop_request_pending true s);
  al_status st s : body msg = PReportStatus st → R s (loc_eng_report_status st s);
  al_position r : moves R (report_position r);
  al_sv r : moves R (report_sv r);
  al_aiding f s : msgid msg = LOC_ENG_MSG_DELETE_AIDING_DATA →
    R s (set_aiding_data_for_deletion (Z.lor (aiding_data_for_deletion s) f) s);
  al_down s : msgid msg = LOC_ENG_MSG_ENGINE_DOWN → R s (loc_eng_handle_engine_down s)
}.

Lemma walk_switch msg : allows msg → moves R (deferred_switch msg).
Proof.
  intros [Htold Hni Hpend Hst Hpos Hsv Haid Hdown].
  assert (∀ m : ST eng unit, moves R m → moves R (go m)) as Hgo.
  { intros m Hm. apply moves_bind; [apply _|done|intros; apply moves_ret, _]. }
  destruct (deferred_switch_view msg) as
    [ | | |c Hc|e apn len|g c Hc|n d Hbody| | |st Hbody|r|r|w sub|w sub|h|f Hid _|w b apn len|w ev|Hi| ];
    try apply moves_ret, _; try apply moves_fault; try apply Hgo; try apply moves_modify;
    try apply walk_on_nif; auto.
  - intros s. by apply walk_call.
  - intros s. transitivity (modem (A_enableData e) s); by apply walk_call.
  - intros s. break_if; [apply Htold; by destruct Hc; [left|right]|reflexivity].
  - apply walk_start.
  - intros s. break_if; [apply Hpend|apply walk_stop].
  - apply moves_bind; [apply _|apply walk_on_nif|intros; apply moves_ret, _].
  - apply walk_release_atl.
  - repeat (apply moves_bind; [apply _|apply walk_on_nif|intros _]). apply walk_on_nif.
  - apply walk_engine_up.
Qed.

(** What follows the switch, and a round. *)
Record allows_after : Prop := {
  al_pending s : R s (set_agps_request_pending false s);
  al_stopped s : R s (set_stop_request_pending false s);
  al_ni_data k s : R s (set_ni_data k s)
}.

Lemma walk_stop_pending msg s : allows_after →
  R s (set_stop_request_pending false
    (if is_atl_answer (msgid msg) then
       let s := set_agps_request_pending false s in
       if stop_request_pending s then set_stop_request_pending false (loc_eng_stop_handler s).2 else s
     else s)).
Proof.
  intros [Hp Hst _]. etrans; [|apply Hst]. break_if; [|reflexivity]. cbn zeta.
  etrans; [apply Hp|]. break_if; [|reflexivity]. etrans; [apply walk_stop|apply Hst].
Qed.
Lemma walk_delete_msg msg s : allows_after → R s (delete_msg msg s).
Proof. intros [_ _ Hk]. unfold delete_msg. repeat case_match; try reflexivity. apply Hk. Qed.

Lemma walk_delete_aiding s :
  (∀ f s, R s (set_aiding_data_for_deletion 0 (modem (A_deleteAidingData f) s))) → R s (delete_aiding_data s).
Proof. intros Hdel. unfold delete_aiding_data. break_if; [apply Hdel|reflexivity]. Qed.

(** A change that ends a round, too. *)
Lemma walk_after msg s : allows_after →
  (∀ f s, R s (set_aiding_data_for_deletion 0 (modem (A_deleteAidingData f) s))) → R s (after_switch msg s).
Proof.
  intros Hal Hdel. unfold after_switch. cbn zeta. etrans; [|by apply walk_delete_msg].
  etrans; [by apply (walk_stop_pending msg)|by apply walk_delete_aiding].
Qed.

Lemma walk_handle msg : allows msg → allows_after →
  (∀ f s, R s (set_aiding_data_for_deletion 0 (modem (A_deleteAidingData f) s))) → moves R (handle_msg msg).
Proof.
  intros Hm Hal Hdel. unfold handle_msg. destruct (owner msg); [|apply moves_fault].
  apply moves_bind; [apply _|apply moves_get, _|intros []]; cbn [negb]; [|apply moves_ret, _].
  apply moves_bind; [apply _|by apply walk_switch|intros []]; [|apply moves_ret, _].
  apply moves_bind; [apply _|apply moves_modify; intros; by apply walk_after|intros _; apply moves_ret, _].
Qed.
End handlers.
End walk.

Section facts.
Context `{EngEnv}.

(** ** Muted sessions *)

(** A message that does not end the session, is no sentence of the modem and
    does not ask for another muted session. *)
Definition stays_muted (m : loc_eng_msg) : Prop :=
  msgid m ≠ LOC_ENG_MSG_ENGINE_DOWN ∧ msgid m ≠ LOC_ENG_MSG_REPORT_NMEA ∧
  match body m with
  | PReportStatus st => st ≠ GPS_STATUS_SESSION_END ∧ st ≠ GPS_STATUS_ENGINE_OFF
  | PRequestNi n _ => notify_flags n ≠ GPS_NI_PRIVACY_OVERRIDE
  | _ => True
  end.

Lemma config_stays_muted m : config_msg m → stays_muted m.
Proof. destruct m as [o id []]; intros [_ Hid]; cbn in Hid; try done; subst id; repeat split; by intros. Qed.

Definition in_mute (s : eng) : Prop := mute_session_state s = LOC_MUTE_SESS_IN_SESSION.

(** What happens in a muted session. *)
Definition muted_step (s s' : eng) : Prop :=
  in_mute s → in_mute s' ∧
  (∃ l, trace s' = trace s ++ l ∧ Forall harmless l) ∧
  (∃ q, deferred_q s' = deferred_q s ++ q ∧ Forall stays_muted q).

#[local] Instance muted_step_preorder : PreOrder muted_step.
Proof.
  split.
  - intros s Hs. split; [done|]. split; [exists []|exists []]; by rewrite app_nil_r.
  - intros s1 s2 s3 H12 H23 Hs. destruct (H12 Hs) as (Hs2 & (l & Hl & Fl) & (q & Hq & Fq)).
    destruct (H23 Hs2) as (Hs3 & (l' & Hl' & Fl') & (q' & Hq' & Fq')). split; [done|]. split.
    + exists (l ++ l'). split; [by rewrite Hl', Hl, app_assoc|by apply Forall_app].
    + exists (q ++ q'). split; [by rewrite Hq', Hq, app_assoc|by apply Forall_app].
Qed.

(** A step that leaves the mute state, the calls and the queue alone. *)
Lemma muted_same s s' :
  mute_session_state s' = mute_session_state s → trace s' = trace s → deferred_q s' = deferred_q s →
  muted_step s s'.
Proof.
  intros Hm Ht Hq Hs. unfold in_mute. rewrite Hm. split; [done|].
  split; [exists []|exists []]; by rewrite app_nil_r.
Qed.
Hint Extern 3 (muted_step _ _) => by apply muted_same : msm.

#[local] Instance muted_walk : Walk muted_step harmless.
Proof.
  split; [apply _| | | |done|done]; try by auto with msm.
  - intros e s He Hs. split; [done|]. split; [by exists [e]; auto|exists []; by rewrite app_nil_r].
  - intros m s Hm Hs. split; [done|]. split; [exists []; by rewrite app_nil_r|].
    exists [m]. auto using config_stays_muted.
Qed.
Lemma muted_nif w m s : muted_step s (set_nif w m s).
Proof. destruct w; by apply muted_same. Qed.

Lemma muted_status st s : st ≠ GPS_STATUS_SESSION_END → st ≠ GPS_STATUS_ENGINE_OFF →
  muted_step s (loc_eng_report_status st s).
Proof.
  intros He Ho Hs. unfold loc_eng_report_status. cbn zeta.
  assert (report_mute st (mute_session_state s) = LOC_MUTE_SESS_IN_SESSION) as ->.
  { unfold in_mute in Hs. rewrite Hs. unfold report_mute.
    rewrite (proj2 (Z.eqb_neq st GPS_STATUS_SESSION_END)), (proj2 (Z.eqb_neq st GPS_STATUS_ENGINE_OFF)) by done.
    by destruct ((st =? GPS_STATUS_SESSION_BEGIN) || (st =? GPS_STATUS_ENGINE_ON)). }
  revert Hs. cbn [mute_session_state set_mute_session_state].
  rewrite bool_decide_eq_true_2 by done. cbn [negb].
  assert (∀ b1 b2 b3 : bool, muted_step s
    (let s1 := if b1 then set_mute_session_state LOC_MUTE_SESS_IN_SESSION s
               else set_mute_session_state LOC_MUTE_SESS_IN_SESSION s in
     let s2 := if b2 then set_engine_status st s1 else s1 in
     if b3 then set_fix_session_status st s2 else s2)) as Hb.
  { intros b1 b2 b3. cbn zeta.
    intros Hs. assert (set_mute_session_state LOC_MUTE_SESS_IN_SESSION s = s) as ->.
    { destruct s. unfold in_mute in Hs. cbn in *. by rewrite Hs. }
    revert Hs. destruct b1, b2, b3; by apply muted_same. }
  apply (Hb (negb (st =? GPS_STATUS_NONE) && _ && _)).
Qed.

(** A muted session reports nothing: the handlers of reports return at once. *)
Lemma muted_report (m : ST eng unit) :
  moves muted_step (muted ← st_get (λ s, bool_decide (mute_session_state s = LOC_MUTE_SESS_IN_SESSION));
                    if muted : bool then mret tt else m).
Proof.
  intros s a s'. rewrite st_bind_run. cbn [st_get].
  intros Hrun Hs. rewrite bool_decide_eq_true_2 in Hrun by done. injection Hrun as _ <-.
  by apply (PreOrder_Reflexive (R := muted_step)).
Qed.

Lemma muted_request_ni n d s : notify_flags n ≠ GPS_NI_PRIVACY_OVERRIDE → muted_step s (request_ni n d s).
Proof.
  intros Hn. unfold request_ni. cbn zeta.
  assert (∀ rc, muted (loc_eng_ni_request_handler rc n d (set_muted false (ni_data s))) = false) as ->.
  { intros rc. unfold loc_eng_ni_request_handler. rewrite (proj2 (Z.eqb_neq _ _) Hn).
    repeat (case_match; try done). }
  by apply muted_same.
Qed.

Lemma muted_handle msg : stays_muted msg → moves muted_step (handle_msg msg).
Proof.
  intros (Hd & Hn & Hb).
  apply (walk_handle _ harmless); [apply muted_nif|intros s; by apply muted_status| | |].
  - split; try (intros r; apply muted_report); try by auto with msm.
    + intros c s [Hc|]; [by apply (walk_push (ok := harmless))|done].
    + intros n d s Hbody. rewrite Hbody in Hb. by apply muted_request_ni.
    + intros st s Hbody. rewrite Hbody in Hb. destruct Hb. by apply muted_status.
  - by split; auto with msm.
  - intros f s. transitivity (modem (A_deleteAidingData f) s);
      [by apply (walk_push (ok := harmless))|by apply muted_same].
Qed.

(** C6: While the muted session lasts, whatever messages the thread handles -
    start and stop of fixes, data connections, even a restart of the modem -
    the framework gets no position, no satellite report and no generated
    sentence, and the session stays muted. *)
Theorem muted_session_private n s b s' :
  in_mute s → Forall stays_muted (deferred_q s) →
  loc_eng_deferred_action_thread n s = Some (b, s') →
  in_mute s' ∧ ∃ l, trace s' = trace s ++ l ∧ Forall harmless l.
Proof.
  revert s. induction n as [|n IH]; intros s Hs Hq; cbn [loc_eng_deferred_action_thread].
  { intros [= _ <-]. split; [done|]. exists []. by rewrite app_nil_r. }
  rewrite st_bind_run. cbn [st_get]. destruct (deferred_q s) as [|msg q] eqn:Eq.
  { intros [= _ <-]. split; [done|]. exists []. by rewrite app_nil_r. }
  rewrite st_bind_run. cbn [st_modify]. rewrite st_bind_run.
  apply Forall_cons in Hq as [Hmsg Hq].
  destruct (handle_msg msg (set_deferred_q q s)) as [[go_on s1]|] eqn:Hrun; [|done].
  destruct (muted_handle msg Hmsg _ _ _ Hrun Hs) as (Hs1 & (l & Hl & Fl) & (q' & Hq' & Fq')).
  destruct go_on.
  - intros Hloop. destruct (IH s1 Hs1) as (Hs' & l' & Hl' & Fl'); [|done|].
    { rewrite Hq'. by apply Forall_app. }
    split; [done|]. exists (l ++ l'). split; [|by apply Forall_app].
    by rewrite Hl', Hl, app_assoc.
  - intros [= _ <-]. split; [done|]. by exists l.
Qed.

(** ** Aiding data *)

Definition deletion (e : effect) : option Z :=
  match e with ToModem (A_deleteAidingData f) => Some f | _ => None end.
Definition no_deletion (e : effect) : Prop := deletion e = None.
Definition deletions (l : list effect) : list Z := omap deletion l.

(** A step that neither asks for a deletion nor deletes. *)
Definition aiding_step (s s' : eng) : Prop :=
  aiding_data_for_deletion s' = aiding_data_for_deletion s ∧
  ∃ l, trace s' = trace s ++ l ∧ deletions l = [].

#[local] Instance aiding_step_preorder : PreOrder aiding_step.
Proof.
  split.
  - intros s. split; [done|]. exists []. by rewrite app_nil_r.
  - intros s1 s2 s3 (Ha & l & Hl & Dl) (Ha' & l' & Hl' & Dl'). split; [congruence|].
    exists (l ++ l'). split; [by rewrite Hl', Hl, app_assoc|].
    unfold deletions in *. by rewrite omap_app, Dl, Dl'.
Qed.

Lemma aiding_same s s' :
  aiding_data_for_deletion s' = aiding_data_for_deletion s → trace s' = trace s → aiding_step s s'.
Proof. intros Ha Ht. split; [done|]. exists []. by rewrite app_nil_r. Qed.

#[local] Instance aiding_walk : Walk aiding_step no_deletion.
Proof.
  split; [apply _| |intros; by apply aiding_same..| |done].
  - intros e s He. split; [done|]. exists [e]. split; [done|]. cbn. by rewrite He.
  - intros [] Hc; try done. by edestruct Hc.
Qed.
Lemma aiding_nif w m s : aiding_step s (set_nif w m s).
Proof. destruct w; by apply aiding_same. Qed.

Lemma aiding_status st s : aiding_step s (loc_eng_report_status st s).
Proof.
  unfold loc_eng_report_status. cbn zeta. set (t := set_mute_session_state _ s).
  assert (aiding_step s t) as Ht by by apply aiding_same.
  assert (∀ u, aiding_step s u → aiding_step s (if (st =? GPS_STATUS_ENGINE_ON) || (st =? GPS_STATUS_ENGINE_OFF)
    then set_engine_status st u else u)) as H1.
  { intros u Hu. etrans; [exact Hu|]. break_if; [by apply aiding_same|reflexivity]. }
  assert (∀ u, aiding_step s u → aiding_step s (if (st =? GPS_STATUS_SESSION_BEGIN) || (st =? GPS_STATUS_SESSION_END)
    then set_fix_session_status st u else u)) as H2.
  { intros u Hu. etrans; [exact Hu|]. break_if; [by apply aiding_same|reflexivity]. }
  apply H2, H1. repeat break_if; [etrans; [exact Ht|apply (walk_inform _ no_deletion)]|done..].
Qed.

(** What the message asks to delete. *)
Definition requested (msg : loc_eng_msg) : Z :=
  if msgid msg =? LOC_ENG_MSG_DELETE_AIDING_DATA then
    match body msg with PDeleteAiding f => f | _ => 0 end
  else 0.

Lemma aiding_switch msg s c s' : deferred_switch msg s = Some (c, s') →
  aiding_step (set_aiding_data_for_deletion (Z.lor (aiding_data_for_deletion s) (requested msg)) s) s'.
Proof.
  unfold requested. destruct (Z.eqb_spec (msgid msg) LOC_ENG_MSG_DELETE_AIDING_DATA) as [Hid|Hid].
  { unfold_switch. rewrite Hid. cbn. destruct (body msg); try done. by intros [= _ <-]. }
  rewrite Z.lor_0_r. intros Hrun. transitivity s; [by apply aiding_same|].
  revert s c s' Hrun. change (moves aiding_step (deferred_switch msg)).
  apply (walk_switch _ no_deletion); [apply aiding_nif|intros s; apply aiding_status|].
  assert (∀ n s, aiding_step s (set_nm n s)) as Hnm by (intros; by apply aiding_same).
  split; try (intros; by apply aiding_same); try done.
  - intros c s _. by apply (walk_push (ok := no_deletion)).
  - intros n d s _. unfold request_ni. cbn zeta. break_if; by apply aiding_same.
  - intros st s _. apply aiding_status.
  - by apply (walk_report_position _ no_deletion).
  - by apply (walk_report_sv _ no_deletion).
  - intros s _. transitivity (ni_reset s); [by apply aiding_same|apply aiding_status].
Qed.

(** What is left to delete. *)
Definition pending (msg : loc_eng_msg) (s : eng) : Z := Z.lor (aiding_data_for_deletion s) (requested msg).

(** C9: Aiding data are deleted as soon as the engine is not on, and never while
    it is: at the end of a round nothing is left to delete unless the modem's
    status is [GPS_STATUS_ENGINE_ON], what earlier messages and this one asked
    for is then deleted by one call, and no other deletion happens. *)
Theorem aiding_data_deletion msg s s' :
  handle_msg msg s = Some (true, s') →
  ∃ l, trace s' = trace s ++ l ∧
    if engine_status s' =? GPS_STATUS_ENGINE_ON
    then aiding_data_for_deletion s' = pending msg s ∧ deletions l = []
    else aiding_data_for_deletion s' = 0 ∧
         deletions l = if pending msg s =? 0 then [] else [pending msg s].
Proof.
  unfold handle_msg. destruct (owner msg); [|done]. rewrite st_bind_run. cbn [st_get].
  destruct (context s); cbn [negb]; [|done]. rewrite st_bind_run.
  destruct (deferred_switch msg s) as [[[] s1]|] eqn:Hrun; [|done..].
  apply aiding_switch in Hrun as (Ha & l1 & Hl1 & D1). st_run. intros [= <-].
  unfold after_switch. cbn zeta.
  match goal with |- context [delete_aiding_data ?x] => assert (aiding_step s1 x) as Hx end.
  { apply (walk_stop_pending _ no_deletion). split; intros; by apply aiding_same. }
  match goal with |- context [delete_aiding_data ?x] => set (u := x) in *; clearbody u end.
  destruct Hx as (Hau & l2 & Hl2 & D2).
  assert (∀ v : eng, engine_status (delete_msg msg v) = engine_status v ∧
    aiding_data_for_deletion (delete_msg msg v) = aiding_data_for_deletion v ∧
    trace (delete_msg msg v) = trace v) as Hdel.
  { intros v. unfold delete_msg. by repeat case_match. }
  destruct (Hdel (delete_aiding_data u)) as (-> & -> & ->). clear Hdel.
  cbn [trace set_aiding_data_for_deletion aiding_data_for_deletion] in Hl1, Ha.
  assert (aiding_data_for_deletion u = pending msg s) as Hp by (rewrite Hau; exact Ha).
  assert (trace u = trace s ++ (l1 ++ l2)) as Ht by (rewrite Hl2, Hl1; symmetry; apply app_assoc).
  assert (deletions (l1 ++ l2) = []) as D by (unfold deletions in *; by rewrite omap_app, D1, D2).
  unfold delete_aiding_data. rewrite Hp. destruct (engine_status u =? GPS_STATUS_ENGINE_ON) eqn:Hon; cbn [negb andb].
  { exists (l1 ++ l2). cbn. by rewrite Hon. }
  destruct (pending msg s =? 0) eqn:Hz; cbn [negb].
  { exists (l1 ++ l2). cbn. rewrite Hon, Hp. apply Z.eqb_eq in Hz. by rewrite Hz. }
  exists ((l1 ++ l2) ++ [ToModem (A_deleteAidingData (pending msg s))]). cbn. rewrite Hon, Ht.
  split; [symmetry; apply app_assoc|]. split; [done|]. unfold deletions in *. by rewrite omap_app, D.
Qed.

(** ** No message faults *)

(** What is kept for the sentences can be printed. *)
Definition cache_fits (n : nmea) : Prop :=
  0 ≤ sv_used_mask n ∧ fits (pdop n) ∧ fits (hdop n) ∧ fits (vdop n).

(** A message its constructor made: the identifier is that of the struct, the
    reports can be printed, the subscribers are well formed. *)
Definition valid_body (b : payload) (id : Z) : Prop :=
  match b with
  | PNone => id ∈ [LOC_ENG_MSG_START_FIX; LOC_ENG_MSG_STOP_FIX; LOC_ENG_MSG_ENGINE_DOWN;
                   LOC_ENG_MSG_ENGINE_UP; LOC_ENG_MSG_REQUEST_XTRA_DATA; LOC_ENG_MSG_REQUEST_TIME]
  | PSuplVersion _ => id = LOC_ENG_MSG_SUPL_VERSION
  | PLppConfig _ => id = LOC_ENG_MSG_LPP_CONFIG
  | PExtPower _ => id = LOC_ENG_MSG_EXT_POWER_CONFIG
  | PSensorControl _ => id = LOC_ENG_MSG_SET_SENSOR_CONTROL_CONFIG
  | PSensorProperties _ => id = LOC_ENG_MSG_SET_SENSOR_PROPERTIES
  | PSensorPerf _ => id = LOC_ENG_MSG_SET_SENSOR_PERF_CONTROL_CONFIG
  | PPositionMode _ => id = LOC_ENG_MSG_SET_POSITION_MODE
  | PSetTime _ _ _ => id = LOC_ENG_MSG_SET_TIME
  | PInjectLocation _ _ _ => id = LOC_ENG_MSG_INJECT_LOCATION
  | PDeleteAiding _ => id = LOC_ENG_MSG_DELETE_AIDING_DATA
  | PReportPosition r => id = LOC_ENG_MSG_REPORT_POSITION ∧
      ∀ n, cache_fits n → pos_fits (location r) (locationExtended r) n
  | PReportSv r => id = LOC_ENG_MSG_REPORT_SV ∧
      let sv := svStatus r in let e := sv_locationExtended r in
      num_svs sv = Z.of_nat (length (svl sv)) ∧ (length (svl sv) ≤ GPS_MAX_SVS)%nat ∧
      Forall sv_fits (svl sv) ∧ 0 ≤ used_in_fix_mask sv ∧ fits (e_pdop e) ∧ fits (e_hdop e) ∧ fits (e_vdop e)
  | PReportStatus _ => id = LOC_ENG_MSG_REPORT_STATUS
  | PReportNmea _ _ => id = LOC_ENG_MSG_REPORT_NMEA
  | PBit _ v4 v6 => (id = LOC_ENG_MSG_REQUEST_BIT ∨ id = LOC_ENG_MSG_RELEASE_BIT) ∧
      ok_sub (new_BITSubscriber uninit v4 v6)
  | PWifi _ sender ssid pw => (id = LOC_ENG_MSG_REQUEST_WIFI ∨ id = LOC_ENG_MSG_RELEASE_WIFI) ∧
      ok_sub (new_WIFISubscriber ssid pw sender)
  | PRequestAtl handle _ => id = LOC_ENG_MSG_REQUEST_ATL ∧ uint32 handle ≠ INADDR_NONE
  | PReleaseAtl handle => id = LOC_ENG_MSG_RELEASE_ATL ∧ uint32 handle ≠ INADDR_NONE
  | PRequestNi _ _ => id = LOC_ENG_MSG_REQUEST_NI
  | PNiResponse _ _ => id = LOC_ENG_MSG_INFORM_NI_RESPONSE
  | PApn _ => id = LOC_ENG_MSG_SET_APN
  | PServerIpv4 _ _ _ => id = LOC_ENG_MSG_SET_SERVER_IPV4
  | PServerUrl _ _ => id = LOC_ENG_MSG_SET_SERVER_URL
  | PXtra _ _ => id = LOC_ENG_MSG_INJECT_XTRA_DATA
  | PAtlOpen _ apn len _ => id = LOC_ENG_MSG_ATL_OPEN_SUCCESS ∧
      0 <= len <= Z.of_nat (length apn) ∧ len + 1 < 2 ^ 32
  | PAtl _ => id = LOC_ENG_MSG_ATL_CLOSED ∨ id = LOC_ENG_MSG_ATL_OPEN_FAILED
  | PDataEnable _ _ _ => id = LOC_ENG_MSG_ENABLE_DATA
  | PNetworkRequest _ => id = LOC_ENG_MSG_REQUEST_NETWORK_POSIITON
  | PContextRequest _ => id = LOC_ENG_MSG_REQUEST_PHONE_CONTEXT
  | PCriteria _ => id = ULP_MSG_UPDATE_CRITERIA
  | PRawCommand _ _ => id = ULP_MSG_INJECT_RAW_COMMAND
  | PContextSettings _ => id = ULP_MSG_INJECT_PHONE_CONTEXT_SETTINGS
  | PNetworkReport _ => id = ULP_MSG_INJECT_NETWORK_POSITION
  | PQuipc _ _ => id = ULP_MSG_REPORT_QUIPC_POSITION
  end.
Definition valid (m : loc_eng_msg) : Prop := owner m = OEngine ∧ valid_body (body m) (msgid m).

(** An engine whose data connections are set up. *)
Record ready (s : eng) : Prop := {
  r_nifs w : ∃ m l, get_nif w s = Some m ∧ linked m l;
  r_nmea_cb : generateNmea s = true → nmea_cb (cb s) = true;
  r_cache : cache_fits (nm s);
  r_queue : Forall valid (deferred_q s)
}.

Lemma config_valid m : config_msg m → valid m.
Proof. destruct m as [o id []]; intros [Ho Hid]; split; done. Qed.

Lemma ready_same s s' :
  agnss_nif s' = agnss_nif s → internet_nif s' = internet_nif s → wifi_nif s' = wifi_nif s →
  generateNmea s' = generateNmea s → cb s' = cb s → nm s' = nm s → deferred_q s' = deferred_q s →
  ready s → ready s'.
Proof.
  intros Ha Hi Hw Hg Hc Hn Hq [H1 H2 H3 H4]. split; [|by rewrite ?Hg, ?Hc, ?Hn, ?Hq..].
  intros w. specialize (H1 w). destruct w; cbn in *; by rewrite ?Ha, ?Hi, ?Hw.
Qed.

Lemma ready_post m s : config_msg m → ready s → ready (post m s).
Proof.
  intros Hm [H1 H2 H3 H4]. split; [intros w; specialize (H1 w); by destruct w|done|done|].
  apply Forall_app. split; [done|]. repeat constructor; by apply config_valid.
Qed.

Definition keeps_ready (s s' : eng) : Prop := ready s → ready s'.
#[local] Instance ready_walk : Walk keeps_ready (λ _, True).
Proof.
  split; [split; unfold keeps_ready; red; auto|intros ? s ? ?; by apply (ready_same s)| |
          intros ? s ?; by apply (ready_same s)|done|done].
  intros m s Hm Hs. by apply ready_post.
Qed.

Lemma ready_call c s : ready s → ready (modem c s).
Proof. by apply ready_same. Qed.
Lemma ready_told c s : ready s → ready (framework c s).
Proof. by apply ready_same. Qed.

Lemma ready_status st s : ready s → ready (loc_eng_report_status st s).
Proof.
  unfold loc_eng_report_status, loc_inform_gps_status. cbn zeta.
  intros Hs. repeat break_if; by apply (ready_same s).
Qed.

(** The methods of the machines. *)
Lemma safe_on_nif {A} w (op : ST AgpsStateMachine A) :
  (∀ m l, linked m l → ∃ a m' l', op m = Some (a, m') ∧ linked m' l') → safe ready (on_nif w op).
Proof.
  intros Hop s [H1 H2 H3 H4]. destruct (H1 w) as (m & l & Hm & Hu).
  destruct (Hop m l Hu) as (a & m' & l' & Hrun & Hu'). exists a, (set_nif w m' s).
  unfold on_nif. rewrite Hm, Hrun. split; [done|].
  split; [|destruct w; done..]. intros v. specialize (H1 v). destruct w, v; cbn; eauto.
Qed.

Lemma safe_nif_call w k : valid_call k → safe ready (on_nif w (run_call k)).
Proof.
  intros Hk. apply safe_on_nif. intros m l Hm. destruct (linked_call m l k Hm Hk) as (m' & Hrun & Hu). by eauto.
Qed.
Lemma safe_unsubscribe w sub : ok_sub sub → safe ready (on_nif w (with_stack sub unsubscribeRsrc)).
Proof.
  intros Hk. apply safe_on_nif. intros m l Hm.
  destruct (linked_unsubscribe m l sub Hm Hk) as (m' & Hrun & Hu). by eauto.
Qed.
Lemma safe_drop w : safe ready (on_nif w dropAllSubscribers).
Proof.
  apply safe_on_nif. intros m l Hm. destruct (linked_drop m l Hm) as (m' & Hrun & Hu). by eauto.
Qed.

Lemma safe_set_server type hostname port : safe ready (loc_eng_set_server type hostname port).
Proof.
  unfold loc_eng_set_server. break_if; [|break_if].
  - cbn zeta. break_if; [|apply safe_ret]. intros s Hs. st_run.
    unfold st_read, loc_eng_msg_set_server_url.
    rewrite (proj2 (Z.ltb_ge _ 0)), Z.ltb_irrefl by lia. cbn [orb]. do 2 eexists. split; [done|].
    by apply ready_post.
  - destruct (resolve_in_addr hostname); [|apply safe_ret].
    apply safe_bind; [|intros; apply safe_ret]. apply safe_modify. intros s Hs.
    by apply ready_post.
  - apply safe_ret.
Qed.

Lemma safe_agps_reinit : safe ready loc_eng_agps_reinit.
Proof.
  unfold loc_eng_agps_reinit.
  repeat first [apply safe_get | apply safe_set_server | apply safe_ret | apply safe_bind; [|intros] | case_match].
Qed.

Lemma safe_engine_up : safe ready loc_eng_handle_engine_up.
Proof.
  unfold loc_eng_handle_engine_up.
  apply safe_bind; [apply safe_modify, (walk_reinit keeps_ready (λ _, True))|intros _].
  apply safe_bind; [apply safe_get|intros agps]. apply safe_bind; [|intros _].
  { destruct agps; [|apply safe_ret]. do 2 (apply safe_bind; [apply safe_drop|intros _]). apply safe_agps_reinit. }
  apply safe_bind; [apply safe_modify, ready_status|intros _]. apply safe_modify. intros s Hs. break_if; [|done].
  apply (walk_start keeps_ready (λ _, True)). by apply (ready_same s).
Qed.

(** The sentences. *)
Lemma safe_nmea (gen : nmea → option nmea) s :
  (∀ n, cache_fits n → ∃ n', gen n = Some n' ∧ cache_fits n') → generateNmea s = true →
  ready s → ∃ a s', with_nmea gen s = Some (a, s') ∧ ready s'.
Proof.
  intros Hgen Hg Hs. pose proof Hs as [H1 H2 H3 H4]. unfold with_nmea.
  destruct (Hgen (Nmea (sv_used_mask (nm s)) (pdop (nm s)) (hdop (nm s)) (vdop (nm s))
    (LOC_POSITION_MODE_STANDALONE =? mode (getPositionMode s)) []) H3) as (n & -> & Hn).
  cbn [mbind option_bind]. rewrite (H2 Hg). cbn [negb andb]. do 2 eexists. split; [done|].
  assert (∀ l u, ready u → ready (foldl (λ s '(sentence, len), send_nmea sentence len s) u l)) as Hl.
  { induction l as [|[x len] l IH]; intros u Hu; cbn; [done|]. by apply IH, ready_told. }
  apply Hl. split; [intros w; specialize (H1 w); by destruct w|done|done|done].
Qed.

Lemma cache_position r n : fits r_zero → cache_fits n →
  (∀ n, cache_fits n → pos_fits (location r) (locationExtended r) n) →
  ∃ n', loc_eng_nmea_generate_pos (location r) (locationExtended r) n = Some n' ∧ cache_fits n'.
Proof. intros Hz Hn Hf. rewrite generate_pos_run by auto. eexists. split; [done|]. split; [cbn; lia|done]. Qed.

Lemma send_all_cache l n : sv_used_mask (send_all l n) = sv_used_mask n ∧ pdop (send_all l n) = pdop n ∧
  hdop (send_all l n) = hdop n ∧ vdop (send_all l n) = vdop n.
Proof. by destruct n. Qed.

Lemma cache_sv r n : fits r_zero → cache_fits n → valid_body (PReportSv r) LOC_ENG_MSG_REPORT_SV →
  ∃ n', loc_eng_nmea_generate_sv (svStatus r) (sv_locationExtended r) n = Some n' ∧ cache_fits n'.
Proof.
  intros Hz Hn (_ & Hnum & H32 & Hf & Hm & Hd). destruct r as [[num svs mask] e ext]. cbn in *. subst num.
  rewrite generate_sv_run by done. eexists. split; [done|].
  destruct (mask =? 0).
  - unfold cache_fits in *. by destruct (send_all_cache (sv_sentences svs ++ blank_sentences) n) as (-> & -> & -> & ->).
  - unfold sv_cache, cache_fits. by break_if; cbn.
Qed.

(** Ready, and generating sentences or not. *)
Definition ready_with (g : bool) (s : eng) : Prop := ready s ∧ generateNmea s = g.
Lemma ready_with_told g c s : ready_with g s → ready_with g (framework c s).
Proof. intros []. split; [by apply ready_told|done]. Qed.

Lemma safe_nmea_if gen g (b : bool) :
  (∀ n, cache_fits n → ∃ n', gen n = Some n' ∧ cache_fits n') → (b = true → g = true) →
  ∀ s, ready_with g s → ∃ a s', (if b then with_nmea gen else mret tt) s = Some (a, s') ∧ ready s'.
Proof.
  intros Hgen Hb s [Hs <-]. destruct b; [apply safe_nmea; auto|]. by exists tt, s.
Qed.

Lemma safe_bind_to {S A B} (I J : S → Prop) (m : ST S A) (f : A → ST S B) s :
  safe I m → I s → (∀ a s, I s → ∃ b s', f a s = Some (b, s') ∧ J s') → ∃ b s', (m ≫= f) s = Some (b, s') ∧ J s'.
Proof.
  intros Hm Hs Hf. destruct (Hm s Hs) as (a & s1 & Hrun & H1). rewrite (st_bind_some _ _ _ _ _ Hrun). by apply Hf.
Qed.

Lemma safe_free_rawData l : safe ready (free_rawData l).
Proof.
  unfold free_rawData. case_match; [|apply safe_ret]. apply safe_modify. intros s. by apply ready_same.
Qed.

Lemma safe_report_position r : fits r_zero → (∀ n, cache_fits n → pos_fits (location r) (locationExtended r) n) →
  safe ready (report_position r).
Proof.
  intros Hz Hr s Hs. unfold report_position. st_run. break_if; [by exists tt, s|]. st_run. change (id s) with s.
  assert (ready_with (generateNmea s) s) as Hw by done.
  eapply safe_bind_to; [|exact Hw|].
  { repeat first [apply safe_ret | apply safe_bind; [|intros] | apply safe_modify; intros; by apply ready_with_told
      | apply safe_if; intros]. }
  intros reported s1 H1. st_run. eapply safe_bind_to; [|exact H1|].
  { repeat first [apply safe_ret | apply safe_bind; [|intros]
      | apply safe_modify; intros u []; split; [by apply (ready_same u)|done] | apply safe_if; intros]. }
  intros _ s2 H2.
  destruct (safe_nmea_if (loc_eng_nmea_generate_pos (location r) (locationExtended r)) (generateNmea s)
    (generateNmea s && (position_source (location r) =? ULP_LOCATION_IS_FROM_GNSS))
    (λ n Hn, cache_position r n Hz Hn Hr) ltac:(by intros []%andb_prop) s2 H2) as (b & s3 & Hrun & H3).
  st_step Hrun. by apply safe_free_rawData.
Qed.

Lemma safe_report_sv r : fits r_zero → valid_body (PReportSv r) LOC_ENG_MSG_REPORT_SV → safe ready (report_sv r).
Proof.
  intros Hz Hr s Hs. unfold report_sv. st_run. break_if; [by exists tt, s|]. st_run. change (id s) with s.
  eapply safe_bind_to; [|exact (conj Hs eq_refl : ready_with (generateNmea s) s)|].
  { apply safe_if; intros; [|apply safe_ret]. apply safe_modify. intros. by apply ready_with_told. }
  intros _ s2 H2. apply safe_nmea_if with (g := generateNmea s); [|done|done].
  intros n Hn. by apply cache_sv.
Qed.

Lemma safe_go (m : ST eng unit) : safe ready m → safe ready (go m).
Proof. intros Hm. apply safe_bind; [done|intros; apply safe_ret]. Qed.

Lemma safe_mod f : (∀ s, ready s → ready (f s)) → safe ready (go (st_modify f)).
Proof. intros Hf. by apply safe_go, safe_modify. Qed.
Lemma safe_tell g c :
  safe ready (go (st_modify (λ s, if g (cb s) : bool then framework c s else s))).
Proof. apply safe_mod. intros s Hs. by break_if; [apply ready_told|]. Qed.

(** The messages without data. *)
Lemma safe_plain o id : valid_body PNone id → safe ready (deferred_switch (Msg o id PNone)).
Proof.
  intros Hb. cbn [valid_body] in Hb.
  repeat (apply elem_of_cons in Hb as [->|Hb]); [..|by apply not_elem_of_nil in Hb].
  - by apply (safe_mod _ (walk_start keeps_ready (λ _, True))).
  - apply (safe_mod (λ s, if agps_request_pending s then set_stop_request_pending true s
                      else (loc_eng_stop_handler s).2)).
    intros s Hs. break_if; [by apply (ready_same s)|by apply (walk_stop keeps_ready (λ _, True))].
  - apply (safe_mod loc_eng_handle_engine_down). intros s Hs. apply ready_status. by apply (ready_same s).
  - apply (safe_go _ safe_engine_up).
  - exact (safe_tell download_request_cb F_download_request).
  - exact (safe_tell request_utc_time_cb F_request_utc_time).
Qed.

(** A connection was opened: bearer, name and event. *)
Lemma safe_opened w bearer apn len : valid_call (SetAPN (Some apn) len) →
  safe ready (_ ← on_nif w (setBearer bearer); _ ← on_nif w (setAPN (Some apn) len);
              on_nif w (onRsrcEvent RSRC_GRANTED)).
Proof.
  intros Hok. apply safe_bind; [apply (safe_nif_call w (SetBearer bearer) I)|intros _].
  apply safe_bind; [apply (safe_nif_call w (SetAPN (Some apn) len) Hok)|intros _].
  apply (safe_nif_call w (Event RSRC_GRANTED) I).
Qed.

Lemma safe_switch msg : fits r_zero → valid msg → safe ready (deferred_switch msg).
Proof.
  intros Hz. destruct msg as [o id b]. intros [_ Hb]. cbn [body msgid] in Hb.
  assert (∀ c, safe ready (go (st_modify (modem c)))) as Hmodem by (intros c; apply safe_mod; intros s; apply ready_call).
  assert (∀ n l, safe ready (go (st_modify (λ s, if nmea_cb (cb s) then send_nmea n l s else s)))) as Hsend.
  { intros n l. apply safe_mod. intros s Hs. by break_if; [apply ready_told|]. }
  assert (∀ w k, valid_call k → safe ready (go (on_nif w (run_call k)))) as Hnif.
  { intros w k Hk. by apply safe_go, safe_nif_call. }
  assert (∀ w sub, ok_sub sub →
    safe ready (_ ← on_nif w (with_stack sub unsubscribeRsrc); mret true)) as Hun.
  { intros w sub Hok. apply safe_bind; [by apply safe_unsubscribe|intros; apply safe_ret]. }
  destruct b; cbn [valid_body] in Hb;
    try (subst id; solve [exact (Hmodem _) | exact (safe_tell _ _) | exact (Hsend _ _) | apply safe_ret]).
  - by apply safe_plain.
  - subst id. refine (safe_mod _ _). intros s. by apply ready_same.
  - destruct Hb as [-> Hr]. exact (safe_go _ (safe_report_position r Hz Hr)).
  - destruct Hb as [-> Hr]. exact (safe_go _ (safe_report_sv r Hz (conj eq_refl Hr))).
  - subst id. exact (safe_mod _ (ready_status status)).
  - destruct Hb as [[->| ->] Hok]; cbn; destruct (if_nif ifType) as [w|]; try apply safe_ret.
    + exact (Hnif w (Subscribe _) Hok).
    + exact (Hun w _ Hok).
  - destruct Hb as [[->| ->] Hok]; cbn; [break_if; [|apply safe_ret]|].
    + exact (Hnif WIFI (Subscribe _) Hok).
    + exact (Hun WIFI _ Hok).
  - destruct Hb as [-> Hok]. exact (Hnif _ (Subscribe (new_ATLSubscriber handle client_handle _)) Hok).
  - destruct Hb as [-> Hok]. apply safe_go. unfold release_atl.
    apply safe_bind; [by apply safe_unsubscribe|intros []]; [apply safe_ret|].
    apply safe_bind; [by apply safe_unsubscribe|intros; apply safe_ret].
  - subst id. refine (safe_mod _ _). intros s Hs. unfold request_ni. cbn zeta.
    break_if; by apply (ready_same s).
  - destruct Hb as [-> Hok]. exact (safe_go _ (safe_opened _ _ _ _ Hok)).
  - destruct Hb as [->| ->]; [exact (Hnif _ (Event RSRC_RELEASED) I)|exact (Hnif _ (Event RSRC_DENIED) I)].
  - subst id. refine (safe_mod _ _). intros s Hs. by apply (ready_same s).
Qed.

Lemma ready_after msg s : ready s → ready (after_switch msg s).
Proof.
  apply (walk_after keeps_ready (λ _, True)); [split; intros; intros Hr|intros f t Hr];
    by eapply ready_same; [..|exact Hr].
Qed.

Lemma safe_handle msg : fits r_zero → valid msg → safe ready (handle_msg msg).
Proof.
  intros Hz Hv. unfold handle_msg. rewrite (proj1 Hv).
  apply safe_bind; [apply safe_get|intros c]. apply safe_if; intros; [apply safe_ret|].
  apply safe_bind; [by apply safe_switch|intros []]; [|apply safe_ret].
  apply safe_bind; [apply safe_modify; intros; by apply ready_after|intros; apply safe_ret].
Qed.

(** Rounds of the thread. *)
Lemma safe_rounds n : fits r_zero → safe ready (loc_eng_deferred_action_thread n).
Proof.
  intros Hz. induction n as [|n IH]; intros s Hs; cbn [loc_eng_deferred_action_thread].
  { by exists true, s. }
  st_run. destruct (deferred_q s) as [|msg q] eqn:Hq; [by exists true, s|].
  pose proof Hs as [H1 H2 H3 H4]. rewrite Hq in H4. apply Forall_cons in H4 as [Hv Hvq]. st_run.
  eapply safe_bind_to; [by apply safe_handle| |].
  { split; [intros w; specialize (H1 w); by destruct w|done..]. }
  intros [] s1 Hs1; [by apply IH|]. by exists false, s1.
Qed.

(** No message faults: the thread of an engine whose data connections are
    set up and whose queue holds messages made by their constructors, in any
    order, handles as many as it is given time for; no machine, no buffer and
    no callback is accessed outside its life, and what the handlers post is
    again such messages. *)
Theorem engine_never_faults n s :
  fits r_zero → ready s → ∃ b s', loc_eng_deferred_action_thread n s = Some (b, s') ∧ ready s'.
Proof. intros Hz. by apply safe_rounds. Qed.

(** ** Positions *)

(** The sentences as the engine tells them, each with the time of its call. *)
Fixpoint told_sentences (t : list effect) (out : list (chars * Z)) : list effect :=
  match out with
  | [] => []
  | (x, len) :: out =>
      let e := ToFramework (F_nmea (time_after t) x len) in e :: told_sentences (t ++ [e]) out
  end.
(** What the generator starts from. *)
Definition nmea_of (s : eng) : nmea :=
  Nmea (sv_used_mask (nm s)) (pdop (nm s)) (hdop (nm s)) (vdop (nm s))
    (LOC_POSITION_MODE_STANDALONE =? mode (getPositionMode s)) [].

Lemma send_nmea_fold out u :
  trace (foldl (λ s '(x, len), send_nmea x len s) u out) = trace u ++ told_sentences (trace u) out ∧
  isInSession (foldl (λ s '(x, len), send_nmea x len s) u out) = isInSession u.
Proof.
  revert u. induction out as [|[x len] out IH]; intros u; cbn [foldl told_sentences]; [by rewrite app_nil_r|].
  destruct (IH (send_nmea x len u)) as [-> ->]. split; [|done]. cbn. by rewrite <- app_assoc.
Qed.

Lemma with_nmea_run gen s n : gen (nmea_of s) = Some n → nmea_cb (cb s) = true →
  ∃ s', with_nmea gen s = Some (tt, s') ∧ trace s' = trace s ++ told_sentences (trace s) (nmea_sent n) ∧
    isInSession s' = isInSession s.
Proof.
  intros Hg Hcb. unfold with_nmea. fold (nmea_of s). rewrite Hg. cbn [mbind option_bind]. rewrite Hcb. cbn [negb andb].
  eexists. split; [done|]. destruct (send_nmea_fold (nmea_sent n)
    (set_nm (Nmea (sv_used_mask n) (pdop n) (hdop n) (vdop n) false []) s)) as [-> ->]. done.
Qed.

(** A fix computed from satellites or sensors. *)
Definition good_fix (r : position_report) : Prop :=
  pr_status r = LOC_SESS_SUCCESS ∧
  ((has LOCATION_HAS_SOURCE_INFO (l_flags (location r)) = true ∧
    position_source (location r) = ULP_LOCATION_IS_FROM_HYBRID) ∨
   has LOC_POS_TECH_MASK_SATELLITE (technology_mask r) = true ∨
   has LOC_POS_TECH_MASK_SENSORS (technology_mask r) = true).
(** Accurate enough for an intermediate position, when these are wanted. *)
Definition tolerable (r : position_report) (s : eng) : Prop :=
  intermediateFix s = LOC_SESS_INTERMEDIATE ∧
  ¬ (has (l_flags (location r)) GPS_LOCATION_HAS_ACCURACY = true ∧ ACCURACY_THRES gps_conf ≠ 0 ∧
     accuracy_exceeds (accuracy (location r)) (ACCURACY_THRES gps_conf) = true).

Lemma position_accepted_spec r s : position_accepted r s = true ↔ good_fix r ∨ tolerable r s.
Proof.
  unfold position_accepted, good_fix, tolerable.
  rewrite orb_true_iff, !andb_true_iff, !orb_true_iff, andb_true_iff, !Z.eqb_eq, negb_true_iff, !andb_false_iff,
    negb_false_iff, Z.eqb_eq.
  split; intros [Hg|[Hi Ha]]; [left; naive_solver|right; split; [done|]|left; naive_solver|right; split; [done|]].
  - intros (H1 & H2 & H3). destruct Ha as [[Ha|Ha]|Ha]; congruence.
  - destruct (has _ _) eqn:H1; [|by left; left]. destruct (decide (ACCURACY_THRES gps_conf = 0)); [by left; right|].
    destruct (accuracy_exceeds _ _) eqn:H3; [|by right]. by destruct Ha.
Qed.

(** What the framework is to be told: that there is no position, or the
    position. *)
Definition delivery (r : position_report) (s : eng) : list effect :=
  if negb (location_cb (cb s)) then []
  else if decide (pr_status r = LOC_SESS_FAILURE) then [ToFramework (F_location None None)]
  else if decide (good_fix r ∨ tolerable r s) then [ToFramework (F_location (Some (location r)) (locationExt r))]
  else [].

(** Whether the report ends the session: something was delivered and a single
    fix is wanted. *)
Definition ends_session (r : position_report) (s : eng) : bool :=
  negb (bool_decide (delivery r s = [])) &&
  (recurrence (fixCriteria (trace s ++ delivery r s)) =? GPS_POSITION_RECURRENCE_SINGLE).

(** The state once the framework is told, and once the session has ended. *)
Definition after_delivery (r : position_report) (s : eng) : eng :=
  set_trace (trace s ++ delivery r s) s.
Definition after_ending (r : position_report) (s : eng) : eng :=
  let told := after_delivery r s in
  if ends_session r s then
    setInSession false (if pr_status r =? LOC_SESS_INTERMEDIATE then modem A_stopFix told else told)
  else told.

Lemma deliver_run r s :
  (if location_cb (cb s) then
     if LOC_SESS_FAILURE =? pr_status r then
       _ ← st_modify (framework (F_location None None)); mret true
     else if position_accepted r s then
       _ ← st_modify (framework (F_location (Some (location r)) (locationExt r))); mret true
     else mret false
   else mret false) s = Some (negb (bool_decide (delivery r s = [])), after_delivery r s).
Proof.
  assert (set_trace (trace s) s = s) as Hid by by destruct s.
  unfold after_delivery, delivery. destruct (location_cb (cb s)); cbn [negb]; [|by rewrite app_nil_r, Hid].
  destruct (decide (pr_status r = LOC_SESS_FAILURE)) as [->|Hf]; [done|].
  rewrite (proj2 (Z.eqb_neq LOC_SESS_FAILURE (pr_status r))) by done.
  destruct (decide (good_fix r ∨ tolerable r s)) as [Ha|Ha].
  - by rewrite (proj2 (position_accepted_spec r s) Ha).
  - destruct (position_accepted r s) eqn:Hp; [by apply position_accepted_spec in Hp|].
    by rewrite app_nil_r, Hid.
Qed.

(** The raw data that come with a position. *)
Definition freed (l : GpsLocation) : list effect :=
  match rawData l with Some p => [Delete_rawData p] | None => [] end.

Lemma free_rawData_run l s :
  ∃ s', free_rawData l s = Some (tt, s') ∧ trace s' = trace s ++ freed l ∧ isInSession s' = isInSession s.
Proof.
  unfold free_rawData, freed. destruct (rawData l) as [p|]; [by eexists|].
  exists s. by rewrite app_nil_r.
Qed.

Lemma report_position_run r s :
  mute_session_state s ≠ LOC_MUTE_SESS_IN_SESSION →
  report_position r s =
    (_ ← (if generateNmea s && (position_source (location r) =? ULP_LOCATION_IS_FROM_GNSS)
          then with_nmea (loc_eng_nmea_generate_pos (location r) (locationExtended r)) else mret tt);
     free_rawData (location r)) (after_ending r s).
Proof.
  intros Hmute. unfold report_position. st_run. rewrite bool_decide_eq_false_2 by done. st_run.
  change (id s) with s. rewrite deliver_run. st_run. unfold getPositionMode.
  rewrite (Z.eqb_sym GPS_POSITION_RECURRENCE_SINGLE), (Z.eqb_sym LOC_SESS_INTERMEDIATE).
  change (trace (after_delivery r s)) with (trace s ++ delivery r s). fold (ends_session r s).
  unfold after_ending. cbn zeta. destruct (ends_session r s); [|done].
  by destruct (pr_status r =? LOC_SESS_INTERMEDIATE).
Qed.

(** Whether sentences are made from the report. *)
Definition generates (r : position_report) (s : eng) : bool :=
  generateNmea s && (position_source (location r) =? ULP_LOCATION_IS_FROM_GNSS).

(** C29: A position report outside a muted session, whose numbers have a common
    length: the framework is told that there is none after a failure, is given
    the position if it is a good fix or, of whatever status, one accurate enough
    while intermediate positions are accepted, and nothing else; when a single
    fix is wanted what is delivered ends the session, and the modem is stopped
    if the fix was intermediate; then, exactly if sentences are wanted and the
    position is one of the satellites, the four sentences of the position follow,
    and no other; at last the raw data of the report are freed, once. *)
Theorem report_position_spec r s :
  mute_session_state s ≠ LOC_MUTE_SESS_IN_SESSION →
  (generates r s = true → nmea_cb (cb s) = true ∧
     pos_fits (location r) (locationExtended r) (nmea_of (after_ending r s))) →
  let ending := if ends_session r s && (pr_status r =? LOC_SESS_INTERMEDIATE) then [ToModem A_stopFix] else [] in
  let out := if generates r s
    then sentence_of <$> pos_sentences (location r) (locationExtended r) (nmea_of (after_ending r s)) else [] in
  ∃ s', report_position r s = Some (tt, s') ∧
    trace s' = trace s ++ delivery r s ++ ending ++
      told_sentences (trace s ++ delivery r s ++ ending) out ++ freed (location r) ∧
    isInSession s' = isInSession s && negb (ends_session r s).
Proof.
  intros Hmute Hgen ending out. rewrite report_position_run by done. fold (generates r s).
  assert (trace (after_ending r s) = trace s ++ delivery r s ++ ending ∧
    isInSession (after_ending r s) = isInSession s && negb (ends_session r s)) as [He Hin].
  { unfold after_ending, ending. rewrite app_assoc. destruct (ends_session r s); cbn [andb negb];
      [rewrite andb_false_r|by rewrite andb_true_r, app_nil_r].
    destruct (pr_status r =? LOC_SESS_INTERMEDIATE); by rewrite ?app_nil_r. }
  assert (∃ s1, (if generates r s then with_nmea (loc_eng_nmea_generate_pos (location r) (locationExtended r))
                 else mret tt) (after_ending r s) = Some (tt, s1) ∧
    trace s1 = trace (after_ending r s) ++ told_sentences (trace (after_ending r s)) out ∧
    isInSession s1 = isInSession (after_ending r s)) as (s1 & Hrun & Ht & Hi).
  { unfold out. destruct (generates r s).
    - destruct (Hgen eq_refl) as [Hcb Hf].
      destruct (with_nmea_run _ (after_ending r s) _ (generate_pos_run _ _ _ Hf)) as (s1 & Hrun & Ht & Hi); [|by exists s1].
      unfold after_ending. by repeat break_if.
    - eexists. split; [done|]. by rewrite app_nil_r. }
  rewrite (st_bind_some _ _ _ _ _ Hrun). destruct (free_rawData_run (location r) s1) as (s2 & -> & Ht2 & Hin2).
  exists s2. split; [done|]. rewrite Hin2, Hi, Ht2, Ht, He. split; [by rewrite <- !app_assoc|exact Hin].
Qed.

(** ** Initialisation *)

(** The messages of the configuration, posted once the modem has answered. *)
Definition config_msgs : list loc_eng_msg :=
  let p := SENSOR_PROPERTIES gps_conf in
  [loc_eng_msg_suple_version (SUPL_VER gps_conf); loc_eng_msg_lpp_config (LPP_PROFILE gps_conf);
   loc_eng_msg_sensor_control_config (SENSOR_USAGE gps_conf)] ++
  (if gyroBiasVarianceRandomWalk_valid p || accelRandomWalk_valid p || angleRandomWalk_valid p ||
      rateRandomWalk_valid p || velocityRandomWalk_valid p then [loc_eng_msg_sensor_properties p] else []) ++
  [loc_eng_msg_sensor_perf_control_config (SENSOR_PERF gps_conf)].

Lemma reinit_run s :
  let rc := adapter_rc (trace s) A_reinit in
  (loc_eng_reinit s).1 = rc ∧ trace (loc_eng_reinit s).2 = trace s ++ [ToModem A_reinit] ∧
  deferred_q (loc_eng_reinit s).2 = deferred_q s ++ (if rc =? LOC_API_ADAPTER_ERR_SUCCESS then config_msgs else []) ∧
  context (loc_eng_reinit s).2 = context s.
Proof.
  cbn zeta. unfold loc_eng_reinit, modem_rc, config_msgs. cbn zeta beta iota.
  rewrite (Z.eqb_sym LOC_API_ADAPTER_ERR_SUCCESS).
  destruct (adapter_rc (trace s) A_reinit =? LOC_API_ADAPTER_ERR_SUCCESS); [|by rewrite app_nil_r].
  break_if; cbn; by rewrite <- !app_assoc.
Qed.

(** [k] attempts from [s]; all but the last have failed. *)
Definition attempts (k : nat) (s : eng) : Prop :=
  ∀ j, (S j < k)%nat → adapter_rc (trace s ++ replicate j (ToModem A_reinit)) A_reinit ≠ LOC_API_ADAPTER_ERR_SUCCESS.

Lemma reinit_loop_run tries ret s : (0 < tries)%nat →
  let '(rc, s') := reinit_loop tries ret s in
  ∃ k, (0 < k ≤ tries)%nat ∧ attempts k s ∧
    trace s' = trace s ++ replicate k (ToModem A_reinit) ∧
    deferred_q s' = deferred_q s ++ (if rc =? LOC_API_ADAPTER_ERR_SUCCESS then config_msgs else []) ∧
    (rc ≠ LOC_API_ADAPTER_ERR_SUCCESS → k = tries) ∧ context s' = context s.
Proof.
  revert ret s. induction tries as [|tries IH]; intros ret s Ht; [lia|]. cbn [reinit_loop].
  destruct (reinit_run s) as (Hrc & Htr & Hq & Hctx). destruct (loc_eng_reinit s) as [rc s1]. cbn [fst snd] in *. subst rc.
  rewrite (Z.eqb_sym LOC_API_ADAPTER_ERR_SUCCESS).
  destruct (adapter_rc (trace s) A_reinit =? LOC_API_ADAPTER_ERR_SUCCESS) eqn:Hs; cbn [negb].
  { exists 1%nat. split; [lia|]. split; [intros j Hj; lia|]. rewrite Hs. split; [done|]. split; [done|].
    split; [|done]. intros Hn. by apply Z.eqb_eq in Hs. }
  destruct (decide (tries = 0%nat)) as [->|Hne].
  { cbn [reinit_loop]. exists 1%nat. split; [lia|]. split; [intros j Hj; lia|]. by rewrite Hs. }
  specialize (IH (adapter_rc (trace s) A_reinit) s1 ltac:(lia)).
  destruct (reinit_loop tries _ s1) as [rc s2]. destruct IH as (k & Hk & Ha & Ht2 & Hq2 & Hf & Hctx2).
  exists (S k). split; [lia|]. split; [|split; [|split; [|split]]].
  - intros [|j] Hj; cbn [replicate]; [rewrite app_nil_r; by apply Z.eqb_neq|].
    specialize (Ha j ltac:(lia)). rewrite Htr, <- app_assoc in Ha. exact Ha.
  - by rewrite Ht2, Htr, <- app_assoc.
  - by rewrite Hq2, Hq, app_nil_r.
  - intros Hn. by rewrite Hf.
  - by rewrite Hctx2.
Qed.

(** Initialisation ends: it attaches to the modem at most 30 times, once a
    second, stops at the first success and then posts the configuration to the
    thread exactly once; when all attempts fail none is posted and the error is
    the result, but the engine counts as initialised all the same. *)
Theorem loc_eng_init_spec c caps event s rc s' :
  event ≠ 0 → context s = false → loc_eng_init (Some (c, caps)) event true s = (rc, s') →
  ∃ k calls, (0 < k ≤ 30)%nat ∧
    trace s' = trace s ++ calls ++ replicate k (ToModem A_reinit) ∧
    (∀ j, (S j < k)%nat → adapter_rc (trace s ++ calls ++ replicate j (ToModem A_reinit)) A_reinit ≠ 0) ∧
    (rc ≠ 0 → k = 30%nat) ∧ context s' = true ∧
    deferred_q s' = deferred_q s ++ (if rc =? 0 then config_msgs else []).
Proof.
  intros He Hc. unfold loc_eng_init, loc_eng_init_data. rewrite (proj2 (Z.eqb_neq _ _) He), Hc. cbn zeta.
  set (generate := has event _ && _). cbn [negb].
  match goal with |- reinit_loop 30 (-1) ?t = _ → _ => set (s0 := t) end.
  pose proof (reinit_loop_run 30 (-1) s0 ltac:(lia)) as Hloop.
  intros Hrun. rewrite Hrun in Hloop. destruct Hloop as (k & Hk & Ha & Ht & Hq & Hf & Hctx).
  exists k, ((if caps then [ToFramework (F_capabilities (CAPABILITIES gps_conf))] else []) ++
    [ToModem (A_create (if generate then Z.lxor event LOC_API_ADAPTER_BIT_NMEA_1HZ_REPORT else event))]).
  assert (trace s0 = trace s ++ ((if caps then [ToFramework (F_capabilities (CAPABILITIES gps_conf))] else []) ++
    [ToModem (A_create (if generate then Z.lxor event LOC_API_ADAPTER_BIT_NMEA_1HZ_REPORT else event))])) as H0'.
  { subst s0. destruct caps; cbn; by rewrite <- ?app_assoc. }
  assert (context s0 = true ∧ deferred_q s0 = deferred_q s) as [Hc0 Hq0] by (subst s0; by destruct caps).
  rewrite H0', <- app_assoc in Ht. rewrite Hq0 in Hq. rewrite Hc0 in Hctx. split; [done|]. split; [done|].
  split; [|done]. intros j Hj. specialize (Ha j Hj). rewrite H0', <- app_assoc in Ha. exact Ha.
Qed.

(** ** What clients ask of the modem *)

(** The calls of clients that the modem alone answers. *)
Inductive request :=
| SetMode (m : LocPosMode)
| InjectTime (time timeReference uncertainty : Z)
| InjectLocation (latitude longitude accuracy : real)
| SetSuplServer (hostname : chars) (port : Z)
| SetIpServer (type : Z) (hostname : chars) (port : Z)
| NetworkAvailable (available : Z) (apn : list Z)
| InjectXtra (data : list Z).

Definition call_of (r : request) : ST eng Z :=
  match r with
  | SetMode m => λ s, Some (loc_eng_set_position_mode m s)
  | InjectTime t tr u => λ s, Some (loc_eng_inject_time t tr u s)
  | InjectLocation lat lon acc => λ s, Some (loc_eng_inject_location lat lon acc s)
  | SetSuplServer host port => loc_eng_set_server_proxy LOC_AGPS_SUPL_SERVER host port
  | SetIpServer type host port => loc_eng_set_server_proxy type host port
  | NetworkAvailable available apn =>
      _ ← loc_eng_agps_ril_update_network_availability available (Some apn); mret 0
  | InjectXtra data => loc_eng_xtra_inject_data data (Z.of_nat (length data))
  end.

Definition valid_request (r : request) : Prop :=
  match r with
  | SetIpServer type host _ => is_Some (resolve_in_addr host) ∧
      type ∈ [LOC_AGPS_CDMA_PDE_SERVER; LOC_AGPS_CUSTOM_PDE_SERVER; LOC_AGPS_MPC_SERVER]
  | _ => True
  end.

(** What the modem is asked for. *)
Definition modem_calls (r : request) : list adapter_call :=
  match r with
  | SetMode m => [A_setPositionMode (Some m)]
  | InjectTime t tr u => [A_setTime t tr u]
  | InjectLocation lat lon acc => [A_injectPosition lat lon acc]
  | SetSuplServer host port =>
      let url := server_url host port in
      if (length url <? 256)%nat then [A_setServer_url url (Z.of_nat (length url))] else []
  | SetIpServer type host port => [A_setServer (htonl (default 0 (resolve_in_addr host))) port type]
  | NetworkAvailable available apn =>
      let name := take 100 (c_string apn) in
      [A_enableData available; A_setAPN (name ++ [0]) (Z.of_nat (length name))]
  | InjectXtra data => [A_setXtraData data (Z.of_nat (length data))]
  end.

Lemma take_c_string n bs : take (length (take n (c_string bs))) bs = take n (c_string bs).
Proof.
  revert n. induction bs as [|b bs IH]; intros [|n]; cbn [c_string take length]; try done.
  destruct (b =? 0); [done|]. cbn [take length]. by rewrite IH.
Qed.

(** No message waits, and no deletion of aiding data. *)
Definition quiet (s : eng) : Prop :=
  context s = true ∧ deferred_q s = [] ∧ aiding_data_for_deletion s = 0.

(** A round for a message that makes only calls of the modem. *)
Lemma round_modem n msg q (l : list adapter_call) f s :
  context s = true → aiding_data_for_deletion s = 0 → deferred_q s = msg :: q →
  owner msg = OEngine → is_atl_answer (msgid msg) = false → (∀ s, delete_msg msg s = s) →
  deferred_switch msg = go (st_modify f) → (∀ s, f s = foldl (λ s c, modem c s) s l) →
  ∃ s', loc_eng_deferred_action_thread (S n) s = loc_eng_deferred_action_thread n s' ∧
    trace s' = trace s ++ (ToModem <$> l) ∧ deferred_q s' = q ∧ context s' = true ∧
    aiding_data_for_deletion s' = 0.
Proof.
  intros Hc Ha Hq Ho Hatl Hdel Hsw Hf. set (s0 := set_deferred_q q s).
  assert (∀ u, trace (foldl (λ s c, modem c s) u l) = trace u ++ (ToModem <$> l) ∧
    deferred_q (foldl (λ s c, modem c s) u l) = deferred_q u ∧
    context (foldl (λ s c, modem c s) u l) = context u ∧
    aiding_data_for_deletion (foldl (λ s c, modem c s) u l) = aiding_data_for_deletion u) as Hl.
  { clear. induction l as [|c l IH]; intros u; cbn [foldl]; [by rewrite app_nil_r|].
    destruct (IH (modem c u)) as (-> & -> & -> & ->). cbn. by rewrite <- app_assoc. }
  destruct (Hl s0) as (Ht & Hq' & Hc' & Ha'). rewrite <- Hf in Ht, Hq', Hc', Ha'.
  exists (set_stop_request_pending false (f s0)).
  split; [|split; [exact Ht|]; split; [exact Hq'|]; split; [by rewrite <- Hc|by rewrite <- Ha]].
  cbn [loc_eng_deferred_action_thread]. st_run. rewrite Hq. st_run. fold s0.
  unfold handle_msg. rewrite Ho. st_run. change (context s0) with (context s). rewrite Hc. cbn [negb].
  rewrite Hsw. unfold go. st_run. unfold after_switch. rewrite Hatl, Hdel. cbn zeta.
  unfold delete_aiding_data. cbn [aiding_data_for_deletion set_stop_request_pending].
  rewrite Ha'. change (aiding_data_for_deletion s0) with (aiding_data_for_deletion s).
  by rewrite Ha, andb_false_r.
Qed.

(** The thread wakes up for one such message. *)
Lemma thread_modem msg (l : list adapter_call) f s :
  quiet s → owner msg = OEngine → is_atl_answer (msgid msg) = false → (∀ s, delete_msg msg s = s) →
  deferred_switch msg = go (st_modify f) → (∀ s, f s = foldl (λ s c, modem c s) s l) →
  ∃ s', loc_eng_deferred_action_thread 2 (post msg s) = Some (true, s') ∧
    trace s' = trace s ++ (ToModem <$> l) ∧ quiet s'.
Proof.
  intros (Hc & Hq & Ha) Ho Hatl Hdel Hsw Hf.
  destruct (round_modem 1 msg [] l f (post msg s)) as (s' & E & Ht & Hq' & Hc' & Ha'); try done.
  { cbn. by rewrite Hq. }
  exists s'. rewrite E. split; [|done]. cbn [loc_eng_deferred_action_thread]. st_run. by rewrite Hq'.
Qed.

(** What the configuration makes the modem be told. *)
Definition config_calls : list adapter_call :=
  let p := SENSOR_PROPERTIES gps_conf in
  [A_setSUPLVersion (uint32 (SUPL_VER gps_conf)); A_setLPPConfig (uint32 (LPP_PROFILE gps_conf));
   A_setSensorControlConfig (int32 (SENSOR_USAGE gps_conf))] ++
  (if gyroBiasVarianceRandomWalk_valid p || accelRandomWalk_valid p || angleRandomWalk_valid p ||
      rateRandomWalk_valid p || velocityRandomWalk_valid p then [A_setSensorProperties (to_floats p)] else []) ++
  [A_setSensorPerfControlConfig (to_ints (SENSOR_PERF gps_conf))].

(** One call a message. *)
Definition config_pair (m : loc_eng_msg) (c : adapter_call) : Prop :=
  owner m = OEngine ∧ is_atl_answer (msgid m) = false ∧ (∀ s, delete_msg m s = s) ∧
  deferred_switch m = go (st_modify (modem c)).

Lemma config_pairs : Forall2 config_pair config_msgs config_calls.
Proof.
  assert (∀ m c, owner m = OEngine → is_atl_answer (msgid m) = false → (∀ s, delete_msg m s = s) →
    deferred_switch m = go (st_modify (modem c)) → config_pair m c) as Hpair by (by intros; split_and!).
  unfold config_msgs, config_calls. cbn zeta.
  apply Forall2_app.
  { do 3 (constructor; [apply Hpair; try done; cbn; by rewrite ?uwrap_swrap|]). constructor. }
  apply Forall2_app; [|constructor; [by apply Hpair|constructor]].
  break_if; [constructor; [by apply Hpair|]|]; constructor.
Qed.

Lemma rounds_modem n msgs calls s :
  Forall2 config_pair msgs calls → (length msgs < n)%nat →
  context s = true → aiding_data_for_deletion s = 0 → deferred_q s = msgs →
  ∃ s', loc_eng_deferred_action_thread n s = Some (true, s') ∧
    trace s' = trace s ++ (ToModem <$> calls) ∧ quiet s'.
Proof.
  intros Hp. revert n s. induction Hp as [|m c msgs calls (Ho & Hatl & Hd & Hsw) _ IH];
    intros [|n] s Hn Hc Ha Hq; cbn [length] in Hn; try lia.
  - exists s. cbn [loc_eng_deferred_action_thread]. st_run. rewrite Hq.
    split; [done|]. split; [by rewrite app_nil_r|done].
  - destruct (round_modem n m msgs [c] (modem c) s) as (s1 & E & Ht & Hq1 & Hc1 & Ha1); try done.
    destruct (IH n s1) as (s2 & E2 & Ht2 & Hs2); [lia|done..|].
    exists s2. rewrite E, E2. split; [done|]. split; [|done]. by rewrite Ht2, Ht, <- (assoc_L (++)).
Qed.

Lemma reinit_loop_aiding tries ret s :
  aiding_data_for_deletion (reinit_loop tries ret s).2 = aiding_data_for_deletion s ∧
  generateNmea (reinit_loop tries ret s).2 = generateNmea s ∧
  intermediateFix (reinit_loop tries ret s).2 = intermediateFix s.
Proof.
  revert ret s. induction tries as [|tries IH]; intros ret s; cbn [reinit_loop]; [done|].
  assert (aiding_data_for_deletion (loc_eng_reinit s).2 = aiding_data_for_deletion s ∧
    generateNmea (loc_eng_reinit s).2 = generateNmea s ∧
    intermediateFix (loc_eng_reinit s).2 = intermediateFix s) as (Ha & Hg & Hi).
  { unfold loc_eng_reinit, modem_rc. cbn zeta beta iota. by repeat break_if. }
  destruct (loc_eng_reinit s) as [rc s1]. cbn [snd] in *. break_if; [|done].
  destruct (IH rc s1) as (-> & -> & ->). done.
Qed.

(** The message that enables data, for as much of the name as it takes. *)
Lemma made_data_enable apn available : let name := c_string apn in
  loc_eng_msg_set_data_enable apn (Z.of_nat (length (take 100 name))) available =
  Some (Msg OEngine LOC_ENG_MSG_ENABLE_DATA (PDataEnable available (take 100 name ++ [0])
    (Z.of_nat (length (take 100 name))))).
Proof.
  intros name. pose proof (take_c_string 100 apn) as Htake. fold name in Htake.
  unfold loc_eng_msg_set_data_enable, copy_len.
  rewrite (proj2 (Z.ltb_ge _ 0)) by lia. rewrite Nat2Z.id, Htake.
  assert (length (take 100 name) ≤ length apn)%nat as Hle by (rewrite <- Htake, length_take; lia).
  rewrite (proj2 (Z.ltb_ge (Z.of_nat (length apn)) _)) by lia. reflexivity.
Qed.

(** C28: What a client asks of the modem reaches it: after the call and the wake
    of the thread the modem was asked for exactly that, in the units of the
    client: the mode, the time, the location, the servers ("host:port" when
    it fits the buffer of 256 bytes, else it is dropped without an error; an
    address in network order), the state of the data network with the name
    of its access point cut to 100 characters, the predicted orbits. *)
Theorem requests_reach_modem r s :
  quiet s → valid_request r →
  ∃ s1, call_of r s = Some (0, s1) ∧
  ∃ s2, loc_eng_deferred_action_thread 2 s1 = Some (true, s2) ∧
    trace s2 = trace s ++ (ToModem <$> modem_calls r) ∧ quiet s2.
Proof.
  intros Hs Hr. pose proof Hs as (Hc & Hq & Ha).
  assert (∀ msg l f s1, s1 = Some (0, post msg s) → owner msg = OEngine → is_atl_answer (msgid msg) = false →
    (∀ s, delete_msg msg s = s) →
    deferred_switch msg = go (st_modify f) → (∀ s, f s = foldl (λ s c, modem c s) s l) →
    ∃ s1', s1 = Some (0, s1') ∧ ∃ s', loc_eng_deferred_action_thread 2 s1' = Some (true, s') ∧
    trace s' = trace s ++ (ToModem <$> l) ∧ quiet s') as Hone.
  { intros msg l f s1 -> **. eexists. split; [done|]. by eapply thread_modem. }
  assert (∀ m, client_post m s = (0, post m s)) as Hpost by (intros m; unfold client_post; by rewrite Hc).
  destruct r as [m|t tr u|lat lon acc|host port|type host port|available apn|data]; cbn [modem_calls].
  - eapply Hone; [by cbn; rewrite <- Hpost|done..].
  - eapply Hone; [by cbn; rewrite <- Hpost|done..].
  - eapply Hone; [by cbn; rewrite <- Hpost|done..].
  - cbn [call_of]. unfold loc_eng_set_server_proxy. st_run. rewrite Hc. unfold loc_eng_set_server. cbn zeta.
    change (LOC_AGPS_SUPL_SERVER =? LOC_AGPS_SUPL_SERVER) with true. cbn iota.
    set (url := server_url host port). destruct (Nat.ltb_spec (length url) 256) as [Hl|Hl].
    + rewrite (proj2 (Z.ltb_lt _ _)) by (unfold MAX_URL_LEN; lia).
      unfold loc_eng_msg_set_server_url. rewrite (proj2 (Z.ltb_ge _ 0)), Z.ltb_irrefl, Nat2Z.id, firstn_all by lia.
      by eapply Hone.
    + rewrite (proj2 (Z.ltb_ge _ _)) by (unfold MAX_URL_LEN; lia). exists s. split; [done|]. exists s.
      cbn [loc_eng_deferred_action_thread]. st_run. rewrite Hq. by rewrite app_nil_r.
  - destruct Hr as [[addr Haddr] Htype]. cbn [call_of]. unfold loc_eng_set_server_proxy. st_run. rewrite Hc.
    unfold loc_eng_set_server. rewrite Haddr. cbn [default].
    repeat (apply elem_of_cons in Htype as [->|Htype]); [by eapply Hone..|by apply not_elem_of_nil in Htype].
  - cbn [call_of]. unfold loc_eng_agps_ril_update_network_availability.
    set (name := c_string apn).
    assert (apn_len apn = Z.of_nat (length (take 100 name))) as ->.
    { unfold apn_len, MAX_APN_LEN. fold name. rewrite length_take. lia. }
    pose proof (made_data_enable apn available) as Hmsg. cbn zeta in Hmsg. fold name in Hmsg.
    st_run. rewrite Hc. cbn [negb]. unfold st_read. st_run. rewrite Hmsg. by eapply Hone.
  - cbn [call_of]. unfold loc_eng_xtra_inject_data, loc_eng_msg_inject_xtra_data.
    rewrite (proj2 (Z.ltb_ge _ 0)), Z.ltb_irrefl, Nat2Z.id, firstn_all by lia. cbn [orb].
    st_run. unfold st_read. rewrite Hc. by eapply Hone.
Qed.
(** ** What does not happen *)

(** No handler sets [agps_request_pending], so a stop is never put off until
    the data connection answers. *)
Definition never_pending (s s' : eng) : Prop := agps_request_pending s = false → agps_request_pending s' = false.
#[local] Instance never_pending_walk : Walk never_pending (λ _, True).
Proof. split; [split; unfold never_pending; red; auto|intros; intros Hs; exact Hs..|done|done]. Qed.

Lemma never_pending_status st s : never_pending s (loc_eng_report_status st s).
Proof.
  unfold loc_eng_report_status, loc_inform_gps_status. cbn zeta. intros Hs. repeat break_if; exact Hs.
Qed.

Lemma stop_never_deferred msg s b s' :
  agps_request_pending s = false → handle_msg msg s = Some (b, s') → agps_request_pending s' = false.
Proof.
  intros Hs Hrun. revert Hs. revert Hrun.
  apply (walk_handle never_pending (λ _, True)); [by intros [] ? ? Hs|apply never_pending_status| |split; intros; intros Hs; exact Hs || reflexivity|intros f u Hs; exact Hs].
  split; try (intros; intros Hs; exact Hs).
  - intros n d u _ Hs. unfold request_ni. cbn zeta. by break_if.
  - intros st u _. apply never_pending_status.
  - apply (walk_report_position never_pending (λ _, True)); [done|done|by intros n u Hs].
  - apply (walk_report_sv never_pending (λ _, True)); [done|by intros n u Hs].
  - intros u _. exact (never_pending_status GPS_STATUS_ENGINE_OFF (ni_reset u)).
Qed.

(** A report that arrives in a muted session is dropped, and its raw data with
    it: nothing frees them. *)
Lemma muted_report_leaks r s :
  mute_session_state s = LOC_MUTE_SESS_IN_SESSION → report_position r s = Some (tt, s).
Proof. intros Hm. unfold report_position. st_run. by rewrite bool_decide_eq_true_2. Qed.

(** What [loc_eng_set_server_proxy] keeps for later is cleared by the
    initialisation it waits for. *)
Lemma servers_before_init_lost type host port c caps event s a s1 :
  event ≠ 0 → context s = false → loc_eng_set_server_proxy type host port s = Some (a, s1) →
  supl_host (loc_eng_init (Some (c, caps)) event true s1).2 = None ∧
  c2k_host (loc_eng_init (Some (c, caps)) event true s1).2 = None.
Proof.
  intros He Hc. unfold loc_eng_set_server_proxy. st_run. rewrite Hc. intros Hrun.
  assert (context s1 = false) as Hc1.
  { revert Hrun. st_run. repeat break_if; intros [= _ <-]; exact Hc. }
  assert (∀ n r u, supl_host (reinit_loop n r u).2 = supl_host u ∧ c2k_host (reinit_loop n r u).2 = c2k_host u) as Hloop.
  { clear. induction n as [|n IH]; intros r u; [done|]. cbn [reinit_loop].
    assert (supl_host (loc_eng_reinit u).2 = supl_host u ∧ c2k_host (loc_eng_reinit u).2 = c2k_host u) as [<- <-].
    { unfold loc_eng_reinit, modem_rc. cbn zeta beta iota. by repeat break_if. }
    destruct (loc_eng_reinit u) as [rc v]. break_if; [apply IH|done]. }
  unfold loc_eng_init, loc_eng_init_data. rewrite (proj2 (Z.eqb_neq _ _) He), Hc1. cbn zeta. set (generate := has event _ && _).
  cbn [negb]. match goal with |- context [reinit_loop 30 (-1) ?t] => destruct (Hloop 30%nat (-1) t) as [-> ->] end.
  by destruct caps.
Qed.
End facts.

(** ** A concrete engine *)

#[local] Existing Instance demo_nmea.
Definition demo_conf : loc_gps_cfg_s_type :=
  GpsConf 0 0 0 0x10000 1 0 1 (SensorProperties false 0 true 1 false 0 false 0 false 0)
    (SensorPerf 2 2 5 2 5 4 25 4 25 0).
Definition demo_env : EngEnv := {|
  gps_conf := demo_conf;
  adapter_rc l c := match c with A_reinit => if (length l <? 4)%nat then 100 else 0 | _ => 0 end;
  fixCriteria _ := PosMode 1 GPS_POSITION_RECURRENCE_SINGLE 1000 50 60000 [] [];
  accuracy_exceeds x t := t <? x;
  gethostbyname _ := Some 0x0100007f;
  inet_aton _ := None;
  gettimeofday _ := (1468000000, 250000);
  client_handle := 7%positive;
  uninit := replicate 16 0;
  pthread_create_rc _ := 0;
  cond_pick _ := 0%nat;
  bearer0 := 0
|}.
#[local] Existing Instance demo_env.

(** After initialisation, sentences being generated. *)
Definition demo_engine : eng :=
  Eng true (Callbacks true true true true true true true true true) 0 true true false false GPS_STATUS_ENGINE_ON
    GPS_STATUS_NONE 0 LOC_MUTE_SESS_NONE
    (Some (new_AgpsStateMachine AGPS_TYPE_SUPL 0 false (World ∅ [] false)))
    (Some (new_AgpsStateMachine AGPS_TYPE_WWAN_ANY 0 false (World ∅ [] false)))
    (Some (new_AgpsStateMachine AGPS_TYPE_WIFI 0 true (World ∅ [] false)))
    (Nmea 0 0 0 0 false []) ni_zero None None false [] [] [].
Definition demo_report : position_report := PositionReport demo_loc demo_ext None LOC_SESS_SUCCESS 1.
Definition demo_off : loc_eng_msg := loc_eng_msg_report_status GPS_STATUS_ENGINE_OFF.

Lemma demo_ready : ready demo_engine.
Proof.
  split; [|done| |constructor].
  - intros []; (eexists _, _; split; [reflexivity|apply linked_new]).
  - split; [done|]. split; [|split]; apply demo_fits; cbn; lia.
Qed.

Lemma muted_session_private_witness :
  let s := set_deferred_q [new_loc_eng_msg LOC_ENG_MSG_START_FIX; loc_eng_msg_report_position demo_report;
                           new_loc_eng_msg LOC_ENG_MSG_ENGINE_UP]
             (set_mute_session_state LOC_MUTE_SESS_IN_SESSION demo_engine) in
  ∃ b s', loc_eng_deferred_action_thread 10 s = Some (b, s') ∧ in_mute s' ∧
    ∃ l, trace s' = trace s ++ l ∧ Forall harmless l.
Proof.
  intros s. destruct (loc_eng_deferred_action_thread 10 s) as [[b s']|] eqn:Hrun.
  - exists b, s'. split; [done|]. apply (muted_session_private 10 s b s'); [done| |done].
    repeat (constructor; [by repeat split|]). constructor.
  - exfalso. apply (f_equal (λ o, bool_decide (is_Some o))) in Hrun. vm_compute in Hrun. discriminate.
Defined.

(** Two deletions are asked for while the modem is on, and made by one call once
    it is off. *)
Definition demo_delete_first : list effect :=
  default [] (trace ∘ snd <$> loc_eng_deferred_action_thread 3
    (set_deferred_q [loc_eng_msg_delete_aiding_data 1; loc_eng_msg_delete_aiding_data 4; demo_off] demo_engine)).
Lemma aiding_data_deletion_witness :
  let s := set_aiding_data_for_deletion 5 demo_engine in
  (∃ s' l, handle_msg demo_off s = Some (true, s') ∧ trace s' = trace s ++ l ∧ deletions l = [5]) ∧
  deletions demo_delete_first = [5].
Proof.
  intros s. split; [|vm_compute; reflexivity].
  destruct (handle_msg demo_off s) as [[[] s']|] eqn:Hrun.
  - destruct (aiding_data_deletion demo_off s s' Hrun) as (l & Hl & Hd). exists s', l. split; [done|]. split; [done|].
    assert (engine_status s' = GPS_STATUS_ENGINE_OFF) as Hs.
    { assert (engine_status ∘ snd <$> handle_msg demo_off s = Some GPS_STATUS_ENGINE_OFF) as He
        by (vm_compute; reflexivity).
      rewrite Hrun in He. by injection He. }
    rewrite Hs in Hd. apply Hd.
  - apply (f_equal (fmap fst)) in Hrun. vm_compute in Hrun. discriminate.
  - apply (f_equal (fmap fst)) in Hrun. vm_compute in Hrun. discriminate.
Defined.

Definition demo_queue : list loc_eng_msg :=
  [loc_eng_msg_report_position demo_report; loc_eng_msg_request_atl 5 AGPS_TYPE_SUPL; new_loc_eng_msg LOC_ENG_MSG_ENGINE_UP;
   loc_eng_msg_release_atl 5; new_loc_eng_msg LOC_ENG_MSG_STOP_FIX].
Lemma engine_never_faults_witness :
  ready (set_deferred_q demo_queue demo_engine) ∧
  ∃ b s', loc_eng_deferred_action_thread 50 (set_deferred_q demo_queue demo_engine) = Some (b, s') ∧ ready s'.
Proof.
  assert (ready (set_deferred_q demo_queue demo_engine)) as Hr.
  { destruct demo_ready as [H1 H2 H3 _]. split; [intros w; specialize (H1 w); by destruct w|done|done|].
    repeat (constructor; [split; [done|]|]); [ | | | | |constructor].
    - split; [done|]. intros n (Hm & Hp & Hh & Hv). by apply demo_pos_fits.
    - split; [done|]. vm_compute. discriminate.
    - do 3 right. left.
    - split; [done|]. vm_compute. discriminate.
    - right. left. }
  split; [exact Hr|]. apply (engine_never_faults 50 _); [apply demo_fits; cbn; lia|exact Hr].
Defined.

Lemma report_position_spec_witness :
  let r := PositionReport demo_loc demo_ext None LOC_SESS_INTERMEDIATE 1 in
  let s := set_intermediateFix 1 demo_engine in
  ∃ s', report_position r s = Some (tt, s') ∧
    trace s' = [ToFramework (F_location (Some demo_loc) None); ToModem A_stopFix] ++
      told_sentences [ToFramework (F_location (Some demo_loc) None); ToModem A_stopFix]
        (sentence_of <$> pos_sentences demo_loc demo_ext (nmea_of (after_ending r s))) ++ freed demo_loc ∧
    isInSession s' = false.
Proof.
  intros r s. destruct (report_position_spec r s) as (s' & Hrun & Ht & Hi).
  - discriminate.
  - intros _. split; [reflexivity|]. apply demo_pos_fits; [by_compute|by apply demo_fits; vm_compute..].
  - exists s'. split; [exact Hrun|]. split; [|rewrite Hi; by_compute]. exact Ht.
Defined.

(** The comment in front of the test takes every other position for an
    intermediate one; the code accepts a final one, not of satellites or
    sensors, too. *)
Lemma final_taken_for_intermediate :
  let r := PositionReport demo_loc demo_ext None LOC_SESS_SUCCESS 0 in
  position_accepted r (set_intermediateFix 1 demo_engine) = true ∧
  position_accepted r (set_intermediateFix 0 demo_engine) = false.
Proof. by vm_compute. Qed.

(** The modem answers at the third attempt. *)
Lemma loc_eng_init_spec_witness :
  let r := loc_eng_init (Some (cb demo_engine, true)) 0x1ff true (set_context false demo_engine) in
  r.1 = 0 ∧ ∃ k calls, (0 < k ≤ 30)%nat ∧ trace r.2 = calls ++ replicate k (ToModem A_reinit) ∧
    deferred_q r.2 = config_msgs ∧ (length (trace r.2) = 5)%nat.
Proof.
  intros r. assert (r.1 = 0) as Hrc by (vm_compute; reflexivity). split; [exact Hrc|].
  destruct (loc_eng_init_spec (cb demo_engine) true 0x1ff (set_context false demo_engine) r.1 r.2)
    as (k & calls & Hk & Ht & _ & _ & _ & Hq); [done|done|apply surjective_pairing|].
  exists k, calls. split; [exact Hk|]. split; [exact Ht|]. split; [|vm_compute; reflexivity].
  rewrite Hq, Hrc. reflexivity.
Defined.

Lemma requests_reach_modem_witness :
  let s := set_deferred_q [] demo_engine in
  ∃ s1 s2, call_of (SetSuplServer (str "supl.example.com") 7276) s = Some (0, s1) ∧
    loc_eng_deferred_action_thread 2 s1 = Some (true, s2) ∧
    trace s2 = [ToModem (A_setServer_url (str "supl.example.com:7276") 21)].
Proof.
  intros s. destruct (requests_reach_modem (SetSuplServer (str "supl.example.com") 7276) s)
    as (s1 & H1 & s2 & H2 & Ht & _); [by split|done|].
  exists s1, s2. split; [exact H1|]. split; [exact H2|]. rewrite Ht. reflexivity.
Defined.
