(* ===== verification/LocEngAgps.v ===== *)
(** * The engine and its connection machines

    The engine hands requests of the modem, of the daemon and answers of the
    framework to the three machines of [Agps].  [route] says which calls of
    which machine's specification a message stands for; the handlers refine
    it. *)

From S2P Require Import Prelude Agps Nmea Ni EngMsg LocEng LocEngFacts.
Local Open Scope Z_scope.

#[export] Instance which_nif_eq_dec : EqDecision which_nif.
Proof. solve_decision. Defined.

(** The specifications of the three machines. *)
Definition links : Type := which_nif → link.
Definition upd (w : which_nif) (f : link → link) (x : links) : links :=
  λ v, if decide (v = w) then f (x v) else x v.

Section routing.
Context `{EngEnv}.

Definition tracks (s : eng) (x : links) : Prop := ∀ w, ∃ m, get_nif w s = Some m ∧ linked m (x w).

(** Whose connection a message is about: each machine serves the type it was made
    with, that of the internet all the others; a request of the daemon names the
    interface, and one of the modem without a type is for SUPL. *)
Definition machine_of_type (type : Z) : which_nif :=
  if decide (type = AGPS_TYPE_SUPL) then AGNSS else if decide (type = AGPS_TYPE_WIFI) then WIFI else INTERNET.
Definition machine_of_interface (ifType : Z) : option which_nif :=
  if decide (ifType = LOC_ENG_IF_REQUEST_TYPE_SUPL) then Some AGNSS
  else if decide (ifType = LOC_ENG_IF_REQUEST_TYPE_ANY) then Some INTERNET else None.
Definition machine_of_request (type : Z) : which_nif :=
  if decide (type = AGPS_TYPE_SUPL ∨ type = AGPS_TYPE_INVALID) then AGNSS else INTERNET.

Lemma agps_nif_spec type : agps_nif type = machine_of_type type.
Proof.
  unfold agps_nif, machine_of_type. destruct (Z.eqb_spec type AGPS_TYPE_WIFI) as [->|Hw]; [done|].
  rewrite (decide_False (P := type = AGPS_TYPE_WIFI)) by done.
  by destruct (Z.eqb_spec type AGPS_TYPE_SUPL), (decide (type = AGPS_TYPE_SUPL)).
Qed.
Lemma if_nif_spec type : if_nif type = machine_of_interface type.
Proof.
  unfold if_nif, machine_of_interface.
  destruct (Z.eqb_spec type LOC_ENG_IF_REQUEST_TYPE_SUPL), (decide (type = LOC_ENG_IF_REQUEST_TYPE_SUPL)); try done.
  by destruct (Z.eqb_spec type LOC_ENG_IF_REQUEST_TYPE_ANY), (decide (type = LOC_ENG_IF_REQUEST_TYPE_ANY)).
Qed.
Lemma request_atl_nif_spec type : request_atl_nif type = machine_of_request type.
Proof.
  unfold request_atl_nif, machine_of_request. rewrite (Z.eqb_sym AGPS_TYPE_SUPL), (Z.eqb_sym AGPS_TYPE_INVALID).
  by destruct (Z.eqb_spec type AGPS_TYPE_SUPL), (Z.eqb_spec type AGPS_TYPE_INVALID),
    (decide (type = AGPS_TYPE_SUPL ∨ type = AGPS_TYPE_INVALID)); try naive_solver.
Qed.

(** What a message asks of the machines; [agps]: whether the connections have
    been set up when the modem restarts. *)
Definition route (agps : bool) (msg : loc_eng_msg) (x : links) : links :=
  match body msg with
  | PBit type v4 v6 =>
      let sub := new_BITSubscriber uninit v4 v6 in
      match machine_of_interface type with
      | Some w => upd w (link_call (if msgid msg =? LOC_ENG_MSG_REQUEST_BIT then Subscribe sub else Unsubscribe sub)) x
      | None => x
      end
  | PWifi _ sender ssid pw =>
      let sub := new_WIFISubscriber ssid pw sender in
      if msgid msg =? LOC_ENG_MSG_REQUEST_WIFI then
        if (sender =? LOC_ENG_IF_REQUEST_SENDER_ID_QUIPC) || (sender =? LOC_ENG_IF_REQUEST_SENDER_ID_MSAPM)
        then upd WIFI (link_call (Subscribe sub)) x else x
      else upd WIFI (link_call (Unsubscribe sub)) x
  | PRequestAtl handle type =>
      upd (machine_of_request type)
        (link_call (Subscribe (new_ATLSubscriber handle client_handle (AGPS_TYPE_INVALID =? type)))) x
  | PReleaseAtl handle =>
      let sub := new_ATLSubscriber handle client_handle false in
      upd (if (Abs.unsubscribe (l_cfg (x AGNSS)) sub (l_machine (x AGNSS))).1 then AGNSS else INTERNET)
        (link_call (Unsubscribe sub)) x
  | PAtlOpen type apn len bearer =>
      upd (machine_of_type type)
        (λ l, link_call (Event RSRC_GRANTED) (link_call (SetAPN (Some apn) len) (link_call (SetBearer bearer) l))) x
  | PAtl type =>
      upd (machine_of_type type)
        (link_call (Event (if msgid msg =? LOC_ENG_MSG_ATL_CLOSED then RSRC_RELEASED else RSRC_DENIED))) x
  | PNone =>
      if (msgid msg =? LOC_ENG_MSG_ENGINE_UP) && agps then upd INTERNET link_drop (upd AGNSS link_drop x) else x
  | _ => x
  end.

(** A computation that steps the machines by [f]. *)
Definition steps (f : links → links) {A} (m : ST eng A) : Prop :=
  ∀ s x a s', tracks s x → m s = Some (a, s') → tracks s' (f x).

Definition same_nifs (s s' : eng) : Prop := ∀ w, get_nif w s' = get_nif w s.
#[local] Instance same_nifs_walk : Walk same_nifs (λ _, True).
Proof.
  split; [|intros; intros w; by destruct w..|done|done].
  split; [done|]. intros s1 s2 s3 H12 H23 w. by rewrite H23.
Qed.

Lemma tracks_ext s x y : (∀ w, x w = y w) → tracks s x → tracks s y.
Proof. intros Hxy Hs w. destruct (Hs w) as (m & ? & ?). rewrite <- Hxy. eauto. Qed.

Lemma steps_id {A} (m : ST eng A) : moves same_nifs m → steps id m.
Proof. intros Hm s x a s' Hs Hrun w. rewrite (Hm _ _ _ Hrun w). apply Hs. Qed.
Lemma steps_bind {A B} f g (m : ST eng A) (k : A → ST eng B) :
  steps f m → (∀ a, steps g (k a)) → steps (λ x, g (f x)) (m ≫= k).
Proof.
  intros Hm Hk s x b s' Hs. rewrite st_bind_run. destruct (m s) as [[a s1]|] eqn:Hrun; [|done].
  intros Hb. eapply Hk; [|exact Hb]. by eapply Hm.
Qed.
Lemma steps_go f (m : ST eng unit) : steps f m → steps f (go m).
Proof. intros Hm. apply (steps_bind f id); [done|]. intros _. apply steps_id, moves_ret, _. Qed.
Lemma steps_modify f : (∀ s, same_nifs s (f s)) → steps id (go (st_modify f)).
Proof. intros Hf. by apply steps_go, steps_id, moves_modify. Qed.

Lemma steps_on_nif {A} w (op : ST AgpsStateMachine A) f :
  (∀ m l a m', linked m l → op m = Some (a, m') → linked m' (f l)) → steps (upd w f) (on_nif w op).
Proof.
  intros Hop s x a s' Hs. unfold on_nif. destruct (get_nif w s) as [m|] eqn:Hm; [|done].
  destruct (op m) as [[b m']|] eqn:Hrun; [|done]. intros [= _ <-] v. unfold upd.
  destruct (Hs v) as (mv & Hv & Hl). destruct (decide (v = w)) as [->|Hne].
  - rewrite Hm in Hv. injection Hv as ->. exists m'. split; [by destruct w|]. by eapply Hop.
  - exists mv. split; [by destruct v, w|done].
Qed.

Lemma steps_call w k : valid_call k → steps (upd w (link_call k)) (on_nif w (run_call k)).
Proof.
  intros Hk. apply steps_on_nif. intros m l [] m' Hl Hrun.
  destruct (linked_call m l k Hl Hk) as (m2 & Hrun2 & Hl2). congruence.
Qed.
Lemma steps_unsubscribe w sub : ok_sub sub →
  steps (upd w (link_call (Unsubscribe sub))) (on_nif w (with_stack sub unsubscribeRsrc)).
Proof.
  intros Hk. apply steps_on_nif. intros m l b m' Hl Hrun.
  destruct (linked_unsubscribe m l sub Hl Hk) as (m2 & Hrun2 & Hl2). congruence.
Qed.
Lemma steps_drop w : steps (upd w link_drop) (on_nif w dropAllSubscribers).
Proof.
  apply steps_on_nif. intros m l a m' Hl Hrun. destruct (linked_drop m l Hl) as (m2 & Hrun2 & Hl2). congruence.
Qed.

Lemma same_told c s : same_nifs s (framework c s).
Proof. by intros []. Qed.
Lemma same_status st s : same_nifs s (loc_eng_report_status st s).
Proof.
  unfold loc_eng_report_status, loc_inform_gps_status. cbn zeta. repeat break_if; by intros [].
Qed.

Lemma steps_engine_up (agps : bool) s x a s' : agps_status_cb (cb s) = agps →
  tracks s x → loc_eng_handle_engine_up s = Some (a, s') →
  tracks s' (if agps then upd INTERNET link_drop (upd AGNSS link_drop x) else x).
Proof.
  intros Hagps Hs. unfold loc_eng_handle_engine_up. rewrite st_bind_run. cbn [st_modify].
  pose proof (walk_reinit same_nifs (λ _, True) s) as Hre.
  assert (agps_status_cb (cb (loc_eng_reinit s).2) = agps) as Hcb.
  { rewrite <- Hagps. unfold loc_eng_reinit, modem_rc. cbn zeta beta iota. by repeat break_if. }
  assert (tracks (loc_eng_reinit s).2 x) as Ht by (intros w; rewrite Hre; apply Hs).
  revert Ht. generalize dependent (loc_eng_reinit s).2. intros s1 _ Hcb Ht. rewrite st_bind_run. cbn [st_get].
  rewrite Hcb. revert Ht. generalize s1, x, a, s'. clear s1 Hcb s s' x a Hagps Hs.
  change (steps (λ x, if agps then upd INTERNET link_drop (upd AGNSS link_drop x) else x) (
    _ ← (if agps then _ ← on_nif AGNSS dropAllSubscribers; _ ← on_nif INTERNET dropAllSubscribers; loc_eng_agps_reinit
         else mret tt);
    _ ← st_modify (loc_eng_report_status GPS_STATUS_ENGINE_ON);
    st_modify (λ s,
      if isInSession s then (loc_eng_start_handler (setInSession false (modem (A_setPositionMode None) s))).2 else s))).
  refine (steps_bind _ id _ _ _ _); [destruct agps|intros _].
  - refine (steps_bind _ _ _ _ (steps_drop AGNSS) _). intros _.
    refine (steps_bind _ id _ _ (steps_drop INTERNET) _). intros _.
    apply steps_id, (walk_agps_reinit same_nifs (λ _, True)).
  - apply steps_id, moves_ret, _.
  - apply steps_id. apply moves_bind; [apply _|apply moves_modify, same_status|intros _].
    apply moves_modify. intros s. break_if; [|done].
    etrans; [|apply (walk_start same_nifs (λ _, True))]. intros w. by destruct w.
Qed.

Lemma steps_release_atl handle : uint32 handle ≠ INADDR_NONE →
  let sub := new_ATLSubscriber handle client_handle false in
  steps (λ x, upd (if (Abs.unsubscribe (l_cfg (x AGNSS)) sub (l_machine (x AGNSS))).1 then AGNSS else INTERNET)
           (link_call (Unsubscribe sub)) x) (release_atl handle).
Proof.
  intros Hok sub s x a s' Hs. unfold release_atl. fold sub. rewrite st_bind_run.
  destruct (on_nif AGNSS _ s) as [[b s1]|] eqn:Hrun; [|done].
  pose proof (steps_unsubscribe AGNSS sub Hok s x b s1 Hs Hrun) as H1.
  assert (b = (Abs.unsubscribe (l_cfg (x AGNSS)) sub (l_machine (x AGNSS))).1) as Hb.
  { unfold on_nif in Hrun. destruct (Hs AGNSS) as (m & Hm & Hl). rewrite Hm in Hrun.
    destruct (linked_unsubscribe m _ sub Hl Hok) as (m' & Hrun' & _). rewrite Hrun' in Hrun. congruence. }
  rewrite <- Hb. destruct b; [by intros [= _ <-]|]. intros Hrun2. 
  assert (tracks s1 x) as H1x.
  { eapply tracks_ext; [|exact H1]. intros w. unfold upd. case_decide as Hw; [|done]. subst w.
    unfold link_call. cbn [abs_call cfg_call]. unfold Abs.unsubscribe in Hb |- *.
    destruct (list_find _ _) as [[]|]; [done|]. by destruct (x AGNSS). }
  revert Hrun2. apply (steps_bind _ id _ _ (steps_unsubscribe INTERNET sub Hok)
    (λ _, steps_id _ (moves_ret same_nifs tt)) s1 x a s' H1x).
Qed.

Lemma same_after msg s : same_nifs s (after_switch msg s).
Proof. apply (walk_after same_nifs (λ _, True)); [split|]; intros; intros w; by destruct w. Qed.

Lemma steps_ext f g {A} (m : ST eng A) : (∀ x w, f x w = g x w) → steps f m → steps g m.
Proof. intros Hfg Hm s x a s' Hs Hrun. eapply tracks_ext; [apply Hfg|by eapply Hm]. Qed.
Lemma steps_tell g c :
  steps (λ x, x) (go (st_modify (λ s, if g (cb s) : bool then framework c s else s))).
Proof. apply steps_modify. intros s. by break_if; intros []. Qed.

(** The messages without data, but for the one that resets the machines. *)
Lemma steps_plain agps o mid : valid_body PNone mid → mid ≠ LOC_ENG_MSG_ENGINE_UP →
  steps (route agps (Msg o mid PNone)) (deferred_switch (Msg o mid PNone)).
Proof.
  intros Hb Hup. cbn [valid_body] in Hb.
  repeat (apply elem_of_cons in Hb as [->|Hb]); [..|by apply not_elem_of_nil in Hb].
  - apply (steps_modify _ (walk_start same_nifs (λ _, True))).
  - refine (steps_modify (λ s, if agps_request_pending s then set_stop_request_pending true s
                      else (loc_eng_stop_handler s).2) _).
    intros s. break_if; [by intros []|apply (walk_stop same_nifs (λ _, True))].
  - apply (steps_modify loc_eng_handle_engine_down). intros s.
    etrans; [|apply same_status]. by intros [].
  - done.
  - exact (steps_tell download_request_cb F_download_request).
  - exact (steps_tell request_utc_time_cb F_request_utc_time).
Qed.

(** A connection was opened: bearer, name and event of its machine. *)
Lemma steps_opened agps o type apn len bearer : valid_call (SetAPN (Some apn) len) →
  steps (route agps (Msg o LOC_ENG_MSG_ATL_OPEN_SUCCESS (PAtlOpen type apn len bearer)))
    (deferred_switch (Msg o LOC_ENG_MSG_ATL_OPEN_SUCCESS (PAtlOpen type apn len bearer))).
Proof.
  intros Hok. refine (steps_go _ _ _). set (w := agps_nif type).
  apply (steps_ext (λ x, upd w (link_call (Event RSRC_GRANTED))
    (upd w (link_call (SetAPN (Some apn) len)) (upd w (link_call (SetBearer bearer)) x)))).
  { intros x v. unfold route, upd. cbn [body]. rewrite <- agps_nif_spec. fold w. by case_decide. }
  refine (steps_bind _ (λ x, upd w _ (upd w _ x)) _ _ (steps_call w (SetBearer bearer) I) _). intros _.
  refine (steps_bind _ _ _ _ (steps_call w (SetAPN (Some apn) len) Hok) _). intros _.
  apply (steps_call _ (Event RSRC_GRANTED) I).
Qed.

Lemma steps_switch agps msg : valid msg → msgid msg ≠ LOC_ENG_MSG_ENGINE_UP →
  steps (route agps msg) (deferred_switch msg).
Proof.
  destruct msg as [o mid b]. intros [_ Hb] Hup. cbn [body msgid] in Hb, Hup.
  assert (∀ c, steps (λ x, x) (go (st_modify (modem c)))) as Hmodem.
  { intros c. apply steps_modify. by intros s []. }
  assert (∀ n l, steps (λ x, x) (go (st_modify (λ s, if nmea_cb (cb s) then send_nmea n l s else s)))) as Hsend.
  { intros n l. apply steps_modify. intros s. by break_if; intros []. }
  assert (∀ w k, valid_call k → steps (upd w (link_call k)) (go (on_nif w (run_call k)))) as Hnif.
  { intros w k Hk. by apply steps_go, steps_call. }
  assert (∀ w sub, ok_sub sub → steps (upd w (link_call (Unsubscribe sub)))
    (_ ← on_nif w (with_stack sub unsubscribeRsrc); mret true)) as Hun.
  { intros w sub Hok. refine (steps_bind _ id _ _ (steps_unsubscribe w sub Hok) _). intros _.
    apply steps_id, moves_ret, _. }
  assert (steps (λ x, x) (mret true : ST eng bool)) as Hskip by apply steps_id, moves_ret, _.
  destruct b; cbn [valid_body] in Hb;
    try (subst mid; solve [exact (Hmodem _) | exact (steps_tell _ _) | exact (Hsend _ _) | exact Hskip]).
  - by apply steps_plain.
  - subst mid. refine (steps_modify _ _). by intros s [].
  - destruct Hb as [-> _]. by apply (steps_go id), steps_id, (walk_report_position same_nifs (λ _, True)).
  - destruct Hb as [-> _]. by apply (steps_go id), steps_id, (walk_report_sv same_nifs (λ _, True)).
  - subst mid. exact (steps_modify _ (same_status status)).
  - destruct Hb as [[->| ->] Hok]; unfold route; cbn; rewrite <- if_nif_spec; destruct (if_nif ifType) as [w|]; try apply Hskip.
    + exact (Hnif w (Subscribe _) Hok).
    + exact (Hun w _ Hok).
  - destruct Hb as [[->| ->] Hok]; unfold route; cbn; [break_if; [|apply Hskip]|].
    + exact (Hnif WIFI (Subscribe _) Hok).
    + exact (Hun WIFI _ Hok).
  - destruct Hb as [-> Hok]. unfold route. cbn [body]. rewrite <- request_atl_nif_spec.
    exact (Hnif _ (Subscribe (new_ATLSubscriber handle client_handle _)) Hok).
  - destruct Hb as [-> Hok]. exact (steps_go _ _ (steps_release_atl handle Hok)).
  - subst mid. refine (steps_modify _ _). intros s. unfold request_ni. cbn zeta. by break_if; intros [].
  - destruct Hb as [-> Hok]. by apply steps_opened.
  - unfold route. cbn [body]. rewrite <- agps_nif_spec.
    destruct Hb as [->| ->]; [exact (Hnif _ (Event RSRC_RELEASED) I)|exact (Hnif _ (Event RSRC_DENIED) I)].
  - subst mid. refine (steps_modify _ _). by intros s [].
Qed.

(** A round of the engine steps the three specifications. *)
Lemma handle_tracks msg s x :
  fits r_zero → ready s → context s = true → valid msg → tracks s x →
  ∃ b s', handle_msg msg s = Some (b, s') ∧ tracks s' (route (agps_status_cb (cb s)) msg x).
Proof.
  intros Hz Hs Hc Hv Hx. destruct (safe_handle msg Hz Hv s Hs) as (b & s' & Hrun & _).
  exists b, s'. split; [done|]. revert Hrun. unfold handle_msg. rewrite (proj1 Hv). st_run. rewrite Hc. cbn [negb]. st_run.
  destruct (deferred_switch msg s) as [[c s1]|] eqn:Hsw; [|done].
  assert (tracks s1 (route (agps_status_cb (cb s)) msg x)) as H1.
  { destruct (decide (msgid msg = LOC_ENG_MSG_ENGINE_UP)) as [Hup|Hup]; [|by eapply steps_switch].
    destruct msg as [o mid b']. cbn [msgid] in Hup. subst mid. destruct Hv as [_ Hb].
    destruct b'; cbn [valid_body body msgid] in Hb; try by (destruct_and?; destruct_or?).
    revert Hsw. change (deferred_switch _) with (go loc_eng_handle_engine_up). unfold go. st_run.
    destruct (loc_eng_handle_engine_up s) as [[[] s2]|] eqn:Hup; [|done]. intros [= _ <-].
    by eapply steps_engine_up. }
  destruct c; [|by intros [= _ <-]]. st_run. intros [= _ <-] w. rewrite (same_after msg s1 w). apply H1.
Qed.

(** C7: The engine drives the specifications of its three connection machines:
    handling a message faults nowhere and steps them as the message asks -
    requests and releases of the modem and of the daemon by the kind of the
    connection, a release of the modem at the first machine that knows the
    handle, the framework's answers by the type of the network, a restart of
    the modem by dropping the subscribers of two of them - and every other
    message leaves them alone. *)
Theorem engine_refines_machines msg s x :
  fits r_zero → ready s → context s = true → valid msg → tracks s x →
  ∃ b s', handle_msg msg s = Some (b, s') ∧ tracks s' (route (agps_status_cb (cb s)) msg x).
Proof. apply handle_tracks. Qed.
End routing.

(** ** A concrete engine *)

#[local] Existing Instance demo_nmea.
#[local] Existing Instance demo_env.
Definition demo_links : links := λ w,
  match w with
  | AGNSS => new_link AGPS_TYPE_SUPL 0 false
  | INTERNET => new_link AGPS_TYPE_WWAN_ANY 0 false
  | WIFI => new_link AGPS_TYPE_WIFI 0 true
  end.
Definition demo_request : loc_eng_msg := EngMsg.loc_eng_msg_request_bit LOC_ENG_IF_REQUEST_TYPE_ANY 0x0a000001 None.

Lemma engine_refines_machines_witness :
  ∃ b s', handle_msg demo_request demo_engine = Some (b, s') ∧ tracks s' (route true demo_request demo_links) ∧
    Abs.state (l_machine (route true demo_request demo_links INTERNET)) = AgpsPendingState.
Proof.
  assert (tracks demo_engine demo_links) as Ht.
  { intros []; (eexists; split; [reflexivity|apply linked_new]). }
  destruct (engine_refines_machines demo_request demo_engine demo_links) as (b & s' & Hrun & Ht').
  - apply demo_fits; cbn; lia.
  - apply demo_ready.
  - done.
  - split; [done|]. split; [by left|]. by split.
  - exact Ht.
  - exists b, s'. split; [exact Hrun|]. split; [exact Ht'|]. vm_compute. reflexivity.
Defined.
