(* ===== verification/GpsConf.v ===== *)
(** * The configuration of the engine: gps_conf of loc_eng.cpp

    The table of the parameters of gps.conf, their defaults and
    [loc_eng_read_config], on the reader of LocCfg.v, and what becomes of
    them: the engine of LocEng.v, started with the configuration that was
    read, tells it to the modem.

    The members of [gps_conf] are variables of the reader's memory, the
    members ending in _VALID its marks; [atof] is a parameter. *)

From Stdlib Require Import String Ascii.
From S2P Require Import Prelude LocCfg Nmea EngMsg LocEng LocEngFacts.
Local Open Scope Z_scope.

(** ** The members of [gps_conf] (1 and 2 are variables of the reader) *)

Module var.
Definition INTERMEDIATE_POS : positive := 3.
Definition ACCURACY_THRES : positive := 4.
Definition ENABLE_WIPER : positive := 5.
Definition NMEA_PROVIDER : positive := 6.
Definition SUPL_VER : positive := 7.
Definition CAPABILITIES : positive := 8.
Definition GYRO_BIAS_RANDOM_WALK : positive := 9.
Definition ACCEL_RANDOM_WALK_SPECTRAL_DENSITY : positive := 10.
Definition ANGLE_RANDOM_WALK_SPECTRAL_DENSITY : positive := 11.
Definition RATE_RANDOM_WALK_SPECTRAL_DENSITY : positive := 12.
Definition VELOCITY_RANDOM_WALK_SPECTRAL_DENSITY : positive := 13.
Definition SENSOR_ACCEL_BATCHES_PER_SEC : positive := 14.
Definition SENSOR_ACCEL_SAMPLES_PER_BATCH : positive := 15.
Definition SENSOR_GYRO_BATCHES_PER_SEC : positive := 16.
Definition SENSOR_GYRO_SAMPLES_PER_BATCH : positive := 17.
Definition SENSOR_ACCEL_BATCHES_PER_SEC_HIGH : positive := 18.
Definition SENSOR_ACCEL_SAMPLES_PER_BATCH_HIGH : positive := 19.
Definition SENSOR_GYRO_BATCHES_PER_SEC_HIGH : positive := 20.
Definition SENSOR_GYRO_SAMPLES_PER_BATCH_HIGH : positive := 21.
Definition SENSOR_CONTROL_MODE : positive := 22.
Definition SENSOR_USAGE : positive := 23.
Definition SENSOR_ALGORITHM_CONFIG_MASK : positive := 24.
Definition QUIPC_ENABLED : positive := 25.
Definition LPP_PROFILE : positive := 26.
(** The marks. *)
Definition GYRO_BIAS_RANDOM_WALK_VALID : positive := 1.
Definition ACCEL_RANDOM_WALK_SPECTRAL_DENSITY_VALID : positive := 2.
Definition ANGLE_RANDOM_WALK_SPECTRAL_DENSITY_VALID : positive := 3.
Definition RATE_RANDOM_WALK_SPECTRAL_DENSITY_VALID : positive := 4.
Definition VELOCITY_RANDOM_WALK_SPECTRAL_DENSITY_VALID : positive := 5.
End var.

Definition number (name : string) (p : positive) : loc_param_s_type :=
  Param (str name) (Some p) None "n".
Definition walk (name : string) (p m : positive) : loc_param_s_type :=
  Param (str name) (Some p) (Some m) "f".

Definition loc_parameter_table : list loc_param_s_type := [
  number "INTERMEDIATE_POS" var.INTERMEDIATE_POS;
  number "ACCURACY_THRES" var.ACCURACY_THRES;
  number "ENABLE_WIPER" var.ENABLE_WIPER;
  number "NMEA_PROVIDER" var.NMEA_PROVIDER;
  number "SUPL_VER" var.SUPL_VER;
  number "CAPABILITIES" var.CAPABILITIES;
  walk "GYRO_BIAS_RANDOM_WALK" var.GYRO_BIAS_RANDOM_WALK var.GYRO_BIAS_RANDOM_WALK_VALID;
  walk "ACCEL_RANDOM_WALK_SPECTRAL_DENSITY" var.ACCEL_RANDOM_WALK_SPECTRAL_DENSITY
    var.ACCEL_RANDOM_WALK_SPECTRAL_DENSITY_VALID;
  walk "ANGLE_RANDOM_WALK_SPECTRAL_DENSITY" var.ANGLE_RANDOM_WALK_SPECTRAL_DENSITY
    var.ANGLE_RANDOM_WALK_SPECTRAL_DENSITY_VALID;
  walk "RATE_RANDOM_WALK_SPECTRAL_DENSITY" var.RATE_RANDOM_WALK_SPECTRAL_DENSITY
    var.RATE_RANDOM_WALK_SPECTRAL_DENSITY_VALID;
  walk "VELOCITY_RANDOM_WALK_SPECTRAL_DENSITY" var.VELOCITY_RANDOM_WALK_SPECTRAL_DENSITY
    var.VELOCITY_RANDOM_WALK_SPECTRAL_DENSITY_VALID;
  number "SENSOR_ACCEL_BATCHES_PER_SEC" var.SENSOR_ACCEL_BATCHES_PER_SEC;
  number "SENSOR_ACCEL_SAMPLES_PER_BATCH" var.SENSOR_ACCEL_SAMPLES_PER_BATCH;
  number "SENSOR_GYRO_BATCHES_PER_SEC" var.SENSOR_GYRO_BATCHES_PER_SEC;
  number "SENSOR_GYRO_SAMPLES_PER_BATCH" var.SENSOR_GYRO_SAMPLES_PER_BATCH;
  number "SENSOR_ACCEL_BATCHES_PER_SEC_HIGH" var.SENSOR_ACCEL_BATCHES_PER_SEC_HIGH;
  number "SENSOR_ACCEL_SAMPLES_PER_BATCH_HIGH" var.SENSOR_ACCEL_SAMPLES_PER_BATCH_HIGH;
  number "SENSOR_GYRO_BATCHES_PER_SEC_HIGH" var.SENSOR_GYRO_BATCHES_PER_SEC_HIGH;
  number "SENSOR_GYRO_SAMPLES_PER_BATCH_HIGH" var.SENSOR_GYRO_SAMPLES_PER_BATCH_HIGH;
  number "SENSOR_CONTROL_MODE" var.SENSOR_CONTROL_MODE;
  number "SENSOR_USAGE" var.SENSOR_USAGE;
  number "SENSOR_ALGORITHM_CONFIG_MASK" var.SENSOR_ALGORITHM_CONFIG_MASK;
  number "QUIPC_ENABLED" var.QUIPC_ENABLED;
  number "LPP_PROFILE" var.LPP_PROFILE].

Section conf.
Context `{NmeaEnv} (atof : chars → real).

Abbreviation conf := (@cfg real).

(** [unsigned long] is as wide as [int]; [NMEA_PROVIDER] has one byte. *)
Definition loc_default_parameters (c : conf) : conf :=
  let int p z := store p (VInt z) in
  let dbl p := store p (VDouble r_zero) in
  let c := int var.INTERMEDIATE_POS 0 c in
  let c := int var.ACCURACY_THRES 0 c in
  let c := int var.ENABLE_WIPER 0 c in
  let c := store var.NMEA_PROVIDER (VByte 0) c in
  let c := int var.SUPL_VER 0x10000 c in
  let c := int var.CAPABILITIES 0x7 c in
  let c := dbl var.GYRO_BIAS_RANDOM_WALK c in
  let c := int var.SENSOR_ACCEL_BATCHES_PER_SEC 2 c in
  let c := int var.SENSOR_ACCEL_SAMPLES_PER_BATCH 5 c in
  let c := int var.SENSOR_GYRO_BATCHES_PER_SEC 2 c in
  let c := int var.SENSOR_GYRO_SAMPLES_PER_BATCH 5 c in
  let c := int var.SENSOR_ACCEL_BATCHES_PER_SEC_HIGH 4 c in
  let c := int var.SENSOR_ACCEL_SAMPLES_PER_BATCH_HIGH 25 c in
  let c := int var.SENSOR_GYRO_BATCHES_PER_SEC_HIGH 4 c in
  let c := int var.SENSOR_GYRO_SAMPLES_PER_BATCH_HIGH 25 c in
  let c := int var.SENSOR_CONTROL_MODE 0 c in
  let c := int var.SENSOR_USAGE 0 c in
  let c := int var.SENSOR_ALGORITHM_CONFIG_MASK 0 c in
  let c := dbl var.ACCEL_RANDOM_WALK_SPECTRAL_DENSITY c in
  let c := dbl var.ANGLE_RANDOM_WALK_SPECTRAL_DENSITY c in
  let c := dbl var.RATE_RANDOM_WALK_SPECTRAL_DENSITY c in
  let c := dbl var.VELOCITY_RANDOM_WALK_SPECTRAL_DENSITY c in
  let c := mark (Some var.GYRO_BIAS_RANDOM_WALK_VALID) 0 c in
  let c := mark (Some var.ACCEL_RANDOM_WALK_SPECTRAL_DENSITY_VALID) 0 c in
  let c := mark (Some var.ANGLE_RANDOM_WALK_SPECTRAL_DENSITY_VALID) 0 c in
  let c := mark (Some var.RATE_RANDOM_WALK_SPECTRAL_DENSITY_VALID) 0 c in
  let c := mark (Some var.VELOCITY_RANDOM_WALK_SPECTRAL_DENSITY_VALID) 0 c in
  int var.LPP_PROFILE 0 c.

(** The static variables. *)
Record config := Config {
  gps_conf_vars : conf;
  gpsConfigAlreadyRead : bool
}.

(** [lines]: the lines of the file, if it opens. *)
Definition loc_eng_read_config (lines : option (list chars)) (c : config) : Z * config :=
  if negb (gpsConfigAlreadyRead c) then
    let v := loc_default_parameters (gps_conf_vars c) in
    (0, Config (loc_read_conf atof r_zero lines loc_parameter_table v) true)
  else (0, c).

(** The members as the engine reads them. *)
Definition ulong (p : positive) (c : conf) : Z :=
  match mem c !! p with Some (VInt z) => uint32 z | _ => 0 end.
Definition dbl (p : positive) (c : conf) : real :=
  match mem c !! p with Some (VDouble d) => d | _ => r_zero end.
Definition valid (m : positive) (c : conf) : bool := truth (default 0 (marks c !! m)).

Definition conf_of (c : conf) : loc_gps_cfg_s_type := {|
  INTERMEDIATE_POS := ulong var.INTERMEDIATE_POS c;
  ACCURACY_THRES := ulong var.ACCURACY_THRES c;
  NMEA_PROVIDER := byte_of var.NMEA_PROVIDER c;
  SUPL_VER := ulong var.SUPL_VER c;
  CAPABILITIES := ulong var.CAPABILITIES c;
  LPP_PROFILE := ulong var.LPP_PROFILE c;
  SENSOR_USAGE := ulong var.SENSOR_USAGE c;
  SENSOR_PROPERTIES := {|
    gyroBiasVarianceRandomWalk_valid := valid var.GYRO_BIAS_RANDOM_WALK_VALID c;
    gyroBiasVarianceRandomWalk := dbl var.GYRO_BIAS_RANDOM_WALK c;
    accelRandomWalk_valid := valid var.ACCEL_RANDOM_WALK_SPECTRAL_DENSITY_VALID c;
    accelRandomWalk := dbl var.ACCEL_RANDOM_WALK_SPECTRAL_DENSITY c;
    angleRandomWalk_valid := valid var.ANGLE_RANDOM_WALK_SPECTRAL_DENSITY_VALID c;
    angleRandomWalk := dbl var.ANGLE_RANDOM_WALK_SPECTRAL_DENSITY c;
    rateRandomWalk_valid := valid var.RATE_RANDOM_WALK_SPECTRAL_DENSITY_VALID c;
    rateRandomWalk := dbl var.RATE_RANDOM_WALK_SPECTRAL_DENSITY c;
    velocityRandomWalk_valid := valid var.VELOCITY_RANDOM_WALK_SPECTRAL_DENSITY_VALID c;
    velocityRandomWalk := dbl var.VELOCITY_RANDOM_WALK_SPECTRAL_DENSITY c |};
  SENSOR_PERF := {|
    controlMode := ulong var.SENSOR_CONTROL_MODE c;
    accelSamplesPerBatch := ulong var.SENSOR_ACCEL_SAMPLES_PER_BATCH c;
    accelBatchesPerSec := ulong var.SENSOR_ACCEL_BATCHES_PER_SEC c;
    gyroSamplesPerBatch := ulong var.SENSOR_GYRO_SAMPLES_PER_BATCH c;
    gyroBatchesPerSec := ulong var.SENSOR_GYRO_BATCHES_PER_SEC c;
    accelSamplesPerBatchHigh := ulong var.SENSOR_ACCEL_SAMPLES_PER_BATCH_HIGH c;
    accelBatchesPerSecHigh := ulong var.SENSOR_ACCEL_BATCHES_PER_SEC_HIGH c;
    gyroSamplesPerBatchHigh := ulong var.SENSOR_GYRO_SAMPLES_PER_BATCH_HIGH c;
    gyroBatchesPerSecHigh := ulong var.SENSOR_GYRO_BATCHES_PER_SEC_HIGH c;
    algorithmConfig := ulong var.SENSOR_ALGORITHM_CONFIG_MASK c |}
|}.

(** ** What the file says *)

(** The values the lines of a file give to a name, in order. *)
Definition given {A} (f : @loc_param_v_type real → A) (name : string) (lines : list chars) : list A :=
  omap (λ line, v ← parse_line atof r_zero line;
                if decide (v_name v = str name) then Some (f v) else None) lines.
(** The last number given to a name, or its default, and the same for floats. *)
Definition num (lines : list chars) (name : string) (d : Z) : Z :=
  uint32 (default d (last (given v_int name lines))).
Definition flt (lines : list chars) (name : string) : real :=
  default r_zero (last (given v_double name lines)).
Definition is_given (lines : list chars) (name : string) : bool :=
  negb (length (given v_double name lines) =? 0)%nat.

(** The configuration a file describes. *)
Definition described (lines : list chars) : loc_gps_cfg_s_type := {|
  INTERMEDIATE_POS := num lines "INTERMEDIATE_POS" 0;
  ACCURACY_THRES := num lines "ACCURACY_THRES" 0;
  NMEA_PROVIDER := uint8 (num lines "NMEA_PROVIDER" 0);
  SUPL_VER := num lines "SUPL_VER" 0x10000;
  CAPABILITIES := num lines "CAPABILITIES" 0x7;
  LPP_PROFILE := num lines "LPP_PROFILE" 0;
  SENSOR_USAGE := num lines "SENSOR_USAGE" 0;
  SENSOR_PROPERTIES := {|
    gyroBiasVarianceRandomWalk_valid := is_given lines "GYRO_BIAS_RANDOM_WALK";
    gyroBiasVarianceRandomWalk := flt lines "GYRO_BIAS_RANDOM_WALK";
    accelRandomWalk_valid := is_given lines "ACCEL_RANDOM_WALK_SPECTRAL_DENSITY";
    accelRandomWalk := flt lines "ACCEL_RANDOM_WALK_SPECTRAL_DENSITY";
    angleRandomWalk_valid := is_given lines "ANGLE_RANDOM_WALK_SPECTRAL_DENSITY";
    angleRandomWalk := flt lines "ANGLE_RANDOM_WALK_SPECTRAL_DENSITY";
    rateRandomWalk_valid := is_given lines "RATE_RANDOM_WALK_SPECTRAL_DENSITY";
    rateRandomWalk := flt lines "RATE_RANDOM_WALK_SPECTRAL_DENSITY";
    velocityRandomWalk_valid := is_given lines "VELOCITY_RANDOM_WALK_SPECTRAL_DENSITY";
    velocityRandomWalk := flt lines "VELOCITY_RANDOM_WALK_SPECTRAL_DENSITY" |};
  SENSOR_PERF := {|
    controlMode := num lines "SENSOR_CONTROL_MODE" 0;
    accelSamplesPerBatch := num lines "SENSOR_ACCEL_SAMPLES_PER_BATCH" 5;
    accelBatchesPerSec := num lines "SENSOR_ACCEL_BATCHES_PER_SEC" 2;
    gyroSamplesPerBatch := num lines "SENSOR_GYRO_SAMPLES_PER_BATCH" 5;
    gyroBatchesPerSec := num lines "SENSOR_GYRO_BATCHES_PER_SEC" 2;
    accelSamplesPerBatchHigh := num lines "SENSOR_ACCEL_SAMPLES_PER_BATCH_HIGH" 25;
    accelBatchesPerSecHigh := num lines "SENSOR_ACCEL_BATCHES_PER_SEC_HIGH" 4;
    gyroSamplesPerBatchHigh := num lines "SENSOR_GYRO_SAMPLES_PER_BATCH_HIGH" 25;
    gyroBatchesPerSecHigh := num lines "SENSOR_GYRO_BATCHES_PER_SEC_HIGH" 4;
    algorithmConfig := num lines "SENSOR_ALGORITHM_CONFIG_MASK" 0 |}
|}.
End conf.

(** ** Lemmas *)

(** In a list without repetition the entry of a value is alone. *)
Lemma omap_others {A B} (f : A → option B) l1 e l2 b :
  NoDup (omap f (l1 ++ e :: l2)) → f e = Some b → Forall (λ e', f e' ≠ Some b) (l1 ++ l2).
Proof.
  intros Hn He. rewrite omap_app in Hn. cbn in Hn. rewrite He in Hn.
  apply NoDup_app in Hn as (_ & Hd & [Hb _]%NoDup_cons).
  apply Forall_forall. intros e' Hin Hf.
  apply elem_of_app in Hin as [Hin|Hin].
  - apply (Hd b); [|by left]. apply list_elem_of_omap. by exists e'.
  - apply Hb. apply list_elem_of_omap. by exists e'.
Qed.

Lemma table_split (i : nat) e :
  loc_parameter_table !! i = Some e →
  loc_parameter_table = take i loc_parameter_table ++ e :: drop (S i) loc_parameter_table.
Proof. intros Hi. symmetry. by apply take_drop_middle. Qed.

(** Every variable and every mark of the table is named once, and the reader's
    own table has none of them. *)
Lemma table_distinct :
  NoDup (omap param_ptr (loc_parameter_table ++ LocCfg.loc_parameter_table)) ∧
  NoDup (omap param_set loc_parameter_table).
Proof. by_compute. Qed.

(** A variable that a chain of assignments has set. *)
Ltac default_value := cbn; rewrite ?lookup_insert_ne by done; apply lookup_insert_eq.

Section lemmas.
Context `{NmeaEnv} (atof : chars → real).
Abbreviation conf := (@cfg real).
Abbreviation read lines := (loc_read_conf atof r_zero (Some lines) loc_parameter_table).

Lemma table_alone i e p :
  loc_parameter_table !! i = Some e → param_ptr e = Some p →
  Forall (λ e', param_ptr e' ≠ Some p)
    (take i loc_parameter_table ++ drop (S i) loc_parameter_table ++ LocCfg.loc_parameter_table).
Proof.
  intros Hi Hp. rewrite (assoc_L (++)). pose proof (proj1 table_distinct) as Hn.
  rewrite (table_split i e Hi), <- (assoc_L (++)) in Hn.
  rewrite <- (assoc_L (++)). by apply (omap_others param_ptr _ e).
Qed.

Lemma assignments_int name p s lines :
  assignments atof r_zero (Param (str name) (Some p) s "n") lines = VInt <$> given atof v_int name lines.
Proof.
  unfold given, assignments. induction lines as [|line lines IH]; [done|]. cbn [omap list_omap].
  destruct (parse_line atof r_zero line) as [v|]; [|apply IH]. cbn [mbind option_bind].
  unfold assigned, conv. cbn [param_name param_type].
  rewrite (decide_ext (str name = v_name v) (v_name v = str name)) by done.
  destruct (decide (v_name v = str name)); [|apply IH].
  change (Ascii.eqb "n" "s") with false. change (Ascii.eqb "n" "n") with true. cbn. by f_equal.
Qed.
Lemma assignments_float name p s lines :
  assignments atof r_zero (Param (str name) (Some p) s "f") lines = VDouble <$> given atof v_double name lines.
Proof.
  unfold given, assignments. induction lines as [|line lines IH]; [done|]. cbn [omap list_omap].
  destruct (parse_line atof r_zero line) as [v|]; [|apply IH]. cbn [mbind option_bind].
  unfold assigned, conv. cbn [param_name param_type].
  rewrite (decide_ext (str name = v_name v) (v_name v = str name)) by done.
  destruct (decide (v_name v = str name)); [|apply IH].
  change (Ascii.eqb "f" "s") with false. change (Ascii.eqb "f" "n") with false.
  change (Ascii.eqb "f" "f") with true. cbn. by f_equal.
Qed.

Lemma read_number i name p d lines (c : conf) :
  loc_parameter_table !! i = Some (number name p) → mem c !! p = Some (VInt d) →
  ulong p (read lines c) = num atof lines name d.
Proof.
  intros Hi Hc. unfold ulong, num.
  rewrite (table_split _ _ Hi), (loc_read_conf_mem atof r_zero _ _ _ p); [|done|by eapply table_alone|].
  - unfold number. rewrite assignments_int, fmap_last, Hc. by destruct (last _).
  - intros b. by rewrite Hc.
Qed.
Lemma read_byte i name p b lines (c : conf) :
  loc_parameter_table !! i = Some (number name p) → mem c !! p = Some (VByte b) → 0 <= b < 256 →
  byte_of p (read lines c) = uint8 (num atof lines name b).
Proof.
  intros Hi Hc Hb. unfold byte_of, num.
  rewrite (table_split _ _ Hi), (loc_read_conf_byte atof r_zero _ _ (number name p) p eq_refl (table_alone i _ p Hi eq_refl) lines c b);
    [|done|done].
  unfold number. rewrite assignments_int.
  assert (ints (VInt <$> given atof v_int name lines) = given atof v_int name lines) as ->.
  { unfold ints. induction (given atof v_int name lines) as [|z l IH]; [done|]. cbn. by f_equal. }
  assert (∀ z, uint8 (uint32 z) = uint8 z) as Hw.
  { intros z. unfold uwrap. rewrite Z.mod_mod_divide; [done|]. by exists (2 ^ 24). }
  destruct (last _) as [z|]; cbn [default]; rewrite Hw; [done|]. by rewrite uwrap_id.
Qed.
Lemma read_float i name p m lines (c : conf) :
  loc_parameter_table !! i = Some (walk name p m) → mem c !! p = Some (VDouble r_zero) →
  dbl p (read lines c) = flt atof lines name ∧ valid m (read lines c) = is_given atof lines name.
Proof.
  intros Hi Hc. unfold dbl, valid, flt, is_given.
  rewrite (table_split _ _ Hi). split.
  - rewrite (loc_read_conf_mem atof r_zero _ _ _ p); [|done|by eapply table_alone|].
    + unfold walk. rewrite assignments_float, fmap_last, Hc. by destruct (last _).
    + intros b. by rewrite Hc.
  - rewrite (loc_read_conf_marks atof r_zero _ _ (walk name p m) p eq_refl m);
      [|done|].
    + unfold walk. rewrite assignments_float. by destruct (given atof v_double name lines).
    + apply (omap_others param_set _ (walk name p m)); [|done].
      rewrite <- (table_split _ _ Hi). apply table_distinct.
Qed.

Lemma conf_of_ext (c c' : conf) :
  mem c = mem c' → Forall (λ m, marks c !! m = marks c' !! m) (omap param_set loc_parameter_table) →
  conf_of c = conf_of c'.
Proof.
  intros Hm Hk. unfold conf_of, ulong, dbl, valid, byte_of. rewrite Hm.
  cbn in Hk. repeat (apply Forall_cons in Hk as [-> Hk]). reflexivity.
Qed.

(** An entry of the table after reading, from its index. *)
Ltac by_number lines v i := rewrite (read_number i _ _ _ lines v eq_refl ltac:(subst v; default_value)).
Ltac by_float lines v i :=
  rewrite (proj1 (read_float i _ _ _ lines v eq_refl ltac:(subst v; default_value))),
    (proj2 (read_float i _ _ _ lines v eq_refl ltac:(subst v; default_value))).

(** What is read is what the file describes. *)
Lemma read_described lines c :
  gpsConfigAlreadyRead c = false →
  conf_of (gps_conf_vars (loc_eng_read_config atof (Some lines) c).2) = described atof lines.
Proof.
  intros Hc. unfold loc_eng_read_config. rewrite Hc. cbn [negb snd gps_conf_vars].
  set (v := loc_default_parameters (gps_conf_vars c)). unfold conf_of, described.
  rewrite (read_byte 3 "NMEA_PROVIDER" _ 0 lines v eq_refl ltac:(subst v; default_value)) by lia.
  by_number lines v 0%nat. by_number lines v 1%nat. by_number lines v 4%nat. by_number lines v 5%nat.
  by_float lines v 6%nat. by_float lines v 7%nat. by_float lines v 8%nat. by_float lines v 9%nat. by_float lines v 10%nat.
  by_number lines v 11%nat. by_number lines v 12%nat. by_number lines v 13%nat. by_number lines v 14%nat. by_number lines v 15%nat.
  by_number lines v 16%nat. by_number lines v 17%nat. by_number lines v 18%nat. by_number lines v 19%nat. by_number lines v 20%nat.
  by_number lines v 21%nat. by_number lines v 23%nat. reflexivity.
Qed.
End lemmas.

(** ** Properties *)

Section properties.
Context `{NmeaEnv} (atof : chars → real).

(** whatever the configuration held before, once a file has been read every
    member has the value the file describes: the last number (or float) a line
    gives to its name, or its documented default when none does, the validity
    of a float being whether a line gives it; the file is read once only, and
    when it does not open the defaults stay. *)
Theorem loc_eng_read_config_spec lines c (Hfirst : gpsConfigAlreadyRead c = false) :
  let '(ret, c1) := loc_eng_read_config atof (Some lines) c in
  ret = 0 ∧ conf_of (gps_conf_vars c1) = described atof lines ∧
  (∀ again, loc_eng_read_config atof again c1 = (0, c1)) ∧
  conf_of (gps_conf_vars (loc_eng_read_config atof None c).2) = described atof [].
Proof.
  pose proof (read_described atof lines c Hfirst) as Hd. unfold loc_eng_read_config in *.
  rewrite Hfirst in *. cbn [negb snd gps_conf_vars gpsConfigAlreadyRead] in *.
  split; [done|]. split; [exact Hd|]. split; [done|].
  pose proof (read_described atof [] c Hfirst) as Hn. unfold loc_eng_read_config in Hn. rewrite Hfirst in Hn.
  rewrite <- Hn. apply conf_of_ext; [reflexivity|].
  cbn [omap list_omap param_set loc_parameter_table number walk].
  repeat (apply Forall_cons; split); [transitivity (Some 0); [|symmetry]; default_value..|constructor].
Qed.

(** C30: From the file to the modem: when the engine starts with the
    configuration read from a file, the framework is told the capabilities of
    the file, and once the modem has answered and the thread has run the modem
    has been told exactly what the file says, in this order: the SUPL version,
    the LPP profile, the use of the sensors, their random walks as floats if the
    file gives at least one, and their sampling as signed ints. *)
Theorem configuration_reaches_modem {Henv : EngEnv} lines c cbs event s s1
    (Hfirst : gpsConfigAlreadyRead c = false)
    (Hconf : gps_conf = conf_of (gps_conf_vars (loc_eng_read_config atof (Some lines) c).2))
    (Hevent : event ≠ 0) (Hctx : context s = false) (Hq : deferred_q s = [])
    (Hinit : loc_eng_init (Some (cbs, true)) event true s = (0, s1)) :
  let f := described atof lines in
  let p := SENSOR_PROPERTIES f in
  ToFramework (F_capabilities (CAPABILITIES f)) ∈ trace s1 ∧
  intermediateFix s1 = uint8 (INTERMEDIATE_POS f) ∧
  generateNmea s1 = has event LOC_API_ADAPTER_BIT_NMEA_1HZ_REPORT && (NMEA_PROVIDER f =? NMEA_PROVIDER_AP) ∧
  ∃ s2, loc_eng_deferred_action_thread 6 s1 = Some (true, s2) ∧ deferred_q s2 = [] ∧
    trace s2 = trace s1 ++ (ToModem <$>
      ([A_setSUPLVersion (SUPL_VER f); A_setLPPConfig (LPP_PROFILE f);
        A_setSensorControlConfig (int32 (SENSOR_USAGE f))] ++
       (if gyroBiasVarianceRandomWalk_valid p || accelRandomWalk_valid p || angleRandomWalk_valid p ||
           rateRandomWalk_valid p || velocityRandomWalk_valid p then [A_setSensorProperties (to_floats p)] else []) ++
       [A_setSensorPerfControlConfig (to_ints (SENSOR_PERF f))])).
Proof.
  rewrite read_described in Hconf by done. intros f p. change (described atof lines) with f in Hconf.
  revert Hinit. unfold loc_eng_init, loc_eng_init_data. rewrite (proj2 (Z.eqb_neq _ _) Hevent), Hctx. cbn zeta. cbn [negb].
  set (generate := has event _ && _).
  match goal with |- reinit_loop 30 (-1) ?t = _ → _ => set (s0 := t) end.
  pose proof (reinit_loop_run 30 (-1) s0 ltac:(lia)) as Hloop.
  destruct (reinit_loop_aiding 30 (-1) s0) as (Ha & Hg & Hi).
  intros Hrun. rewrite Hrun in Hloop, Ha, Hg, Hi.
  destruct Hloop as (k & _ & _ & Ht & Hq1 & _ & Hc1). cbn [snd] in Ha, Hg, Hi.
  split; [rewrite Ht, <- Hconf; subst s0; set_solver|]. split; [by rewrite Hi, <- Hconf|].
  split; [by rewrite Hg, <- Hconf|].
  destruct (rounds_modem 6 config_msgs config_calls s1) as (s2 & E & Ht2 & (_ & Hq2 & _)).
  - apply config_pairs.
  - unfold config_msgs. cbn zeta. rewrite !length_app. break_if; cbn; lia.
  - by rewrite Hc1.
  - by rewrite Ha.
  - rewrite Hq1. subst s0. cbn. by rewrite Hq.
  - exists s2. split; [done|]. split; [done|]. rewrite Ht2. unfold config_calls. rewrite Hconf. fold p.
    unfold f at 1 2, described, num. cbn [SUPL_VER LPP_PROFILE]. by rewrite !uwrap_uwrap.
Qed.
End properties.

(** ** Findings and witnesses *)

#[local] Existing Instance demo_nmea.
Definition static_config : config := Config (Cfg ∅ ∅ (0, 0) false) false.
Definition demo_atof (s : chars) : real := Z.of_nat (length s).
Definition demo_lines : list chars :=
  conf_lines (str "# gps.conf" ++ [newline] ++ str "SUPL_VER=0x20000" ++ [newline] ++
    str "CAPABILITIES = 0x33" ++ [newline] ++ str "GYRO_BIAS_RANDOM_WALK=0.25" ++ [newline] ++
    str "SUPL_VER = 65536" ++ [newline]).

(** The file of the tree. *)
Definition gps_conf_file : chars := str
"#Test
NTP_SERVER=time.gpsonextra.net
#Asia
# NTP_SERVER=asia.pool.ntp.org
#Europe
# NTP_SERVER=europe.pool.ntp.org
#North America
# NTP_SERVER=north-america.pool.ntp.org

XTRA_SERVER_1=http://xtra1.gpsonextra.net/xtra2.bin
XTRA_SERVER_2=http://xtra2.gpsonextra.net/xtra2.bin
XTRA_SERVER_3=http://xtra3.gpsonextra.net/xtra2.bin

# DEBUG LEVELS: 0 - none, 1 - Error, 2 - Warning, 3 - Info
#               4 - Debug, 5 - Verbose
DEBUG_LEVEL = 3

# Intermediate position report, 1=enable, 0=disable
INTERMEDIATE_POS=0

# supl version 1.0
SUPL_VER=0x10000

# Error Estimate
# _SET = 1
# _CLEAR = 0
ERR_ESTIMATE=0

# GPS Capabilities bit mask
# SCHEDULING = 1
# MSB = 2
# MSA = 4
# ULP = 0x20
# default = MSA | MSB | SCHEDULING | ULP
CAPABILITIES=0x17

# Accuracy threshold for intermediate positions
# less accurate positions are ignored, 0 for passing all positions
# ACCURACY_THRES=5000

################################
##### AGPS server settings #####
################################

# FOR SUPL SUPPORT, set the following
# SUPL_HOST=supl.host.com or IP
# SUPL_PORT=1234

# FOR C2K PDE SUPPORT, set the following
# C2K_HOST=c2k.pde.com or IP
# C2K_PORT=1234

################################
# Sensor Settings
################################

# Needs to be set explicitly based on sensor
# There is no default value.
#GYRO_BIAS_RANDOM_WALK=

# Sensor Sampling Rate Parameters for Low-Data Rate Filter (should be greater than 0)
SENSOR_ACCEL_BATCHES_PER_SEC=2
SENSOR_ACCEL_SAMPLES_PER_BATCH=5
SENSOR_GYRO_BATCHES_PER_SEC=2
SENSOR_GYRO_SAMPLES_PER_BATCH=5
# Sensor Sampling Rate Parameters for High-Data Rate Filter (should be greater than 0)
SENSOR_ACCEL_BATCHES_PER_SEC_HIGH=4
SENSOR_ACCEL_SAMPLES_PER_BATCH_HIGH=25
SENSOR_GYRO_BATCHES_PER_SEC_HIGH=4
SENSOR_GYRO_SAMPLES_PER_BATCH_HIGH=25

# Sensor Control Mode (0=AUTO, 1=FORCE_ON)
SENSOR_CONTROL_MODE=0

# Enable or Disable Sensors for GPS use (0=Enable, 1=Disable)
SENSOR_USAGE=1

# Choose GSIFF sensor provider (1=DSPS, 2=Android NDK)
SENSOR_PROVIDER=1

################################
# Indoor Positioning Settings
################################
# 0: QUIPC disabled, 1: QUIPC enabled, 2: forced QUIPC only
QUIPC_ENABLED = 0

################################
# EXTRA SETTINGS
################################
# Enable or Disable Wiper (1=Enable, 0=Disable)
ENABLE_WIPER=0

# NMEA provider (1=Modem Processor, 0=Application Processor)
NMEA_PROVIDER=1


####################################
#  LTE Positioning Profile Settings
####################################
# 0: Enable RRLP on LTE(Default) 1: Enable LPP_User_Plane on LTE
LPP_PROFILE = 0
".

(** What it configures: no sensor property is given, the sensors are not used,
    the modem makes the sentences. *)
Definition shipped : loc_gps_cfg_s_type := described demo_atof (conf_lines gps_conf_file).
Lemma shipped_values :
  INTERMEDIATE_POS shipped = 0 ∧ ACCURACY_THRES shipped = 0 ∧ NMEA_PROVIDER shipped = 1 ∧
  CAPABILITIES shipped = 0x17 ∧ SUPL_VER shipped = 0x10000 ∧ LPP_PROFILE shipped = 0 ∧ SENSOR_USAGE shipped = 1 ∧
  let p := SENSOR_PROPERTIES shipped in
  gyroBiasVarianceRandomWalk_valid p || accelRandomWalk_valid p || angleRandomWalk_valid p ||
    rateRandomWalk_valid p || velocityRandomWalk_valid p = false.
Proof. vm_compute. done. Qed.

(** The comment of the file names the bits MSA, MSB, SCHEDULING and ULP for the
    value of CAPABILITIES; the last bit set is another one, so that the ULP is
    not loaded. *)
Lemma shipped_without_ulp :
  Z.lor (Z.lor 1 2) (Z.lor 4 ULP_CAPABILITY) ≠ CAPABILITIES shipped ∧ has (CAPABILITIES shipped) ULP_CAPABILITY = false.
Proof. vm_compute. done. Qed.

(** [NMEA_PROVIDER] is one byte wide and is stored as an [int]: the three bytes
    after it are written too. *)
Lemma nmea_provider_overruns :
  overrun (gps_conf_vars (loc_eng_read_config demo_atof (Some [str "NMEA_PROVIDER=1"]) static_config).2) = true.
Proof. vm_compute. reflexivity. Qed.

Lemma loc_eng_read_config_spec_witness :
  let c := (loc_eng_read_config demo_atof (Some demo_lines) static_config).2 in
  SUPL_VER (conf_of (gps_conf_vars c)) = 0x10000 ∧ CAPABILITIES (conf_of (gps_conf_vars c)) = 0x33.
Proof.
  intros c. pose proof (loc_eng_read_config_spec demo_atof demo_lines static_config eq_refl) as Hs.
  unfold c. destruct (loc_eng_read_config _ _ _) as [ret c1]. destruct Hs as (_ & Hd & _).
  cbn [snd]. rewrite Hd. split; vm_compute; reflexivity.
Defined.

(** A negative number of the file reaches the modem as it is. *)
Lemma negative_control_mode :
  controlMode (to_ints (SENSOR_PERF (described demo_atof (conf_lines (str "SENSOR_CONTROL_MODE=-1
"))))) = -1.
Proof. vm_compute. reflexivity. Qed.

(** The engine of LocEngFacts.v with the configuration of the file. *)
Definition demo_env : EngEnv := {|
  gps_conf := conf_of (gps_conf_vars (loc_eng_read_config demo_atof (Some (conf_lines gps_conf_file)) static_config).2);
  adapter_rc l c := match c with A_reinit => if (length l <? 4)%nat then 100 else 0 | _ => 0 end;
  fixCriteria _ := PosMode 1 GPS_POSITION_RECURRENCE_SINGLE 1000 50 60000 [] [];
  accuracy_exceeds x t := t <? x;
  gethostbyname _ := Some 0x0100007f;
  inet_aton _ := None;
  gettimeofday _ := (1468000000, 250000);
  client_handle := 7%positive;
  uninit := replicate 16 0;
  pthread_create_rc _ := 0;
  cond_pick _ := 0%nat;
  bearer0 := 0
|}.
Definition demo_fresh : eng := set_context false demo_engine.

Lemma configuration_reaches_modem_witness :
  let r := loc_eng_init (H0 := demo_env) (Some (cb demo_engine, true)) 0x1ff true demo_fresh in
  r.1 = 0 ∧ ∃ s2, loc_eng_deferred_action_thread (H0 := demo_env) 6 r.2 = Some (true, s2) ∧
    ∃ q, trace s2 = trace r.2 ++ (ToModem <$>
      [A_setSUPLVersion 0x10000; A_setLPPConfig 0; A_setSensorControlConfig 1; A_setSensorPerfControlConfig q]).
Proof.
  intros r. assert (r.1 = 0) as Hrc by (vm_compute; reflexivity). split; [exact Hrc|].
  assert (r = (0, r.2)) as Hr by (rewrite <- Hrc; apply surjective_pairing).
  destruct (configuration_reaches_modem demo_atof (Henv := demo_env) (conf_lines gps_conf_file) static_config
    (cb demo_engine) 0x1ff demo_fresh r.2) as (_ & _ & _ & s2 & E & _ & Ht).
  - reflexivity.
  - reflexivity.
  - discriminate.
  - reflexivity.
  - reflexivity.
  - exact Hr.
  - exists s2. split; [exact E|]. exists (to_ints (SENSOR_PERF shipped)). rewrite Ht. fold shipped.
    destruct shipped_values as (_ & _ & _ & _ & -> & -> & -> & Hp). cbn zeta in Hp. rewrite Hp. reflexivity.
Defined.
