(* ===== verification/Adapter.v ===== *)
(** * What the modem reports: LocApiAdapter.cpp

    The part of the adapter that is in the program: the functions the modem's
    side calls, which post messages to the engine, and two helpers that turn
    bytes into text.  Buffers are lists of bytes; [char] is unsigned, as on the
    processor of the device.  Which adapter the engine gets, the one of a
    library or the base class, depends on what [dlopen] and [dlsym] find and on
    the function of the library: arguments of [getLocApiAdapter]. *)

From S2P Require Import Prelude Agps Nmea Ni EngMsg LocEng LocEngFacts.
Local Open Scope Z_scope.

(** ** Text *)

Definition byte (x : Z) : Prop := 0 ≤ x < 256.

(** Bytes written at an offset. *)
Definition store (buf : list Z) (off : nat) (bs : list Z) : option (list Z) :=
  if (off + length bs <=? length buf)%nat then Some (take off buf ++ bs ++ drop (off + length bs) buf) else None.

(** [%02X] *)
Definition hex_code (v : Z) : Z := if v <? 10 then 48 + v else 55 + v.
Definition fmt_byte (ch : Z) : list Z := [hex_code (Z.shiftr ch 4); hex_code (Z.land ch 15)].

(** The loop from [i] on, [n] bytes being left. *)
Fixpoint hexcode_loop (n i : nat) (hexstring : list Z) (string_size : Z) (data : list Z) : option (Z * list Z) :=
  match n with
  | O => Some (Z.of_nat i, hexstring)
  | S n =>
      ch ← data !! i;
      if Z.of_nat i * 2 + 3 <=? string_size then
        hexstring ← store hexstring (i * 2) (fmt_byte ch ++ [0]);
        hexcode_loop n (S i) hexstring string_size data
      else Some (Z.of_nat i, hexstring)
  end.
Definition hexcode (hexstring : list Z) (string_size : Z) (data : list Z) (data_size : Z) : option (Z * list Z) :=
  hexcode_loop (Z.to_nat data_size) 0 hexstring string_size data.

(** A digit appended if it is one and fits. *)
Definition put_digit (d string_size : Z) (st : nat * list Z) : option (nat * list Z) :=
  let '(idxOutput, addr_string) := st in
  if (d <=? 9) && (Z.of_nat idxOutput <? string_size - 1) then
    addr_string ← store addr_string idxOutput [d + 48]; Some (S idxOutput, addr_string)
  else Some st.

Fixpoint decode_loop (n i : nat) (string_size : Z) (data : list Z) (st : nat * list Z) : option (nat * list Z) :=
  match n with
  | O => Some st
  | S n =>
      ch ← data !! i;
      st ← put_digit (Z.land ch 0x0F) string_size st;
      st ← put_digit (Z.shiftr ch 4) string_size st;
      decode_loop n (S i) string_size data st
  end.

Definition decodeAddress (addr_string : option (list Z)) (string_size : Z) (data : option (list Z)) (data_size : Z)
    : option (Z * option (list Z)) :=
  match data, addr_string with
  | Some data, Some addr_string =>
      prefix ← data !! 0%nat;
      if negb (prefix =? 0x91) then
        addr_string ← store addr_string 0 [0]; Some (0, Some addr_string)
      else
        '(idxOutput, addr_string) ← decode_loop (Z.to_nat (data_size - 1)) 1 string_size data (0%nat, addr_string);
        addr_string ← store addr_string idxOutput [0];
        Some (Z.of_nat idxOutput, Some addr_string)
  | _, _ => Some (0, addr_string)
  end.

(** ** The adapter the engine gets *)

(** A parser of extended data of the vendor: the data it finds, if any. *)
Definition parser : Type := option positive → option positive.
Definition noProc : parser := λ _, None.

(** [LocEng], without its owner, the engine: the event mask, which of the
    callbacks and senders are not NULL, and the parsers. *)
Record LocEngHandle := LocEng {
  eventMask : Z; acquireWakelock : bool; releaseWakeLock : bool; sendMsge : bool; sendUlpMsg : bool;
  extPosInfo : parser; extSvInfo : parser
}.
Definition new_LocEng (emask : Z) (acqwl relwl msgSender msgUlpSender : bool) (posParser svParser : option parser)
    : LocEngHandle :=
  LocEng emask acqwl relwl msgSender msgUlpSender (default noProc posParser) (default noProc svParser).

(** The base class; [Vendor lib]: what the function of a library returns. *)
Record LocApiAdapter := BaseAdapter { locEngHandle : LocEngHandle; base_fixCriteria : LocPosMode; base_navigating : bool }.
Definition new_LocApiAdapter (locEng : LocEngHandle) : LocApiAdapter := BaseAdapter locEng default_LocPosMode false.
Inductive adapter := Base (a : LocApiAdapter) | Vendor (lib : string).

Definition getLocApiAdapter (dlopen : string → bool) (dlsym : string → string → bool)
    (make : string → LocEngHandle → bool) (locEng : LocEngHandle) : option adapter :=
  let handle := if dlopen "libloc_api_v02.so" then Some "libloc_api_v02.so"
                else if dlopen "libloc_api-rpc-qc.so" then Some "libloc_api-rpc-qc.so" else None in
  match handle with
  | None => Some (Base (new_LocApiAdapter locEng))
  | Some lib =>
      if negb (dlsym lib "_Z16getLocApiAdapterR6LocEng") then None
      else if make lib locEng then Some (Vendor lib) else None
  end.

(** ** Reports and requests of the modem *)

Section adapter.
Context `{EngEnv}.

(** The functions of the base class do nothing and succeed. *)
Definition base_rc (c : adapter_call) : Z := LOC_API_ADAPTER_ERR_SUCCESS.

(** Through the ULP if there is a sender for it ([sendUlpMsg]). *)
Definition send (sendUlpMsg : bool) (m : loc_eng_msg) (s : eng) : eng :=
  if sendUlpMsg then post_ulp m s else post m s.

Definition reportPosition (sendUlpMsg : bool) (r : position_report) : eng → eng :=
  send sendUlpMsg (loc_eng_msg_report_position r).
Definition reportSv (sendUlpMsg : bool) (r : sv_report) : eng → eng := send sendUlpMsg (loc_eng_msg_report_sv r).
Definition reportStatus (status : Z) : eng → eng := post (loc_eng_msg_report_status status).
Definition reportNmea (nmea : chars) (length : Z) (s : eng) : option eng :=
  msg ← loc_eng_msg_report_nmea nmea length; Some (post msg s).
Definition requestATL (connHandle agps_type : Z) : eng → eng := post (loc_eng_msg_request_atl connHandle agps_type).
Definition releaseATL (connHandle : Z) : eng → eng := post (loc_eng_msg_release_atl connHandle).
Definition requestXtraData : eng → eng := post (new_loc_eng_msg LOC_ENG_MSG_REQUEST_XTRA_DATA).
Definition requestTime : eng → eng := post (new_loc_eng_msg LOC_ENG_MSG_REQUEST_TIME).
(** Nothing is sent. *)
Definition requestLocation (s : eng) : eng := s.
(** The notification is changed, too. *)
Definition requestNiNotify (notif : GpsNiNotification) (data : option positive) (s : eng) : GpsNiNotification * eng :=
  let notif := Notification (notify_flags notif) LOC_NI_NO_RESPONSE_TIME in
  (notif, post (loc_eng_msg_request_ni notif data) s).
Definition handleEngineDownEvent : eng → eng := post (new_loc_eng_msg LOC_ENG_MSG_ENGINE_DOWN).
Definition handleEngineUpEvent : eng → eng := post (new_loc_eng_msg LOC_ENG_MSG_ENGINE_UP).
End adapter.

(** ** Without a library of the modem *)

(** On a device without a library the engine initialises with the base class at
    the first attempt and posts its configuration. *)
Lemma base_adapter_initialises `{EngEnv} dlopen dlsym make locEng c caps event s :
  (∀ lib, dlopen lib = false) → (∀ l k, adapter_rc l k = base_rc k) → event ≠ 0 → context s = false →
  getLocApiAdapter dlopen dlsym make locEng = Some (Base (new_LocApiAdapter locEng)) ∧
  ∃ s', loc_eng_init (Some (c, caps)) event true s = (0, s') ∧ context s' = true ∧
    deferred_q s' = deferred_q s ++ config_msgs.
Proof.
  intros Hlib Hrc He Hc. split; [unfold getLocApiAdapter; by rewrite !Hlib|].
  unfold loc_eng_init, loc_eng_init_data. rewrite (proj2 (Z.eqb_neq _ _) He), Hc. cbn zeta. cbn [negb].
  set (generate := has event _ && _).
  match goal with |- context [reinit_loop 30 (-1) ?t] => set (s0 := t) end.
  change (reinit_loop 30 (-1) s0) with
    (let '(rc, s1) := loc_eng_reinit s0 in
     if negb (LOC_API_ADAPTER_ERR_SUCCESS =? rc) then reinit_loop 29 rc s1 else (rc, s1)).
  destruct (reinit_run s0) as (Hr & _ & Hq & Hctx). rewrite Hrc in Hr, Hq.
  destruct (loc_eng_reinit s0) as [rc s1]. cbn [fst snd] in *. subst rc.
  exists s1. split; [done|]. split; [rewrite Hctx; subst s0; by destruct caps|].
  rewrite Hq. subst s0. by destruct caps.
Qed.

(** ** Hexadecimal text *)

Lemma store_run buf a bs b : buf = a ++ b → (length bs ≤ length b)%nat →
  store buf (length a) bs = Some (a ++ bs ++ drop (length bs) b).
Proof.
  intros -> Hl. unfold store. rewrite length_app, (proj2 (Nat.leb_le _ _)) by lia.
  by rewrite take_app_length, drop_app_add.
Qed.

(** A reader of the text. *)
Definition hex_digit_value (c : Z) : option Z :=
  if (48 <=? c) && (c <=? 57) then Some (c - 48)
  else if (65 <=? c) && (c <=? 70) then Some (c - 55) else None.
Fixpoint unhex (s : list Z) : option (list Z) :=
  match s with
  | [] => Some []
  | h :: l :: s => h ← hex_digit_value h; l ← hex_digit_value l; r ← unhex s; Some (16 * h + l :: r)
  | _ => None
  end.

Lemma hex_code_value v : 0 ≤ v < 16 → hex_digit_value (hex_code v) = Some v ∧ hex_code v ≠ 0.
Proof.
  intros Hv.
  assert (Forall (λ v, hex_digit_value (hex_code v) = Some v ∧ hex_code v ≠ 0) (seqZ 0 16)) as Hall by by_compute.
  apply (proj1 (Forall_forall _ _) Hall). apply elem_of_seqZ. lia.
Qed.

Lemma fmt_byte_value x : byte x →
  ∃ h l, fmt_byte x = [h; l] ∧ h ≠ 0 ∧ l ≠ 0 ∧
    ∀ s, unhex (h :: l :: s) = (r ← unhex s; Some (x :: r)).
Proof.
  intros Hx. unfold byte in Hx. unfold fmt_byte. rewrite Z.shiftr_div_pow2 by lia.
  change 15 with (Z.ones 4). rewrite Z.land_ones by lia. change (2 ^ 4) with 16.
  destruct (hex_code_value (x / 16)) as [Hh Hh0]; [split; [apply Z.div_pos; lia|apply Z.div_lt_upper_bound; lia]|].
  destruct (hex_code_value (x mod 16)) as [Hl Hl0]; [apply Z.mod_pos_bound; lia|].
  eexists _, _. split; [done|]. split; [done|]. split; [done|]. intros s. cbn [unhex]. rewrite Hh, Hl.
  cbn [mbind option_bind]. by rewrite <- Z.div_mod by lia.
Qed.

Lemma hex_text data : Forall byte data →
  unhex (concat (fmt_byte <$> data)) = Some data ∧ Forall (λ c, c ≠ 0) (concat (fmt_byte <$> data)) ∧
  length (concat (fmt_byte <$> data)) = (2 * length data)%nat.
Proof.
  induction 1 as [|x data Hx _ (IH1 & IH2 & IH3)]; [done|]. cbn [fmap list_fmap concat].
  fold (fmap fmt_byte data) in *. destruct (fmt_byte_value x Hx) as (h & l & -> & Hh & Hl & Hun). cbn [app].
  rewrite Hun, IH1. split; [done|]. split; [by repeat constructor|]. cbn [length]. rewrite IH3. lia.
Qed.

Lemma c_string_text a b : Forall (λ c, c ≠ 0) a → c_string (a ++ 0 :: b) = a.
Proof.
  induction 1 as [|x a Hx _ IH]; [done|]. cbn [app c_string]. rewrite (proj2 (Z.eqb_neq _ _) Hx). by f_equal.
Qed.

(** How many bytes fit: two characters each and the final zero. *)
Definition hex_fit (string_size : Z) (n : nat) : nat := Nat.min n (Z.to_nat ((string_size - 1) / 2)).

Section hexcode.
Context (data hexstring : list Z).

(** The buffer once [k] bytes are written. *)
Definition hex_result (k : nat) : list Z :=
  if (k =? 0)%nat then hexstring else concat (fmt_byte <$> take k data) ++ 0 :: drop (2 * k + 1) hexstring.

Lemma text_length k : (k ≤ length data)%nat → length (concat (fmt_byte <$> take k data)) = (2 * k)%nat.
Proof.
  revert k. induction data as [|x l IH]; intros [|k] Hk; cbn in *; try lia; try done.
  fold (fmap fmt_byte (take k l)). rewrite IH; lia.
Qed.

Lemma hex_step k x : data !! k = Some x → (2 * k + 3 ≤ length hexstring)%nat →
  store (hex_result k) (k * 2) (fmt_byte x ++ [0]) = Some (hex_result (S k)).
Proof.
  intros Hx Hl. pose proof (lookup_lt_Some _ _ _ Hx) as Hk.
  assert (hex_result (S k) = concat (fmt_byte <$> take k data) ++ (fmt_byte x ++ [0]) ++ drop (2 * k + 3) hexstring) as ->.
  { unfold hex_result. cbn [Nat.eqb]. rewrite (take_S_r _ _ _ Hx), fmap_app, concat_app, <- !app_assoc.
    by replace (2 * S k + 1)%nat with (2 * k + 3)%nat by lia. }
  pose proof (text_length k ltac:(lia)) as Ht. unfold hex_result. destruct (Nat.eqb_spec k 0) as [->|Hne].
  - etrans; [apply (store_run hexstring [] _ hexstring); [done|exact Hl]|]. done.
  - replace (k * 2)%nat with (length (concat (fmt_byte <$> take k data))) by lia.
    unfold fmt_byte. erewrite store_run; [|done|cbn [length app]; rewrite length_drop; lia]. do 3 f_equal.
    cbn [length app drop]. rewrite drop_drop. by replace (2 * k + 1 + 2)%nat with (2 * k + 3)%nat by lia.
Qed.

Lemma hexcode_loop_run string_size n i :
  (i + n = length data)%nat → string_size ≤ Z.of_nat (length hexstring) → (i ≤ hex_fit string_size (i + n))%nat →
  hexcode_loop n i (hex_result i) string_size data =
    Some (Z.of_nat (hex_fit string_size (length data)), hex_result (hex_fit string_size (length data))).
Proof.
  intros Hn Hs Hi. rewrite <- Hn. revert i Hn Hi. induction n as [|n IH]; intros i Hn Hi; cbn [hexcode_loop].
  { assert (hex_fit string_size (i + 0) = i) as -> by (unfold hex_fit in *; lia). done. }
  destruct (lookup_lt_is_Some_2 data i ltac:(lia)) as [x Hx]. rewrite Hx. cbn [mbind option_bind].
  assert (Z.of_nat i * 2 + 3 ≤ string_size ↔ (S i ≤ Z.to_nat ((string_size - 1) / 2))%nat) as Hfit.
  { pose proof (Z.div_mod (string_size - 1) 2 ltac:(lia)). pose proof (Z.mod_pos_bound (string_size - 1) 2 ltac:(lia)). lia. }
  destruct (Z.leb_spec (Z.of_nat i * 2 + 3) string_size) as [Hle|Hgt].
  - rewrite (hex_step i x Hx) by lia. cbn [mbind option_bind].
    rewrite IH; [|lia|unfold hex_fit in *; lia]. by rewrite Nat.add_succ_r.
  - assert (hex_fit string_size (i + S n) = i) as -> by (unfold hex_fit in *; lia). done.
Qed.
End hexcode.

(** The hexadecimal text of a buffer: as many bytes as fit with the final
    zero are written, two digits each, the number of them is returned, a reader
    of the text gets these bytes back, and nothing is written past the text or
    past the size given. *)
Theorem hexcode_roundtrip data hexstring string_size :
  Forall byte data → 0 ≤ string_size ≤ Z.of_nat (length hexstring) →
  let n := hex_fit string_size (length data) in
  ∃ buf, hexcode hexstring string_size data (Z.of_nat (length data)) = Some (Z.of_nat n, buf) ∧
    length buf = length hexstring ∧ drop (Z.to_nat string_size) buf = drop (Z.to_nat string_size) hexstring ∧
    if (n =? 0)%nat then buf = hexstring
    else unhex (c_string buf) = Some (take n data) ∧ drop (2 * n + 1) buf = drop (2 * n + 1) hexstring.
Proof.
  intros Hb [H0 Hs] n. unfold hexcode. rewrite Nat2Z.id.
  assert (2 * n + 1 ≤ Z.to_nat string_size ∨ n = 0)%nat as Hn.
  { unfold n, hex_fit. pose proof (Z.div_mod (string_size - 1) 2 ltac:(lia)).
    pose proof (Z.mod_pos_bound (string_size - 1) 2 ltac:(lia)). lia. }
  pose proof (hexcode_loop_run data hexstring string_size (length data) 0 ltac:(lia) Hs ltac:(lia)) as Hrun.
  fold n in Hrun. exists (hex_result data hexstring n). split; [exact Hrun|].
  unfold hex_result. destruct (Nat.eqb_spec n 0) as [Hz|Hz]; [done|]. destruct Hn as [Hn|Hn]; [|done].
  pose proof (text_length data n ltac:(unfold n, hex_fit; lia)) as Hl.
  destruct (hex_text (take n data)) as (Hun & Hne & _); [by apply Forall_take|].
  assert (∀ k, (2 * n + 1 ≤ k)%nat → drop k (concat (fmt_byte <$> take n data) ++ 0 :: drop (2 * n + 1) hexstring) =
    drop k hexstring) as Hd.
  { intros k Hk. rewrite drop_app_ge by lia. rewrite Hl. replace (k - 2 * n)%nat with (S (k - 2 * n - 1)) by lia.
    cbn [drop]. rewrite drop_drop. f_equal. lia. }
  split; [rewrite length_app; cbn [length]; rewrite length_drop; lia|]. split; [by apply Hd|].
  split; [|by apply Hd]. by rewrite c_string_text.
Qed.

(** ** Telephone numbers *)

(** The digits of the bytes, the low one first; other codes are skipped. *)
Definition bcd_digits (l : list Z) : list Z :=
  concat ((λ ch, filter (λ d, d ≤ 9) [Z.land ch 15; Z.shiftr ch 4]) <$> l).

(** The telephone number with these digits, as the network sends it. *)
Fixpoint bcd_encode (ds : list Z) : list Z :=
  match ds with
  | [] => []
  | [d] => [0xF0 + d]
  | d :: e :: ds => 16 * e + d :: bcd_encode ds
  end.

Section decode.
Context (addr : list Z) (string_size : Z).
Context (Hpos : 0 < string_size) (Hsize : string_size ≤ Z.of_nat (length addr)).

(** The digits that fit, as text, and the state once [ds] are read. *)
Definition address_text (ds : list Z) : list Z := (λ d, d + 48) <$> take (Z.to_nat (string_size - 1)) ds.
Definition decode_state (ds : list Z) : nat * list Z :=
  (length (address_text ds), address_text ds ++ drop (length (address_text ds)) addr).

Lemma address_text_length ds : length (address_text ds) = Nat.min (Z.to_nat (string_size - 1)) (length ds).
Proof. unfold address_text. by rewrite length_fmap, length_take. Qed.

Lemma address_text_snoc ds d :
  address_text (ds ++ [d]) =
    if Z.of_nat (length (address_text ds)) <? string_size - 1 then address_text ds ++ [d + 48] else address_text ds.
Proof.
  pose proof (address_text_length ds) as Hl.
  destruct (Z.ltb_spec (Z.of_nat (length (address_text ds))) (string_size - 1)) as [Hlt|Hge]; unfold address_text.
  - rewrite !take_ge by (rewrite ?length_app; cbn; lia). by rewrite fmap_app.
  - by rewrite take_app_le by lia.
Qed.

Lemma put_digit_run d ds :
  put_digit d string_size (decode_state ds) = Some (decode_state (ds ++ filter (λ d, d ≤ 9) [d])).
Proof.
  unfold put_digit, decode_state. rewrite filter_cons, filter_nil.
  destruct (Z.leb_spec d 9) as [Hd|Hd]; cbn [andb].
  2:{ rewrite decide_False by lia. by rewrite app_nil_r. }
  rewrite decide_True by lia. rewrite address_text_snoc.
  destruct (Z.ltb_spec (Z.of_nat (length (address_text ds))) (string_size - 1)) as [Hlt|Hge]; [|done].
  erewrite store_run; [|done|cbn [length]; rewrite length_drop; lia]. cbn [mbind option_bind length].
  rewrite length_app, drop_drop, <- app_assoc. cbn [length app]. by rewrite Nat.add_1_r.
Qed.

Lemma decode_loop_run data n i ds : (i + n ≤ length data)%nat →
  decode_loop n i string_size data (decode_state ds) =
    Some (decode_state (ds ++ bcd_digits (take n (drop i data)))).
Proof.
  revert i ds. induction n as [|n IH]; intros i ds Hn; cbn [decode_loop].
  { by rewrite app_nil_r. }
  destruct (lookup_lt_is_Some_2 data i ltac:(lia)) as [x Hx]. rewrite Hx. cbn [mbind option_bind].
  rewrite put_digit_run. cbn [mbind option_bind]. rewrite put_digit_run. cbn [mbind option_bind].
  rewrite IH by lia. rewrite <- !app_assoc. do 4 f_equal.
  rewrite (drop_S _ _ _ Hx). cbn [take bcd_digits fmap list_fmap concat].
  unfold bcd_digits. cbn [fmap list_fmap concat]. by rewrite app_assoc, <- filter_app.
Qed.
End decode.

Lemma nibbles d e : 0 ≤ d < 16 → Z.land (16 * e + d) 15 = d ∧ Z.shiftr (16 * e + d) 4 = e.
Proof.
  intros Hd. change 15 with (Z.ones 4). rewrite Z.land_ones, Z.shiftr_div_pow2 by lia. change (2 ^ 4) with 16.
  rewrite (Z.add_comm _ d), (Z.mul_comm 16). split; [rewrite Z.mod_add by lia; apply Z.mod_small; lia|].
  rewrite Z.div_add by lia. rewrite Z.div_small; lia.
Qed.

Definition digit (d : Z) : Prop := 0 ≤ d ≤ 9.

Lemma bcd_encode_digits : ∀ ds, Forall digit ds → bcd_digits (bcd_encode ds) = ds.
Proof.
  fix IH 1. intros [|d [|e ds]] Hds; [done| |].
  - apply Forall_cons in Hds as [Hd _]. unfold digit in Hd. cbn [bcd_encode]. change 0xF0 with (16 * 15).
    destruct (nibbles d 15) as [Hlo Hhi]; [lia|]. unfold bcd_digits. cbn [fmap list_fmap concat].
    rewrite Hlo, Hhi, filter_cons_True, filter_cons_False by lia. done.
  - apply Forall_cons in Hds as [Hd Hds]. apply Forall_cons in Hds as [He Hds]. unfold digit in Hd, He.
    specialize (IH ds Hds). cbn [bcd_encode]. destruct (nibbles d e) as [Hlo Hhi]; [lia|].
    unfold bcd_digits in *. cbn [fmap list_fmap concat]. rewrite Hlo, Hhi, !filter_cons_True by lia.
    cbn [app]. rewrite filter_nil. cbn [app]. by rewrite IH.
Qed.

(** The telephone number of a server: what the network encodes as
    semi-octets behind the prefix 0x91 is decoded to the same digits, as many as
    fit with the final zero; their number is returned and nothing is written
    past the text. *)
Theorem decodeAddress_roundtrip ds addr string_size :
  Forall digit ds → 0 < string_size ≤ Z.of_nat (length addr) →
  let data := 0x91 :: bcd_encode ds in
  let n := Nat.min (Z.to_nat (string_size - 1)) (length ds) in
  ∃ buf, decodeAddress (Some addr) string_size (Some data) (Z.of_nat (length data)) = Some (Z.of_nat n, Some buf) ∧
    c_string buf = (λ d, d + 48) <$> take n ds ∧ length buf = length addr ∧
    drop (n + 1) buf = drop (n + 1) addr.
Proof.
  intros Hds [Hpos Hsize] data n. unfold decodeAddress. cbn [lookup list_lookup data mbind option_bind].
  change (0x91 =? 0x91) with true. cbn [negb].
  replace (Z.to_nat (Z.of_nat (length data) - 1)) with (length (bcd_encode ds)) by (cbn [data length]; lia).
  assert (decode_loop (length (bcd_encode ds)) 1 string_size data (0%nat, addr) =
    Some (decode_state addr string_size ds)) as ->.
  { assert ((0%nat, addr) = decode_state addr string_size []) as ->.
    { unfold decode_state, address_text. by rewrite take_nil. }
    rewrite decode_loop_run by (done || cbn [data length]; lia). cbn [data drop app].
    by rewrite drop_0, firstn_all, bcd_encode_digits. }
  unfold decode_state. cbn [mbind option_bind].
  set (t := address_text string_size ds).
  assert (length t = n) as Ht by apply address_text_length.
  assert (t = (λ d, d + 48) <$> take n ds) as Htext.
  { unfold t, address_text. f_equal. unfold n. by rewrite <- take_take, firstn_all. }
  erewrite store_run; [|done|cbn [length]; rewrite length_drop; lia]. cbn [mbind option_bind length].
  rewrite drop_drop, Ht. eexists. split; [done|].
  assert (Forall (λ c, c ≠ 0) t) as Hne.
  { rewrite Htext. apply Forall_fmap, Forall_take. eapply Forall_impl; [exact Hds|]. unfold digit. cbn. lia. }
  split; [rewrite <- Htext; by apply c_string_text|]. split.
  - rewrite length_app. cbn [length app]. rewrite length_drop. lia.
  - rewrite drop_app_ge by lia. rewrite Ht. replace (n + 1 - n)%nat with 1%nat by lia. cbn [drop app].
    by rewrite drop_0.
Qed.

(** ** Reports in order *)

Section reports.
Context `{EngEnv}.

(** What the modem reports. *)
Inductive report :=
| Position (r : position_report)
| Sv (r : sv_report)
| Status (st : Z)
| Sentence (nmea : chars) (length : Z)
| XtraWanted
| TimeWanted.

(** The functions of the adapter, without a ULP. *)
Definition report_of (r : report) (s : eng) : option eng :=
  match r with
  | Position r => Some (reportPosition false r s)
  | Sv r => Some (reportSv false r s)
  | Status st => Some (reportStatus st s)
  | Sentence nmea length => reportNmea nmea length s
  | XtraWanted => Some (requestXtraData s)
  | TimeWanted => Some (requestTime s)
  end.
Definition reports_of (rs : list report) (s : eng) : option eng :=
  foldl (λ s r, s ← s; report_of r s) (Some s) rs.

(** A status worth telling: not the end of a session that is wanted nor the
    begin of one that is not. *)
Definition status_told (st : Z) (session : bool) : bool :=
  negb (st =? GPS_STATUS_NONE) && negb ((st =? GPS_STATUS_SESSION_END) && session) &&
  negb ((st =? GPS_STATUS_SESSION_BEGIN) && negb session).

(** What the engine [s], once it has made the calls [t], is to do about a
    report, and whether the session goes on. *)
Definition at_trace (t : list effect) (s : eng) : eng := set_trace t s.
Definition told_of (s : eng) (t : list effect) (session : bool) (r : report) : list effect :=
  match r with
  | Position r =>
      delivery r s ++
      (if ends_session r (at_trace t s) && (pr_status r =? LOC_SESS_INTERMEDIATE) then [ToModem A_stopFix] else []) ++
      freed (location r)
  | Sv r => [ToFramework (F_sv_status (svStatus r) (svExt r))]
  | Status st => if status_told st session then [ToFramework (F_status st)] else []
  | Sentence nmea length => [ToFramework (F_nmea (time_after t) (take (Z.to_nat length) nmea) length)]
  | XtraWanted => [ToFramework F_download_request]
  | TimeWanted => [ToFramework F_request_utc_time]
  end.
Definition goes_on_with (s : eng) (t : list effect) (session : bool) (r : report) : bool :=
  match r with Position r => session && negb (ends_session r (at_trace t s)) | _ => session end.
Fixpoint told_all (s : eng) (t : list effect) (session : bool) (rs : list report) : list effect :=
  match rs with
  | [] => []
  | r :: rs => told_of s t session r ++ told_all s (t ++ told_of s t session r) (goes_on_with s t session r) rs
  end.

Definition valid_report (r : report) : Prop :=
  match r with Sentence nmea len => 0 ≤ len ≤ Z.of_nat (length nmea) | _ => True end.

(** Every callback is set; no session is muted or about to be, no sentence is
    generated and no deletion of aiding data waits. *)
Definition listening (s : eng) : Prop :=
  context s = true ∧ location_cb (cb s) = true ∧ status_cb (cb s) = true ∧ sv_status_cb (cb s) = true ∧
  nmea_cb (cb s) = true ∧ download_request_cb (cb s) = true ∧ request_utc_time_cb (cb s) = true ∧
  mute_session_state s = LOC_MUTE_SESS_NONE ∧ generateNmea s = false ∧ aiding_data_for_deletion s = 0.

Definition message_of (r : report) : loc_eng_msg :=
  match r with
  | Position r => loc_eng_msg_report_position r
  | Sv r => loc_eng_msg_report_sv r
  | Status st => loc_eng_msg_report_status st
  | Sentence nmea len => Msg OEngine LOC_ENG_MSG_REPORT_NMEA (PReportNmea (take (Z.to_nat len) nmea) len)
  | XtraWanted => new_loc_eng_msg LOC_ENG_MSG_REQUEST_XTRA_DATA
  | TimeWanted => new_loc_eng_msg LOC_ENG_MSG_REQUEST_TIME
  end.

Lemma report_posts r s : valid_report r → report_of r s = Some (post (message_of r) s).
Proof.
  destruct r as [r|r|st|n l| |]; try done. cbn. intros Hl. unfold reportNmea, loc_eng_msg_report_nmea.
  by rewrite (proj2 (Z.ltb_ge l 0)), (proj2 (Z.ltb_ge (Z.of_nat (length n)) l)) by lia.
Qed.

Lemma reports_post rs s : Forall valid_report rs →
  reports_of rs s = Some (set_deferred_q (deferred_q s ++ (message_of <$> rs)) s).
Proof.
  intros Hrs. unfold reports_of. revert s. induction Hrs as [|r rs Hr _ IH]; intros s; cbn [foldl fmap list_fmap].
  { rewrite app_nil_r. by destruct s. }
  cbn [mbind option_bind]. rewrite report_posts by done. rewrite IH. cbn. by rewrite <- app_assoc.
Qed.

(** What reports leave as it was. *)
Definition same_listener (s s' : eng) : Prop :=
  cb s' = cb s ∧ intermediateFix s' = intermediateFix s.

(** The round of a message whose switch is known. *)
Lemma round_of m s s1 : owner m = OEngine → context s = true → aiding_data_for_deletion s1 = 0 →
  deferred_switch m s = Some (true, s1) → is_atl_answer (msgid m) = false → (∀ s, delete_msg m s = s) →
  handle_msg m s = Some (true, set_stop_request_pending false s1).
Proof.
  intros Ho Hc Ha Hsw Hatl Hdel. unfold handle_msg. rewrite Ho. st_run. rewrite Hc. cbn [negb]. st_run. rewrite Hsw.
  st_run. unfold after_switch. rewrite Hatl, Hdel. cbn zeta. unfold delete_aiding_data.
  cbn [aiding_data_for_deletion set_stop_request_pending]. by rewrite Ha, andb_false_r.
Qed.

Lemma position_switch r s : listening s →
  ∃ s1, deferred_switch (loc_eng_msg_report_position r) s = Some (true, s1) ∧
    trace s1 = trace s ++ told_of s (trace s) (navigating s) (Position r) ∧
    navigating s1 = goes_on_with s (trace s) (navigating s) (Position r) ∧ listening s1 ∧ deferred_q s1 = deferred_q s ∧ same_listener s s1.
Proof.
  intros Hs. pose proof Hs as (_ & _ & _ & _ & _ & _ & _ & Hm & Hg & _).
  change (deferred_switch _) with (go (report_position r)). unfold go. rewrite st_bind_run, report_position_run by congruence.
  rewrite Hg. cbn [andb mret ST_ret]. st_run.
  assert (at_trace (trace s) s = s) as Hid by by destruct s. cbn [told_of goes_on_with]. rewrite Hid.
  assert (trace (after_ending r s) = trace s ++ delivery r s ++
      (if ends_session r s && (pr_status r =? LOC_SESS_INTERMEDIATE) then [ToModem A_stopFix] else []) ∧
    navigating (after_ending r s) = navigating s && negb (ends_session r s) ∧ listening (after_ending r s) ∧
    deferred_q (after_ending r s) = deferred_q s ∧ same_listener s (after_ending r s)) as (Ht & Hn & Hl & Hsame).
  { unfold after_ending, after_delivery. rewrite app_assoc. destruct (ends_session r s); cbn [andb negb].
    - rewrite andb_false_r. destruct (pr_status r =? LOC_SESS_INTERMEDIATE); by rewrite ?app_nil_r.
    - by rewrite andb_true_r, app_nil_r. }
  unfold free_rawData, freed. destruct (rawData (location r)) as [p|].
  - eexists. split; [done|]. cbn. rewrite Ht, <- !app_assoc. done.
  - eexists. split; [done|]. rewrite Ht, app_nil_r. done.
Qed.

Lemma status_switch st s : listening s →
  let s1 := loc_eng_report_status st s in
  trace s1 = trace s ++ told_of s (trace s) (navigating s) (Status st) ∧ navigating s1 = navigating s ∧
  listening s1 ∧ deferred_q s1 = deferred_q s ∧ same_listener s s1.
Proof.
  intros Hs. pose proof Hs as (_ & _ & Hst & _ & _ & _ & _ & Hm & _). cbn zeta. cbn [told_of].
  unfold loc_eng_report_status. cbn zeta. change (isInSession (set_mute_session_state _ s)) with (navigating s).
  rewrite Hm. assert (report_mute st LOC_MUTE_SESS_NONE = LOC_MUTE_SESS_NONE) as ->.
  { unfold report_mute. by destruct (_ || _). }
  fold (status_told st (navigating s)). assert (set_mute_session_state LOC_MUTE_SESS_NONE s = s) as ->.
  { destruct s. cbn in Hm. by subst. }
  rewrite Hm. cbn [bool_decide negb]. unfold loc_inform_gps_status. rewrite Hst. cbn [negb].
  rewrite bool_decide_eq_false_2 by done. cbn [negb].
  destruct (status_told st (navigating s)); rewrite ?app_nil_r; repeat break_if; done.
Qed.

Lemma report_handled r s : listening s →
  ∃ s1, handle_msg (message_of r) s = Some (true, s1) ∧
    trace s1 = trace s ++ told_of s (trace s) (navigating s) r ∧
    navigating s1 = goes_on_with s (trace s) (navigating s) r ∧ listening s1 ∧ deferred_q s1 = deferred_q s ∧ same_listener s s1.
Proof.
  intros Hs. pose proof Hs as (Hc & _ & _ & Hsv & Hn & Hx & Ht & Hm & Hg & Ha).
  assert (∀ e, owner (message_of r) = OEngine → told_of s (trace s) (navigating s) r = [e] →
    goes_on_with s (trace s) (navigating s) r = navigating s →
    deferred_switch (message_of r) s = Some (true, push e s) → is_atl_answer (msgid (message_of r)) = false →
    (∀ s, delete_msg (message_of r) s = s) →
    ∃ s1, handle_msg (message_of r) s = Some (true, s1) ∧
      trace s1 = trace s ++ told_of s (trace s) (navigating s) r ∧
      navigating s1 = goes_on_with s (trace s) (navigating s) r ∧ listening s1 ∧ deferred_q s1 = deferred_q s ∧ same_listener s s1) as Hone.
  { intros e Ho -> -> Hsw Hatl Hdel. eexists. split; [exact (round_of _ _ (push e s) Ho Hc Ha Hsw Hatl Hdel)|]. done. }
  destruct r as [r|r|st|n l| |].
  - destruct (position_switch r s Hs) as (s1 & Hsw & Htr & Hnav & Hl & Hsame).
    eexists. split; [apply (round_of (loc_eng_msg_report_position r) s s1 eq_refl Hc); [apply Hl|exact Hsw|done|done]|]. done.
  - eapply Hone; try done. change (deferred_switch _) with (go (report_sv r)). unfold go, report_sv. st_run.
    rewrite bool_decide_eq_false_2 by congruence. st_run. change (id s) with s. rewrite Hsv. st_run. by rewrite Hg.
  - destruct (status_switch st s Hs) as (Htr & Hnav & Hl & Hsame).
    eexists. split; [apply (round_of (loc_eng_msg_report_status st) s (loc_eng_report_status st s) eq_refl Hc); [apply Hl|done..]|]. done.
  - eapply Hone; try done. change (deferred_switch (message_of (Sentence n l))) with
      (go (st_modify (λ s, if nmea_cb (cb s) then send_nmea (take (Z.to_nat l) n) l s else s))).
    unfold go. st_run. by rewrite Hn.
  - eapply Hone; try done. change (deferred_switch (message_of XtraWanted)) with
      (go (st_modify (λ s, if download_request_cb (cb s) then framework F_download_request s else s))).
    unfold go. st_run. by rewrite Hx.
  - eapply Hone; try done. change (deferred_switch (message_of TimeWanted)) with
      (go (st_modify (λ s, if request_utc_time_cb (cb s) then framework F_request_utc_time s else s))).
    unfold go. st_run. by rewrite Ht.
Qed.

(** What is told depends on the engine only by what reports leave as it was. *)
Lemma told_same s s' t session r : same_listener s s' →
  told_of s' t session r = told_of s t session r ∧ goes_on_with s' t session r = goes_on_with s t session r.
Proof.
  intros (Hcb & Hi). destruct r as [r| | | | |]; try done. cbn.
  assert (delivery r s' = delivery r s) as Hd.
  { unfold delivery, tolerable. by rewrite Hcb, Hi. }
  assert (ends_session r (at_trace t s') = ends_session r (at_trace t s)) as He; [|by rewrite He, Hd].
  unfold ends_session, at_trace. cbn [trace set_trace].
  change (delivery r (set_trace t s')) with (delivery r s'). change (delivery r (set_trace t s)) with (delivery r s). by rewrite Hd.
Qed.
Lemma told_all_same s s' t session rs : same_listener s s' → told_all s' t session rs = told_all s t session rs.
Proof.
  intros Hs. revert t session. induction rs as [|r rs IH]; intros t session; [done|]. cbn [told_all].
  destruct (told_same s s' t session r Hs) as [-> ->]. by rewrite IH.
Qed.

Lemma reports_handled rs s : listening s → deferred_q s = message_of <$> rs →
  ∃ s', loc_eng_deferred_action_thread (S (length rs)) s = Some (true, s') ∧
    trace s' = trace s ++ told_all s (trace s) (navigating s) rs ∧ deferred_q s' = [].
Proof.
  revert s. induction rs as [|r rs IH]; intros s Hs Hq; cbn [loc_eng_deferred_action_thread length]; st_run; rewrite Hq.
  { exists s. cbn. by rewrite app_nil_r. }
  cbn [fmap list_fmap]. st_run. set (s0 := set_deferred_q (message_of <$> rs) s).
  destruct (report_handled r s0 Hs) as (s1 & Hrun & Ht1 & Hn1 & Hl1 & Hq1 & Hsame). rewrite Hrun. st_run.
  destruct (IH s1) as (s' & Hrun' & Ht' & Hq'); [done|by rewrite Hq1|].
  exists s'. split; [exact Hrun'|]. split; [|done]. rewrite Ht', (told_all_same s0 s1) by done.
  rewrite (told_all_same s s0) by done. rewrite Ht1, Hn1, <- app_assoc.
  destruct (told_same s s0 (trace s0) (navigating s0) r) as [-> ->]; done.
Qed.

(** C32: What the modem reports, positions, satellites, status, sentences, the
    wish for predicted orbits or for the time, reaches the framework in the order
    of the reports, each once and with its contents, sentences with the time they
    are passed on, if every callback is set, there is no ULP, no session is
    muted, no sentence is generated and no deletion of aiding data waits: all
    but a position that is neither a good fix nor tolerated and a status that
    contradicts the session.  Between them only a single fix that is delivered
    ends the session (and stops the modem if it was intermediate), and raw data
    are freed; the thread then has nothing left to do. *)
Theorem reports_in_order rs s :
  Forall valid_report rs → listening s → deferred_q s = [] →
  ∃ s1, reports_of rs s = Some s1 ∧
  ∃ s2, loc_eng_deferred_action_thread (S (length rs)) s1 = Some (true, s2) ∧
    trace s2 = trace s ++ told_all s (trace s) (navigating s) rs ∧ deferred_q s2 = [].
Proof.
  intros Hrs Hs Hq. eexists. split; [by apply reports_post|]. rewrite Hq. cbn [app].
  destruct (reports_handled rs (set_deferred_q (message_of <$> rs) s)) as (s' & Hrun & Ht & Hq'); [done|done|].
  exists s'. split; [exact Hrun|]. split; [|done]. rewrite Ht. cbn [trace set_deferred_q navigating].
  by rewrite (told_all_same s (set_deferred_q (message_of <$> rs) s)) by done.
Qed.
End reports.

(** ** Concrete runs *)

Lemma hexcode_roundtrip_witness :
  hexcode (replicate 8 7) 6 [0xAB; 0x01; 0xFF] 3 = Some (2, [65; 66; 48; 49; 0; 7; 7; 7]) ∧
  ∃ buf, hexcode (replicate 8 7) 6 [0xAB; 0x01; 0xFF] 3 = Some (2, buf) ∧ unhex (c_string buf) = Some [0xAB; 0x01].
Proof.
  split; [vm_compute; reflexivity|].
  destruct (hexcode_roundtrip [0xAB; 0x01; 0xFF] (replicate 8 7) 6) as (buf & Hrun & _ & _ & Hun & _).
  - repeat constructor; unfold byte; lia.
  - cbn; lia.
  - exists buf. split; [exact Hrun|exact Hun].
Defined.

Lemma decodeAddress_roundtrip_witness :
  ∃ buf, decodeAddress (Some (replicate 6 7)) 6 (Some [0x91; 0x21; 0xF3]) 3 = Some (3, Some buf) ∧
    c_string buf = [49; 50; 51].
Proof.
  destruct (decodeAddress_roundtrip [1; 2; 3] (replicate 6 7) 6) as (buf & Hrun & Hc & _).
  - repeat constructor; unfold digit; lia.
  - cbn; lia.
  - exists buf. split; [exact Hrun|exact Hc].
Defined.

#[local] Existing Instance demo_nmea.
#[local] Existing Instance demo_env.
Lemma reports_in_order_witness :
  let s := set_generateNmea false demo_engine in
  let fix_ := PositionReport demo_loc demo_ext None LOC_SESS_SUCCESS 1 in
  ∃ s1 s2, reports_of [TimeWanted; Status GPS_STATUS_ENGINE_ON; Position fix_; Sentence (str "$GPTXT") 6] s = Some s1 ∧
    loc_eng_deferred_action_thread 5 s1 = Some (true, s2) ∧
    trace s2 = [ToFramework F_request_utc_time; ToFramework (F_status GPS_STATUS_ENGINE_ON);
      ToFramework (F_location (Some demo_loc) None); ToFramework (F_nmea 1468000000250 (str "$GPTXT") 6)].
Proof.
  intros s fix_. destruct (reports_in_order [TimeWanted; Status GPS_STATUS_ENGINE_ON; Position fix_; Sentence (str "$GPTXT") 6] s)
    as (s1 & H1 & s2 & H2 & Ht & _).
  - repeat constructor; cbn; lia.
  - by repeat split.
  - done.
  - exists s1, s2. split; [exact H1|]. split; [exact H2|]. rewrite Ht. reflexivity.
Defined.
