(* ===== verification/LocHal.v ===== *)
(** * The GPS interface: loc.cpp

    What the framework calls: the interfaces are tables of functions that pass
    their arguments to the engine ([LocEng]); [loc_init] gives the engine two
    callbacks of its own, [loc_cb] and [sv_cb], which pass positions and
    satellites on while the framework's are set.  [delivered] lists what
    reaches the framework.  The system files, the properties, the library of the
    ULP and [/dev/gss] are parameters.

    The last part composes the program: requests of the framework, reports of
    the modem ([Adapter]), rounds of the engine's thread and steps of the threads
    of [Ni] in any order. *)

From Stdlib Require Import String Ascii.
From S2P Require Import Prelude Agps Nmea Ni EngMsg LocEng LocEngFacts Adapter.
Local Open Scope Z_scope.

(** ** Constants *)

Definition TARGET_NAME_OTHER : Z := 0.
Definition TARGET_NAME_APQ8064_STANDALONE : Z := 1.
Definition TARGET_NAME_APQ8064_FUSION3 : Z := 2.
Definition LINE_LEN : Z := 100.
Definition GPS_CAPABILITY_MSB : Z := 0x2.
Definition GPS_CAPABILITY_MSA : Z := 0x4.
Definition GPS_POSITION_MODE_MS_BASED : Z := 1.
Definition GPS_POSITION_MODE_MS_ASSISTED : Z := 2.
Definition LOC_POSITION_MODE_MS_ASSISTED : Z := 2.
Definition AGPS_TYPE_C2K : Z := 2.
Definition AGPS_APN_BEARER_IPV4 : Z := 0.

(** The mask of [loc_init]: reports of positions, satellites, the location
    server, assistance, ioctls, status, sentences, requests of the network. *)
Definition loc_events : Z :=
  foldr Z.lor 0 ((λ b, Z.shiftl 1 b) <$> [0; 1; 6; 5; 7; 8; 2; 4]).

(** ** Data *)

Class LocHalEnv := {
  file : chars → option chars;              (* what a file holds, if it opens *)
  property_get : chars → chars → chars;     (* of a key, with a default *)
  dlopen_ulp : bool;
  dlsym_ulp : bool;
  ulp_get_interface : bool;                 (* not NULL *)
  open_gss : Z
}.

(** The members of [GpsCallbacks] that are not NULL. *)
Record GpsCallbacks := GpsCb {
  g_location_cb : bool;
  g_status_cb : bool;
  g_sv_status_cb : bool;
  g_nmea_cb : bool;
  g_set_capabilities_cb : bool;
  g_request_utc_time_cb : bool
}.

Inductive extension :=
| sLocEngXTRAInterface | sLocEngAGpsInterface | sLocEngNiInterface | sLocEngAGpsRilInterface
| sLocEngInjectRawCmdInterface | sLocEngUlpPhoneContextInterface | sUlpNetworkInterface.

Section data.
Context `{NmeaEnv}.

Record hal := Hal {
  loc_afw_data : eng;
  gps_loc_cb : bool;
  gps_sv_cb : bool;
  loc_eng_ulp_inf : bool;
  gss_fd : Z;
  delivered : list framework_call
}.
Definition set_eng (e : eng) (h : hal) : hal :=
  Hal e (gps_loc_cb h) (gps_sv_cb h) (loc_eng_ulp_inf h) (gss_fd h) (delivered h).
Definition set_callbacks (l s : bool) (h : hal) : hal :=
  Hal (loc_afw_data h) l s (loc_eng_ulp_inf h) (gss_fd h) (delivered h).
Definition set_ulp (u : bool) (h : hal) : hal :=
  Hal (loc_afw_data h) (gps_loc_cb h) (gps_sv_cb h) u (gss_fd h) (delivered h).
Definition set_gss_fd (fd : Z) (h : hal) : hal :=
  Hal (loc_afw_data h) (gps_loc_cb h) (gps_sv_cb h) (loc_eng_ulp_inf h) fd (delivered h).
Definition set_delivered (l : list framework_call) (h : hal) : hal :=
  Hal (loc_afw_data h) (gps_loc_cb h) (gps_sv_cb h) (loc_eng_ulp_inf h) (gss_fd h) l.

(** ** The callbacks *)

Definition loc_cb (h : hal) (location : option GpsLocation) : option framework_call :=
  match location with
  | Some l => if gps_loc_cb h then Some (F_location (Some l) None) else None
  | None => None
  end.
Definition sv_cb (h : hal) (sv_status : GpsSvStatus) : option framework_call :=
  if gps_sv_cb h then Some (F_sv_status sv_status None) else None.

(** What becomes of a call of the engine: the other callbacks are those of the
    framework. *)
Definition passed (h : hal) (e : effect) : option framework_call :=
  match e with
  | ToFramework (F_location l _) => loc_cb h l
  | ToFramework (F_sv_status sv _) => sv_cb h sv
  | ToFramework c => Some c
  | ToModem _ | Delete_rawData _ => None
  end.
Definition deliver (l : list effect) (h : hal) : hal := set_delivered (delivered h ++ omap (passed h) l) h.

(** A function of the engine, with the calls it makes. *)
Definition on_engine {A} (m : ST eng A) : ST hal A := λ h,
  match m (loc_afw_data h) with
  | Some (a, e) => Some (a, deliver (drop (length (trace (loc_afw_data h))) (trace e)) (set_eng e h))
  | None => None
  end.
End data.

Section hal.
Context `{Heng : EngEnv, Hfiles : LocHalEnv}.
Abbreviation HM := (ST hal).

(** ** Targets *)

(** [fgets] of at most [n] characters, as a C string. *)
Fixpoint fgets (n : nat) (s : chars) : chars :=
  match n, s with
  | S n, c :: s => if bool_decide (c = ascii_of_nat 10) then [c] else c :: fgets n s
  | _, _ => []
  end.
Fixpoint until_nul (s : chars) : chars :=
  match s with c :: s => if bool_decide (c = ascii_of_nat 0) then [] else c :: until_nul s | [] => [] end.
Definition read_a_line (file_path : chars) (line_size : Z) : Z * chars :=
  match file file_path with
  | None => (-1, [])
  | Some content => (0, until_nul (fgets (Z.to_nat (line_size - 1)) content))
  end.

(** A line is the character 0 past its end. *)
Definition IS_STR_END (c : option ascii) : bool :=
  match c with None => true | Some c => bool_decide (c = ascii_of_nat 10) || bool_decide (c = ascii_of_nat 13) end.
Definition starts_with (prefix line : chars) : bool := bool_decide (take (length prefix) line = prefix).
Definition is_line (name line : chars) : bool := starts_with name line && IS_STR_END (line !! length name).

Definition get_target_name : Z :=
  let line := (read_a_line (str "/sys/devices/system/soc/soc0/hw_platform") LINE_LEN).2 in
  if is_line (str "Liquid") line || is_line (str "Surf") line then
    if (read_a_line (str "/dev/mdm") LINE_LEN).1 =? 0 then TARGET_NAME_APQ8064_FUSION3
    else
      let line := (read_a_line (str "/sys/devices/system/soc/soc0/id") LINE_LEN).2 in
      if starts_with (str "109") line || starts_with (str "153") line then TARGET_NAME_APQ8064_STANDALONE
      else TARGET_NAME_OTHER
  else TARGET_NAME_OTHER.

(** ** Interfaces *)

(** Whether there is an interface. *)
Definition gps_get_hardware_interface : bool :=
  negb (bool_decide (head (property_get (str "gps.disable") []) = Some "1"%char)).

Definition loc_eng_get_ulp_inf (conf : loc_gps_cfg_s_type) : bool :=
  if negb (has (CAPABILITIES conf) ULP_CAPABILITY) then false
  else if negb dlopen_ulp then false
  else if negb dlsym_ulp then false
  else ulp_get_interface.

Definition with_capabilities (c : Z) (g : loc_gps_cfg_s_type) : loc_gps_cfg_s_type :=
  GpsConf (INTERMEDIATE_POS g) (ACCURACY_THRES g) (NMEA_PROVIDER g) (SUPL_VER g) c (LPP_PROFILE g)
    (SENSOR_USAGE g) (SENSOR_PROPERTIES g) (SENSOR_PERF g).
(** [conf] is what [loc_eng_read_config] has read, the first result what the
    engine uses from then on. *)
Definition get_gps_interface (conf : loc_gps_cfg_s_type) (h : hal) : loc_gps_cfg_s_type * hal :=
  let h := if has (CAPABILITIES conf) ULP_CAPABILITY then set_ulp (loc_eng_get_ulp_inf conf) h else h in
  if get_target_name =? TARGET_NAME_APQ8064_STANDALONE then
    (with_capabilities (Z.ldiff (CAPABILITIES conf) (Z.lor GPS_CAPABILITY_MSA GPS_CAPABILITY_MSB)) conf,
     set_gss_fd open_gss h)
  else (conf, h).

Definition loc_get_extension (name : chars) : option extension :=
  if bool_decide (name = str "gps-xtra") then Some sLocEngXTRAInterface
  else if bool_decide (name = str "agps") then Some sLocEngAGpsInterface
  else if bool_decide (name = str "gps-ni") then Some sLocEngNiInterface
  else if bool_decide (name = str "agps_ril") then
    if bool_decide (property_get (str "ro.baseband") (str "msm") = str "csfb") then Some sLocEngAGpsRilInterface
    else None
  else if bool_decide (name = str "ulp-raw-cmd") then Some sLocEngInjectRawCmdInterface
  else if bool_decide (name = str "ulp-phone-context") then Some sLocEngUlpPhoneContextInterface
  else if bool_decide (name = str "ulp-network-interface") then
    if has (CAPABILITIES gps_conf) ULP_CAPABILITY then Some sUlpNetworkInterface else None
  else None.

(** ** The functions of the interfaces *)

Definition pure {A} (f : eng → A * eng) : ST eng A := λ s, Some (f s).

(** [adapter]: whether an adapter of the modem could be made. *)
Definition loc_init (callbacks : GpsCallbacks) (adapter : bool) : HM Z :=
  let clientCallbacks := Callbacks true (g_status_cb callbacks) true (g_nmea_cb callbacks)
                           (g_request_utc_time_cb callbacks) false false false false in
  _ ← st_modify (set_callbacks (g_location_cb callbacks) (g_sv_status_cb callbacks));
  retVal ← on_engine (pure (loc_eng_init (Some (clientCallbacks, g_set_capabilities_cb callbacks)) loc_events adapter));
  inf ← st_get loc_eng_ulp_inf;
  _ ← on_engine (pure (loc_eng_ulp_init inf));
  mret retVal.
(** The engine's thread tests [gps_loc_cb] and [gps_sv_cb] and then calls them,
    and nothing keeps the two stores of NULL out of that: [between] is the call
    the thread has tested and not yet made, if they fall there, and the call is
    then made through NULL. *)
Definition loc_cleanup (between : option framework_call) : HM unit :=
  _ ← on_engine (st_modify loc_eng_cleanup);
  _ ← st_modify (set_callbacks false false);
  match between with
  | Some _ => st_fault
  | None => mret tt
  end.
Definition loc_start : HM Z := on_engine (pure loc_eng_start).
Definition loc_stop : HM Z := on_engine (pure loc_eng_stop).
Definition loc_set_position_mode (mode recurrence min_interval preferred_accuracy preferred_time : Z) : HM Z :=
  let locMode := if mode =? GPS_POSITION_MODE_MS_BASED then LOC_POSITION_MODE_MS_BASED
                 else if mode =? GPS_POSITION_MODE_MS_ASSISTED then LOC_POSITION_MODE_MS_ASSISTED
                 else LOC_POSITION_MODE_STANDALONE in
  params ← st_read (λ _, new_LocPosMode locMode recurrence min_interval preferred_accuracy preferred_time None None);
  on_engine (pure (loc_eng_set_position_mode params)).
Definition loc_inject_time (time timeReference uncertainty : Z) : HM Z :=
  on_engine (pure (loc_eng_inject_time time timeReference uncertainty)).
Definition loc_inject_location (latitude longitude accuracy : real) : HM Z :=
  on_engine (pure (loc_eng_inject_location latitude longitude accuracy)).
Definition loc_delete_aiding_data (f : Z) : HM unit := on_engine (st_modify (loc_eng_delete_aiding_data f)).
Definition loc_update_criteria (criteria : UlpLocationCriteria) : HM Z :=
  on_engine (pure (loc_eng_update_criteria criteria)).
Definition loc_agps_init : HM unit := on_engine loc_eng_agps_init.
Definition loc_agps_open (apn : option (list Z)) : HM Z :=
  on_engine (loc_eng_agps_open AGPS_TYPE_SUPL apn AGPS_APN_BEARER_IPV4).
Definition loc_agps_closed : HM Z := on_engine (pure (loc_eng_agps_closed AGPS_TYPE_SUPL)).
Definition loc_agps_open_failed : HM Z := on_engine (pure (loc_eng_agps_open_failed AGPS_TYPE_SUPL)).
(** For another type the variable is used without a value. *)
Definition loc_agps_set_server (type : Z) (hostname : chars) (port : Z) : HM Z :=
  serverType ← (if type =? AGPS_TYPE_SUPL then mret LOC_AGPS_SUPL_SERVER
                else if type =? AGPS_TYPE_C2K then mret LOC_AGPS_CDMA_PDE_SERVER
                else st_fault);
  on_engine (loc_eng_set_server_proxy serverType hostname port).
Definition loc_xtra_init (callback : bool) : HM Z := on_engine (pure (loc_eng_xtra_init callback)).
Definition loc_xtra_inject_data (data : list Z) (length : Z) : HM Z :=
  on_engine (loc_eng_xtra_inject_data data length).
Definition on_ni (f : ni → ni) : HM unit := on_engine (st_modify (λ s, set_ni_data (f (ni_data s)) s)).
Definition loc_ni_init (notify_cb : bool) : HM unit := on_ni (loc_eng_ni_init notify_cb).
Definition loc_ni_respond (notif_id user_response : Z) : HM unit :=
  on_ni (loc_eng_ni_respond notif_id user_response).
(** The stubs of the RIL interface. *)
Definition loc_agps_ril_init : HM unit := mret tt.
Definition loc_agps_ril_set_ref_location : HM unit := mret tt.
Definition loc_agps_ril_set_set_id : HM unit := mret tt.
Definition loc_agps_ril_ni_message : HM unit := mret tt.
Definition loc_agps_ril_update_network_state : HM unit := mret tt.
Definition loc_agps_ril_update_network_availability (available : Z) (apn : option (list Z)) : HM unit :=
  on_engine (loc_eng_agps_ril_update_network_availability available apn).
Definition loc_inject_raw_command (command : list Z) (length : Z) : HM bool :=
  on_engine (loc_eng_inject_raw_command command length).
Definition loc_ulp_phone_context_init (callback : bool) : HM Z :=
  on_engine (pure (loc_eng_ulp_phone_context_init callback)).
Definition loc_ulp_phone_context_settings_update (settings : UlpPhoneContextSettings) : HM Z :=
  on_engine (loc_eng_ulp_phone_context_settings_update settings).
Definition loc_ulp_network_init (callback : bool) : HM Z := on_engine (pure (loc_eng_ulp_network_init callback)).
Definition loc_ulp_send_network_position (report : UlpNetworkPositionReport) : HM Z :=
  on_engine (loc_eng_ulp_send_network_position report).

(** ** The whole program *)

(** Requests of the framework, what the modem's side calls, a message the ULP
    posts, a round of the thread, and the steps of the threads that wait for an
    answer to a request of the network. *)
Inductive event :=
| CInit (callbacks : GpsCallbacks) (adapter : bool)
| CCleanup (between : option framework_call)
| CStart
| CStop
| CSetPositionMode (mode recurrence min_interval preferred_accuracy preferred_time : Z)
| CInjectTime (time timeReference uncertainty : Z)
| CInjectLocation (latitude longitude accuracy : real)
| CDeleteAidingData (f : Z)
| CUpdateCriteria (criteria : UlpLocationCriteria)
| CAgpsInit
| CAgpsOpen (apn : option (list Z))
| CAgpsClosed
| CAgpsOpenFailed
| CAgpsSetServer (type : Z) (hostname : chars) (port : Z)
| CXtraInit (callback : bool)
| CXtraInject (data : list Z) (length : Z)
| CNiInit (notify_cb : bool)
| CNiRespond (notif_id user_response : Z)
| CNetworkAvailability (available : Z) (apn : option (list Z))
| CRawCommand (command : list Z) (length : Z)
| CPhoneContextInit (callback : bool)
| CPhoneContextUpdate (settings : UlpPhoneContextSettings)
| CNetworkInit (callback : bool)
| CNetworkPosition (report : UlpNetworkPositionReport)
| MPosition (r : position_report)
| MSv (r : sv_report)
| MStatus (status : Z)
| MNmea (nmea : chars) (length : Z)
| MRequestATL (connHandle agps_type : Z)
| MReleaseATL (connHandle : Z)
| MRequestXtraData
| MRequestTime
| MRequestNi (notif : GpsNiNotification) (data : option positive)
| MEngineDown
| MEngineUp
| UPost (m : loc_eng_msg)
| TRound
| NThread (i : nat)
| NStore (pick k : nat)
| NWaitEnds (timedout : bool) (i : nat).

Definition ignore {A} (m : HM A) : HM unit := _ ← m; mret tt.
(** A step of a thread of [Ni]; what it sends is posted to the engine. *)
Definition ni_event_step (step : ni → option ni) : ST eng unit :=
  k ← st_read (λ s, step (ni_data s));
  st_modify (λ s,
    foldl (λ s r, post (loc_eng_msg_inform_ni_response (ir_response r) (Some (ir_payload r))) s)
      (set_ni_data k s) (drop (length (sent (ni_data s))) (sent k))).
Definition through_ulp (f : bool → eng → eng) : HM unit :=
  u ← st_get loc_eng_ulp_inf; on_engine (st_modify (f u)).
Definition exec (e : event) : HM unit :=
  match e with
  | CInit c a => ignore (loc_init c a)
  | CCleanup b => loc_cleanup b
  | CStart => ignore loc_start
  | CStop => ignore loc_stop
  | CSetPositionMode m r i a t => ignore (loc_set_position_mode m r i a t)
  | CInjectTime t tr u => ignore (loc_inject_time t tr u)
  | CInjectLocation lat lon acc => ignore (loc_inject_location lat lon acc)
  | CDeleteAidingData f => loc_delete_aiding_data f
  | CUpdateCriteria c => ignore (loc_update_criteria c)
  | CAgpsInit => loc_agps_init
  | CAgpsOpen apn => ignore (loc_agps_open apn)
  | CAgpsClosed => ignore loc_agps_closed
  | CAgpsOpenFailed => ignore loc_agps_open_failed
  | CAgpsSetServer t host port => ignore (loc_agps_set_server t host port)
  | CXtraInit b => ignore (loc_xtra_init b)
  | CXtraInject d l => ignore (loc_xtra_inject_data d l)
  | CNiInit b => loc_ni_init b
  | CNiRespond i r => loc_ni_respond i r
  | CNetworkAvailability a apn => loc_agps_ril_update_network_availability a apn
  | CRawCommand c l => ignore (loc_inject_raw_command c l)
  | CPhoneContextInit b => ignore (loc_ulp_phone_context_init b)
  | CPhoneContextUpdate s => ignore (loc_ulp_phone_context_settings_update s)
  | CNetworkInit b => ignore (loc_ulp_network_init b)
  | CNetworkPosition r => ignore (loc_ulp_send_network_position r)
  | MPosition r => through_ulp (λ u, reportPosition u r)
  | MSv r => through_ulp (λ u, reportSv u r)
  | MStatus st => on_engine (st_modify (reportStatus st))
  | MNmea n l => on_engine (msg ← st_read (λ s, loc_eng_msg_report_nmea n l); st_modify (post msg))
  | MRequestATL c t => on_engine (st_modify (requestATL c t))
  | MReleaseATL c => on_engine (st_modify (releaseATL c))
  | MRequestXtraData => on_engine (st_modify requestXtraData)
  | MRequestTime => on_engine (st_modify requestTime)
  | MRequestNi n d => on_engine (st_modify (λ s, (requestNiNotify n d s).2))
  | MEngineDown => on_engine (st_modify handleEngineDownEvent)
  | MEngineUp => on_engine (st_modify handleEngineUpEvent)
  | UPost m => on_engine (st_modify (post m))
  | TRound => ignore (on_engine (loc_eng_deferred_action_thread 1))
  | NThread i => on_engine (ni_event_step (ni_thread_proc i))
  | NStore pick k => on_engine (ni_event_step (respond_store pick k))
  | NWaitEnds b i => on_engine (ni_event_step (wait_ends b i))
  end.

(** A round of the thread. *)
Definition is_round (e : event) : Prop := match e with TRound => True | _ => False end.
#[global] Instance is_round_dec e : Decision (is_round e).
Proof. destruct e; apply _. Defined.

Fixpoint exec_all (es : list event) : HM unit :=
  match es with [] => mret tt | e :: es => _ ← exec e; exec_all es end.

(** Arguments the interfaces allow: servers of the two types, buffers of the
    length given, reports that can be printed, handles that are valid; a step of a
    thread is one it can make; and no end of the service between the test of a
    callback and its call. *)
Definition permitted (h : hal) (e : event) : Prop :=
  match e with
  | CCleanup between => between = None
  | CAgpsSetServer t _ _ => t = AGPS_TYPE_SUPL ∨ t = AGPS_TYPE_C2K
  | CXtraInject d l | CRawCommand d l => 0 ≤ l ≤ Z.of_nat (length d)
  | MPosition r => valid_body (PReportPosition r) LOC_ENG_MSG_REPORT_POSITION
  | MSv r => valid_body (PReportSv r) LOC_ENG_MSG_REPORT_SV
  | MNmea n l => 0 ≤ l ≤ Z.of_nat (length n)
  | MRequestATL c _ | MReleaseATL c => uint32 c ≠ INADDR_NONE
  | UPost m => valid m
  | NThread i => is_Some (ni_thread_proc i (ni_data (loc_afw_data h)))
  | NStore pick k => is_Some (respond_store pick k (ni_data (loc_afw_data h)))
  | NWaitEnds b i => is_Some (wait_ends b i (ni_data (loc_afw_data h)))
  | _ => True
  end.

(** *** Calls are only added to the trace, and messages to the queues *)

Definition extends (s s' : eng) : Prop := context s' = context s ∧ ∃ l, trace s' = trace s ++ l.
#[local] Instance extends_preorder : PreOrder extends.
Proof.
  split.
  - intros s. split; [done|]. exists []. by rewrite app_nil_r.
  - intros s1 s2 s3 [C1 [l1 T1]] [C2 [l2 T2]]. split; [congruence|]. exists (l1 ++ l2). by rewrite T2, T1, app_assoc.
Qed.
Lemma extends_same s s' : context s' = context s → trace s' = trace s → extends s s'.
Proof. intros Hc Ht. split; [done|]. exists []. by rewrite app_nil_r. Qed.

(** What every function does to its engine but the thread, which takes messages. *)
Definition grows (s s' : eng) : Prop :=
  extends s s' ∧ (∃ l, deferred_q s' = deferred_q s ++ l) ∧ (∃ l, ulp_q s' = ulp_q s ++ l).
#[global] Instance grows_preorder : PreOrder grows.
Proof.
  split.
  - intros s. split; [reflexivity|]. split; exists []; by rewrite app_nil_r.
  - intros s1 s2 s3 (E1 & [l1 D1] & [u1 U1]) (E2 & [l2 D2] & [u2 U2]). split; [by etrans|].
    split; [exists (l1 ++ l2); by rewrite D2, D1, app_assoc|exists (u1 ++ u2); by rewrite U2, U1, app_assoc].
Qed.
Lemma grows_extends s s' : grows s s' → extends s s'.
Proof. by intros []. Qed.
Lemma grows_same s s' :
  context s' = context s → trace s' = trace s → deferred_q s' = deferred_q s → ulp_q s' = ulp_q s → grows s s'.
Proof. intros Hc Ht Hd Hu. split; [by apply extends_same|]. split; exists []; by rewrite app_nil_r. Qed.
Lemma grows_push e s : grows s (push e s).
Proof. split; [split; [done|by exists [e]]|]. split; exists []; by rewrite app_nil_r. Qed.
Lemma grows_post m s : grows s (post m s).
Proof. split; [by apply extends_same|]. split; [by exists [m]|exists []; by rewrite app_nil_r]. Qed.
Lemma grows_post_ulp m s : grows s (post_ulp m s).
Proof. split; [by apply extends_same|]. split; [exists []; by rewrite app_nil_r|by exists [m]]. Qed.
#[global] Instance grows_walk : Walk grows (λ _, True).
Proof.
  split; [apply _|intros; apply grows_push|intros; apply grows_post|intros b s; by apply grows_same|done|done].
Qed.

Lemma grows_inform st s : grows s (loc_inform_gps_status st s).
Proof. unfold loc_inform_gps_status. break_if; [apply grows_push|reflexivity]. Qed.
Lemma grows_status st s : grows s (loc_eng_report_status st s).
Proof.
  unfold loc_eng_report_status. cbn zeta.
  repeat break_if; try (by apply grows_same);
    (etrans; [|by apply grows_same]); (etrans; [|apply grows_inform]); by apply grows_same.
Qed.

Lemma grows_allows msg : allows grows msg.
Proof.
  split; intros; try (by apply grows_same); try apply grows_status.
  - apply grows_push.
  - unfold request_ni. cbn zeta. break_if; by apply grows_same.
  - apply (walk_report_position grows (λ _, True)); [done|done|]. intros n s. by apply grows_same.
  - apply (walk_report_sv grows (λ _, True)); [done|]. intros n s. by apply grows_same.
  - unfold loc_eng_handle_engine_down, ni_reset. etrans; [|apply grows_status]. by apply grows_same.
Qed.

Lemma grows_handle msg : moves grows (handle_msg msg).
Proof.
  apply (walk_handle grows (λ _, True)).
  - intros w m s. destruct w; by apply grows_same.
  - apply grows_status.
  - apply grows_allows.
  - split; intros; by apply grows_same.
  - intros f s. transitivity (modem (A_deleteAidingData f) s); [apply grows_push|by apply grows_same].
Qed.

Lemma extends_thread n : moves extends (loc_eng_deferred_action_thread n).
Proof.
  induction n as [|n IH]; cbn [loc_eng_deferred_action_thread]; [apply moves_ret, _|].
  apply moves_bind; [apply _|apply moves_get, _|intros [|msg q]]; [apply moves_ret, _|].
  apply moves_bind; [apply _|apply moves_modify; intros; by apply extends_same|intros _].
  apply moves_bind; [apply _| |intros []]; [|done|apply moves_ret, _].
  intros s a s' E. by apply grows_extends, (grows_handle msg s a s').
Qed.

Lemma grows_pure {A} (f : eng → A * eng) : (∀ s, grows s (f s).2) → moves grows (pure f).
Proof. intros Hf s a s'. unfold pure. intros [= Hfs]. specialize (Hf s). by rewrite Hfs in Hf. Qed.

(** *** What reaches the framework *)

(** The callbacks are kept, and of each new call of the engine what its callback
    passes on is delivered. *)
Definition sees (h h' : hal) : Prop :=
  gps_loc_cb h' = gps_loc_cb h ∧ gps_sv_cb h' = gps_sv_cb h ∧ loc_eng_ulp_inf h' = loc_eng_ulp_inf h ∧
  ∃ l, trace (loc_afw_data h') = trace (loc_afw_data h) ++ l ∧
    delivered h' = delivered h ++ omap (passed h) l.

Lemma passed_same h h' e : gps_loc_cb h' = gps_loc_cb h → gps_sv_cb h' = gps_sv_cb h → passed h' e = passed h e.
Proof. intros Hl Hs. unfold passed, loc_cb, sv_cb. by rewrite Hl, Hs. Qed.

Lemma omap_passed h h' (l : list effect) : gps_loc_cb h' = gps_loc_cb h → gps_sv_cb h' = gps_sv_cb h →
  omap (passed h') l = omap (passed h) l.
Proof.
  intros Hl Hs. induction l as [|e l IH]; [done|]. cbn. by rewrite (passed_same h h' e Hl Hs), IH.
Qed.

#[local] Instance sees_preorder : PreOrder sees.
Proof.
  split.
  - intros h. do 3 (split; [done|]). exists []. by rewrite !app_nil_r.
  - intros h1 h2 h3 (L1 & S1 & U1 & l1 & T1 & D1) (L2 & S2 & U2 & l2 & T2 & D2).
    do 3 (split; [congruence|]). exists (l1 ++ l2). split; [by rewrite T2, T1, app_assoc|].
    rewrite D2, D1, omap_app, app_assoc. f_equal. apply omap_passed; done.
Qed.

Lemma sees_engine {A} (m : ST eng A) : moves extends m → moves sees (on_engine m).
Proof.
  intros Hm h a h'. unfold on_engine. destruct (m (loc_afw_data h)) as [[b e]|] eqn:Hrun; [|done].
  intros [= _ <-]. destruct (Hm _ _ _ Hrun) as [_ [l Hl]]. do 3 (split; [done|]). exists l. cbn.
  split; [done|]. f_equal. rewrite Hl, drop_app_length. by apply omap_passed.
Qed.

(** A function of the engine other than the thread. *)
Definition adds (h h' : hal) : Prop := sees h h' ∧ grows (loc_afw_data h) (loc_afw_data h').
#[local] Instance adds_preorder : PreOrder adds.
Proof. split; [by split|]. intros h1 h2 h3 [] []. split; by etrans. Qed.
Lemma adds_engine {A} (m : ST eng A) : moves grows m → moves adds (on_engine m).
Proof.
  intros Hm h a h' E. split.
  - revert E. apply sees_engine. intros s b s' E. by apply grows_extends, (Hm s b).
  - revert E. unfold on_engine. destruct (m (loc_afw_data h)) as [[b e]|] eqn:Hrun; [|done].
    intros [= _ <-]. by apply (Hm _ b).
Qed.

(** Functions of the engine that only post messages or set members. *)
Ltac grow :=
  cbn zeta beta;
  repeat first
    [ apply grows_pure; intros ? | apply moves_ret, _ | apply moves_get, _ | apply moves_read, _ | apply moves_fault
    | apply walk_set_server with (ok := λ _, True), _ | apply walk_agps_reinit with (ok := λ _, True), _
    | apply moves_bind; [apply _| |intros ?] | apply moves_modify; intros ? | progress cbn [snd]
    | by apply grows_same | apply grows_post | apply grows_post_ulp | reflexivity | break_if | break_match ].

Definition keeps_callbacks (e : event) : bool := match e with CInit _ _ | CCleanup _ => false | _ => true end.

Lemma moves_ignore (R : hal → hal → Prop) `{!PreOrder R} {A} (m : HM A) : moves R m → moves R (ignore m).
Proof. intros Hm. apply moves_bind; [apply _|done|intros; apply moves_ret, _]. Qed.

Lemma grows_ni_step step : moves grows (ni_event_step step).
Proof.
  unfold ni_event_step. apply moves_bind; [apply _|apply moves_read, _|intros k]. apply moves_modify. intros s.
  assert (∀ l t, grows s t → grows s
    (foldl (λ s r, post (loc_eng_msg_inform_ni_response (ir_response r) (Some (ir_payload r))) s) t l)) as Hl.
  { induction l as [|r l IH]; intros t Ht; [done|]. cbn [foldl]. apply IH. etrans; [exact Ht|by apply grows_post]. }
  apply Hl. by apply grows_same.
Qed.

Lemma adds_through f : (∀ u s, grows s (f u s)) → moves adds (through_ulp f).
Proof.
  intros Hf. unfold through_ulp. apply moves_bind; [apply _|apply moves_get, _|intros u].
  apply adds_engine, moves_modify, Hf.
Qed.

Lemma adds_exec e : keeps_callbacks e = true → e ≠ TRound → moves adds (exec e).
Proof.
  intros He Hr.
  destruct e; try discriminate; try done; cbn [exec]; try apply (moves_ignore adds);
    try (apply adds_through; intros [] s; first [apply grows_post | apply grows_post_ulp]);
    try (apply adds_engine, grows_ni_step);
    try apply adds_engine.
  all: try by
    (unfold loc_eng_start, loc_eng_stop, loc_eng_inject_time, loc_eng_inject_location, loc_eng_delete_aiding_data,
       loc_eng_update_criteria, loc_eng_agps_closed, loc_eng_agps_open_failed, loc_eng_set_position_mode, client_post;
     grow).
  unfold loc_agps_set_server. apply moves_bind; [apply _| |intros t].
  - repeat (apply moves_if; intros); try apply moves_ret, _. apply moves_fault.
  - apply adds_engine. unfold loc_eng_set_server_proxy. grow.
Qed.

(** *** Nothing faults *)

Definition eng_ok (s : eng) : Prop := ready s ∧ context s = true.
Definition sys (h : hal) : Prop := eng_ok (loc_afw_data h).

Lemma safe_on_engine {A} (m : ST eng A) : safe eng_ok m → safe sys (on_engine m).
Proof.
  intros Hm h Hh. destruct (Hm _ Hh) as (a & s' & Hrun & Hs'). unfold on_engine. rewrite Hrun.
  eexists _, _. split; [done|exact Hs'].
Qed.

Lemma ok_same s s' :
  agnss_nif s' = agnss_nif s → internet_nif s' = internet_nif s → wifi_nif s' = wifi_nif s →
  generateNmea s' = generateNmea s → nmea_cb (cb s') = nmea_cb (cb s) → nm s' = nm s →
  deferred_q s' = deferred_q s → context s' = context s → eng_ok s → eng_ok s'.
Proof.
  intros Ha Hi Hw Hg Hc Hn Hq Hx [[H1' H2' H3' H4'] Hctx]. split; [|congruence].
  split; [|by rewrite ?Hg, ?Hc, ?Hn, ?Hq..].
  intros w. specialize (H1' w). destruct w; cbn in *; by rewrite ?Ha, ?Hi, ?Hw.
Qed.
Lemma ok_post m s : valid m → eng_ok s → eng_ok (post m s).
Proof.
  intros Hm [[H1' H2' H3' H4'] Hctx]. split; [|done].
  split; [intros w; specialize (H1' w); by destruct w|done|done|]. apply Forall_app. split; [done|by apply Forall_singleton].
Qed.
Lemma ok_send u m s : valid m → eng_ok s → eng_ok (send u m s).
Proof. intros Hm. destruct u; [by apply ok_same|by apply ok_post]. Qed.

Lemma safe_pure {A} (f : eng → A * eng) : (∀ s, eng_ok s → eng_ok (f s).2) → safe eng_ok (pure f).
Proof. intros Hf s Hs. unfold pure. specialize (Hf s Hs). destruct (f s) as [a s'] eqn:Hfs. by exists a, s'. Qed.
Lemma safe_read_const {A} (x : option A) : is_Some x → safe eng_ok (st_read (λ _, x)).
Proof. intros [a ->] s Hs. by exists a, s. Qed.
Lemma safe_ignore {A} (m : HM A) : safe sys m → safe sys (ignore m).
Proof. intros Hm. apply safe_bind; [done|intros; apply safe_ret]. Qed.
Lemma safe_through f : (∀ u s, eng_ok s → eng_ok (f u s)) → safe sys (through_ulp f).
Proof.
  intros Hf. apply safe_bind; [apply safe_get|intros u]. apply safe_on_engine, safe_modify. auto.
Qed.

(** A client's call that posts a message. *)
Lemma safe_client_post m : valid m → safe eng_ok (pure (client_post m)).
Proof.
  intros Hm. apply safe_pure. intros s Hs. unfold client_post. rewrite (proj2 Hs). by apply ok_post.
Qed.
Lemma safe_context {A} (f : bool → ST eng A) : safe eng_ok (f true) → safe eng_ok (st_get context ≫= f).
Proof. intros Hf. apply safe_get_bind. intros s Hs. rewrite (proj2 Hs). by apply Hf. Qed.
Lemma safe_thread n : fits r_zero → safe eng_ok (loc_eng_deferred_action_thread n).
Proof.
  intros Hz s Hs.
  destruct (safe_rounds n Hz s (proj1 Hs)) as (b & s' & Hrun & Hr).
  exists b, s'. split; [done|]. split; [done|]. destruct (extends_thread n _ _ _ Hrun) as [-> _]. apply Hs.
Qed.

Lemma safe_set_server_proxy type hostname port : safe eng_ok (loc_eng_set_server_proxy type hostname port).
Proof.
  apply safe_context. intros s Hs. destruct (safe_set_server type hostname port s (proj1 Hs)) as (a & s' & Hrun & Hr).
  exists a, s'. split; [done|]. split; [done|].
  assert (moves grows (loc_eng_set_server type hostname port)) as Hext by apply (walk_set_server grows (λ _, True)).
  destruct (Hext _ _ _ Hrun) as [[-> _] _]. apply Hs.
Qed.

Lemma safe_agps_init : safe eng_ok loc_eng_agps_init.
Proof.
  apply safe_context. intros s Hs. st_run. destruct (agps_status_cb (cb s)); cbn [negb]; [by eexists _, _|]. st_run.
  match goal with |- ∃ a s', _ ?t = _ ∧ _ => set (s1 := t) end.
  assert (ready s1) as Hr.
  { destruct Hs as [[H1' H2' H3' H4'] _]. split; [|done..].
    intros []; cbn; (eexists _, _; split; [reflexivity|apply linked_new]). }
  destruct (safe_agps_reinit s1 Hr) as (a & s' & Hrun & Hr'). exists a, s'. split; [done|]. split; [done|].
  assert (moves grows loc_eng_agps_reinit) as Hext by apply (walk_agps_reinit grows (λ _, True)).
  destruct (Hext _ _ _ Hrun) as [[-> _] _]. apply Hs.
Qed.

Lemma c_string_length a : (length (c_string a) ≤ length a)%nat.
Proof. induction a as [|x a IH]; cbn; [done|]. destruct (x =? 0); cbn; lia. Qed.
Lemma copy_len_some (name : list Z) len : 0 ≤ len ≤ Z.of_nat (length name) →
  copy_len name len = Some (take (Z.to_nat len) name ++ [0]).
Proof. intros Hl. unfold copy_len. by rewrite (proj2 (Z.ltb_ge len 0)), (proj2 (Z.ltb_ge _ len)) by lia. Qed.
Lemma apn_len_bound a : 0 ≤ apn_len a ≤ Z.of_nat (length a) ∧ apn_len a ≤ 100.
Proof. unfold apn_len, MAX_APN_LEN. pose proof (c_string_length a). lia. Qed.

(** A message whose constructor copies its data, then posted. *)
Lemma safe_made (x : option loc_eng_msg) : (∃ m, x = Some m ∧ valid m) →
  safe eng_ok (msg ← st_read (λ _, x); st_modify (post msg)).
Proof. intros (m & -> & Hm) s Hs. do 2 eexists. split; [done|]. by apply ok_post. Qed.

Lemma safe_agps_open apn : safe eng_ok (loc_eng_agps_open AGPS_TYPE_SUPL apn AGPS_APN_BEARER_IPV4).
Proof.
  apply safe_bind; [apply safe_get|intros []]; cbn [negb]; [|apply safe_ret]. destruct apn as [apn|]; [|apply safe_ret].
  destruct (apn_len_bound apn) as [Hl H100]. intros s Hs. unfold loc_eng_msg_atl_open_success.
  rewrite copy_len_some by done. cbn [mbind option_bind]. do 2 eexists. split; [done|]. apply ok_post; [|done].
  split; [done|]. cbn. split; [done|]. rewrite length_app, length_take. cbn. lia.
Qed.

Lemma safe_network_availability a apn : safe eng_ok (loc_eng_agps_ril_update_network_availability a apn).
Proof.
  apply safe_context. cbn [negb]. destruct apn as [apn|]; [|apply safe_ret]. apply safe_made.
  destruct (apn_len_bound apn) as [Hl _]. unfold loc_eng_msg_set_data_enable. rewrite copy_len_some by done.
  eexists. by split.
Qed.

Lemma safe_xtra_inject d l : 0 ≤ l ≤ Z.of_nat (length d) → safe eng_ok (loc_eng_xtra_inject_data d l).
Proof.
  intros Hl. apply safe_context. cbn [negb]. intros s Hs. unfold loc_eng_msg_inject_xtra_data.
  rewrite (proj2 (Z.ltb_ge l 0)), (proj2 (Z.ltb_ge _ l)) by lia. do 2 eexists. split; [done|].
  by apply ok_post.
Qed.

Lemma safe_raw_command c l : 0 ≤ l ≤ Z.of_nat (length c) → safe eng_ok (loc_eng_inject_raw_command c l).
Proof.
  intros Hl. apply safe_context. apply safe_bind; [apply safe_get|intros ulp]. cbn [negb].
  destruct ulp; [|apply safe_ret]. intros s Hs. unfold ulp_msg_inject_raw_command.
  rewrite (proj2 (Z.ltb_ge l 0)), (proj2 (Z.ltb_ge _ l)) by lia. do 2 eexists. split; [done|]. by apply (ok_same s).
Qed.

Lemma safe_context_update settings : safe eng_ok (loc_eng_ulp_phone_context_settings_update settings).
Proof.
  apply safe_bind; [apply safe_get|intros ulp]. apply safe_context. cbn [negb].
  apply safe_bind; [|intros rv; apply safe_bind; [|intros _; apply safe_ret]].
  - destruct ulp; [|apply safe_ret]. apply safe_bind; [|intros _; apply safe_ret].
    apply safe_modify. intros s. by apply ok_same.
  - break_if; [|apply safe_ret]. apply safe_modify. intros s. by apply ok_post.
Qed.

Lemma safe_network_position report : safe eng_ok (loc_eng_ulp_send_network_position report).
Proof.
  apply safe_bind; [apply safe_get|intros ulp]. apply safe_context. cbn [negb]. destruct ulp; [|apply safe_ret].
  apply safe_bind; [|intros _; apply safe_ret]. apply safe_modify. intros s. by apply ok_same.
Qed.

Lemma safe_ni_step step h : sys h → is_Some (step (ni_data (loc_afw_data h))) →
  ∃ u h', on_engine (ni_event_step step) h = Some (u, h') ∧ sys h'.
Proof.
  intros Hh [k Hk]. unfold on_engine, ni_event_step.
  rewrite (st_bind_some _ _ _ k (loc_afw_data h)) by by apply st_read_some.
  eexists _, _. split; [done|]. unfold sys. cbn.
  assert (∀ l s, eng_ok s → eng_ok (foldl (λ s r, post (loc_eng_msg_inform_ni_response (ir_response r) (Some (ir_payload r))) s) s l)) as Hl.
  { induction l as [|r l IH]; intros s Hs; [done|]. cbn [foldl]. apply IH. by apply ok_post. }
  apply Hl. by eapply ok_same; [..|exact Hh].
Qed.

Lemma valid_plain i : i ∈ [LOC_ENG_MSG_START_FIX; LOC_ENG_MSG_STOP_FIX; LOC_ENG_MSG_ENGINE_DOWN;
  LOC_ENG_MSG_ENGINE_UP; LOC_ENG_MSG_REQUEST_XTRA_DATA; LOC_ENG_MSG_REQUEST_TIME] → valid (new_loc_eng_msg i).
Proof. done. Qed.

Lemma safe_exec e h : fits r_zero → sys h → permitted h e → ∃ u h', exec e h = Some (u, h') ∧ sys h'.
Proof.
  intros Hz Hh Hp. assert (safe sys (exec e) → ∃ u h', exec e h = Some (u, h') ∧ sys h') as Hgo by (intros Hs; by apply Hs).
  destruct e; cbn [permitted] in Hp;
    try (apply safe_ni_step; [exact Hh|exact Hp]); apply Hgo; clear Hgo; cbn [exec]; try apply safe_ignore;
    try (by apply safe_on_engine, safe_client_post); try (by apply safe_on_engine, safe_modify; intros s; apply ok_post);
    try (by apply safe_on_engine, safe_pure; intros s; apply (ok_same s));
    try solve [apply safe_through; intros u s; by apply ok_send
              |apply safe_on_engine, safe_modify; intros s; apply ok_post, valid_plain; by_compute].
  - (* loc_init: there is an engine *)
    unfold loc_init. apply safe_bind; [by apply safe_modify|intros _].
    apply safe_bind; [|intros rv; apply safe_bind; [apply safe_get|intros inf; apply safe_bind; [|intros _; apply safe_ret]]].
    + apply safe_on_engine, safe_pure. intros s Hs. unfold loc_eng_init, loc_eng_init_data. change (loc_events =? 0) with false.
      by rewrite (proj2 Hs).
    + apply safe_on_engine, safe_pure. intros s Hs. unfold loc_eng_ulp_init. cbn [snd].
      destruct inf; [by apply (ok_same s)|done].
  - unfold loc_cleanup. subst between. apply safe_bind;
      [|intros _; apply safe_bind; [by apply safe_modify|intros _; apply safe_ret]].
    apply safe_on_engine, safe_modify. intros s Hs. unfold loc_eng_cleanup, loc_eng_stop. rewrite (proj2 Hs). cbn [negb].
    break_if; [|done]. cbn [snd]. break_if; [by apply (ok_same s)|by apply ok_post; [apply valid_plain; by_compute|]].
  - apply safe_on_engine, safe_pure. intros s Hs. unfold loc_eng_start. rewrite (proj2 Hs). cbn [negb snd].
    break_if; [by apply (ok_same s)|by apply ok_post; [apply valid_plain; by_compute|]].
  - apply safe_on_engine, safe_pure. intros s Hs. unfold loc_eng_stop. rewrite (proj2 Hs). cbn [negb snd].
    break_if; [by apply (ok_same s)|by apply ok_post; [apply valid_plain; by_compute|]].
  - apply safe_on_engine, safe_modify. intros s Hs. unfold loc_eng_delete_aiding_data, client_post. rewrite (proj2 Hs).
    by apply ok_post.
  - apply safe_on_engine, safe_pure. intros s Hs. unfold loc_eng_update_criteria. rewrite (proj2 Hs). cbn [negb].
    by break_if; [apply (ok_same s)|].
  - apply safe_on_engine, safe_agps_init.
  - apply safe_on_engine, safe_agps_open.
  - apply safe_on_engine, safe_pure. intros s Hs. unfold loc_eng_agps_closed. break_if; [done|].
    apply ok_post; [|done]. split; [done|]. by left.
  - apply safe_on_engine, safe_pure. intros s Hs. unfold loc_eng_agps_open_failed. break_if; [done|].
    apply ok_post; [|done]. split; [done|]. by right.
  - unfold loc_agps_set_server. apply safe_bind; [|intros t; apply safe_on_engine, safe_set_server_proxy].
    destruct Hp as [-> | ->]; apply safe_ret.
  - by apply safe_on_engine, safe_xtra_inject.
  - apply safe_on_engine, safe_network_availability.
  - by apply safe_on_engine, safe_raw_command.
  - apply safe_on_engine, safe_context_update.
  - apply safe_on_engine, safe_network_position.
  - apply safe_on_engine, safe_made. unfold loc_eng_msg_report_nmea.
    rewrite (proj2 (Z.ltb_ge length 0)), (proj2 (Z.ltb_ge _ length)) by lia. eexists. by split.
  - by apply safe_on_engine, safe_thread.
Qed.

(** *** Starting *)

(** An engine after its initialisation, before the data connections are set up. *)
Definition initialised (s : eng) : Prop :=
  context s = true ∧ agps_status_cb (cb s) = false ∧ (generateNmea s = true → nmea_cb (cb s) = true) ∧
  cache_fits (nm s) ∧ Forall config_msg (deferred_q s).
Definition keeps_initialised (s s' : eng) : Prop := initialised s → initialised s'.
#[global] Instance initialised_walk : Walk keeps_initialised (λ _, True).
Proof.
  split; [split; unfold keeps_initialised; red; auto|intros ? s _ Hs; exact Hs| |intros ? s Hs; exact Hs|done|done].
  intros m s Hm (Hc & Ha & Hg & Hn & Hq). do 4 (split; [done|]). apply Forall_app. split; [done|].
  by apply Forall_singleton.
Qed.

Lemma initialised_reinit_loop tries rv s : initialised s → initialised (reinit_loop tries rv s).2.
Proof.
  revert rv s. induction tries as [|tries IH]; intros rv s Hs; [done|]. cbn [reinit_loop].
  pose proof (walk_reinit keeps_initialised (λ _, True) s Hs) as Hr.
  destruct (loc_eng_reinit s) as [rv' s']. break_if; [by apply IH|done].
Qed.

Lemma initialised_init c caps s : fits r_zero → nmea_cb c = true → context s = false → Forall config_msg (deferred_q s) →
  initialised (loc_eng_init (Some (c, caps)) loc_events true s).2.
Proof.
  intros Hz Hn Hc Hq. unfold loc_eng_init, loc_eng_init_data. change (loc_events =? 0) with false. rewrite Hc. cbn iota zeta.
  apply initialised_reinit_loop.
  assert (cache_fits (Nmea 0 r_zero r_zero r_zero false [])) as Hf by (split; [cbn; lia|done]).
  destruct caps; (split; [done|]); (split; [done|]); (split; [done|]); by split.
Qed.

Lemma on_engine_pure {A} (f : eng → A * eng) h :
  ∃ h', on_engine (pure f) h = Some ((f (loc_afw_data h)).1, h') ∧ loc_afw_data h' = (f (loc_afw_data h)).2.
Proof. unfold on_engine, pure. destruct (f (loc_afw_data h)) as [a e]. by eexists. Qed.

Lemma loc_init_run cbs h : fits r_zero → g_nmea_cb cbs = true →
  context (loc_afw_data h) = false → Forall config_msg (deferred_q (loc_afw_data h)) →
  ∃ rv h', loc_init cbs true h = Some (rv, h') ∧ initialised (loc_afw_data h').
Proof.
  intros Hz Hn Hc Hq. unfold loc_init. st_run. set (h0 := set_callbacks _ _ h).
  set (f := loc_eng_init _ _ _). destruct (on_engine_pure f h0) as (h1 & H1run & He1).
  rewrite H1run. st_run. set (inf := loc_eng_ulp_inf h1).
  destruct (on_engine_pure (loc_eng_ulp_init inf) h1) as (h2 & H2run & He2). rewrite H2run.
  eexists _, _. split; [done|]. rewrite He2. unfold loc_eng_ulp_init. cbn [snd].
  assert (initialised (loc_afw_data h1)) as Hi by (rewrite He1; by apply initialised_init).
  by destruct inf.
Qed.

Lemma loc_agps_init_run h : initialised (loc_afw_data h) → ∃ h', loc_agps_init h = Some (tt, h') ∧ sys h'.
Proof.
  intros (Hc & Ha & Hg & Hn & Hq). unfold loc_agps_init, on_engine, loc_eng_agps_init. st_run.
  rewrite Hc, Ha. cbn [negb]. st_run.
  match goal with |- context [loc_eng_agps_reinit ?x] => set (s2 := x) end.
  assert (ready s2) as Hr.
  { split; [|done..|by eapply Forall_impl, config_valid].
    intros []; cbn; (eexists _, _; split; [reflexivity|apply linked_new]). }
  destruct (safe_agps_reinit s2 Hr) as ([] & s3 & Hrun & Hr3). rewrite Hrun. eexists. split; [done|].
  split; [exact Hr3|]. assert (moves grows loc_eng_agps_reinit) as Hext by apply (walk_agps_reinit grows (λ _, True)).
  destruct (Hext _ _ _ Hrun) as [[Hc3 _] _]. cbn. rewrite Hc3. exact Hc.
Qed.

Lemma boot_sys cbs h0 : fits r_zero → g_nmea_cb cbs = true →
  context (loc_afw_data h0) = false → Forall config_msg (deferred_q (loc_afw_data h0)) →
  ∃ u h, exec_all [CInit cbs true; CAgpsInit] h0 = Some (u, h) ∧ sys h.
Proof.
  intros Hz Hn Hc Hq. destruct (loc_init_run cbs h0 Hz Hn Hc Hq) as (rv & h1 & Hinit & Hi).
  destruct (loc_agps_init_run h1 Hi) as (h2 & Hagps & Hs). exists tt, h2. split; [|exact Hs].
  cbn [exec_all exec]. unfold ignore. st_run. rewrite Hinit. cbn beta iota delta [mret ST_ret]. st_run. by rewrite Hagps.
Qed.

Definition hal_step (h h' : hal) : Prop := ∃ e u, permitted h e ∧ exec e h = Some (u, h').

(** The whole of the location service: it starts, and from then on, whatever
    the framework asks for, the modem reports, the ULP posts and the threads do, in
    whatever order, as long as arguments are as the interfaces say, no function
    faults: no queue, connection machine, buffer or callback is used that is not
    there. *)
Theorem program_never_faults cbs h0 : fits r_zero → g_nmea_cb cbs = true →
  context (loc_afw_data h0) = false → deferred_q (loc_afw_data h0) = [] →
  ∃ h, exec_all [CInit cbs true; CAgpsInit] h0 = Some (tt, h) ∧
    ∀ h', rtc hal_step h h' → ∀ e, permitted h' e → ∃ h'', exec e h' = Some (tt, h'').
Proof.
  intros Hz Hn Hc Hq. destruct (boot_sys cbs h0 Hz Hn Hc) as ([] & h & Hrun & Hs); [by rewrite Hq|].
  exists h. split; [exact Hrun|]. clear Hrun. intros h' Hreach. induction Hreach as [h|h h1 h2 (e & u & Hp & Hrun) _ IH].
  - intros e Hp. destruct (safe_exec e h Hz Hs Hp) as ([] & h2 & Hrun & _). by exists h2.
  - apply IH. destruct (safe_exec e h Hz Hs Hp) as (u' & h1' & Hrun' & Hs'). by simplify_eq.
Qed.

(** *** A fix *)

(** The engine waits, sentences come from the modem, the session is not muted. *)
Definition listens (s : eng) : Prop :=
  context s = true ∧ location_cb (cb s) = true ∧ generateNmea s = false ∧
  mute_session_state s ≠ LOC_MUTE_SESS_IN_SESSION ∧ deferred_q s = [].

(** Not a call of the framework. *)
Definition inward (e : effect) : Prop := match e with ToFramework _ => False | _ => True end.

Lemma inward_freed l : Forall inward (freed l).
Proof. unfold freed. case_match; by repeat constructor. Qed.

Lemma position_round r s : listens s →
  ∃ s' l, loc_eng_deferred_action_thread 1 (post (loc_eng_msg_report_position r) s) = Some (true, s') ∧
    trace s' = trace s ++ delivery r s ++ l ∧ Forall inward l.
Proof.
  intros (Hc & Hl & Hg & Hm & Hq). cbn [loc_eng_deferred_action_thread]. st_run.
  change (deferred_q (post (loc_eng_msg_report_position r) s)) with (deferred_q s ++ [loc_eng_msg_report_position r]).
  rewrite Hq. cbn [app]. st_run.
  set (s0 := set_deferred_q [] (post (loc_eng_msg_report_position r) s)).
  unfold handle_msg. cbn [owner loc_eng_msg_report_position]. st_run. change (context s0) with (context s). rewrite Hc.
  cbn [negb]. st_run.
  change (deferred_switch (loc_eng_msg_report_position r) s0) with (go (report_position r) s0).
  unfold go. rewrite st_bind_run, (report_position_run r s0 Hm). change (generateNmea s0) with (generateNmea s).
  rewrite Hg. cbn [andb mret ST_ret]. st_run.
  destruct (free_rawData_run (location r) (after_ending r s0)) as (s1 & -> & Ht1 & _). unfold after_switch. cbn zeta.
  change (is_atl_answer (msgid (loc_eng_msg_report_position r))) with false. cbn iota.
  change (delete_msg (loc_eng_msg_report_position r) ?x) with x. eexists.
  assert (trace (after_ending r s0) = trace s ++ delivery r s0 ++
    (if ends_session r s0 && (pr_status r =? LOC_SESS_INTERMEDIATE) then [ToModem A_stopFix] else [])) as He.
  { unfold after_ending. rewrite app_assoc. destruct (ends_session r s0); cbn [andb]; [|by rewrite app_nil_r].
    destruct (pr_status r =? LOC_SESS_INTERMEDIATE); by rewrite ?app_nil_r. }
  change (delivery r s0) with (delivery r s) in He.
  assert (∀ u, ∃ l, trace (delete_aiding_data (set_stop_request_pending false u)) = trace u ++ l ∧
    Forall inward l) as Hdel.
  { intros u. unfold delete_aiding_data. break_if.
    - eexists. split; [done|]. by apply Forall_singleton.
    - exists []. by rewrite app_nil_r. }
  destruct (Hdel s1) as (l & Hl' & Fl). eexists. split; [done|]. rewrite Hl', Ht1, He, <- !app_assoc.
  split; [done|]. apply Forall_app. split; [break_if; by repeat constructor|].
  apply Forall_app. split; [apply inward_freed|exact Fl].
Qed.

(** C15: A fix reaches the client: when the engine listens and the modem reports
    a position, the next round of the thread calls the callback of the framework
    exactly if that callback is set (after [loc_init], not after [loc_cleanup])
    and the report is of a success or an intermediate position that is good
    enough, with that position, once and unchanged; a failure, which the engine
    reports as no position at all, and a position that is not good enough call
    nothing.  The round is run with no call of the framework in between: for an
    end of the service that falls between the test of the callback and its call
    see [cleanup_calls_null]. *)
Theorem fix_reaches_client r h : listens (loc_afw_data h) → loc_eng_ulp_inf h = false →
  ∃ h', exec_all [MPosition r; TRound] h = Some (tt, h') ∧
    delivered h' = delivered h ++
      (if decide (gps_loc_cb h = true ∧ pr_status r ≠ LOC_SESS_FAILURE ∧ (good_fix r ∨ tolerable r (loc_afw_data h)))
       then [F_location (Some (location r)) None] else []).
Proof.
  intros Hs Hu. set (s := loc_afw_data h) in *.
  destruct (position_round r s Hs) as (s' & l & Hrun & Ht & Hl).
  set (h1 := deliver [] (set_eng (post (loc_eng_msg_report_position r) s) h)).
  assert (exec (MPosition r) h = Some (tt, h1)) as H1run.
  { cbn [exec]. unfold through_ulp. st_run. rewrite Hu. unfold on_engine. cbn.
    fold s. rewrite drop_all. done. }
  cbn [exec_all]. st_step H1run. unfold exec, ignore, on_engine. st_run.
  change (loc_afw_data h1) with (post (loc_eng_msg_report_position r) s). rewrite Hrun. eexists. split; [done|].
  cbn. rewrite Ht, drop_app_length, omap_app, app_nil_r. f_equal.
  assert (∀ u, omap (passed u) l = []) as Hnone.
  { intros u. clear Ht. induction Hl as [|[] l He _ IH]; done || exact IH. }
  rewrite Hnone, app_nil_r. unfold delivery. destruct Hs as (_ & -> & _). cbn [negb].
  destruct (decide (pr_status r = LOC_SESS_FAILURE)) as [Hf|Hf].
  { rewrite decide_False by naive_solver. done. }
  destruct (decide (good_fix r ∨ tolerable r s)) as [Hg|Hg].
  - cbn. unfold loc_cb. cbn. destruct (gps_loc_cb h); [by rewrite decide_True|].
    by rewrite decide_False by naive_solver.
  - by rewrite decide_False by naive_solver.
Qed.

(** A position that the engine's thread has tested for and not yet passed on
    when loc_cleanup clears the callbacks is passed to NULL. *)
Lemma cleanup_calls_null h call : loc_cleanup (Some call) h = None.
Proof. unfold loc_cleanup. by rewrite st_bind_run. Qed.
End hal.

(** ** Concrete runs *)

#[local] Existing Instance demo_nmea.
#[local] Existing Instance demo_env.

(** A device of another make, without a library of the ULP. *)
Definition demo_files : LocHalEnv := {|
  file p := if bool_decide (p = str "/sys/devices/system/soc/soc0/hw_platform") then Some (str "Fluid") else None;
  property_get k d := d;
  dlopen_ulp := false;
  dlsym_ulp := false;
  ulp_get_interface := false;
  open_gss := 3
|}.
#[local] Existing Instance demo_files.

Definition demo_hal : hal := Hal demo_engine true true false 0 [].
Definition demo_off_hal : hal := Hal (set_context false demo_engine) false false false 0 [].
Definition demo_callbacks : GpsCallbacks := GpsCb true true true true true true.

Lemma program_never_faults_witness :
  ∃ h h'', exec_all [CInit demo_callbacks true; CAgpsInit] demo_off_hal = Some (tt, h) ∧ exec CStart h = Some (tt, h'').
Proof.
  destruct (program_never_faults demo_callbacks demo_off_hal) as (h & Hrun & Hall); [apply demo_fits; cbn; lia|done|done|done|].
  destruct (Hall h (rtc_refl _ _) CStart I) as [h'' Hstart]. by exists h, h''.
Defined.

Lemma fix_reaches_client_witness :
  let h := Hal (set_generateNmea false demo_engine) true true false 0 [] in
  ∃ h', exec_all [MPosition demo_report; TRound] h = Some (tt, h') ∧
    delivered h' = [F_location (Some demo_loc) None].
Proof.
  intros h. destruct (fix_reaches_client demo_report h) as (h' & Hrun & Hd); [by repeat split|done|].
  exists h'. split; [exact Hrun|]. rewrite Hd. rewrite decide_True; [done|].
  split; [done|]. split; [done|]. left. split; [done|]. right. by left.
Defined.

(** The type of the server is passed on without a value for other types. *)
Lemma set_server_type_unset h : loc_agps_set_server AGPS_TYPE_WIFI (str "h") 1 h = None.
Proof. done. Qed.

(** The target decides what the engine is told to support. *)
Definition standalone_files : LocHalEnv := {|
  file p := if bool_decide (p = str "/sys/devices/system/soc/soc0/hw_platform") then Some (str "Liquid" ++ [ascii_of_nat 10])
            else if bool_decide (p = str "/sys/devices/system/soc/soc0/id") then Some (str "109") else None;
  property_get k d := d; dlopen_ulp := false; dlsym_ulp := false; ulp_get_interface := false; open_gss := 3
|}.
Lemma standalone_target :
  get_target_name (Hfiles := standalone_files) = TARGET_NAME_APQ8064_STANDALONE ∧
  get_target_name (Hfiles := demo_files) = TARGET_NAME_OTHER.
Proof. split; vm_compute; reflexivity. Qed.
