(* ===== verification/DmnAgps.v ===== *)
(** * A connection for another process, from pipe to pipe

    A process that wants a data connection writes to the pipe of the server
    ([DmnConn]); the server posts to the engine ([LocEng]), whose machine
    ([Agps]) asks the framework; the framework's answer goes back through the
    engine to the machine, and from it over the pipe of the process.  Here
    the components are put together along that way. *)

From S2P Require Import Prelude LinkedList Agps DmnPipe DmnConn ThreadHelper DmnServer Nmea Ni EngMsg LocEng LocEngFacts LocEngAgps LocHal.
Local Open Scope Z_scope.

Section data.
Context `{EngEnv}.

(** The message the server posts, as the engine's queue holds it. *)
Definition to_engine (m : engine_msg) : loc_eng_msg :=
  match m with
  | DmnConn.loc_eng_msg_request_bit t v4 v6 => EngMsg.loc_eng_msg_request_bit t v4 (Some v6)
  | DmnConn.loc_eng_msg_release_bit t v4 v6 => EngMsg.loc_eng_msg_release_bit t v4 (Some v6)
  | DmnConn.loc_eng_msg_request_wifi t sender ssid pw =>
      EngMsg.loc_eng_msg_request_wifi t sender (Some ssid) (Some pw)
  | DmnConn.loc_eng_msg_release_wifi t sender ssid pw =>
      EngMsg.loc_eng_msg_release_wifi t sender (Some ssid) (Some pw)
  end.

(** Who asks for which connection: the process, the machine that serves it, and
    the address or the network it wants. *)
Definition asks (m : engine_msg) : option (Z * which_nif * Subscriber) :=
  match m with
  | DmnConn.loc_eng_msg_request_bit t v4 v6 =>
      w ← machine_of_interface t;
      Some (LOC_ENG_IF_REQUEST_SENDER_ID_GPSONE_DAEMON, w, new_BITSubscriber uninit v4 (Some (take 16 v6)))
  | DmnConn.loc_eng_msg_request_wifi _ sender ssid pw =>
      Some (sender, WIFI, new_WIFISubscriber (Some (strlcpy SSID_BUF_SIZE ssid)) (Some (strlcpy SSID_BUF_SIZE pw)) sender)
  | _ => None
  end.

(** The framework's answer: it calls [loc_agps_open] or [loc_agps_open_failed]
    of loc.cpp, which name the type [AGPS_TYPE_SUPL]; these post the message the
    engine then handles. *)
Definition framework_answer (granted : bool) (apn : list Z) : ST eng Z :=
  if granted then loc_eng_agps_open AGPS_TYPE_SUPL (Some apn) AGPS_APN_BEARER_IPV4
  else pure (loc_eng_agps_open_failed AGPS_TYPE_SUPL).

(** What the process is to be told. *)
Definition verdict (granted : bool) : Z :=
  if granted then GPSONE_LOC_API_IF_REQUEST_SUCCESS else GPSONE_LOC_API_IF_FAILURE.

(** The calls a machine of the engine has made. *)
Definition calls_of (w : which_nif) (s : eng) : option (list Agps.action) := (λ m, acts (env m)) <$> get_nif w s.

(** A machine at rest. *)
Definition idle (l : link) : Prop := Abs.state (l_machine l) = AgpsReleasedState ∧ Abs.subs (l_machine l) = [].

(** ** The machine *)

Lemma asks_subscriber em sender w sub :
  asks em = Some (sender, w, sub) → isInactive (clone sub) = false ∧
  ∀ c granted, status_actions c (clone sub) (if granted : bool then RSRC_GRANTED else RSRC_DENIED) =
    Some [DataConn sender (verdict granted)].
Proof.
  destruct em as [t v4 v6| |t se ssid pw|]; try done; cbn [asks].
  - destruct (machine_of_interface t); [|done]. intros [= <- <- <-]. split; [done|]. by intros c [].
  - intros [= <- <- <-]. split; [done|]. by intros c [].
Qed.

(** A request to a machine at rest. *)
Lemma request_idle l sub :
  idle l → isInactive (clone sub) = false →
  link_call (Subscribe sub) l = Link (l_cfg l) (l_single l)
    (Abs.SM AgpsPendingState [clone sub] (Abs.acts (l_machine l) ++
       [Servicer (nifRequest (getType (l_cfg l)) GPS_REQUEST_AGPS_DATA_CONN (Some (clone sub)))])).
Proof.
  intros [Hst Hsubs] Hin. destruct l as [c single [st subs acts]]. cbn in *. subst.
  unfold link_call. cbn [cfg_call abs_call l_cfg l_single l_machine]. f_equal. unfold Abs.subscribe.
  rewrite bool_decide_eq_true_2, andb_false_r by done. cbn [Abs.state]. unfold Abs.add. cbn [Abs.subs existsb].
  unfold Abs.request, Abs.active. cbn [Abs.subs]. rewrite filter_cons_True by done. cbn [head].
  rewrite bool_decide_eq_false_2 by done. done.
Qed.

(** The answer to a machine that waits for one subscriber. *)
Definition answer_call (granted : bool) : call := Event (if granted then RSRC_GRANTED else RSRC_DENIED).
Lemma answer_pending c single sub acts sender granted :
  isInactive sub = false →
  status_actions c sub (if granted : bool then RSRC_GRANTED else RSRC_DENIED) = Some [DataConn sender (verdict granted)] →
  Abs.acts (l_machine (link_call (answer_call granted) (Link c single (Abs.SM AgpsPendingState [sub] acts)))) =
    acts ++ [DataConn sender (verdict granted)].
Proof.
  intros Hin Hsa. unfold link_call, answer_call. cbn [abs_call l_machine l_cfg].
  destruct granted; unfold Abs.event; cbn [Abs.state]; unfold Abs.goto, Abs.notify, Abs.told; cbn [Abs.acts Abs.subs];
    cbn [fmap list_fmap concat Abs.is_for in_group]; rewrite ?Hin; cbn [negb]; rewrite Hsa; done.
Qed.

(** What the framework's answer posts: a message that reaches the machine of
    [AGPS_TYPE_SUPL] and no other. *)
Lemma answer_posts granted apn s x : agps_ready s = true → tracks s x →
  ∃ ans s', framework_answer granted apn s = Some (0, s') ∧ valid ans ∧
    deferred_q s' = deferred_q s ++ [ans] ∧ tracks s' x ∧ context s' = context s ∧ (ready s → ready s') ∧
    (∀ agps w, w ≠ AGNSS → route agps ans x w = x w) ∧
    ∀ agps, ∃ c single, Abs.acts (l_machine (route agps ans x AGNSS)) =
      Abs.acts (l_machine (link_call (answer_call granted) (Link c single (l_machine (x AGNSS))))).
Proof.
  intros Ha Hx. set (posts := λ ans, post ans s).
  assert (∀ ans, deferred_q (posts ans) = deferred_q s ++ [ans] ∧ tracks (posts ans) x ∧ context (posts ans) = context s ∧
    (valid ans → ready s → ready (posts ans))) as Hpost.
  { intros ans. split; [done|]. split; [intros w; specialize (Hx w); by destruct w|]. split; [done|].
    intros Hv [H1 H2 H3 H4]. split; [intros w; specialize (H1 w); by destruct w|done|done|].
    apply Forall_app. split; [done|by apply Forall_singleton]. }
  unfold framework_answer. destruct granted.
  - destruct (apn_len_bound apn) as [Hl H100]. set (text := take (Z.to_nat (apn_len apn)) apn ++ [0]).
    set (ans := Msg OEngine LOC_ENG_MSG_ATL_OPEN_SUCCESS (PAtlOpen (uint16 AGPS_TYPE_SUPL) text (apn_len apn) AGPS_APN_BEARER_IPV4)).
    assert (valid ans) as Hv.
    { split; [done|]. cbn. split; [done|]. unfold text. rewrite length_app, length_take. cbn. lia. }
    exists ans, (posts ans). destruct (Hpost ans) as (? & ? & ? & ?). split_and!; try done; [|by auto| |].
    + unfold loc_eng_agps_open. st_run. rewrite Ha. cbn [negb]. unfold st_read, loc_eng_msg_atl_open_success. st_run.
      rewrite copy_len_some by done. cbn [mbind option_bind]. by st_run.
    + intros agps w Hw. unfold route, ans. cbn [body]. unfold upd. by rewrite decide_False.
    + intros agps. eexists (cfg_call (SetAPN (Some text) _) (cfg_call (SetBearer _) (l_cfg (x AGNSS)))), (l_single (x AGNSS)).
      unfold route, ans. cbn [body]. unfold upd. by rewrite decide_True.
  - set (ans := loc_eng_msg_atl_open_failed AGPS_TYPE_SUPL).
    assert (valid ans) as Hv by (split; [done|]; by right).
    exists ans, (posts ans). destruct (Hpost ans) as (? & ? & ? & ?). split_and!; try done; [|by auto| |].
    + unfold pure, loc_eng_agps_open_failed. by rewrite Ha.
    + intros agps w Hw. unfold route, ans. cbn [body loc_eng_msg_atl_open_failed]. unfold upd. by rewrite decide_False.
    + intros agps. eexists (l_cfg (x AGNSS)), (l_single (x AGNSS)).
      unfold route, ans. cbn [body loc_eng_msg_atl_open_failed]. unfold upd. by rewrite decide_True.
Qed.

(** What the server posts is a message the engine accepts, and asks for the
    connection it names. *)
Lemma posts_request m em sender w sub :
  ctrl_message m → posts_of m = [em] → asks em = Some (sender, w, sub) →
  valid (to_engine em) ∧ ∀ agps x, route agps (to_engine em) x = upd w (link_call (Subscribe sub)) x.
Proof.
  intros (Hl & _) Hp Ha.
  assert (length (if_request_ipv6_addr m) = 16%nat) as H6.
  { unfold if_request_ipv6_addr, get_bytes. rewrite length_take, length_drop, Hl. done. }
  revert Hp. unfold posts_of, expected_posts.
  destruct ((0 <=? _) && _); [|done].
  destruct (Z.eqb_spec (if_request_sender_id m) 0) as [Hs0|Hs0]; [|destruct (Z.eqb_spec (if_request_sender_id m) 1) as [Hs1|Hs1]];
    cbn [orb]; [| |destruct (Z.eqb_spec (if_request_sender_id m) 2); [|done]];
    (destruct (ctrl_type m =? GPSONE_LOC_API_IF_REQUEST);
      [|destruct (ctrl_type m =? GPSONE_LOC_API_IF_RELEASE); [|done]]); intros [= <-]; try discriminate Ha.
  - rewrite Hs0 in *. injection Ha as <- <- <-. split; [|done]. split; [done|]. split; [by left|]. by split; vm_compute.
  - rewrite Hs1 in *. injection Ha as <- <- <-. split; [|done]. split; [done|]. split; [by left|]. by split; vm_compute.
  - cbn [asks] in Ha. destruct (machine_of_interface _) as [w'|] eqn:Hw; [|done]. injection Ha as <- <- <-.
    split.
    + split; [done|]. split; [by left|]. cbn [ok_sub new_BITSubscriber body to_engine EngMsg.loc_eng_msg_request_bit].
      split; [|cbn [fmap option_fmap option_map]; by rewrite !length_take, H6].
      rewrite !(swrap_id 32 (int32 _)) by first [done|apply (swrap_range 32); done]. done.
    + intros agps x. unfold route. cbn [body to_engine EngMsg.loc_eng_msg_request_bit]. by rewrite Hw.
Qed.
End data.

(** ** The way of a request *)

Section way.
Context `{Heng : EngEnv, Hker : Kernel}.
Hypothesis whole_read : reads_whole.
Hypothesis whole_write : ∀ n sz, 0 <= sz → k_write n sz = sz.

(** No message changes the callbacks. *)
Definition same_cb (s s' : eng) : Prop := cb s' = cb s.
#[local] Instance same_cb_walk : Walk same_cb (λ _, True).
Proof.
  split; [|done..]. split; [done|]. intros s1 s2 s3 H1 H2. unfold same_cb in *. congruence.
Qed.
Lemma same_cb_status st s : same_cb s (loc_eng_report_status st s).
Proof. unfold loc_eng_report_status, loc_inform_gps_status. cbn zeta. repeat break_if; done. Qed.
Lemma same_cb_handle msg : moves same_cb (handle_msg msg).
Proof.
  apply (walk_handle same_cb (λ _, True)); [|apply same_cb_status| |split; intros; done|done].
  - intros w m s. by destruct w.
  - split; intros; try done; try apply same_cb_status.
    + unfold request_ni. cbn zeta. by break_if.
    + by apply (walk_report_position same_cb (λ _, True)).
    + by apply (walk_report_sv same_cb (λ _, True)).
    + unfold loc_eng_handle_engine_down, ni_reset. etrans; [|apply same_cb_status]. done.
Qed.

(** A round of the engine on one message. *)
Lemma engine_round msg s x :
  fits r_zero → ready s → context s = true → valid msg → tracks s x →
  ∃ b s', handle_msg msg s = Some (b, s') ∧ ready s' ∧ context s' = true ∧ cb s' = cb s ∧
    tracks s' (route (agps_status_cb (cb s)) msg x).
Proof.
  intros Hz Hs Hc Hv Hx. destruct (handle_tracks msg s x Hz Hs Hc Hv Hx) as (b & s' & Hrun & Hx').
  exists b, s'. split; [done|]. destruct (safe_handle msg Hz Hv s Hs) as (b2 & s2 & Hrun2 & Hs2). simplify_eq.
  pose proof (same_cb_handle msg _ _ _ Hrun) as Hcb.
  pose proof (proj1 (proj1 (grows_handle msg _ _ _ Hrun))) as Hc'.
  split; [done|]. split; [by rewrite Hc'|]. by split.
Qed.

Lemma calls_tracked w s x : tracks s x → calls_of w s = Some (Abs.acts (l_machine (x w))).
Proof.
  intros Hx. destruct (Hx w) as (m & Hm & (_ & _ & (_ & _ & Ha) & _)). unfold calls_of. rewrite Hm. cbn. by rewrite Ha.
Qed.

(** C16: A process that asks the server for the connection to the location server
    gets its answer: a request that reaches the server while the machine of
    [AGPS_TYPE_SUPL] is at rest is posted to the engine; handling it asks the
    framework for the connection, with the address the process named; the
    framework's call of [loc_agps_open] or [loc_agps_open_failed], which are for
    that type, posts a message; handling it tells exactly that process; and the
    message it then reads from its pipe says which. *)
Theorem connection_answered d h mem m rest em sender sub s x granted apn stack client :
  server_pipe d = Some (m ++ rest) → loc_api_handle d = Some h →
  length mem = (sizeof_ctrl_msgbuf + 256)%nat → ctrl_message m →
  posts_of m = [em] → asks em = Some (sender, AGNSS, sub) →
  fits r_zero → ready s → agps_ready s = true → tracks s x → idle (x AGNSS) →
  length stack = sizeof_ctrl_msgbuf → length client = sizeof_ctrl_msgbuf →
  ∃ d1, loc_api_server_proc (Some mem) d = Some (0, d1) ∧ posted d1 = posted d ++ [(h, em)] ∧
  ∃ b1 s1, handle_msg (to_engine em) s = Some (b1, s1) ∧
    ∃ calls ty, calls_of AGNSS s = Some calls ∧
      let asked := calls ++ [Servicer (nifRequest ty GPS_REQUEST_AGPS_DATA_CONN (Some (clone sub)))] in
      calls_of AGNSS s1 = Some asked ∧
  ∃ ans s2, framework_answer granted apn s1 = Some (0, s2) ∧ deferred_q s2 = deferred_q s1 ++ [ans] ∧
  ∃ b3 s3, handle_msg ans s2 = Some (b3, s3) ∧
    calls_of AGNSS s3 = Some (asked ++ [DataConn sender (verdict granted)]) ∧
  ∀ fd, answer_fd d1 sender = Some fd → pipes (d_os d1) !! fd = Some [] →
    ∃ d2 buf o, loc_eng_dmn_conn_loc_api_server_data_conn stack sender (verdict granted) d1 = Some (0, d2) ∧
      loc_eng_dmn_conn_glue_msgrcv fd client (Z.of_nat (length client)) (d_os d2) =
        Some ((Z.of_nat sizeof_ctrl_msgbuf, buf), o) ∧
      ctrl_type buf = GPSONE_LOC_API_RESPONSE ∧ response_result buf = verdict granted.
Proof.
  intros Hq Hh Hmem Hm Hpo Ha Hz Hs Hready Hx Hidle Hst Hcl. destruct (andb_prop _ _ Hready) as [Hc Hcb].
  destruct (proc_run whole_read d h mem m rest Hq Hh Hmem Hm) as (o & Hrun & _). rewrite Hpo in Hrun.
  eexists. split; [exact Hrun|]. split; [done|]. set (d1 := with_posted _ _).
  destruct (posts_request m em sender AGNSS sub Hm Hpo Ha) as [Hv Hroute].
  destruct (asks_subscriber em sender AGNSS sub Ha) as [Hin Hsa].
  destruct (engine_round (to_engine em) s x Hz Hs Hc Hv Hx) as (b1 & s1 & Hrun1 & Hs1 & Hc1 & Hcb1 & Hx1).
  rewrite Hroute in Hx1. exists b1, s1. split; [exact Hrun1|].
  exists (Abs.acts (l_machine (x AGNSS))), (getType (l_cfg (x AGNSS))). split; [by apply calls_tracked|]. cbn zeta.
  set (x1 := upd AGNSS _ x) in *.
  assert (x1 AGNSS = link_call (Subscribe sub) (x AGNSS)) as Hw by (unfold x1, upd; by rewrite decide_True).
  rewrite (request_idle _ _ Hidle Hin) in Hw. split; [rewrite (calls_tracked _ _ _ Hx1), Hw; done|].
  destruct (answer_posts granted apn s1 x1) as (ans & s2 & Hans & Hva & Hd & Hx2 & Hc2 & Hs2 & _ & Hacts);
    [unfold agps_ready; by rewrite Hc1, Hcb1|done|].
  exists ans, s2. split; [done|]. split; [done|].
  destruct (engine_round ans s2 x1 Hz (Hs2 Hs1)) as (b3 & s3 & Hrun3 & _ & _ & _ & Hx3); [by rewrite Hc2|done..|].
  exists b3, s3. split; [exact Hrun3|]. split.
  - destruct (Hacts (agps_status_cb (cb s2))) as (c & single & Ea).
    rewrite (calls_tracked _ _ _ Hx3), Ea, Hw. cbn [l_machine]. by rewrite (answer_pending _ _ _ _ _ _ Hin (Hsa c granted)).
  - intros fd Hfd Hpipe.
    pose proof (data_conn_delivered whole_read whole_write d1 stack sender (verdict granted) client Hst Hcl) as Hd'.
    rewrite Hfd in Hd'. destruct (Hd' Hpipe) as (d2 & buf & o2 & Hr1 & Hr2 & Ht & Hres & _).
    exists d2, buf, o2. split; [done|]. split; [done|]. split; [done|]. rewrite Hres. by destruct granted.
Qed.

(** The machines of the other types never hear from the framework: none of its
    answers reaches them, so that a request for a network or for any connection
    stays pending. *)
Lemma other_requests_unanswered granted apn s x w : fits r_zero → ready s → agps_ready s = true → tracks s x →
  w ≠ AGNSS → ∃ ans s' b s'', framework_answer granted apn s = Some (0, s') ∧ handle_msg ans s' = Some (b, s'') ∧
    calls_of w s'' = calls_of w s.
Proof.
  intros Hz Hs Hready Hx Hw. destruct (andb_prop _ _ Hready) as [Hc _].
  destruct (answer_posts granted apn s x Hready Hx) as (ans & s' & Hans & Hva & _ & Hx' & Hc' & Hs' & Hother & _).
  destruct (engine_round ans s' x Hz (Hs' Hs)) as (b & s'' & Hrun & _ & _ & _ & Hx''); [by rewrite Hc'|done..|].
  exists ans, s', b, s''. split; [done|]. split; [done|]. by rewrite (calls_tracked _ _ _ Hx''), (calls_tracked _ _ _ Hx), Hother.
Qed.
End way.

(** ** A concrete request *)

#[local] Existing Instance demo_nmea.
#[local] Existing Instance LocEngFacts.demo_env.

(** The daemon asks for the connection to the location server, which the
    framework grants. *)
Definition demo_request : list (list Z) :=
  if_request_fields GPSONE_LOC_API_IF_REQUEST LOC_ENG_IF_REQUEST_TYPE_SUPL LOC_ENG_IF_REQUEST_SENDER_ID_GPSONE_DAEMON 7
    (replicate 8 170) (replicate 3 170) (replicate 16 9) (replicate 33 0) (replicate 33 0) (replicate 2 170).
Definition demo_message : list Z := concat demo_request.
Definition demo_posted : engine_msg := DmnConn.loc_eng_msg_request_bit LOC_ENG_IF_REQUEST_TYPE_SUPL 7 (replicate 16 9).
Definition demo_subscriber : Subscriber := new_BITSubscriber uninit 7 (Some (replicate 16 9)).
(** A server whose pipe to the daemon has the descriptor 5. *)
Definition demo_server : dmn :=
  Dmn (OS {[3 := demo_message; 5 := []]} 0 []) (Some 8%positive) 3 5 4 6
    GPSONE_LOC_API_Q_PATH GPSONE_LOC_API_RESP_Q_PATH [].

Lemma demo_tracks : tracks demo_engine demo_links.
Proof. intros []; (eexists; split; [reflexivity|apply linked_new]). Qed.

Lemma connection_answered_witness :
  ∃ d1, loc_api_server_proc (Some (replicate 368 170)) demo_server = Some (0, d1) ∧
  ∃ b1 s1, handle_msg (to_engine demo_posted) demo_engine = Some (b1, s1) ∧
  ∃ ans s2, framework_answer true [97; 112; 110] s1 = Some (0, s2) ∧
  ∃ b3 s3 ty, handle_msg ans s2 = Some (b3, s3) ∧
    calls_of AGNSS s3 = Some [Servicer (nifRequest ty GPS_REQUEST_AGPS_DATA_CONN (Some demo_subscriber)); DataConn 2 240] ∧
  ∃ d2 buf o, loc_eng_dmn_conn_loc_api_server_data_conn (replicate 112 170) 2 240 d1 = Some (0, d2) ∧
    loc_eng_dmn_conn_glue_msgrcv 5 (replicate 112 0) 112 (d_os d2) = Some ((112, buf), o) ∧ response_result buf = 240.
Proof.
  destruct (connection_answered (Hker := demo_kernel) (λ _ _ _ _ _, eq_refl) (λ _ _ _, eq_refl)
    demo_server 8 (replicate 368 170) demo_message [] demo_posted 2 demo_subscriber demo_engine
    demo_links true [97; 112; 110] (replicate 112 170) (replicate 112 0))
    as (d1 & Hrun & _ & b1 & s1 & Hrun1 & calls & ty & Hcalls & _ & ans & s2 & Hans & _ & b3 & s3 & Hrun3 & Hcalls3 & Hanswer);
    try reflexivity; [by_compute|apply demo_fits; cbn; lia|apply demo_ready|apply demo_tracks|by split|].
  exists d1. split; [exact Hrun|]. exists b1, s1. split; [exact Hrun1|]. exists ans, s2. split; [exact Hans|].
  exists b3, s3, ty. split; [exact Hrun3|].
  assert (calls = []) as -> by (vm_compute in Hcalls; congruence). split; [exact Hcalls3|].
  assert (pipes (d_os d1) !! 5 = Some [] ∧ loc_api_resp_msgqid d1 = 5) as [Hp Hfd].
  { assert ((λ '(_, d), (pipes (d_os d) !! 5, loc_api_resp_msgqid d)) <$>
      loc_api_server_proc (Some (replicate 368 170)) demo_server = Some (Some [], 5)) as Hc by by vm_compute.
    rewrite Hrun in Hc. by injection Hc. }
  destruct (Hanswer 5) as (d2 & buf & o & H1 & H2 & _ & H3); [cbn; by rewrite Hfd|exact Hp|].
  exists d2, buf, o. split; [exact H1|]. split; [exact H2|exact H3].
Defined.
