(* ===== verification/EngService.v ===== *)
(** * The location service: the context and the program together

    [LocHal] runs the engine with a queue of its own and lets the thread take a
    round at any time; [EngCtx] has the context with its queue, its reference
    count and its thread, but no engine.  Here both run as in the code: loc_init
    asks for the context, the engine posts through [loc_eng_msg_sender] to the
    context's queue, the thread of the context hands what it receives to the
    engine, and when no adapter of the modem can be made loc_init drops the
    context, which waits for the thread to end.

    The framework makes a call after the one before has returned; rounds of the
    thread, the modem and the steps of [Ni] come in between.  A post may be refused
    the memory for its node: the message is lost, and what is proved of runs in
    which none was says so.  [pthread_cond_wait] may return without a signal; the
    theorems are about what happens until it does. *)

From Stdlib Require Import String Ascii.
From S2P Require Import Prelude Agps Nmea Ni EngMsg EngCtx LocEng LocEngFacts LocHal.
Local Open Scope Z_scope.

(** The one [loc_eng_data] of the program, as a client of the context. *)
Definition loc_afw_client : nat := 0.

Section service.
Context `{Heng : EngEnv, Hfiles : LocHalEnv} (past_context : nat → option bool).

Record service := Service { ctx : EngCtx.world; prog : hal }.
Abbreviation SVM := (ST service).
Definition data (s : service) : eng := loc_afw_data (prog s).
Definition set_data (f : eng → eng) (s : service) : service := Service (ctx s) (set_eng (f (data s)) (prog s)).

(** ** Operations *)

Definition on_ctx {A} (m : ST EngCtx.world A) : SVM A := λ s,
  match m (ctx s) with Some (a, w) => Some (a, Service w (prog s)) | None => None end.

(** [mem]: for each message whether there is memory for its node, [true] where the
    list ends. *)
Fixpoint send_all (send : bool → loc_eng_msg → ST EngCtx.world unit) (mem : list bool) (l : list loc_eng_msg) :
    ST EngCtx.world unit :=
  match l with [] => mret tt | m :: l => _ ← send (hd true mem) m; send_all send (tl mem) l end.
Fixpoint accepted (mem : list bool) (l : list loc_eng_msg) : list loc_eng_msg :=
  match l with [] => [] | m :: l => (if hd true mem then [m] else []) ++ accepted (tl mem) l end.

(** A function of the program: what the engine posts goes to the queues of its
    context, and what that refuses is in no queue. *)
Definition on_prog {A} (mem : list bool) (m : ST hal A) : SVM A := λ s,
  match m (prog s) with
  | None => None
  | Some (a, h) =>
      let new := drop (length (deferred_q (data s))) (deferred_q (loc_afw_data h)) in
      (_ ← on_ctx (send_all (EngCtx.loc_eng_msg_sender loc_afw_client) mem new);
       _ ← on_ctx (send_all (EngCtx.loc_ulp_msg_sender loc_afw_client) (drop (length new) mem)
                    (drop (length (ulp_q (data s))) (ulp_q (loc_afw_data h))));
       _ ← st_modify (set_data (set_deferred_q (deferred_q (data s) ++ accepted mem new)));
       mret a) (Service (ctx s) h)
  end.

(** [loc_init] up to the adapter; its end; and what is left of it when there is no
    adapter and the context has been dropped. *)
Definition loc_init_begin (callbacks : GpsCallbacks) : ST hal unit :=
  let clientCallbacks := Callbacks true (g_status_cb callbacks) true (g_nmea_cb callbacks)
                           (g_request_utc_time_cb callbacks) false false false false in
  _ ← st_modify (set_callbacks (g_location_cb callbacks) (g_sv_status_cb callbacks));
  on_engine (st_modify (loc_eng_init_data clientCallbacks (g_set_capabilities_cb callbacks) loc_events)).
Definition loc_init_end : ST hal unit :=
  inf ← st_get loc_eng_ulp_inf;
  ignore (on_engine (pure (loc_eng_ulp_init inf))).
Definition loc_init_failed : ST hal unit :=
  _ ← on_engine (st_modify (set_context false));
  loc_init_end.

(** [ok1], [ok2]: the queues can be made; [okq]: there is memory for the message
    that ends the thread. *)
Definition service_init (callbacks : GpsCallbacks) (adapter ok1 ok2 okq : bool) (mem : list bool) : SVM unit :=
  started ← st_get (λ s, context (data s));
  if started : bool then on_prog mem (ignore (loc_init callbacks adapter))
  else
    _ ← on_ctx (EngCtx.client_get loc_afw_client ok1 ok2);
    if adapter then on_prog mem (ignore (loc_init callbacks true))
    else
      _ ← on_prog mem (loc_init_begin callbacks);
      c ← st_read (λ s, EngCtx.engine_context loc_afw_client (ctx s));
      _ ← on_ctx (EngCtx.client_drop loc_afw_client c okq);
      waits ← st_get (λ s, EngCtx.clients (ctx s) !! loc_afw_client);
      match waits with
      | Some _ => mret tt                      (* in [pthread_cond_wait] *)
      | None => on_prog mem loc_init_failed
      end.
Definition service_init_ends (c : nat) : SVM unit :=
  _ ← on_ctx (EngCtx.client_wake loc_afw_client c); on_prog [] loc_init_failed.

(** A round of the thread of the context [c]: the message it receives leaves the
    queue and goes through the switch. *)
Definition service_round (pick c : nat) (mem : list bool) : SVM unit :=
  before ← st_get (λ s, length (EngCtx.handled (ctx s)));
  _ ← on_ctx (EngCtx.thread_round past_context pick c);
  received ← st_get (λ s, drop before (EngCtx.handled (ctx s)));
  match received with
  | [] => mret tt
  | m :: _ =>
      _ ← st_modify (set_data (λ s, set_deferred_q (drop 1 (deferred_q s)) s));
      go_on ← on_prog mem (on_engine (handle_msg (e_msg m)));
      if go_on : bool then mret tt else on_ctx (EngCtx.end_thread c)
  end.

(** ** Steps *)

Inductive sevent :=
| SInit (callbacks : GpsCallbacks) (adapter ok1 ok2 okq : bool) (mem : list bool)
| SInitEnds (c : nat)                          (* signalled or not *)
| SCall (e : LocHal.event) (mem : list bool)
| SThread (pick c : nat) (mem : list bool).

Definition sexec (e : sevent) : SVM unit :=
  match e with
  | SInit callbacks adapter ok1 ok2 okq mem => service_init callbacks adapter ok1 ok2 okq mem
  | SInitEnds c => service_init_ends c
  | SCall e mem => on_prog mem (LocHal.exec e)
  | SThread pick c mem => service_round pick c mem
  end.

(** loc_init is called when nothing is set up or everything is, the other
    functions after it and the initialisation of the data connections; the
    queues exist; arguments are as in [LocHal]. *)
Definition has_context (s : service) : Prop := ∃ c, EngCtx.clients (ctx s) !! loc_afw_client = Some (In c).
Definition is_init (e : LocHal.event) : Prop := match e with CInit _ _ => True | _ => False end.
Definition senabled (e : sevent) (s : service) : Prop :=
  match e with
  | SInit callbacks _ ok1 _ _ _ =>
      ok1 = true ∧ g_nmea_cb callbacks = true ∧
      (EngCtx.clients (ctx s) !! loc_afw_client = None ∨ has_context s ∧ agps_status_cb (cb (data s)) = true)
  | SInitEnds c => EngCtx.enabled (EngCtx.EWake loc_afw_client c) (ctx s)
  | SCall e _ =>
      has_context s ∧ (e = CAgpsInit ∨ agps_status_cb (cb (data s)) = true) ∧
      permitted (prog s) e ∧ ¬ is_init e ∧ ¬ is_round e
  | SThread pick c _ => EngCtx.enabled (EngCtx.EThread pick c) (ctx s)
  end.
(** The thread can read behind the context, if that is what it comes to. *)
Definition sreads (e : sevent) (s : service) : Prop :=
  match e with SThread pick c _ => EngCtx.can_read past_context (EngCtx.EThread pick c) (ctx s) | _ => True end.
(** No wait has ended without a signal so far. *)
Definition calm (s : service) : Prop := EngCtx.spurious (ctx s) = false.
(** No message has been lost so far. *)
Definition lossless (s : service) : Prop := EngCtx.refused (ctx s) = [].
Definition sstep (s s' : service) : Prop := ∃ e, senabled e s ∧ sexec e s = Some (tt, s').
Definition sthread_step (s s' : service) : Prop :=
  ∃ pick c mem, senabled (SThread pick c mem) s ∧ sexec (SThread pick c mem) s = Some (tt, s').

(** The memory of the program before the first call. *)
Definition boots (s : service) : Prop :=
  ctx s = EngCtx.nothing ∧ context (data s) = false ∧ deferred_q (data s) = [] ∧ ulp_q (data s) = [].
End service.

(** ** Lemmas *)

Section facts.
Context `{Heng : EngEnv, Hfiles : LocHalEnv} (past_context : nat → option bool).
Abbreviation inv := (EngCtx.inv past_context).
Abbreviation client_of w := (EngCtx.clients w !! loc_afw_client).

(** *** What is posted arrives *)

(** What the thread of the context takes for a message of the engine. *)
Definition sendable (m : loc_eng_msg) : Prop := owner m = OEngine ∧ msgid m ≠ LOC_ENG_MSG_QUIT.
Lemma valid_sendable m : valid m → sendable m.
Proof.
  intros [Ho Hb]. split; [done|]. destruct m as [o i []]; cbn in *; intros ->; try done.
  all: revert Hb; rewrite ?elem_of_cons, ?elem_of_nil.
  all: clear; intuition done.
Qed.

Lemma send_all_ok l mem w c : inv w → client_of w = Some (In c) → Forall sendable l →
  ∃ w' lost, send_all (EngCtx.loc_eng_msg_sender loc_afw_client) mem l w = Some (tt, w') ∧ inv w' ∧
    EngCtx.clients w' = EngCtx.clients w ∧
    EngCtx.queue c w' = EngCtx.queue c w ++ (Entry loc_afw_client <$> accepted mem l) ∧
    EngCtx.handled w' = EngCtx.handled w ∧ EngCtx.refused w' = EngCtx.refused w ++ lost ∧
    (lost = [] → accepted mem l = l) ∧ (mem = [] → lost = []).
Proof.
  revert w mem. induction l as [|m l IH]; intros w mem Hi Hc Hl.
  { exists w, []. by rewrite !app_nil_r. }
  apply Forall_cons in Hl as [[Ho Hid] Hl].
  destruct (EngCtx.send_ok _ w _ c (hd true mem) m Hi Hc Ho Hid) as (w1 & E & Hi1 & Hc1 & Hq1 & Hh1 & Hr1).
  destruct (IH w1 (tl mem)) as (w2 & lost & E2 & Hi2 & Hc2 & Hq2 & Hh2 & Hr2 & Ha & Hm); [done|by rewrite Hc1|done|].
  exists w2, ((if hd true mem then [] else [Entry loc_afw_client m]) ++ lost).
  cbn [send_all accepted]. st_step E. rewrite E2. split_and!; [done|done|congruence| |congruence| | |].
  - rewrite Hq2, Hq1, fmap_app, <- (assoc_L (++)). by destruct (hd true mem).
  - by rewrite Hr2, Hr1, <- (assoc_L (++)).
  - intros [Hn Hn']%app_nil. rewrite (Ha Hn'). by destruct (hd true mem).
  - intros ->. by apply Hm.
Qed.
Lemma send_all_ulp_ok l mem w c : inv w → client_of w = Some (In c) →
  ∃ w', send_all (EngCtx.loc_ulp_msg_sender loc_afw_client) mem l w = Some (tt, w') ∧ inv w' ∧
    EngCtx.clients w' = EngCtx.clients w ∧ EngCtx.queue c w' = EngCtx.queue c w ∧
    EngCtx.handled w' = EngCtx.handled w ∧ EngCtx.refused w' = EngCtx.refused w.
Proof.
  revert w mem. induction l as [|m l IH]; intros w mem Hi Hc; [by exists w|].
  destruct (EngCtx.send_ulp_ok _ w _ c (hd true mem) m Hi Hc) as (w1 & E & Hi1 & Hc1 & Hq1 & Hh1 & Hr1).
  destruct (IH w1 (tl mem)) as (w2 & E2 & Hi2 & Hc2 & Hq2 & Hh2 & Hr2); [done|by rewrite Hc1|].
  exists w2. cbn [send_all]. st_step E. rewrite E2. split_and!; congruence.
Qed.
Lemma accepted_sublist mem l : sublist (accepted mem l) l.
Proof.
  revert mem. induction l as [|m l IH]; intros mem; cbn [accepted]; [constructor|].
  destruct (hd true mem); cbn [app]; constructor; apply IH.
Qed.

(** The queue of the context holds what the engine has posted. *)
Definition coupled (c : nat) (s : service) : Prop := deferred_q (data s) = e_msg <$> EngCtx.queue c (ctx s).
(** The program with another queue. *)
Definition with_queue (q : list loc_eng_msg) (h : hal) : hal := set_eng (set_deferred_q q (loc_afw_data h)) h.
Lemma with_queue_same h : with_queue (deferred_q (loc_afw_data h)) h = h.
Proof. unfold with_queue. by destruct h as [[] ? ? ? ?]. Qed.

(** What a function of the program posts reaches the context; if nothing was lost the
    program is as the function left it. *)
Lemma on_prog_run {A} mem (m : ST hal A) s a h c :
  m (prog s) = Some (a, h) → inv (ctx s) → client_of (ctx s) = Some (In c) → coupled c s →
  Forall sendable (deferred_q (loc_afw_data h)) →
  (∃ l, deferred_q (loc_afw_data h) = deferred_q (data s) ++ l) → (∃ u, ulp_q (loc_afw_data h) = ulp_q (data s) ++ u) →
  ∃ s' q lost, on_prog mem m s = Some (a, s') ∧ prog s' = with_queue q h ∧ sublist q (deferred_q (loc_afw_data h)) ∧
    inv (ctx s') ∧ coupled c s' ∧
    EngCtx.clients (ctx s') = EngCtx.clients (ctx s) ∧ EngCtx.handled (ctx s') = EngCtx.handled (ctx s) ∧
    EngCtx.refused (ctx s') = EngCtx.refused (ctx s) ++ lost ∧ (lost = [] → prog s' = h) ∧ (mem = [] → lost = []) ∧
    ∃ new, EngCtx.queue c (ctx s') = EngCtx.queue c (ctx s) ++ new.
Proof.
  intros E Hi Hc Hq Hs [l Hl] [u Hu]. unfold on_prog. rewrite E, Hl, Hu, !drop_app_length. cbn zeta.
  rewrite Hl in Hs. apply Forall_app in Hs as [_ Hs].
  destruct (send_all_ok l mem (ctx s) c Hi Hc Hs) as (w1 & lost & E1 & Hi1 & Hc1 & Hq1 & Hh1 & Hr1 & Ha & Hm).
  destruct (send_all_ulp_ok u (drop (length l) mem) w1 c Hi1) as (w2 & E2 & Hi2 & Hc2 & Hq2 & Hh2 & Hr2); [by rewrite Hc1|].
  set (q := deferred_q (data s) ++ accepted mem l).
  exists (Service w2 (with_queue q h)), q, lost.
  unfold on_ctx. st_run. cbn [ctx prog]. rewrite E1. st_run. cbn [ctx prog]. rewrite E2. st_run.
  split_and!; [done|done|by apply sublist_app, accepted_sublist|done| |cbn; congruence|cbn; congruence|cbn; congruence| |done|].
  - unfold coupled, data. cbn [ctx prog]. cbn [with_queue loc_afw_data set_eng deferred_q set_deferred_q]. unfold q.
    rewrite Hq2, Hq1, fmap_app, Hq. f_equal. rewrite <- list_fmap_compose. symmetry. apply list_fmap_id.
  - intros Hn. cbn [prog]. unfold q. rewrite (Ha Hn), <- Hl. apply with_queue_same.
  - exists (Entry loc_afw_client <$> accepted mem l). cbn [ctx]. congruence.
Qed.
Lemma on_prog_quiet {A} mem (m : ST hal A) s a h :
  m (prog s) = Some (a, h) → deferred_q (loc_afw_data h) = deferred_q (data s) → ulp_q (loc_afw_data h) = ulp_q (data s) →
  on_prog mem m s = Some (a, Service (ctx s) h).
Proof.
  intros E Hd Hu. unfold on_prog. rewrite E, Hd, Hu, !drop_all. cbn [accepted send_all]. rewrite app_nil_r, <- Hd.
  unfold on_ctx. st_run. unfold set_data, data. cbn [prog ctx].
  by rewrite (with_queue_same h : set_eng _ _ = _).
Qed.

(** *** The functions of the program and the queues *)

Lemma grows_on_engine {A} (m : ST eng A) h a h' :
  moves grows m → on_engine m h = Some (a, h') → grows (loc_afw_data h) (loc_afw_data h').
Proof.
  unfold on_engine. intros Hm. destruct (m (loc_afw_data h)) as [[b e]|] eqn:Hrun; [|done].
  intros [= _ <-]. by apply (Hm _ b).
Qed.

Lemma grows_cleanup s : grows s (loc_eng_cleanup s).
Proof.
  unfold loc_eng_cleanup, loc_eng_stop. repeat break_if; cbn [snd]; try reflexivity; [apply grows_post_ulp|apply grows_post].
Qed.

Lemma grows_call e h h' : ¬ is_init e → ¬ is_round e → LocHal.exec e h = Some (tt, h') →
  grows (loc_afw_data h) (loc_afw_data h').
Proof.
  intros Hi Hr E. destruct (keeps_callbacks e) eqn:Hk.
  - apply (adds_exec e Hk) in E as [_ Hg]; [done|]. by intros ->.
  - assert (∃ between, e = CCleanup between) as [between ->] by (destruct e; try done; by eexists).
    revert E. cbn [LocHal.exec]. unfold loc_cleanup. rewrite st_bind_run.
    destruct (on_engine _ h) as [[u h1]|] eqn:E1; [|done]. st_run. destruct between; [done|]. intros [= <-].
    apply grows_on_engine in E1; [exact E1|]. apply moves_modify, grows_cleanup.
Qed.

(** Functions that do not fail, by what they add to the trace. *)
Lemma on_engine_pure_run {A} (f : eng → A * eng) a e l h :
  f (loc_afw_data h) = (a, e) → trace e = trace (loc_afw_data h) ++ l →
  on_engine (pure f) h = Some (a, deliver l (set_eng e h)).
Proof. intros E Ht. unfold on_engine, pure. by rewrite E, Ht, drop_app_length. Qed.
Lemma on_engine_modify_run (f : eng → eng) l h : trace (f (loc_afw_data h)) = trace (loc_afw_data h) ++ l →
  on_engine (st_modify f) h = Some (tt, deliver l (set_eng (f (loc_afw_data h)) h)).
Proof. intros Ht. unfold on_engine, st_modify. by rewrite Ht, drop_app_length. Qed.
Lemma deliver_nil h : deliver [] h = h.
Proof. unfold deliver. cbn [omap list_omap]. rewrite app_nil_r. by destruct h. Qed.

Lemma set_context_deliver b l e h :
  set_eng (set_context b (loc_afw_data (deliver l (set_eng e h)))) (deliver l (set_eng e h)) =
  deliver l (set_eng (set_context b e) h).
Proof. reflexivity. Qed.

Lemma trace_init_data c caps event s : ∃ l, trace (loc_eng_init_data c caps event s) = trace s ++ l.
Proof.
  unfold loc_eng_init_data. cbn zeta.
  destruct caps; (eexists; cbn; rewrite <- ?(assoc_L (++)); reflexivity).
Qed.

(** The pieces of loc_init make it up when there is no adapter. *)
Lemma loc_init_without_adapter callbacks h : context (loc_afw_data h) = false →
  LocHal.exec (CInit callbacks false) h = (_ ← loc_init_begin callbacks; loc_init_failed) h.
Proof.
  intros Hc. cbn [LocHal.exec]. unfold ignore, loc_init, loc_init_begin, loc_init_failed, loc_init_end. st_run.
  set (h0 := set_callbacks _ _ h). set (c := Callbacks _ _ _ _ _ _ _ _ _).
  change (context (loc_afw_data h0) = false) in Hc.
  destruct (trace_init_data c (g_set_capabilities_cb callbacks) loc_events (loc_afw_data h0)) as [l Hl].
  set (s1 := loc_eng_init_data _ _ _ _) in Hl.
  rewrite (on_engine_pure_run _ (-1) (set_context false s1) l);
    [|unfold loc_eng_init; change (loc_events =? 0) with false; by rewrite Hc|done].
  rewrite (on_engine_modify_run _ l) by done. st_run.
  rewrite (on_engine_modify_run _ []) by (cbn; by rewrite app_nil_r). st_run. rewrite deliver_nil.
  rewrite set_context_deliver. fold s1. clearbody s1. unfold ignore. st_run. by destruct (on_engine _ _) as [[]|].
Qed.

Lemma loc_init_begin_run callbacks h :
  ∃ h', loc_init_begin callbacks h = Some (tt, h') ∧
    deferred_q (loc_afw_data h') = deferred_q (loc_afw_data h) ∧ ulp_q (loc_afw_data h') = ulp_q (loc_afw_data h).
Proof.
  unfold loc_init_begin. st_run. set (h0 := set_callbacks _ _ h). set (c := Callbacks _ _ _ _ _ _ _ _ _).
  destruct (trace_init_data c (g_set_capabilities_cb callbacks) loc_events (loc_afw_data h0)) as [l Hl].
  rewrite (on_engine_modify_run _ l) by done. eexists. split; [done|].
  unfold loc_eng_init_data. cbn zeta. by destruct (g_set_capabilities_cb callbacks).
Qed.
Lemma loc_init_failed_run h :
  ∃ h', loc_init_failed h = Some (tt, h') ∧ context (loc_afw_data h') = false ∧
    deferred_q (loc_afw_data h') = deferred_q (loc_afw_data h) ∧ ulp_q (loc_afw_data h') = ulp_q (loc_afw_data h).
Proof.
  unfold loc_init_failed, loc_init_end, ignore. st_run.
  rewrite (on_engine_modify_run _ []) by (cbn; by rewrite app_nil_r). st_run. rewrite deliver_nil.
  set (f := loc_eng_ulp_init _). set (h1 := set_eng _ h).
  assert (∃ e, f (loc_afw_data h1) = (0, e) ∧ trace e = trace (loc_afw_data h1) ++ [] ∧ context e = false ∧
    deferred_q e = deferred_q (loc_afw_data h) ∧ ulp_q e = ulp_q (loc_afw_data h)) as (e & E & Ht & He).
  { unfold f, loc_eng_ulp_init. destruct (loc_eng_ulp_inf _);
    (eexists; split; [reflexivity|]); by rewrite app_nil_r. }
  rewrite (on_engine_pure_run f 0 e [] h1 E Ht). st_run. by eexists.
Qed.

(** With the context there, loc_init leaves the engine as it is. *)
Lemma loc_init_again callbacks adapter h h' : context (loc_afw_data h) = true →
  LocHal.exec (CInit callbacks adapter) h = Some (tt, h') → grows (loc_afw_data h) (loc_afw_data h').
Proof.
  intros Hc. cbn [LocHal.exec]. unfold ignore, loc_init. st_run. set (h0 := set_callbacks _ _ h).
  change (context (loc_afw_data h0) = true) in Hc.
  rewrite (on_engine_pure_run _ 0 (loc_afw_data h0) []);
    [|unfold loc_eng_init; change (loc_events =? 0) with false; by rewrite Hc|by rewrite app_nil_r].
  rewrite deliver_nil. st_run. set (inf := loc_eng_ulp_inf _).
  destruct (on_engine _ _) as [[a h1]|] eqn:E; [|done]. st_run. intros [= <-].
  eapply grows_on_engine in E; [exact E|]. apply grows_pure. intros s. unfold loc_eng_ulp_init. cbn [snd].
  destruct inf; [by apply grows_same|done].
Qed.

(** loc_init with an adapter: what it posts is the configuration. *)
Lemma loc_init_up callbacks h : fits r_zero → g_nmea_cb callbacks = true →
  context (loc_afw_data h) = false → deferred_q (loc_afw_data h) = [] →
  ∃ h', LocHal.exec (CInit callbacks true) h = Some (tt, h') ∧ initialised (loc_afw_data h') ∧
    ∃ u, ulp_q (loc_afw_data h') = ulp_q (loc_afw_data h) ++ u.
Proof.
  intros Hz Hn Hc Hq. destruct (loc_init_run callbacks h Hz Hn Hc) as (rv & h' & E & Hi); [by rewrite Hq|].
  exists h'. cbn [LocHal.exec]. unfold ignore. rewrite st_bind_run, E. split; [done|]. split; [done|].
  revert E. unfold loc_init. st_run. set (h0 := set_callbacks _ _ h). set (c := Callbacks _ _ _ _ _ _ _ _ _).
  destruct (on_engine _ h0) as [[a h1]|] eqn:E; [|done]. st_run. set (inf := loc_eng_ulp_inf h1).
  destruct (on_engine _ h1) as [[b h2]|] eqn:E2; [|done]. st_run. intros [= _ <-].
  assert (grows (loc_afw_data h1) (loc_afw_data h2)) as (_ & _ & u2 & ->).
  { eapply grows_on_engine; [|exact E2]. apply grows_pure. intros s. unfold loc_eng_ulp_init. cbn [snd].
    destruct inf; [by apply grows_same|done]. }
  destruct (on_engine_pure (loc_eng_init (Some (c, g_set_capabilities_cb callbacks)) loc_events true) h0)
    as (h1' & E' & He). rewrite E' in E. injection E as _ <-. rewrite He. unfold loc_eng_init.
  change (loc_events =? 0) with false. change (context (loc_afw_data h0) = false) in Hc. rewrite Hc. cbn [negb]. cbn iota zeta.
  set (s1 := loc_eng_init_data _ _ _ _).
  assert (∀ n rv s, grows s (reinit_loop n rv s).2) as Hloop.
  { induction n as [|n IH]; intros rv' s; [done|]. cbn [reinit_loop].
    pose proof (walk_reinit grows (λ _, True) s) as Hr. destruct (loc_eng_reinit s) as [rv'' s''].
    break_if; [by etrans; [exact Hr|apply IH]|exact Hr]. }
  destruct (Hloop 30%nat (-1) s1) as (_ & _ & u & ->).
  assert (ulp_q s1 = ulp_q (loc_afw_data h)) as ->.
  { unfold s1, loc_eng_init_data. cbn zeta. by destruct (g_set_capabilities_cb callbacks). }
  exists (u ++ u2). by rewrite <- (assoc_L (++)).
Qed.

(** *** Rounds *)

Definition goes_on (m : ST eng bool) : Prop := ∀ s b s', m s = Some (b, s') → b = true.
Lemma goes_on_ret : goes_on (mret true).
Proof. by intros s b s' [= <-]. Qed.
Lemma goes_on_bind {A} (m : ST eng A) f : (∀ a, goes_on (f a)) → goes_on (a ← m; f a).
Proof. intros Hf s b s'. rewrite st_bind_run. destruct (m s) as [[a s1]|]; [apply Hf|done]. Qed.
Lemma goes_on_go m : goes_on (go m).
Proof. apply goes_on_bind. intros _. apply goes_on_ret. Qed.
Lemma goes_on_if (c : bool) m m' : goes_on m → goes_on m' → goes_on (if c then m else m').
Proof. by destruct c. Qed.

(** Only the message that ends the thread does. *)
Lemma switch_goes_on msg : msgid msg ≠ LOC_ENG_MSG_QUIT → goes_on (deferred_switch msg).
Proof.
  intros Hq. unfold_switch. cbn zeta. rewrite (proj2 (Z.eqb_neq _ _) Hq).
  repeat lazymatch goal with
  | |- goes_on (if _ then _ else _) => apply goes_on_if
  | |- goes_on (match ?x with _ => _ end) => destruct x
  | |- goes_on st_fault => done
  | |- goes_on (go _) => apply goes_on_go
  | |- goes_on (mret true) => apply goes_on_ret
  | |- goes_on _ => apply goes_on_bind; intros
  end.
Qed.
Lemma handle_goes_on msg s b s' : sendable msg → context s = true → handle_msg msg s = Some (b, s') → b = true.
Proof.
  intros [Ho Hid] Hc. unfold handle_msg. rewrite Ho. st_run. rewrite Hc. cbn [negb]. rewrite st_bind_run.
  destruct (deferred_switch msg s) as [[b1 s1]|] eqn:E; [|done]. apply (switch_goes_on msg Hid) in E as ->.
  st_run. by intros [= <- _].
Qed.

(** A message of the configuration needs no data connections. *)
Lemma config_handled m s : config_msg m → initialised s →
  ∃ s', handle_msg m s = Some (true, s') ∧ initialised s'.
Proof.
  intros Hm Hs. assert (∃ c, deferred_switch m = go (st_modify (modem c))) as [c Hsw].
  { destruct m as [o i []]; destruct Hm as [_ Hi]; cbn in Hi; try done; subst i; by eexists. }
  unfold handle_msg. rewrite (proj1 Hm), Hsw. unfold go. st_run. rewrite (proj1 Hs). cbn [negb]. st_run.
  eexists. split; [done|].
  apply (walk_after keeps_initialised (λ _, True)); [by split; red|by red|exact Hs].
Qed.

(** *** The invariant *)

(** Off: no context; up: the engine is initialised or has its data connections
    too, and the queue is its own; failing: loc_init waits for the thread. *)
Inductive stage (s : service) : Prop :=
| Off :
    EngCtx.clients (ctx s) = ∅ → EngCtx.me (ctx s) = None → context (data s) = false → deferred_q (data s) = [] → stage s
| Up c :
    client_of (ctx s) = Some (In c) → coupled c s → initialised (data s) ∨ sys (prog s) → stage s
| Failing c :
    client_of (ctx s) = Some (Dropping c) → deferred_q (data s) = [] →
    Forall (λ m, m = EngCtx.quit c) (EngCtx.queue c (ctx s)) → stage s.
Definition sinv (s : service) : Prop := inv (ctx s) ∧ stage s.

Lemma serving h : initialised (loc_afw_data h) ∨ sys h →
  context (loc_afw_data h) = true ∧ Forall sendable (deferred_q (loc_afw_data h)).
Proof.
  intros [(Hc & _ & _ & _ & Hq)|[[_ _ _ Hq] Hc]]; (split; [done|]); (eapply Forall_impl; [exact Hq|]).
  - intros m Hm. by apply valid_sendable, config_valid.
  - apply valid_sendable.
Qed.

Definition waiting (s : service) : bool :=
  match client_of (ctx s) with Some (Dropping _) => true | _ => false end.

(** What a step does to the program of [LocHal] and to what has been received; if it
    lost no message. *)
Definition program_step (e : sevent) (s s' : service) : Prop :=
  let kept := EngCtx.refused (ctx s') = EngCtx.refused (ctx s) in
  match e with
  | SInit callbacks adapter _ _ _ _ =>
      EngCtx.handled (ctx s') = EngCtx.handled (ctx s) ∧
      (if context (data s) || adapter
       then waiting s' = false ∧ (kept → LocHal.exec (CInit callbacks adapter) (prog s) = Some (tt, prog s'))
       else waiting s' = true ∧ loc_init_begin callbacks (prog s) = Some (tt, prog s'))
  | SInitEnds _ =>
      EngCtx.handled (ctx s') = EngCtx.handled (ctx s) ∧ waiting s' = false ∧ waiting s = true ∧
      loc_init_failed (prog s) = Some (tt, prog s')
  | SCall e _ =>
      EngCtx.handled (ctx s') = EngCtx.handled (ctx s) ∧ waiting s' = false ∧
      (kept → LocHal.exec e (prog s) = Some (tt, prog s')) ∧ ¬ is_round e
  | SThread _ _ _ =>
      waiting s = false ∧ waiting s' = false ∧
        (∃ m, EngCtx.handled (ctx s') = EngCtx.handled (ctx s) ++ [m]) ∧
        (kept → LocHal.exec TRound (prog s) = Some (tt, prog s')) ∨
      waiting s = true ∧ waiting s' = true ∧ EngCtx.handled (ctx s') = EngCtx.handled (ctx s) ∧ prog s' = prog s
  end.
(** A step runs; unless a wait ended without a signal it keeps the invariant. *)
Definition progress (e : sevent) (s : service) : Prop :=
  ∃ s', sexec past_context e s = Some (tt, s') ∧ (calm s' → sinv s' ∧ program_step e s s').

(** Fewer messages in the queue. *)
Lemma serving_fewer q h : sublist q (deferred_q (loc_afw_data h)) → initialised (loc_afw_data h) ∨ sys h →
  initialised (loc_afw_data (with_queue q h)) ∨ sys (with_queue q h).
Proof.
  assert (∀ P : loc_eng_msg → Prop, sublist q (deferred_q (loc_afw_data h)) → Forall P (deferred_q (loc_afw_data h)) → Forall P q) as Hsub.
  { intros P Hq Hf. apply Forall_forall. intros m Hm. eapply Forall_forall; [exact Hf|]. by eapply elem_of_sublist. }
  intros Hq [(Hc & Ha & Hg & Hn & Hf)|[[H1 H2 H3 H4] Hc]].
  - left. split_and!; try done. by apply Hsub.
  - right. split; [|done]. split; [intros w; specialize (H1 w); by destruct w|done|done|]. by apply Hsub.
Qed.

(** A step of the program while the engine is up. *)
Lemma up_run mem (m : ST hal unit) s h c :
  m (prog s) = Some (tt, h) → inv (ctx s) → client_of (ctx s) = Some (In c) → coupled c s →
  initialised (loc_afw_data h) ∨ sys h → grows (data s) (loc_afw_data h) →
  ∃ s', on_prog mem m s = Some (tt, s') ∧ sinv s' ∧
    (EngCtx.refused (ctx s') = EngCtx.refused (ctx s) → prog s' = h) ∧
    EngCtx.handled (ctx s') = EngCtx.handled (ctx s) ∧ client_of (ctx s') = Some (In c) ∧
    ∃ new, EngCtx.queue c (ctx s') = EngCtx.queue c (ctx s) ++ new.
Proof.
  intros E Hi Hc Hq Hs (_ & Hd & Hu).
  destruct (on_prog_run mem m s tt h c E Hi Hc Hq (proj2 (serving h Hs)) Hd Hu)
    as (s' & q & lost & E' & Hh & Hsub & Hi' & Hq' & Hc' & Hh' & Hr' & Hn & _ & Hnew).
  exists s'. split; [done|]. rewrite Hc'. split.
  - split; [done|]. apply (Up _ c); [by rewrite Hc'|done|]. unfold data. rewrite Hh. by apply serving_fewer.
  - split; [|done]. intros Hr. apply Hn. rewrite Hr in Hr'. rewrite <- (app_nil_r (EngCtx.refused (ctx s))) in Hr' at 1.
    by apply app_inv_head in Hr'.
Qed.

Lemma call_ok e mem s : fits r_zero → sinv s → senabled (SCall e mem) s → progress (SCall e mem) s.
Proof.
  intros Hz [Hi Hst] ([c Hc] & Hset & Hp & Hni & Hnr). destruct Hst as [Hc'|c' Hc' Hq Hs|c' Hc']; [by rewrite Hc' in Hc| |congruence].
  assert (∃ h, LocHal.exec e (prog s) = Some (tt, h) ∧ sys h) as (h & E & Hh).
  { destruct Hs as [Hs|Hs].
    - destruct Hset as [->|Hset]; [by apply loc_agps_init_run|].
      destruct Hs as (_ & Ha & _). unfold data in *. congruence.
    - destruct (safe_exec e (prog s) Hz Hs Hp) as ([] & h & E & Hh). by exists h. }
  destruct (up_run mem (LocHal.exec e) s h c' E Hi Hc' Hq) as (s' & E' & Hs' & Hn & Hhd & Hcl & _); [by right|by eapply grows_call|].
  exists s'. split; [done|]. intros _. split; [done|]. split; [done|].
  split; [unfold waiting; by rewrite Hcl|]. split; [|done]. intros Hk. by rewrite (Hn Hk).
Qed.

Lemma on_ctx_run {A} (m : ST EngCtx.world A) s a w : m (ctx s) = Some (a, w) → on_ctx m s = Some (a, Service w (prog s)).
Proof. intros E. unfold on_ctx. by rewrite E. Qed.

Lemma init_up_ok callbacks ok2 okq mem s : fits r_zero → g_nmea_cb callbacks = true → inv (ctx s) →
  EngCtx.me (ctx s) = None → context (data s) = false → deferred_q (data s) = [] →
  ∃ s' c, sexec past_context (SInit callbacks true true ok2 okq mem) s = Some (tt, s') ∧ sinv s' ∧
    program_step (SInit callbacks true true ok2 okq mem) s s' ∧ client_of (ctx s') = Some (In c).
Proof.
  intros Hz Hn Hi Hme Hctx Hq.
  destruct (EngCtx.get_ok _ (ctx s) loc_afw_client ok2 Hi Hme) as (c & w & E & Hi' & Hc' & Hq' & Hh' & Hr').
  change (EngCtx.client_get loc_afw_client true ok2 (ctx s) = Some (tt, w)) in E.
  destruct (loc_init_up callbacks (prog s) Hz Hn Hctx Hq) as (h & Eh & Hs & Hu).
  set (s1 := Service w (prog s)).
  destruct (on_prog_run mem (LocHal.exec (CInit callbacks true)) s1 tt h c Eh Hi' Hc')
    as (s' & q & lost & E' & Hp' & Hsub & Hi2 & Hq2 & Hc2 & Hh2 & Hr2 & Hl2 & _).
  { unfold coupled, data, s1. cbn [ctx prog]. rewrite Hq'. exact Hq. }
  { apply serving. by left. }
  { unfold data, s1. cbn [prog]. unfold data in Hq. rewrite Hq. by eexists. }
  { exact Hu. }
  exists s', c. cbn [sexec program_step]. unfold service_init. st_run. rewrite Hctx. cbn iota.
  assert (client_of (ctx s') = Some (In c)) as Hcs by (rewrite Hc2; exact Hc').
  change (on_prog mem (ignore (loc_init callbacks true)) s1 = Some (tt, s')) in E'.
  rewrite st_bind_run, (on_ctx_run _ s tt w E). cbn beta iota. split; [exact E'|]. split.
  - split; [done|]. apply (Up _ c); [done|done|]. unfold data. rewrite Hp'. apply serving_fewer; [done|by left].
  - rewrite Hh2, orb_true_r. unfold waiting. rewrite Hcs. split; [|done]. split; [done|]. split; [done|].
    intros Hk. rewrite Hl2; [exact Eh|]. cbn [s1 ctx] in Hr2. rewrite Hk, Hr' in Hr2.
    rewrite <- (app_nil_r (EngCtx.refused (ctx s))) in Hr2 at 1. by apply app_inv_head in Hr2.
Qed.

Lemma init_fails_ok callbacks ok2 okq mem s : inv (ctx s) →
  EngCtx.me (ctx s) = None → context (data s) = false → deferred_q (data s) = [] →
  progress (SInit callbacks false true ok2 okq mem) s.
Proof.
  intros Hi Hme Hctx Hq.
  destruct (EngCtx.get_ok _ (ctx s) loc_afw_client ok2 Hi Hme) as (c & w & E & Hi' & Hc' & Hq' & Hh' & _).
  change (EngCtx.client_get loc_afw_client true ok2 (ctx s) = Some (tt, w)) in E.
  destruct (loc_init_begin_run callbacks (prog s)) as (h & Eh & Hd & Hu).
  destruct (EngCtx.drop_ok _ w loc_afw_client c okq Hi' Hc') as (w2 & E2 & Hi2 & Hc2 & Hq2 & Hh2 & _).
  change (EngCtx.client_drop loc_afw_client c okq w = Some (tt, w2)) in E2.
  exists (Service w2 h). cbn [sexec program_step]. unfold service_init. st_run. rewrite Hctx. cbn iota.
  rewrite st_bind_run, (on_ctx_run _ s tt w E). cbn beta iota.
  rewrite st_bind_run, (on_prog_quiet mem _ (Service w (prog s)) tt h Eh Hd Hu). cbn beta iota.
  unfold st_read. rewrite st_bind_run. cbn [ctx]. unfold EngCtx.engine_context. rewrite Hc'. cbn beta iota.
  rewrite st_bind_run, (on_ctx_run _ (Service w h) tt w2 E2). cbn beta iota. st_run. cbn [ctx]. rewrite Hc2.
  split; [done|]. intros _. split.
  - split; [done|]. apply (Failing _ c); cbn [ctx]; [done|by unfold data; cbn [prog]; rewrite Hd|].
    rewrite Hq2, Hq'. destruct okq; [by apply Forall_singleton|constructor].
  - cbn [ctx prog orb]. split; [congruence|]. split; [unfold waiting; cbn [ctx]; by rewrite Hc2|done].
Qed.

Lemma init_again_ok callbacks adapter ok2 okq mem c s : fits r_zero → inv (ctx s) →
  client_of (ctx s) = Some (In c) → coupled c s → sys (prog s) → progress (SInit callbacks adapter true ok2 okq mem) s.
Proof.
  intros Hz Hi Hc Hq Hs. pose proof (proj2 Hs : context (data s) = true) as Hctx.
  destruct (safe_exec (CInit callbacks adapter) (prog s) Hz Hs I) as ([] & h & E & Hh).
  destruct (up_run mem (LocHal.exec (CInit callbacks adapter)) s h c E Hi Hc Hq) as (s' & E' & Hs' & Hn & Hhd & Hcl & _);
    [by right|by eapply loc_init_again|].
  exists s'. cbn [sexec program_step]. unfold service_init. st_run. rewrite Hctx. cbn iota.
  split; [done|]. intros _. split; [done|]. split; [done|]. split; [unfold waiting; by rewrite Hcl|].
  intros Hk. by rewrite (Hn Hk).
Qed.

Lemma init_ok callbacks adapter ok1 ok2 okq mem s : fits r_zero → sinv s →
  senabled (SInit callbacks adapter ok1 ok2 okq mem) s → progress (SInit callbacks adapter ok1 ok2 okq mem) s.
Proof.
  intros Hz [Hi Hst] (-> & Hn & Hen).
  destruct Hst as [Hc Hme Hctx Hq|c Hc Hq Hs|c Hc].
  - destruct adapter; [|by apply init_fails_ok].
    destruct (init_up_ok callbacks ok2 okq mem s) as (s' & c & E & Hs' & Hp & _); [done..|]. by exists s'.
  - destruct Hen as [?|[_ Ha]]; [congruence|]. apply (init_again_ok _ _ _ _ _ c); try done.
    destruct Hs as [(_ & Ha' & _)|Hs]; [congruence|done].
  - destruct Hen as [?|[[c' ?] _]]; congruence.
Qed.

Lemma init_ends_ok c s : sinv s → senabled (SInitEnds c) s → EngCtx.signalled loc_afw_client (ctx s) →
  ∃ s', sexec past_context (SInitEnds c) s = Some (tt, s') ∧ sinv s' ∧ program_step (SInitEnds c) s s' ∧
    EngCtx.clients (ctx s') = ∅.
Proof.
  intros [Hi Hst] Hc Hw. change (client_of (ctx s) = Some (Dropping c)) in Hc.
  destruct Hst as [Hc'|c' Hc'|c' Hc' Hq _]; [by rewrite Hc' in Hc|congruence|].
  destruct (EngCtx.wake_ok _ (ctx s) loc_afw_client c Hi Hc Hw) as (w & E & Hi' & Hme & _ & Hcl & Hh & _).
  change (EngCtx.client_wake loc_afw_client c (ctx s) = Some (tt, w)) in E.
  destruct (loc_init_failed_run (prog s)) as (h & Eh & Hctx & Hd & Hu).
  exists (Service w h). cbn [sexec program_step]. unfold service_init_ends.
  rewrite st_bind_run, (on_ctx_run _ s tt w E). cbn beta iota.
  rewrite (on_prog_quiet _ _ (Service w (prog s)) tt h Eh Hd Hu). split; [done|]. split;
    [|unfold waiting; cbn [ctx prog]; rewrite Hcl, Hc; by split].
  split; [done|]. apply Off; cbn [ctx]; [done..|]. unfold data. cbn [prog]. by rewrite Hd.
Qed.
(** A wait that ends without a signal. *)
Lemma init_ends_spurious c s : sinv s → senabled (SInitEnds c) s → ¬ EngCtx.signalled loc_afw_client (ctx s) →
  ∃ s', sexec past_context (SInitEnds c) s = Some (tt, s') ∧ EngCtx.spurious (ctx s') = true.
Proof.
  intros [Hi _] Hc Hw. change (client_of (ctx s) = Some (Dropping c)) in Hc.
  destruct (EngCtx.wake_runs _ (ctx s) loc_afw_client c Hi Hc) as [w E].
  pose proof (EngCtx.wake_spurious past_context _ _ _ _ Hw E) as Hsp.
  change (EngCtx.client_wake loc_afw_client c (ctx s) = Some (tt, w)) in E.
  destruct (loc_init_failed_run (prog s)) as (h & Eh & Hctx & Hd & Hu).
  exists (Service w h). cbn [sexec]. unfold service_init_ends.
  rewrite st_bind_run, (on_ctx_run _ s tt w E). cbn beta iota.
  by rewrite (on_prog_quiet _ _ (Service w (prog s)) tt h Eh Hd Hu).
Qed.

(** A round on the message the context's thread received is the round of
    [LocHal], which takes the first of the engine's queue. *)
Lemma round_program h m q : fits r_zero → deferred_q (loc_afw_data h) = m :: q →
  initialised (loc_afw_data h) ∨ sys h →
  ∃ h', on_engine (handle_msg m) (set_eng (set_deferred_q q (loc_afw_data h)) h) = Some (true, h') ∧
    LocHal.exec TRound h = Some (tt, h') ∧ (initialised (loc_afw_data h') ∨ sys h').
Proof.
  intros Hz Hq Hs. set (e := loc_afw_data h) in *. set (e1 := set_deferred_q q e).
  assert (∃ e', handle_msg m e1 = Some (true, e') ∧ (initialised e' ∨ eng_ok e')) as (e' & E & Hs').
  { destruct Hs as [(Hc & Ha & Hg & Hn & Hf)|[[H1 H2 H3 H4] Hc]].
    - change (deferred_q (loc_afw_data h)) with (deferred_q e) in Hf. rewrite Hq in Hf.
      apply Forall_cons in Hf as [Hm Hf].
      destruct (config_handled m e1) as (e' & E & Hi); [done|by split_and!|]. exists e'. split; [done|by left].
    - change (Forall valid (deferred_q e)) in H4. rewrite Hq in H4. apply Forall_cons in H4 as [Hm Hv].
      destruct (safe_handle m Hz Hm e1) as (b & e' & E & Hr).
      { split; [intros w; specialize (H1 w); by destruct w|done..]. }
      assert (context e' = true) as Hc'.
      { destruct (grows_handle m e1 b e' E) as [[-> _] _]. exact Hc. }
      apply (handle_goes_on m e1) in E as Hb; [|by apply valid_sendable|exact Hc]. subst b.
      exists e'. split; [done|]. by right. }
  exists (deliver (drop (length (trace e)) (trace e')) (set_eng e' h)).
  split; [unfold on_engine; cbn [loc_afw_data set_eng]; by rewrite E|]. split; [|exact Hs'].
  cbn [LocHal.exec loc_eng_deferred_action_thread]. unfold ignore. rewrite st_bind_run. unfold on_engine. st_run.
  change (loc_afw_data h) with e. rewrite Hq. st_run. change (set_deferred_q q e) with e1. rewrite E. by st_run.
Qed.

Lemma service_thread_ok pick c mem s : fits r_zero → sinv s → senabled (SThread pick c mem) s → sreads past_context (SThread pick c mem) s →
  ∃ m s', sexec past_context (SThread pick c mem) s = Some (tt, s') ∧ sinv s' ∧ program_step (SThread pick c mem) s s' ∧
    client_of (ctx s') = client_of (ctx s) ∧ EngCtx.queue c (ctx s) = m :: drop 1 (EngCtx.queue c (ctx s)) ∧
    (client_of (ctx s) = Some (In c) → EngCtx.handled (ctx s') = EngCtx.handled (ctx s) ++ [m] ∧
       (mem = [] → EngCtx.refused (ctx s') = EngCtx.refused (ctx s)) ∧
       ∃ new, EngCtx.queue c (ctx s') = drop 1 (EngCtx.queue c (ctx s)) ++ new) ∧
    (client_of (ctx s) = Some (Dropping c) → m = EngCtx.quit c ∧ EngCtx.queue c (ctx s') = [] ∧
       EngCtx.threads (ctx s') !! c = Some Returned).
Proof.
  intros Hz [Hi Hst] [Hth Hrd] Hread.
  destruct (EngCtx.running_client _ (ctx s) c Hi Hth) as [t Hcl].
  destruct (EngCtx.thread_ok _ (ctx s) pick c Hi Hth Hrd Hread) as (m & w & E & Hi' & Hcl' & Hqm & Hrf & Hm).
  exists m. rewrite Hqm. cbn [drop]. rewrite drop_0. change (EngCtx.thread_round past_context pick c (ctx s) = Some (tt, w)) in E.
  destruct Hst as [Hcl0|c' Hc Hq Hs|c' Hc Hq Hall].
  { rewrite Hcl0 in Hcl. by destruct Hcl as [Hcl|Hcl]; apply symmetry, map_non_empty_singleton in Hcl. }
  - assert (c' = c) as ->.
    { destruct Hcl as [Hcl|Hcl]; rewrite Hcl in Hc; by apply EngCtx.singleton_lookup in Hc as [_ [=]]. }
    unfold coupled in Hq. rewrite Hqm, fmap_cons in Hq. destruct (serving _ Hs) as [_ Hv].
    change (loc_afw_data (prog s)) with (data s) in Hv. rewrite Hq in Hv. apply Forall_cons in Hv as [[Hown _] _].
    destruct Hm as [(_ & Hh & _)|(-> & _)]; [|done].
    destruct (round_program (prog s) (e_msg m) _ Hz Hq Hs) as (h & Eh & Er & Hs').
    set (q := e_msg <$> EngCtx.queue c w) in *. set (s1 := Service w (set_eng (set_deferred_q q (data s)) (prog s))).
    pose proof (grows_on_engine _ _ _ _ (grows_handle (e_msg m)) Eh) as (_ & Hd & Hu).
    destruct (on_prog_run mem _ s1 true h c Eh Hi')
      as (s' & q' & lost & E' & Hp' & Hsub & Hi2 & Hq2 & Hc2 & Hh2 & Hr2 & Hl2 & Hmem & Hnew).
    { cbn [s1 ctx]. by rewrite Hcl'. }
    { done. }
    { by apply serving. }
    { exact Hd. }
    { exact Hu. }
    cbn [s1 ctx] in Hr2. rewrite Hrf in Hr2.
    exists s'. assert (EngCtx.handled (ctx s') = EngCtx.handled (ctx s) ++ [m]) as Hh' by (rewrite Hh2; exact Hh).
    split.
    { cbn [sexec]. unfold service_round. st_run. rewrite (on_ctx_run _ s tt w E). cbn beta iota. st_run.
      cbn [ctx]. rewrite Hh, drop_app_length. st_run. unfold set_data, data. cbn [ctx prog].
      change (loc_afw_data (prog s)) with (data s). rewrite Hq. cbn [drop]. rewrite drop_0.
      change (Service w _) with s1. rewrite E'. done. }
    assert (client_of (ctx s') = Some (In c)) as Hcs by (rewrite Hc2; cbn [s1 ctx]; by rewrite Hcl').
    split; [split; [done|]; apply (Up _ c); [done|done|]; unfold data; rewrite Hp'; by apply serving_fewer|].
    split.
    { left. unfold waiting. rewrite Hc, Hcs. split_and!; [done..|by exists m|]. intros Hk. rewrite Hl2; [done|].
      rewrite Hk in Hr2. rewrite <- (app_nil_r (EngCtx.refused (ctx s))) in Hr2 at 1. by apply app_inv_head in Hr2. }
    rewrite Hcs, Hc. split; [done|]. split; [done|]. split; [|done]. intros _. split; [done|]. split; [|exact Hnew].
    intros Hme. by rewrite Hr2, (Hmem Hme), app_nil_r.
  - assert (c' = c) as ->.
    { destruct Hcl as [Hcl|Hcl]; rewrite Hcl in Hc; by apply EngCtx.singleton_lookup in Hc as [_ [=]]. }
    rewrite Hqm in Hall. apply Forall_cons in Hall as [-> Hall]. destruct Hm as [(? & _)|(_ & Hqw & Hh & Hret)]; [done|].
    exists (Service w (prog s)). split.
    { cbn [sexec]. unfold service_round. st_run. rewrite (on_ctx_run _ s tt w E). cbn beta iota. st_run.
      cbn [ctx]. by rewrite Hh, drop_all. }
    cbn [ctx prog]. split; [split; [done|]; apply (Failing _ c); cbn [ctx]; [by rewrite Hcl'|done|by rewrite Hqw]|].
    split; [right; unfold waiting; cbn [ctx]; rewrite Hcl', Hc; by split_and!|]. rewrite Hcl'. split; [done|]. split; [done|].
    split; [congruence|]. by intros _.
Qed.

Lemma sexec_ok e s : fits r_zero → sinv s → senabled e s → sreads past_context e s → progress e s.
Proof.
  intros Hz Hs He Hrd. destruct e as [callbacks adapter ok1 ok2 okq mem|c|e mem|pick c mem].
  - by apply init_ok.
  - destruct (decide (loc_afw_client ∈ EngCtx.cond_woken (ctx s))) as [Hw|Hw].
    + destruct (init_ends_ok c s Hs He Hw) as (s' & E & Hs' & Hp & _). by exists s'.
    + destruct (init_ends_spurious c s Hs He Hw) as (s' & E & Hsp). exists s'. split; [done|].
      unfold calm. by rewrite Hsp.
  - by apply call_ok.
  - destruct (service_thread_ok pick c mem s Hz Hs He Hrd) as (m & s' & E & Hs' & Hp & _). by exists s'.
Qed.

(** *** What no step undoes *)

Definition sremembers (s s' : service) : Prop := EngCtx.remembers (ctx s) (ctx s').
#[local] Instance sremembers_preorder : PreOrder sremembers.
Proof. split; [intros s; unfold sremembers; reflexivity|intros s1 s2 s3 H1 H2; unfold sremembers in *; by etrans]. Qed.
Lemma remembers_on_ctx {A} (m : ST EngCtx.world A) : moves EngCtx.remembers m → moves sremembers (on_ctx m).
Proof.
  intros Hm s a s'. unfold on_ctx. destruct (m (ctx s)) as [[b w]|] eqn:E; [|done]. intros [= _ <-]. by eapply Hm.
Qed.
Lemma remembers_event e : moves sremembers (on_ctx (EngCtx.exec past_context e)).
Proof. apply remembers_on_ctx, EngCtx.remembers_exec. Qed.
Lemma remembers_send_all send mem l : (∀ ok m, moves EngCtx.remembers (send ok m)) → moves EngCtx.remembers (send_all send mem l).
Proof.
  intros Hs. revert mem. induction l as [|m l IH]; intros mem; cbn [send_all]; [apply moves_ret, _|].
  apply moves_bind; [apply _|apply Hs|intros _; apply IH].
Qed.
Lemma remembers_on_prog {A} mem (m : ST hal A) : moves sremembers (on_prog mem m).
Proof.
  intros s a s'. unfold on_prog. destruct (m (prog s)) as [[b h]|]; [|done]. cbn zeta. intros E.
  change (ctx s) with (ctx (Service (ctx s) h)). unfold sremembers. change (sremembers (Service (ctx s) h) s').
  revert E. apply (moves_bind sremembers).
  - apply remembers_on_ctx, remembers_send_all. intros ok x. apply (EngCtx.remembers_exec past_context (EngCtx.ESend _ ok x)).
  - intros _. apply moves_bind; [apply _| |intros _].
    + apply remembers_on_ctx, remembers_send_all. intros ok x. apply (EngCtx.remembers_exec past_context (EngCtx.ESendUlp _ ok x)).
    + apply moves_bind; [apply _|apply moves_modify; intros x; unfold sremembers; reflexivity|intros _; apply moves_ret, _].
Qed.
Lemma remembers_sexec e : moves sremembers (sexec past_context e).
Proof.
  destruct e as [callbacks adapter ok1 ok2 okq mem|c|e mem|pick c mem]; cbn [sexec]; [| |apply remembers_on_prog|].
  - unfold service_init. apply moves_bind; [apply _|apply moves_get, _|intros []]; [apply remembers_on_prog|].
    apply moves_bind; [apply _|apply (remembers_event (EngCtx.EGet _ _ _))|intros _]. destruct adapter; [apply remembers_on_prog|].
    apply moves_bind; [apply _|apply remembers_on_prog|intros _].
    apply moves_bind; [apply _|apply moves_read, _|intros c].
    apply moves_bind; [apply _|apply (remembers_event (EngCtx.EDrop _ _ _))|intros _].
    apply moves_bind; [apply _|apply moves_get, _|intros []]; [apply moves_ret, _|apply remembers_on_prog].
  - unfold service_init_ends.
    apply moves_bind; [apply _|apply (remembers_event (EngCtx.EWake _ _))|intros _; apply remembers_on_prog].
  - unfold service_round. apply moves_bind; [apply _|apply moves_get, _|intros before].
    apply moves_bind; [apply _|apply (remembers_event (EngCtx.EThread _ _))|intros _].
    apply moves_bind; [apply _|apply moves_get, _|intros [|m q]]; [apply moves_ret, _|].
    apply moves_bind; [apply _|apply moves_modify; intros x; unfold sremembers; reflexivity|intros _].
    apply moves_bind; [apply _|apply remembers_on_prog|intros []]; [apply moves_ret, _|].
    apply remembers_on_ctx, moves_modify. intros w. by apply EngCtx.remembers_same.
Qed.
Lemma sstep_calm e s s' : sexec past_context e s = Some (tt, s') → calm s' → calm s.
Proof. intros [Hs _]%remembers_sexec Hw. unfold calm in *. destruct (EngCtx.spurious (ctx s)); [by rewrite Hs in Hw|done]. Qed.
Lemma sstep_lossless e s s' : sexec past_context e s = Some (tt, s') → lossless s' →
  lossless s ∧ EngCtx.refused (ctx s') = EngCtx.refused (ctx s).
Proof.
  intros [_ [l Hl]]%remembers_sexec Hr. unfold lossless in *. rewrite Hr in Hl. symmetry in Hl. apply app_nil in Hl as [Hl _].
  split; [done|]. by rewrite Hl.
Qed.
Lemma calm_back s s' : rtc (sstep past_context) s s' → calm s' → calm s.
Proof. induction 1 as [|s1 s2 s3 (e & _ & E) _ IH]; [done|]. intros Hc. by apply (sstep_calm e s1 s2 E), IH. Qed.

(** A step that succeeded could read what it had to. *)
Lemma sexec_reads e s s' : sexec past_context e s = Some (tt, s') → sreads past_context e s.
Proof.
  destruct e as [| | |pick c mem]; try done. cbn [sexec sreads]. unfold service_round. st_run. unfold on_ctx at 1.
  destruct (EngCtx.thread_round past_context pick c (ctx s)) as [[[] w]|] eqn:E; [|done]. intros _.
  by apply (EngCtx.exec_reads past_context (EngCtx.EThread pick c) (ctx s) w).
Qed.
Lemma sstep_ok e s s' : fits r_zero → sinv s → senabled e s → sexec past_context e s = Some (tt, s') → calm s' →
  sinv s' ∧ program_step e s s'.
Proof.
  intros Hz Hs He E Hc. destruct (sexec_ok e s Hz Hs He (sexec_reads _ _ _ E)) as (s1 & E1 & Hi).
  assert (s1 = s') as -> by congruence. auto.
Qed.

Lemma boots_inv s : boots s → sinv s.
Proof.
  intros (Hc & Hx & Hd & _). split; [rewrite Hc; by apply EngCtx.inv_init|]. apply Off; by rewrite ?Hc.
Qed.
Lemma run_inv s s' : fits r_zero → sinv s → rtc (sstep past_context) s s' → calm s' → sinv s'.
Proof.
  intros Hz Hi Hr. revert Hi. induction Hr as [|s1 s2 s3 (e & He & E) Hr IH]; [done|]. intros Hi Hc.
  destruct (sstep_ok e s1 s2 Hz Hi He E) as [Hi2 _]; [by eapply calm_back|]. by apply IH.
Qed.
Lemma service_inv s : fits r_zero → reachable (sstep past_context) boots s → calm s → sinv s.
Proof. intros Hz (s0 & H0 & Hr). apply (run_inv s0 s Hz); [by apply boots_inv|done]. Qed.
End facts.

(** ** Runs of the service and of the program *)

Section runs.
Context `{Heng : EngEnv, Hfiles : LocHalEnv} (past_context : nat → option bool).
Abbreviation client_of w := (EngCtx.clients w !! loc_afw_client).

(** [LocHal] gets from [h0] to [h] with [n] rounds of its thread. *)
Definition runs_to (h0 : hal) (n : nat) (h : hal) : Prop :=
  ∃ es, LocHal.exec_all es h0 = Some (tt, h) ∧ length (filter is_round es) = n.

Lemma exec_all_snoc es e h h1 h2 : LocHal.exec_all es h = Some (tt, h1) → LocHal.exec e h1 = Some (tt, h2) →
  LocHal.exec_all (es ++ [e]) h = Some (tt, h2).
Proof.
  revert h. induction es as [|e' es IH]; intros h E1 E2; cbn [app LocHal.exec_all] in *.
  - injection E1 as ->. st_step E2. done.
  - revert E1. rewrite !st_bind_run. destruct (LocHal.exec e' h) as [[[] h']|]; [|done]. intros E1. by apply IH.
Qed.
Lemma runs_step h0 n h h' e : ¬ is_round e → runs_to h0 n h → LocHal.exec e h = Some (tt, h') → runs_to h0 n h'.
Proof.
  intros Hr (es & E & Hn) E'. exists (es ++ [e]). split; [by eapply exec_all_snoc|].
  by rewrite filter_app, filter_cons_False, app_nil_r.
Qed.
Lemma runs_round h0 n h h' : runs_to h0 n h → LocHal.exec TRound h = Some (tt, h') → runs_to h0 (S n) h'.
Proof.
  intros (es & E & Hn) E'. exists (es ++ [TRound]). split; [by eapply exec_all_snoc|].
  rewrite filter_app, length_app, Hn, filter_cons_True by done. cbn [length filter list_filter]. lia.
Qed.

(** While loc_init waits the program has begun an initialisation it will not finish. *)
Definition simulated (h0 : hal) (s : service) : Prop :=
  let n := length (EngCtx.handled (ctx s)) in
  if waiting s then
    ∃ callbacks h, runs_to h0 n h ∧ context (loc_afw_data h) = false ∧ loc_init_begin callbacks h = Some (tt, prog s)
  else runs_to h0 n (prog s).

(** The framework calls nothing while loc_init waits. *)
Lemma calls_wait e s : senabled e s → match e with SInit _ _ _ _ _ _ | SCall _ _ => waiting s = false | _ => True end.
Proof.
  destruct e as [callbacks adapter ok1 ok2 okq mem|c|e mem|pick c mem]; cbn [senabled]; [|done| |done]; unfold waiting.
  - intros (_ & _ & [-> |[[c ->] _]]); done.
  - by intros ([c ->] & _).
Qed.

Lemma step_simulated h0 e s s' : simulated h0 s → senabled e s → program_step e s s' →
  EngCtx.refused (ctx s') = EngCtx.refused (ctx s) → simulated h0 s'.
Proof.
  intros Hs Hw%calls_wait Hp Hk. unfold simulated in *.
  destruct e as [callbacks adapter ok1 ok2 okq mem|c|e mem|pick c mem]; cbn [program_step] in Hp.
  - destruct Hp as [-> Hp]. rewrite Hw in Hs. destruct (context (data s)) eqn:Hctx; cbn [orb] in Hp.
    + destruct Hp as [-> E]. specialize (E Hk). by apply (runs_step h0 _ (prog s) _ (CInit callbacks adapter)); [intros []|..].
    + destruct adapter; destruct Hp as [-> E].
      * specialize (E Hk). by apply (runs_step h0 _ (prog s) _ (CInit callbacks true)); [intros []|..].
      * by exists callbacks, (prog s).
  - destruct Hp as (-> & -> & Hw' & E). rewrite Hw' in Hs. destruct Hs as (callbacks & h & Hr & Hctx & Eb).
    apply (runs_step h0 _ h _ (CInit callbacks false)); [by intros []|done|].
    rewrite (loc_init_without_adapter callbacks h Hctx). by st_step Eb.
  - destruct Hp as (-> & -> & E & Hr). specialize (E Hk). rewrite Hw in Hs. by apply (runs_step h0 _ (prog s) _ e).
  - destruct Hp as [(Hw1 & -> & [m ->] & E)|(Hw1 & -> & -> & ->)]; rewrite Hw1 in Hs; [|done].
    specialize (E Hk). rewrite length_app, Nat.add_comm. by eapply runs_round.
Qed.

Lemma boots_simulated s : boots s → simulated (prog s) s.
Proof. intros (Hc & _). unfold simulated, waiting. rewrite Hc. cbn. rewrite lookup_empty. by exists []. Qed.

Lemma service_run s0 s : fits r_zero → boots s0 → rtc (sstep past_context) s0 s → calm s → lossless s →
  sinv past_context s ∧ simulated (prog s0) s.
Proof.
  intros Hz H0 Hr.
  assert (sinv past_context s0 ∧ simulated (prog s0) s0) as Hi by (split; [by apply boots_inv|by apply boots_simulated]).
  revert Hi. generalize (prog s0). intros h0. clear H0.
  assert (∀ s s', rtc (sstep past_context) s s' → lossless s' → lossless s) as Hback.
  { induction 1 as [|s1 s2 s3 (e & _ & E) _ IH]; [done|]. intros Hl. by apply (sstep_lossless past_context e s1 s2 E), IH. }
  induction Hr as [|s1 s2 s3 (e & He & E) Hr IH]; [done|]. intros [Hi Hs] Hc Hl.
  destruct (sstep_ok past_context e s1 s2 Hz Hi He E) as [Hi2 Hp]; [by eapply calm_back|].
  destruct (sstep_lossless past_context e s1 s2 E) as [_ Hk]; [by eapply Hback|].
  apply IH; [|done..]. split; [done|by eapply step_simulated].
Qed.

(** Rounds of the thread while the engine is up, with memory for what it posts. *)
Lemma service_rounds n : ∀ s c, fits r_zero → sinv past_context s → client_of (ctx s) = Some (In c) →
  (n ≤ length (EngCtx.queue c (ctx s)))%nat →
  ∃ s', nsteps (sthread_step past_context) n s s' ∧ sinv past_context s' ∧ client_of (ctx s') = Some (In c) ∧
    EngCtx.handled (ctx s') = EngCtx.handled (ctx s) ++ take n (EngCtx.queue c (ctx s)) ∧
    LocHal.exec_all (replicate n TRound) (prog s) = Some (tt, prog s').
Proof.
  induction n as [|n IH]; intros s c Hz Hi Hc Hn.
  { exists s. rewrite take_0, app_nil_r. repeat (split; [by first [constructor|done]|]). done. }
  destruct (EngCtx.queued_runs past_context (ctx s) loc_afw_client c (proj1 Hi) (or_introl Hc)) as [Hth Hrd].
  { intros Hq. rewrite Hq in Hn. cbn in Hn. lia. }
  destruct (service_thread_ok past_context 0 c [] s Hz Hi (conj Hth Hrd)) as (m & s1 & E & Hi1 & Hp & Hc1 & Hq & Hup & _).
  { by apply (EngCtx.used_reads past_context (ctx s) loc_afw_client 0 c (proj1 Hi)). }
  destruct (Hup Hc) as (Hh & Hk & new & Hnew).
  assert (LocHal.exec TRound (prog s) = Some (tt, prog s1)) as Er.
  { destruct Hp as [(_ & _ & _ & Er)|(Hw & _)]; [by apply Er, Hk|]. unfold waiting in Hw. by rewrite Hc in Hw. }
  set (q := drop 1 (EngCtx.queue c (ctx s))) in *. assert (n ≤ length q)%nat as Hlen.
  { rewrite Hq in Hn. cbn in Hn. lia. }
  destruct (IH s1 c Hz Hi1) as (s2 & Hr & Hi2 & Hc2 & Hh2 & Er2).
  { by rewrite Hc1. }
  { rewrite Hnew, length_app. lia. }
  exists s2. split; [eapply nsteps_l; [|exact Hr]; by exists 0%nat, c, []|]. do 2 (split; [done|]). split.
  - rewrite Hh2, Hh, Hnew, take_app_le by done. rewrite Hq. cbn [take]. by rewrite <- (assoc_L (++)).
  - cbn [replicate LocHal.exec_all]. st_step Er. done.
Qed.

(** A loc_init that waits for a message that was not refused: after at most one
    round of the thread it is woken, if the word behind the context is not null. *)
Lemma service_drained s c : fits r_zero → sinv past_context s → client_of (ctx s) = Some (Dropping c) →
  past_context c = Some true → EngCtx.quit_posted c (ctx s) →
  ∃ s', rtc (sthread_step past_context) s s' ∧ sinv past_context s' ∧ client_of (ctx s') = Some (Dropping c) ∧
    EngCtx.signalled loc_afw_client (ctx s').
Proof.
  intros Hz Hi Hc Hpast Hqp. destruct (EngCtx.queue c (ctx s)) as [|m q] eqn:Hq.
  { exists s. split; [reflexivity|]. do 2 (split; [done|]). by apply (EngCtx.woken_spec past_context (ctx s) _ c (proj1 Hi)). }
  destruct (EngCtx.queued_runs past_context (ctx s) loc_afw_client c (proj1 Hi) (or_intror Hc)) as [Hth Hrd].
  { by rewrite Hq. }
  destruct (service_thread_ok past_context 0 c [] s Hz Hi (conj Hth Hrd)) as (m' & s1 & E & Hi1 & _ & Hc1 & _ & _ & Hdr).
  { intros _. by rewrite Hpast. }
  destruct (Hdr Hc) as (_ & Hq1 & Hth1).
  exists s1. split; [eapply rtc_once; by exists 0%nat, c, []|]. split; [done|]. split; [by rewrite Hc1|].
  apply (EngCtx.woken_spec past_context (ctx s1) _ c (proj1 Hi1)); [by rewrite Hc1|]. split; [done|]. split; [|done].
  right. by rewrite Hth1.
Qed.

(** Nothing wakes a loc_init whose message was refused or that has no such word
    behind its context. *)
Definition hangs (c : nat) (s : service) : Prop :=
  client_of (ctx s) = Some (Dropping c) ∧ (past_context c ≠ Some true ∨ ¬ EngCtx.quit_posted c (ctx s)).
Lemma hangs_on s s' c : fits r_zero → sinv past_context s → hangs c s → rtc (sstep past_context) s s' → calm s' →
  hangs c s'.
Proof.
  intros Hz Hi Hh Hr. revert Hi Hh. induction Hr as [|s1 s2 s3 (e & He & E) Hr IH]; [done|]. intros Hi [Hc Hno] Hcalm.
  assert (calm s2) as Hcalm2 by by eapply calm_back.
  destruct (sstep_ok past_context e s1 s2 Hz Hi He E Hcalm2) as [Hi2 _]. apply IH; [done| |done]. clear IH Hr Hcalm.
  destruct e as [callbacks adapter ok1 ok2 okq mem|c'|e mem|pick c' mem].
  - destruct He as (_ & _ & [?|[[c' ?] _]]); congruence.
  - change (client_of (ctx s1) = Some (Dropping c')) in He. assert (c' = c) as -> by congruence.
    destruct (decide (loc_afw_client ∈ EngCtx.cond_woken (ctx s1))) as [Hw|Hw].
    + apply (EngCtx.woken_spec past_context (ctx s1) _ c (proj1 Hi) Hc) in Hw as (? & ? & _). by destruct Hno.
    + destruct (init_ends_spurious past_context c s1 Hi He Hw) as (s' & E' & Hsp).
      assert (s' = s2) as -> by congruence. unfold calm in Hcalm2. by rewrite Hsp in Hcalm2.
  - destruct He as ([c' ?] & _). congruence.
  - destruct (service_thread_ok past_context pick c' mem s1 Hz Hi He (sexec_reads _ _ _ _ E))
      as (m & s' & E' & _ & _ & Hc1 & Hq & _ & Hdr).
    assert (s' = s2) as -> by congruence.
    destruct (EngCtx.running_client _ (ctx s1) c' (proj1 Hi) (proj1 He)) as [t Hcl].
    assert (c' = c) as ->.
    { destruct Hcl as [Hcl|Hcl]; rewrite Hcl in Hc; by apply EngCtx.singleton_lookup in Hc as [_ [=]]. }
    destruct (Hdr Hc) as (-> & _). split; [by rewrite Hc1|]. left. destruct Hno as [?|Hno]; [done|].
    destruct Hno. left. rewrite Hq. apply list_elem_of_here.
Qed.
End runs.

(** ** Properties *)

Section properties.
Context `{Heng : EngEnv, Hfiles : LocHalEnv} (past_context : nat → option bool).
Abbreviation client_of w := (EngCtx.clients w !! loc_afw_client).

(** C1: The service with its context never faults: from the start of the program,
    whatever the framework calls in turn, the modem reports, the ULP posts and the
    threads do (within [senabled]: the queues of the context can be made, the data
    connections are set up after loc_init and before the rest, and loc_cleanup
    does not clear a callback the thread is about to call), and whichever messages are refused their memory, as
    long as no [pthread_cond_wait] of the context has returned without a signal
    every step that can happen succeeds, also those that end an initialisation
    without a modem and such a return itself: nothing is used after it was
    released.  The one exception is the round that takes the message that ends the
    thread where the memory behind the context cannot be read.  Calls and rounds
    are single steps: what can happen inside them without a lock is in [Ni] and
    in [LocHal.loc_cleanup].  While the engine
    has its context the thread of it runs, and the engine's queue holds exactly
    what was posted, not refused and not yet handled, in order. *)
Theorem service_never_faults s : fits r_zero → reachable (sstep past_context) boots s → calm s →
  (∀ e, senabled e s → sreads past_context e s → ∃ s', sexec past_context e s = Some (tt, s')) ∧
  ∀ c, client_of (ctx s) = Some (In c) →
    EngCtx.threads (ctx s) !! c = Some Running ∧
    e_msg <$> EngCtx.posted (ctx s) = (e_msg <$> EngCtx.handled (ctx s)) ++ deferred_q (data s).
Proof.
  intros Hz Hr Hcalm. pose proof (service_inv past_context s Hz Hr Hcalm) as Hi. split.
  - intros e He Hrd. destruct (sexec_ok past_context e s Hz Hi He Hrd) as (s' & E & _). by exists s'.
  - intros c Hc. destruct Hi as [Hi Hst].
    destruct (EngCtx.used_context _ _ _ _ Hi Hc) as (_ & Hth & -> & _). split; [done|].
    destruct Hst as [Hc'|c' Hc' Hq|c' Hc']; [by rewrite Hc' in Hc| |congruence].
    assert (c' = c) as -> by congruence. by rewrite Hq, fmap_app.
Qed.

(** C2: The service refines the program of [LocHal], so that what is proved of the
    latter holds of it: whatever happened, if no message was refused its memory and
    no wait has ended without a signal, unless loc_init is waiting the engine
    and the framework are in a state the program reaches by some sequence of its
    events, with as many rounds as the thread of the context has handled messages;
    while loc_init waits the program is inside an initialisation without a modem. *)
Theorem service_refines_program s0 s : fits r_zero → boots s0 → rtc (sstep past_context) s0 s → calm s → lossless s →
  if waiting s then
    ∃ es callbacks h, LocHal.exec_all es (prog s0) = Some (tt, h) ∧ loc_init_begin callbacks h = Some (tt, prog s) ∧
      length (filter is_round es) = length (EngCtx.handled (ctx s))
  else
    ∃ es, LocHal.exec_all es (prog s0) = Some (tt, prog s) ∧
      length (filter is_round es) = length (EngCtx.handled (ctx s)).
Proof.
  intros Hz H0 Hr Hcalm Hl. destruct (service_run past_context s0 s Hz H0 Hr Hcalm Hl) as [_ Hs]. unfold simulated, runs_to in Hs.
  destruct (waiting s); [|exact Hs]. destruct Hs as (callbacks & h & (es & E & Hn) & _ & Eb). by exists es, callbacks, h.
Qed.

(** C3: Every message the queue accepted is handled: while the engine has its
    context, and no wait has ended without a signal, as many rounds
    of the thread as there are messages waiting lead to a state in which exactly
    what had been posted has been handled, in that order, and the program has made
    these rounds. *)
Theorem posted_are_handled s c : fits r_zero → reachable (sstep past_context) boots s → calm s →
  client_of (ctx s) = Some (In c) →
  ∃ s', nsteps (sthread_step past_context) (length (deferred_q (data s))) s s' ∧
    EngCtx.handled (ctx s') = EngCtx.posted (ctx s) ∧
    LocHal.exec_all (replicate (length (deferred_q (data s))) TRound) (prog s) = Some (tt, prog s').
Proof.
  intros Hz Hr Hcalm Hc. pose proof (service_inv past_context s Hz Hr Hcalm) as Hi.
  destruct (EngCtx.used_context _ _ _ _ (proj1 Hi) Hc) as (_ & _ & Hp & _).
  assert (length (deferred_q (data s)) = length (EngCtx.queue c (ctx s))) as Hlen.
  { destruct Hi as [_ [Hc'|c' Hc' Hq|c' Hc']]; [by rewrite Hc' in Hc| |congruence].
    assert (c' = c) as -> by congruence. by rewrite Hq, length_fmap. }
  rewrite Hlen. destruct (service_rounds past_context _ s c Hz Hi Hc (le_n _)) as (s' & Hs & _ & _ & Hh & E).
  exists s'. split; [done|]. split; [|done]. by rewrite Hh, firstn_all, Hp.
Qed.

(** C31: When loc_init, which could make no adapter of the modem, returns.  From any
    state in which it waits: if its message to the thread was not refused and the
    word behind the context can be read and is not null, rounds of the thread signal
    it and let it go on; then the engine has no context, no thread runs, nothing
    posted was lost, and a later loc_init starts the service.  Otherwise, whatever
    happens, it waits for ever, unless the wait ends without a signal. *)
Theorem failed_init_returns s c : fits r_zero → reachable (sstep past_context) boots s → calm s →
  client_of (ctx s) = Some (Dropping c) →
  let returns := past_context c = Some true ∧ EngCtx.quit_posted c (ctx s) in
  (returns → ∃ s1 s2, rtc (sthread_step past_context) s s1 ∧ senabled (SInitEnds c) s1 ∧
      EngCtx.signalled loc_afw_client (ctx s1) ∧ sexec past_context (SInitEnds c) s1 = Some (tt, s2) ∧ calm s2 ∧
      context (data s2) = false ∧ EngCtx.ctxs (ctx s2) = ∅ ∧ (∀ c', EngCtx.threads (ctx s2) !! c' ≠ Some Running) ∧
      EngCtx.handled (ctx s2) = EngCtx.posted (ctx s2) ∧
      ∀ callbacks ok2 okq mem, g_nmea_cb callbacks = true → ∃ s3 c3,
        sexec past_context (SInit callbacks true true ok2 okq mem) s2 = Some (tt, s3) ∧
        client_of (ctx s3) = Some (In c3) ∧ EngCtx.threads (ctx s3) !! c3 = Some Running) ∧
  (¬ returns → ∀ s', rtc (sstep past_context) s s' → calm s' → client_of (ctx s') = Some (Dropping c)).
Proof.
  intros Hz Hr Hcalm Hc. pose proof (service_inv past_context s Hz Hr Hcalm) as Hi. cbn zeta. split.
  - intros [Hpast Hqp].
    destruct (service_drained past_context s c Hz Hi Hc Hpast Hqp) as (s1 & Hs1 & Hi1 & Hc1 & Hw1).
    destruct (init_ends_ok past_context c s1 Hi1 Hc1 Hw1) as (s2 & E2 & [Hi2 Hst2] & _ & Hcl2).
    exists s1, s2. do 4 (split; [done|]). split; [by destruct Hi2 as (_ & _ & ?)|].
    destruct Hst2 as [_ Hme Hctx Hq|? Hc2|? Hc2]; [|by rewrite Hcl2 in Hc2..]. split; [done|].
    destruct (EngCtx.absent_context past_context (ctx s2) Hi2 Hcl2) as (_ & Hno & _ & Hth & Hh).
    do 3 (split; [done|]). intros callbacks ok2 okq mem Hn.
    destruct (init_up_ok past_context callbacks ok2 okq mem s2 Hz Hn Hi2 Hme Hctx Hq) as (s3 & c3 & E3 & [Hi3 _] & _ & Hc3).
    exists s3, c3. do 2 (split; [done|]). by destruct (EngCtx.used_context _ _ _ _ Hi3 Hc3) as (_ & ? & _).
  - intros Hgo%not_and_l s' Hs' Hcalm'. destruct (hangs_on past_context s s' c Hz Hi (conj Hc Hgo) Hs' Hcalm'). done.
Qed.
End properties.

(** ** Witnesses *)

#[local] Existing Instance demo_nmea.
#[local] Existing Instance demo_env.
#[local] Existing Instance demo_files.

Definition demo_boot : service := Service EngCtx.nothing demo_off_hal.
Fixpoint run_service (past : nat → option bool) (l : list sevent) (s : service) : option service :=
  match l with
  | [] => Some s
  | e :: l => match sexec past e s with Some (_, s') => run_service past l s' | None => None end
  end.
(** Some events that can happen, decided. *)
Definition is_up (s : service) : bool :=
  match EngCtx.clients (ctx s) !! loc_afw_client with Some (In _) => true | _ => false end.
Definition smay (e : sevent) (s : service) : bool :=
  match e with
  | SInit callbacks _ ok1 _ _ _ =>
      ok1 && g_nmea_cb callbacks && match EngCtx.clients (ctx s) !! loc_afw_client with None => true | _ => false end
  | SCall CAgpsInit _ => is_up s
  | SCall CStart _ => is_up s && agps_status_cb (cb (data s))
  | _ => false
  end.
Lemma smay_enabled e s : smay e s = true → senabled e s.
Proof.
  assert (is_up s = true → has_context s) as Hup.
  { unfold is_up, has_context. destruct (_ !! _) as [[c|c]|]; [by exists c|done..]. }
  destruct e as [callbacks adapter ok1 ok2 okq mem|c|e mem|pick c mem]; cbn [smay senabled]; try done.
  - intros [[-> ->]%andb_prop Hc]%andb_prop. do 2 (split; [done|]). left. by destruct (_ !! _).
  - destruct e; try done; cbn [permitted is_init is_round].
    + intros [Hc ->]%andb_prop. split_and!; auto.
    + intros Hc. split_and!; auto.
Qed.
Fixpoint all_may (past : nat → option bool) (l : list sevent) (s : service) : bool :=
  match l with
  | [] => true
  | e :: l => smay e s && match sexec past e s with Some (_, s') => all_may past l s' | None => false end
  end.
Definition after_calls (past : nat → option bool) (l : list sevent) : service := default demo_boot (run_service past l demo_boot).

Lemma all_may_run past l s s0 : all_may past l s = true → rtc (sstep past) s (default s0 (run_service past l s)).
Proof.
  revert s. induction l as [|e l IH]; intros s; [reflexivity|].
  cbn [all_may run_service]. intros [He%smay_enabled Hl]%andb_prop.
  destruct (sexec past e s) as [[[] s']|] eqn:E; [|done]. eapply rtc_l; [by exists e|by apply IH].
Qed.
Lemma demo_boots : boots demo_boot.
Proof. by split_and!. Qed.

(** A service with its data connections and a request to start; one whose
    initialisation waits. *)
Definition demo_up : service :=
  after_calls (λ _, Some true) [SInit demo_callbacks true true true true []; SCall CAgpsInit []; SCall CStart []].
Definition demo_waiting : service := after_calls (λ _, Some true) [SInit demo_callbacks false true true true []].
Lemma demo_up_run : rtc (sstep (λ _, Some true)) demo_boot demo_up.
Proof. apply all_may_run. vm_compute. reflexivity. Qed.
Lemma demo_waiting_run : rtc (sstep (λ _, Some true)) demo_boot demo_waiting.
Proof. apply all_may_run. vm_compute. reflexivity. Qed.
Lemma demo_up_client : EngCtx.clients (ctx demo_up) !! loc_afw_client = Some (In 0).
Proof. by vm_compute. Qed.
Lemma demo_waiting_client : EngCtx.clients (ctx demo_waiting) !! loc_afw_client = Some (Dropping 0).
Proof. by vm_compute. Qed.

Lemma demo_fits_zero : fits r_zero.
Proof. apply demo_fits; cbn; lia. Qed.
Lemma demo_reachable s : rtc (sstep (λ _, Some true)) demo_boot s → reachable (sstep (λ _, Some true)) boots s.
Proof. intros Hr. exists demo_boot. split; [exact demo_boots|exact Hr]. Qed.

Lemma demo_up_calm : calm demo_up.
Proof. by vm_compute. Qed.
Lemma demo_up_lossless : lossless demo_up.
Proof. vm_cast_no_check (eq_refl (EngCtx.refused (ctx demo_up))). Qed.
Lemma demo_waiting_calm : calm demo_waiting.
Proof. by vm_compute. Qed.
Lemma demo_waiting_quit : EngCtx.quit_posted 0 (ctx demo_waiting).
Proof.
  left. assert (EngCtx.queue 0 (ctx demo_waiting) = [EngCtx.quit 0]) as ->.
  { vm_cast_no_check (eq_refl (EngCtx.queue 0 (ctx demo_waiting))). }
  apply list_elem_of_here.
Qed.

Lemma service_never_faults_witness :
  (∃ s', sexec (λ _, Some true) (SCall CStart []) demo_up = Some (tt, s')) ∧
  EngCtx.threads (ctx demo_up) !! 0%nat = Some Running.
Proof.
  destruct (service_never_faults (λ _, Some true) demo_up demo_fits_zero (demo_reachable _ demo_up_run) demo_up_calm)
    as [Hgo Hup].
  split; [|exact (proj1 (Hup _ demo_up_client))].
  apply Hgo; [|exact I]. apply smay_enabled. vm_compute. reflexivity.
Defined.
Lemma service_refines_program_witness :
  if waiting demo_up then False
  else ∃ es, LocHal.exec_all es (prog demo_boot) = Some (tt, prog demo_up) ∧
    length (filter is_round es) = length (EngCtx.handled (ctx demo_up)).
Proof.
  pose proof (service_refines_program (λ _, Some true) demo_boot demo_up demo_fits_zero demo_boots demo_up_run
    demo_up_calm demo_up_lossless) as H.
  assert (waiting demo_up = false) as Hw by (vm_compute; reflexivity). rewrite Hw in *. exact H.
Defined.
Lemma posted_are_handled_witness :
  ∃ s', nsteps (sthread_step (λ _, Some true)) (length (deferred_q (data demo_up))) demo_up s' ∧
    EngCtx.handled (ctx s') = EngCtx.posted (ctx demo_up).
Proof.
  destruct (posted_are_handled (λ _, Some true) demo_up 0 demo_fits_zero (demo_reachable _ demo_up_run) demo_up_calm
    demo_up_client) as (s' & Hs & Hh & _).
  exists s'. split; [exact Hs|exact Hh].
Defined.
Lemma failed_init_returns_witness :
  ∃ s1 s2, rtc (sthread_step (λ _, Some true)) demo_waiting s1 ∧
    sexec (λ _, Some true) (SInitEnds 0) s1 = Some (tt, s2) ∧ context (data s2) = false.
Proof.
  destruct (proj1 (failed_init_returns (λ _, Some true) demo_waiting 0 demo_fits_zero (demo_reachable _ demo_waiting_run)
    demo_waiting_calm demo_waiting_client) (conj eq_refl demo_waiting_quit)) as (s1 & s2 & Hs & _ & _ & E & _ & Hc & _).
  exists s1, s2. split; [exact Hs|]. split; [exact E|exact Hc].
Defined.

(** If the word behind the context is null nothing wakes loc_init: after the
    one round of the thread only a return without a signal can happen. *)
Definition demo_stuck : service :=
  let s := after_calls (λ _, Some false) [SInit demo_callbacks false true true true []] in
  match sexec (λ _, Some false) (SThread 0 0 []) s with Some (_, s') => s' | None => s end.
Lemma init_never_returns e : senabled e demo_stuck → ∃ c, e = SInitEnds c ∧ ¬ EngCtx.signalled loc_afw_client (ctx demo_stuck).
Proof.
  assert (EngCtx.clients (ctx demo_stuck) !! loc_afw_client = Some (Dropping 0)) as Hc by (vm_compute; reflexivity).
  assert (EngCtx.cond_woken (ctx demo_stuck) = []) as Hw by (vm_compute; reflexivity).
  assert (EngCtx.threads (ctx demo_stuck) = {[0%nat := Returned]}) as Ht by (vm_compute; reflexivity).
  destruct e as [callbacks adapter ok1 ok2 okq mem|c|e mem|pick c mem]; cbn [senabled].
  - intros (_ & _ & [?|[[c ?] _]]); congruence.
  - intros _. exists c. split; [done|]. unfold EngCtx.signalled. rewrite Hw. apply not_elem_of_nil.
  - intros ([c ?] & _). congruence.
  - intros [Hr _]. rewrite Ht in Hr. by apply EngCtx.singleton_lookup in Hr as [_ [=]].
Qed.
