(* ===== verification/LocLog.v ===== *)
(** * The texts of the log: gps/utils/loc_log.cpp, log_util.h and
    libloc_api_50001/loc_eng_log.cpp

    The names the log prints for the values of the program, the macros that
    decide whether and how a line is printed, and the two time stamps.  The
    functions ALOGE ... ALOGV of the system, the clock and [localtime_r] are
    outside: a macro answers the call it makes, the clock is an argument. *)

From stdpp Require Import pretty.
From Stdlib Require Import String Ascii.
From S2P Require Import Prelude MsgQueue Agps LocCfg Nmea Ni EngMsg LocEng LocHal.
Local Open Scope Z_scope.

(** ** Values only the log names *)

Definition AGPS_TYPE_ANY : Z := 0.
Definition AGPS_APN_BEARER_INVALID : Z := -1.
Definition AGPS_APN_BEARER_IPV6 : Z := 1.
Definition AGPS_APN_BEARER_IPV4V6 : Z := 2.
Definition GPS_DELETE_EPHEMERIS : Z := 0x0001.
Definition GPS_DELETE_ALMANAC : Z := 0x0002.
Definition GPS_DELETE_POSITION : Z := 0x0004.
Definition GPS_DELETE_TIME : Z := 0x0008.
Definition GPS_DELETE_IONO : Z := 0x0010.
Definition GPS_DELETE_UTC : Z := 0x0020.
Definition GPS_DELETE_HEALTH : Z := 0x0040.
Definition GPS_DELETE_SVDIR : Z := 0x0080.
Definition GPS_DELETE_SVSTEER : Z := 0x0100.
Definition GPS_DELETE_SADATA : Z := 0x0200.
Definition GPS_DELETE_RTI : Z := 0x0400.
Definition GPS_DELETE_CELLDB_INFO : Z := 0x8000.
Definition GPS_NI_TYPE_VOICE : Z := 1.
Definition GPS_NI_TYPE_UMTS_SUPL : Z := 2.
Definition GPS_NI_TYPE_UMTS_CTRL_PLANE : Z := 3.
Definition GPS_ENC_NONE : Z := 0.
Definition GPS_ENC_SUPL_GSM_DEFAULT : Z := 1.
Definition GPS_ENC_SUPL_UTF8 : Z := 2.
Definition GPS_ENC_SUPL_UCS2 : Z := 3.
Definition GPS_ENC_UNKNOWN : Z := -1.
Definition GPS_AGPS_DATA_CONNECTED : Z := 3.
Definition GPS_AGPS_DATA_CONN_DONE : Z := 4.
Definition GPS_AGPS_DATA_CONN_FAILED : Z := 5.
Definition LOC_POSITION_MODE_RESERVED_1 : Z := 3.
Definition LOC_POSITION_MODE_RESERVED_2 : Z := 4.
Definition LOC_POSITION_MODE_RESERVED_3 : Z := 5.
Definition LOC_POSITION_MODE_RESERVED_4 : Z := 6.
Definition LOC_POSITION_MODE_RESERVED_5 : Z := 7.
Definition ULP_MSG_REQUEST_COARSE_POSITION : Z := 0x606.
Definition ULP_MSG_MONITOR : Z := 0x607.

(** The values of [msq_q_err_type]. *)
Definition msq_q_err_val (e : msq_q_err_type) : Z :=
  match e with
  | eMSG_Q_SUCCESS => 0
  | eMSG_Q_FAILURE_GENERAL => -1
  | eMSG_Q_INVALID_PARAMETER => -2
  | eMSG_Q_INVALID_HANDLE => -3
  | eMSG_Q_UNAVAILABLE_RESOURCE => -4
  | eMSG_Q_INSUFFICIENT_BUFFER => -5
  end.

(** ** Names of values *)

Record loc_name_val_s_type := NameVal { nv_name : string; nv_val : Z }.
Definition UNKNOWN_STR : string := "UNKNOWN".

(** The loops over [table_size] entries; [long] is 32 bits wide. *)
Fixpoint loc_get_name_from_mask (table : list loc_name_val_s_type) (mask : Z) : string :=
  match table with
  | [] => UNKNOWN_STR
  | e :: table => if truth (Z.land (nv_val e) mask) then nv_name e else loc_get_name_from_mask table mask
  end.
Fixpoint loc_get_name_from_val (table : list loc_name_val_s_type) (value : Z) : string :=
  match table with
  | [] => UNKNOWN_STR
  | e :: table => if nv_val e =? value then nv_name e else loc_get_name_from_val table value
  end.

Definition loc_msg_q_status : list loc_name_val_s_type := [
  NameVal "eMSG_Q_SUCCESS" (msq_q_err_val eMSG_Q_SUCCESS);
  NameVal "eMSG_Q_FAILURE_GENERAL" (msq_q_err_val eMSG_Q_FAILURE_GENERAL);
  NameVal "eMSG_Q_INVALID_PARAMETER" (msq_q_err_val eMSG_Q_INVALID_PARAMETER);
  NameVal "eMSG_Q_INVALID_HANDLE" (msq_q_err_val eMSG_Q_INVALID_HANDLE);
  NameVal "eMSG_Q_UNAVAILABLE_RESOURCE" (msq_q_err_val eMSG_Q_UNAVAILABLE_RESOURCE);
  NameVal "eMSG_Q_INSUFFICIENT_BUFFER" (msq_q_err_val eMSG_Q_INSUFFICIENT_BUFFER)].
Definition loc_get_msg_q_status (status : Z) : string := loc_get_name_from_val loc_msg_q_status status.

Definition log_succ_fail_string (is_succ : Z) : string := if truth is_succ then "successful" else "failed".

Definition gps_status_name : list loc_name_val_s_type := [
  NameVal "GPS_STATUS_NONE" GPS_STATUS_NONE;
  NameVal "GPS_STATUS_SESSION_BEGIN" GPS_STATUS_SESSION_BEGIN;
  NameVal "GPS_STATUS_SESSION_END" GPS_STATUS_SESSION_END;
  NameVal "GPS_STATUS_ENGINE_ON" GPS_STATUS_ENGINE_ON;
  NameVal "GPS_STATUS_ENGINE_OFF" GPS_STATUS_ENGINE_OFF].
Definition loc_get_gps_status_name (gps_status : Z) : string := loc_get_name_from_val gps_status_name gps_status.

Definition loc_eng_msgs : list loc_name_val_s_type := [
  NameVal "LOC_ENG_MSG_QUIT" LOC_ENG_MSG_QUIT;
  NameVal "LOC_ENG_MSG_ENGINE_DOWN" LOC_ENG_MSG_ENGINE_DOWN;
  NameVal "LOC_ENG_MSG_ENGINE_UP" LOC_ENG_MSG_ENGINE_UP;
  NameVal "LOC_ENG_MSG_START_FIX" LOC_ENG_MSG_START_FIX;
  NameVal "LOC_ENG_MSG_STOP_FIX" LOC_ENG_MSG_STOP_FIX;
  NameVal "LOC_ENG_MSG_SET_POSITION_MODE" LOC_ENG_MSG_SET_POSITION_MODE;
  NameVal "LOC_ENG_MSG_SET_TIME" LOC_ENG_MSG_SET_TIME;
  NameVal "LOC_ENG_MSG_INJECT_XTRA_DATA" LOC_ENG_MSG_INJECT_XTRA_DATA;
  NameVal "LOC_ENG_MSG_INJECT_LOCATION" LOC_ENG_MSG_INJECT_LOCATION;
  NameVal "LOC_ENG_MSG_DELETE_AIDING_DATA" LOC_ENG_MSG_DELETE_AIDING_DATA;
  NameVal "LOC_ENG_MSG_SET_APN" LOC_ENG_MSG_SET_APN;
  NameVal "LOC_ENG_MSG_SET_SERVER_URL" LOC_ENG_MSG_SET_SERVER_URL;
  NameVal "LOC_ENG_MSG_SET_SERVER_IPV4" LOC_ENG_MSG_SET_SERVER_IPV4;
  NameVal "LOC_ENG_MSG_ENABLE_DATA" LOC_ENG_MSG_ENABLE_DATA;
  NameVal "LOC_ENG_MSG_SUPL_VERSION" LOC_ENG_MSG_SUPL_VERSION;
  NameVal "LOC_ENG_MSG_SET_SENSOR_CONTROL_CONFIG" LOC_ENG_MSG_SET_SENSOR_CONTROL_CONFIG;
  NameVal "LOC_ENG_MSG_SET_SENSOR_PROPERTIES" LOC_ENG_MSG_SET_SENSOR_PROPERTIES;
  NameVal "LOC_ENG_MSG_SET_SENSOR_PERF_CONTROL_CONFIG" LOC_ENG_MSG_SET_SENSOR_PERF_CONTROL_CONFIG;
  NameVal "LOC_ENG_MSG_MUTE_SESSION" LOC_ENG_MSG_MUTE_SESSION;
  NameVal "LOC_ENG_MSG_ATL_OPEN_SUCCESS" LOC_ENG_MSG_ATL_OPEN_SUCCESS;
  NameVal "LOC_ENG_MSG_ATL_CLOSED" LOC_ENG_MSG_ATL_CLOSED;
  NameVal "LOC_ENG_MSG_ATL_OPEN_FAILED" LOC_ENG_MSG_ATL_OPEN_FAILED;
  NameVal "LOC_ENG_MSG_REPORT_POSITION" LOC_ENG_MSG_REPORT_POSITION;
  NameVal "LOC_ENG_MSG_REPORT_SV" LOC_ENG_MSG_REPORT_SV;
  NameVal "LOC_ENG_MSG_REPORT_STATUS" LOC_ENG_MSG_REPORT_STATUS;
  NameVal "LOC_ENG_MSG_REPORT_NMEA" LOC_ENG_MSG_REPORT_NMEA;
  NameVal "LOC_ENG_MSG_REQUEST_ATL" LOC_ENG_MSG_REQUEST_ATL;
  NameVal "LOC_ENG_MSG_RELEASE_ATL" LOC_ENG_MSG_RELEASE_ATL;
  NameVal "LOC_ENG_MSG_REQUEST_BIT" LOC_ENG_MSG_REQUEST_BIT;
  NameVal "LOC_ENG_MSG_RELEASE_BIT" LOC_ENG_MSG_RELEASE_BIT;
  NameVal "LOC_ENG_MSG_REQUEST_WIFI" LOC_ENG_MSG_REQUEST_WIFI;
  NameVal "LOC_ENG_MSG_RELEASE_WIFI" LOC_ENG_MSG_RELEASE_WIFI;
  NameVal "LOC_ENG_MSG_REQUEST_NI" LOC_ENG_MSG_REQUEST_NI;
  NameVal "LOC_ENG_MSG_INFORM_NI_RESPONSE" LOC_ENG_MSG_INFORM_NI_RESPONSE;
  NameVal "LOC_ENG_MSG_REQUEST_XTRA_DATA" LOC_ENG_MSG_REQUEST_XTRA_DATA;
  NameVal "LOC_ENG_MSG_REQUEST_TIME" LOC_ENG_MSG_REQUEST_TIME;
  NameVal "LOC_ENG_MSG_EXT_POWER_CONFIG" LOC_ENG_MSG_EXT_POWER_CONFIG;
  NameVal "LOC_ENG_MSG_REQUEST_POSITION" LOC_ENG_MSG_REQUEST_POSITION;
  NameVal "LOC_ENG_MSG_REQUEST_PHONE_CONTEXT" LOC_ENG_MSG_REQUEST_PHONE_CONTEXT;
  NameVal "LOC_ENG_MSG_REQUEST_NETWORK_POSIITON" LOC_ENG_MSG_REQUEST_NETWORK_POSIITON;
  NameVal "ULP_MSG_UPDATE_CRITERIA" ULP_MSG_UPDATE_CRITERIA;
  NameVal "ULP_MSG_START_FIX" ULP_MSG_START_FIX;
  NameVal "ULP_MSG_STOP_FIX" ULP_MSG_STOP_FIX;
  NameVal "ULP_MSG_INJECT_PHONE_CONTEXT_SETTINGS" ULP_MSG_INJECT_PHONE_CONTEXT_SETTINGS;
  NameVal "ULP_MSG_INJECT_NETWORK_POSITION" ULP_MSG_INJECT_NETWORK_POSITION;
  NameVal "ULP_MSG_REPORT_QUIPC_POSITION" ULP_MSG_REPORT_QUIPC_POSITION;
  NameVal "ULP_MSG_REQUEST_COARSE_POSITION" ULP_MSG_REQUEST_COARSE_POSITION;
  NameVal "LOC_ENG_MSG_LPP_CONFIG" LOC_ENG_MSG_LPP_CONFIG].
Definition loc_get_msg_name (id : Z) : string := loc_get_name_from_val loc_eng_msgs id.

Definition loc_eng_position_modes : list loc_name_val_s_type := [
  NameVal "LOC_POSITION_MODE_STANDALONE" LOC_POSITION_MODE_STANDALONE;
  NameVal "LOC_POSITION_MODE_MS_BASED" LOC_POSITION_MODE_MS_BASED;
  NameVal "LOC_POSITION_MODE_MS_ASSISTED" LOC_POSITION_MODE_MS_ASSISTED;
  NameVal "LOC_POSITION_MODE_RESERVED_1" LOC_POSITION_MODE_RESERVED_1;
  NameVal "LOC_POSITION_MODE_RESERVED_2" LOC_POSITION_MODE_RESERVED_2;
  NameVal "LOC_POSITION_MODE_RESERVED_3" LOC_POSITION_MODE_RESERVED_3;
  NameVal "LOC_POSITION_MODE_RESERVED_4" LOC_POSITION_MODE_RESERVED_4;
  NameVal "LOC_POSITION_MODE_RESERVED_5" LOC_POSITION_MODE_RESERVED_5].
(** [mode], [recur], [type] are unsigned and cast to [long]. *)
Definition loc_get_position_mode_name (mode : Z) : string :=
  loc_get_name_from_val loc_eng_position_modes (int32 mode).

Definition loc_eng_position_recurrences : list loc_name_val_s_type := [
  NameVal "GPS_POSITION_RECURRENCE_PERIODIC" GPS_POSITION_RECURRENCE_PERIODIC;
  NameVal "GPS_POSITION_RECURRENCE_SINGLE" GPS_POSITION_RECURRENCE_SINGLE].
Definition loc_get_position_recurrence_name (recur : Z) : string :=
  loc_get_name_from_val loc_eng_position_recurrences (int32 recur).

Definition loc_eng_aiding_data_bits : list loc_name_val_s_type := [
  NameVal "GPS_DELETE_EPHEMERIS" GPS_DELETE_EPHEMERIS;
  NameVal "GPS_DELETE_ALMANAC" GPS_DELETE_ALMANAC;
  NameVal "GPS_DELETE_POSITION" GPS_DELETE_POSITION;
  NameVal "GPS_DELETE_TIME" GPS_DELETE_TIME;
  NameVal "GPS_DELETE_IONO" GPS_DELETE_IONO;
  NameVal "GPS_DELETE_UTC" GPS_DELETE_UTC;
  NameVal "GPS_DELETE_HEALTH" GPS_DELETE_HEALTH;
  NameVal "GPS_DELETE_SVDIR" GPS_DELETE_SVDIR;
  NameVal "GPS_DELETE_SVSTEER" GPS_DELETE_SVSTEER;
  NameVal "GPS_DELETE_SADATA" GPS_DELETE_SADATA;
  NameVal "GPS_DELETE_RTI" GPS_DELETE_RTI;
  NameVal "GPS_DELETE_CELLDB_INFO" GPS_DELETE_CELLDB_INFO].
(** [NULL] *)
Definition loc_get_aiding_data_mask_names (data : Z) : option string := None.

Definition loc_eng_agps_types : list loc_name_val_s_type := [
  NameVal "AGPS_TYPE_INVALID" AGPS_TYPE_INVALID;
  NameVal "AGPS_TYPE_ANY" AGPS_TYPE_ANY;
  NameVal "AGPS_TYPE_SUPL" AGPS_TYPE_SUPL;
  NameVal "AGPS_TYPE_C2K" AGPS_TYPE_C2K;
  NameVal "AGPS_TYPE_WWAN_ANY" AGPS_TYPE_WWAN_ANY].
Definition loc_get_agps_type_name (type : Z) : string := loc_get_name_from_val loc_eng_agps_types type.

Definition loc_eng_ni_types : list loc_name_val_s_type := [
  NameVal "GPS_NI_TYPE_VOICE" GPS_NI_TYPE_VOICE;
  NameVal "GPS_NI_TYPE_UMTS_SUPL" GPS_NI_TYPE_UMTS_SUPL;
  NameVal "GPS_NI_TYPE_UMTS_CTRL_PLANE" GPS_NI_TYPE_UMTS_CTRL_PLANE].
Definition loc_get_ni_type_name (type : Z) : string := loc_get_name_from_val loc_eng_ni_types (int32 type).

Definition loc_eng_ni_responses : list loc_name_val_s_type := [
  NameVal "GPS_NI_RESPONSE_ACCEPT" GPS_NI_RESPONSE_ACCEPT;
  NameVal "GPS_NI_RESPONSE_DENY" GPS_NI_RESPONSE_DENY;
  NameVal "GPS_NI_RESPONSE_DENY" GPS_NI_RESPONSE_DENY].
Definition loc_get_ni_response_name (response : Z) : string := loc_get_name_from_val loc_eng_ni_responses response.

Definition loc_eng_ni_encodings : list loc_name_val_s_type := [
  NameVal "GPS_ENC_NONE" GPS_ENC_NONE;
  NameVal "GPS_ENC_SUPL_GSM_DEFAULT" GPS_ENC_SUPL_GSM_DEFAULT;
  NameVal "GPS_ENC_SUPL_UTF8" GPS_ENC_SUPL_UTF8;
  NameVal "GPS_ENC_SUPL_UCS2" GPS_ENC_SUPL_UCS2;
  NameVal "GPS_ENC_UNKNOWN" GPS_ENC_UNKNOWN].
Definition loc_get_ni_encoding_name (encoding : Z) : string := loc_get_name_from_val loc_eng_ni_encodings encoding.

Definition loc_eng_agps_bears : list loc_name_val_s_type := [
  NameVal "AGPS_APN_BEARER_INVALID" AGPS_APN_BEARER_INVALID;
  NameVal "AGPS_APN_BEARER_IPV4" AGPS_APN_BEARER_IPV4;
  NameVal "AGPS_APN_BEARER_IPV4" AGPS_APN_BEARER_IPV4;
  NameVal "AGPS_APN_BEARER_IPV4V6" AGPS_APN_BEARER_IPV4V6].
Definition loc_get_agps_bear_name (bearer : Z) : string := loc_get_name_from_val loc_eng_agps_bears bearer.

Definition loc_eng_server_types : list loc_name_val_s_type := [
  NameVal "LOC_AGPS_CDMA_PDE_SERVER" LOC_AGPS_CDMA_PDE_SERVER;
  NameVal "LOC_AGPS_CUSTOM_PDE_SERVER" LOC_AGPS_CUSTOM_PDE_SERVER;
  NameVal "LOC_AGPS_MPC_SERVER" LOC_AGPS_MPC_SERVER;
  NameVal "LOC_AGPS_SUPL_SERVER" LOC_AGPS_SUPL_SERVER].
Definition loc_get_server_type_name (type : Z) : string := loc_get_name_from_val loc_eng_server_types type.

Definition loc_eng_position_sess_status_types : list loc_name_val_s_type := [
  NameVal "LOC_SESS_SUCCESS" LOC_SESS_SUCCESS;
  NameVal "LOC_SESS_INTERMEDIATE" LOC_SESS_INTERMEDIATE;
  NameVal "LOC_SESS_FAILURE" LOC_SESS_FAILURE].
Definition loc_get_position_sess_status_name (status : Z) : string :=
  loc_get_name_from_val loc_eng_position_sess_status_types status.

Definition loc_eng_agps_status_names : list loc_name_val_s_type := [
  NameVal "GPS_REQUEST_AGPS_DATA_CONN" GPS_REQUEST_AGPS_DATA_CONN;
  NameVal "GPS_RELEASE_AGPS_DATA_CONN" GPS_RELEASE_AGPS_DATA_CONN;
  NameVal "GPS_AGPS_DATA_CONNECTED" GPS_AGPS_DATA_CONNECTED;
  NameVal "GPS_AGPS_DATA_CONN_DONE" GPS_AGPS_DATA_CONN_DONE;
  NameVal "GPS_AGPS_DATA_CONN_FAILED" GPS_AGPS_DATA_CONN_FAILED].
Definition loc_get_agps_status_name (status : Z) : string := loc_get_name_from_val loc_eng_agps_status_names status.

(** ** Time stamps *)

(** What [snprintf(dst, size, ...)] leaves in the buffer, before the NUL. *)
Definition snprintf (size : nat) (text : chars) : chars := take (size - 1) text.

Record timeval := Timeval { tv_sec : Z; tv_usec : Z }.

(** C division truncates. *)
Definition get_timestamp (buf_size : nat) (tv : timeval) : chars :=
  let hh := Z.rem (Z.quot (tv_sec tv) 3600) 24 in
  let mm := Z.quot (Z.rem (tv_sec tv) 3600) 60 in
  let ss := Z.rem (tv_sec tv) 60 in
  snprintf buf_size (fmt_d0 2 hh ++ str ":" ++ fmt_d0 2 mm ++ str ":" ++ fmt_d0 2 ss ++ str "." ++
                     fmt_d0 6 (tv_usec tv)).

(** [localtime_r] is a parameter; [strftime] prints "%H:%M:%S". *)
Definition loc_get_time (localtime_r : Z → tm) (buf_size : nat) (now : timeval) : chars :=
  let now_tm := localtime_r (tv_sec now) in
  let hms_string := fmt_d0 2 (tm_hour now_tm) ++ str ":" ++ fmt_d0 2 (tm_min now_tm) ++ str ":" ++
                    fmt_d0 2 (tm_sec now_tm) in
  snprintf buf_size (hms_string ++ str "." ++ fmt_d0 3 (Z.quot (tv_usec now) 1000)).

(** ** The macros: the call of the system they make, if any *)

Inductive alog := ALOGE | ALOGW | ALOGI | ALOGD | ALOGV.

Definition LOC_LOGE (debug : Z) (text : chars) : option (alog * chars) := Some (ALOGE, str "E/" ++ text).
Definition LOC_LOGW (debug : Z) (text : chars) : option (alog * chars) :=
  if 2 <=? debug then Some (ALOGE, str "W/" ++ text)
  else if debug <=? 0 then Some (ALOGW, str "W/" ++ text) else None.
Definition LOC_LOGI (debug : Z) (text : chars) : option (alog * chars) :=
  if 3 <=? debug then Some (ALOGE, str "I/" ++ text)
  else if debug <=? 0 then Some (ALOGI, str "W/" ++ text) else None.
Definition LOC_LOGD (debug : Z) (text : chars) : option (alog * chars) :=
  if 4 <=? debug then Some (ALOGE, str "D/" ++ text)
  else if debug <=? 0 then Some (ALOGD, str "W/" ++ text) else None.
Definition LOC_LOGV (debug : Z) (text : chars) : option (alog * chars) :=
  if 5 <=? debug then Some (ALOGE, str "V/" ++ text)
  else if debug <=? 0 then Some (ALOGV, str "W/" ++ text) else None.

Definition VOID_RET : chars := str "None".
Definition FROM_AFW : chars := str "===>".
Definition TO_MODEM : chars := str "--->".
Definition FROM_MODEM : chars := str "<---".
Definition TO_AFW : chars := str "<===".
Definition EXIT_TAG : chars := str "Exiting".
Definition ENTRY_TAG : chars := str "Entering".

(** [logger]: [loc_logger]; [VAL]: the value as [SPEC] prints it. *)
Definition LOG_ (LOC_LOG : Z → chars → option (alog * chars)) (logger : Z * Z) (now : timeval)
    (ID WHAT : chars) (line : Z) (VAL : chars) : option (alog * chars) :=
  if truth logger.2 then
    LOC_LOG logger.1 (str "[" ++ get_timestamp 32 now ++ str "] " ++ ID ++ str " " ++ WHAT ++ str " line " ++
      fmt_d line ++ str " " ++ VAL)
  else LOC_LOG logger.1 (ID ++ str " " ++ WHAT ++ str " line " ++ fmt_d line ++ str " " ++ VAL).

Definition LOG_I := LOG_ LOC_LOGI.
Definition LOG_V := LOG_ LOC_LOGV.
Definition ENTRY_LOG (logger : Z * Z) (now : timeval) (func : chars) (line : Z) :=
  LOG_V logger now ENTRY_TAG func line [].
Definition EXIT_LOG (logger : Z * Z) (now : timeval) (func : chars) (line : Z) (VAL : chars) :=
  LOG_V logger now EXIT_TAG func line VAL.
Definition ENTRY_LOG_CALLFLOW (logger : Z * Z) (now : timeval) (func : chars) (line : Z) :=
  LOG_I logger now FROM_AFW func line [].
Definition EXIT_LOG_CALLFLOW (logger : Z * Z) (now : timeval) (func : chars) (line : Z) (VAL : chars) :=
  LOG_I logger now TO_MODEM func line VAL.
Definition MODEM_LOG_CALLFLOW (logger : Z * Z) (now : timeval) (func : chars) (line : Z) (VAL : chars) :=
  LOG_I logger now FROM_MODEM func line VAL.
Definition CALLBACK_LOG_CALLFLOW (logger : Z * Z) (now : timeval) (CB : chars) (line : Z) (VAL : chars) :=
  LOG_I logger now TO_AFW CB line VAL.

(** ** Names identify values *)

(** A table names no value twice, no two values alike and none UNKNOWN. *)
Definition distinct (table : list loc_name_val_s_type) : Prop :=
  NoDup (nv_val <$> table) ∧ NoDup (UNKNOWN_STR :: (nv_name <$> table)).

Lemma name_from_val table v :
  (loc_get_name_from_val table v = UNKNOWN_STR ∧ v ∉ nv_val <$> table) ∨
  (∃ e, e ∈ table ∧ nv_val e = v ∧ loc_get_name_from_val table v = nv_name e).
Proof.
  induction table as [|e table IH]; cbn; [left; split; [done|apply not_elem_of_nil]|].
  destruct (Z.eqb_spec (nv_val e) v) as [Hv|Hv].
  - right. exists e. split; [by left|done].
  - destruct IH as [[Hu Hn]|(e' & He & Hv' & Hn)].
    + left. split; [done|]. by intros [->|]%elem_of_cons.
    + right. exists e'. split; [by right|done].
Qed.

Lemma NoDup_fmap_eq {A B} (f : A → B) (l : list A) x y :
  NoDup (f <$> l) → x ∈ l → y ∈ l → f x = f y → x = y.
Proof.
  intros Hn Hx Hy Hf. apply list_elem_of_lookup in Hx as [i Hi]. apply list_elem_of_lookup in Hy as [j Hj].
  assert (i = j) as ->; [|congruence].
  eapply NoDup_lookup; [exact Hn| |]; rewrite list_lookup_fmap.
  - by rewrite Hi.
  - by rewrite Hj, Hf.
Qed.

Lemma distinct_names table v v' :
  distinct table → loc_get_name_from_val table v = loc_get_name_from_val table v' →
  loc_get_name_from_val table v ≠ UNKNOWN_STR → v = v'.
Proof.
  intros [_ [_ Hn]%NoDup_cons] Heq Hu.
  destruct (name_from_val table v) as [[? _]|(e & He & <- & Hne)]; [done|].
  destruct (name_from_val table v') as [[Hu' _]|(e' & He' & <- & Hne')]; [congruence|].
  f_equal. apply (NoDup_fmap_eq nv_name table); [done..|]. congruence.
Qed.

Lemma distinct_value table e : distinct table → e ∈ table → loc_get_name_from_val table (nv_val e) = nv_name e.
Proof.
  intros [Hv _] He. destruct (name_from_val table (nv_val e)) as [[_ Hn]|(e' & He' & Hve & ->)].
  - destruct Hn. by apply list_elem_of_fmap_2.
  - f_equal. by apply (NoDup_fmap_eq nv_val table).
Qed.

(** The tables of the log in which every value has its name. *)
Definition faithful_tables : list (list loc_name_val_s_type) :=
  [loc_msg_q_status; gps_status_name; loc_eng_msgs; loc_eng_position_modes; loc_eng_position_recurrences;
   loc_eng_aiding_data_bits; loc_eng_agps_types; loc_eng_ni_types; loc_eng_ni_encodings; loc_eng_server_types;
   loc_eng_position_sess_status_types; loc_eng_agps_status_names].

#[export] Instance distinct_dec table : Decision (distinct table).
Proof. apply _. Defined.

Lemma faithful_distinct table : table ∈ faithful_tables → distinct table.
Proof.
  assert (Forall distinct faithful_tables) as H by by_compute.
  intros Ht. by apply (proj1 (Forall_forall _ _) H).
Qed.

(** What the log prints tells the value: in every table but those of the
    answers and of the bearers, each value listed gets its own name and no
    other value gets it. *)
Theorem names_identify table e v :
  table ∈ faithful_tables → e ∈ table →
  loc_get_name_from_val table v = nv_name e ↔ v = nv_val e.
Proof.
  intros Ht He. apply faithful_distinct in Ht. pose proof (distinct_value table e Ht He) as Hv. split.
  - intros Hn. apply (distinct_names table); [done|congruence|]. rewrite Hn. intros Hu.
    destruct Ht as [_ [Hno _]%NoDup_cons]. apply Hno. rewrite <- Hu. by apply list_elem_of_fmap_2.
  - by intros ->.
Qed.
Lemma names_identify_witness :
  loc_get_msg_name 0x203 = "LOC_ENG_MSG_START_FIX" ↔ 0x203 = LOC_ENG_MSG_START_FIX.
Proof.
  apply (names_identify loc_eng_msgs (NameVal "LOC_ENG_MSG_START_FIX" LOC_ENG_MSG_START_FIX)).
  - right. right. left.
  - right. right. right. left.
Defined.

(** In the other two a value is missing, its predecessor listed twice. *)
Lemma names_missing :
  loc_get_ni_response_name GPS_NI_RESPONSE_NORESP = UNKNOWN_STR ∧
  loc_get_agps_bear_name AGPS_APN_BEARER_IPV6 = UNKNOWN_STR ∧
  loc_get_agps_type_name AGPS_TYPE_WIFI = UNKNOWN_STR ∧
  loc_get_msg_name ULP_MSG_MONITOR = UNKNOWN_STR ∧ loc_get_msg_name ULP_MSG_INJECT_RAW_COMMAND = UNKNOWN_STR.
Proof. vm_compute. done. Qed.

(** A message the log cannot name is not one the thread of the engine knows. *)
Lemma unnamed_message_unsupported `{EngEnv} msg s :
  loc_get_msg_name (msgid msg) = UNKNOWN_STR → deferred_switch msg s = Some (true, s).
Proof.
  intros Hu. assert (∀ e, e ∈ loc_eng_msgs → (msgid msg =? nv_val e) = false) as Hid.
  { intros e He. apply Z.eqb_neq. intros Hm. unfold loc_get_msg_name in Hu. rewrite Hm in Hu.
    assert (distinct loc_eng_msgs) as Ht by (apply faithful_distinct; right; right; left).
    rewrite (distinct_value _ e Ht He) in Hu. destruct Ht as [_ [Hno _]%NoDup_cons].
    apply Hno. rewrite <- Hu. by apply list_elem_of_fmap_2. }
  apply Forall_forall in Hid. unfold loc_eng_msgs in Hid.
  repeat match goal with H : Forall _ (_ :: _) |- _ => apply Forall_cons in H as [? H] end.
  cbn [nv_val] in *. unfold deferred_switch.
  repeat match goal with H : (msgid msg =? ?v) = false |- _ => rewrite ?H; clear H end. reflexivity.
Qed.

(** ** Time stamps are read back *)

Lemma digits_app acc s t :
  Forall (λ c, digit 10 c ≠ None) s → digits 10 acc (s ++ t) = digits 10 (digits 10 acc s) t.
Proof.
  intros Hs. revert acc. induction Hs as [|c s Hc Hs IH]; intros acc; [done|].
  cbn. destruct (digit 10 c); [apply IH|done].
Qed.
Lemma digit_char x : (x < 10)%N → digit 10 (pretty_N_char x) = Some (Z.of_N x).
Proof.
  intros Hx. assert (x = 0 ∨ x = 1 ∨ x = 2 ∨ x = 3 ∨ x = 4 ∨ x = 5 ∨ x = 6 ∨ x = 7 ∨ x = 8 ∨ x = 9)%N
    as Hc by lia.
  repeat destruct Hc as [->|Hc]; subst; reflexivity.
Qed.
Lemma pretty_go_digits x : ∀ s, ∃ d, str (pretty_N_go x s) = d ++ str s ∧
  Forall (λ c, digit 10 c ≠ None) d ∧ digits 10 0 d = Z.of_N x ∧
  (∀ w, (x < 10 ^ N.of_nat w)%N → (length d ≤ w)%nat).
Proof.
  induction (N.lt_wf_0 x) as [x _ IH]. intros s. destruct (decide (x = 0)%N) as [->|Hx].
  { exists []. rewrite pretty_N_go_0. repeat split; [constructor|]. cbn. lia. }
  assert (x `mod` 10 < 10)%N as Hm by (by apply N.mod_lt).
  rewrite pretty_N_go_step by lia.
  destruct (IH (x `div` 10)%N (N.div_lt x 10 ltac:(lia) eq_refl) (String (pretty_N_char (x `mod` 10)) s))
    as (d & -> & Hd & Hv & Hl).
  exists (d ++ [pretty_N_char (x `mod` 10)]). split; [cbn; by rewrite <- (assoc_L (++))|].
  split; [apply Forall_app; split; [done|]; constructor; [by rewrite digit_char|constructor]|]. split.
  - rewrite digits_app by done. rewrite Hv. cbn. rewrite digit_char by done.
    rewrite (N.div_mod x 10) at 3 by done. lia.
  - intros w Hw. rewrite length_app. cbn. destruct w as [|w]; [cbn in Hw; lia|].
    specialize (Hl w). rewrite Nat2N.inj_succ, N.pow_succ_r' in Hw.
    enough (length d ≤ w)%nat by lia. apply Hl. apply N.Div0.div_lt_upper_bound. lia.
Qed.

Lemma digits_of_read z w : 0 ≤ z < 10 ^ Z.of_nat w → (1 ≤ w)%nat →
  Forall (λ c, digit 10 c ≠ None) (digits_of z) ∧ digits 10 0 (digits_of z) = z ∧ (length (digits_of z) ≤ w)%nat.
Proof.
  intros Hz Hw. unfold digits_of. rewrite Z.abs_eq by lia. destruct z as [|p|p]; [|..|lia].
  { split; [repeat constructor; done|]. split; [done|]. cbn. lia. }
  change (pretty (Z.pos p)) with (pretty_N_go (N.pos p) "").
  destruct (pretty_go_digits (N.pos p) "") as (d & Hd & Hall & Hv & Hl).
  change (str "") with (@nil ascii) in Hd. rewrite app_nil_r in Hd. unfold str in *. unfold Nmea.str. rewrite Hd.
  split; [done|]. split; [done|]. apply Hl. apply N2Z.inj_lt. rewrite N2Z.inj_pow, nat_N_Z. cbn. lia.
Qed.

(** A number printed with as many places as it has digits at most. *)
Lemma fmt_d0_read z w : 0 ≤ z < 10 ^ Z.of_nat w → (1 ≤ w)%nat →
  length (fmt_d0 w z) = w ∧ Forall (λ c, digit 10 c ≠ None) (fmt_d0 w z) ∧ digits 10 0 (fmt_d0 w z) = z.
Proof.
  intros Hz Hw. destruct (digits_of_read z w Hz Hw) as (Hd & Hv & Hl).
  unfold fmt_d0. destruct (Z.ltb_spec z 0); [lia|]. cbn [app length]. rewrite Nat.sub_0_r.
  split; [rewrite length_app, length_replicate; lia|].
  assert (Forall (λ c, digit 10 c ≠ None) (replicate (w - length (digits_of z)) "0"%char)) as Hr
    by (by apply Forall_replicate).
  split; [by apply Forall_app|]. rewrite digits_app by done.
  assert (∀ n, digits 10 0 (replicate n "0"%char) = 0) as -> by (induction n; [done|exact IHn]). done.
Qed.

(** A reader of the time stamp: seconds of the day and microseconds. *)
Definition read_clock (s : chars) : option (Z * Z) :=
  let num i n := digits 10 0 (take n (drop i s)) in
  if bool_decide (length s = 15%nat ∧ s !! 2%nat = Some ":"%char ∧ s !! 5%nat = Some ":"%char ∧
      s !! 8%nat = Some "."%char)
  then Some (3600 * num 0%nat 2%nat + 60 * num 3%nat 2%nat + num 6%nat 2%nat, num 9%nat 6%nat) else None.

Lemma read_clock_pieces h m s u :
  length h = 2%nat → length m = 2%nat → length s = 2%nat → length u = 6%nat →
  let text := h ++ str ":" ++ m ++ str ":" ++ s ++ str "." ++ u in
  length text = 15%nat ∧
  read_clock text = Some (3600 * digits 10 0 h + 60 * digits 10 0 m + digits 10 0 s, digits 10 0 u).
Proof.
  intros Lh Lm Ls Lu text. assert (length text = 15%nat) as Hl by (unfold text; rewrite !length_app; cbn; lia).
  split; [done|]. unfold read_clock. subst text.
  destruct h as [|h1 [|h2 [|]]], m as [|m1 [|m2 [|]]], s as [|s1 [|s2 [|]]]; try discriminate.
  rewrite bool_decide_eq_true_2 by done. cbn [drop app]. do 2 f_equal.
  by rewrite (take_ge u) by lia.
Qed.

Lemma clock_arith sec : 0 ≤ sec →
  0 ≤ Z.rem (Z.quot sec 3600) 24 < 100 ∧ 0 ≤ Z.quot (Z.rem sec 3600) 60 < 100 ∧ 0 ≤ Z.rem sec 60 < 100 ∧
  sec mod 86400 = 3600 * Z.rem (Z.quot sec 3600) 24 + 60 * Z.quot (Z.rem sec 3600) 60 + Z.rem sec 60.
Proof.
  intros Hs. pose proof (Z.div_pos sec 3600 Hs ltac:(lia)) as Hq. pose proof (Z.mod_pos_bound sec 3600 ltac:(lia)) as Hr.
  rewrite (Z.quot_div_nonneg sec), (Z.rem_mod_nonneg sec 3600), (Z.rem_mod_nonneg sec 60) by lia.
  rewrite Z.rem_mod_nonneg, Z.quot_div_nonneg by lia.
  pose proof (Z.mod_pos_bound (sec / 3600) 24 ltac:(lia)). pose proof (Z.mod_pos_bound sec 60 ltac:(lia)).
  assert (0 ≤ sec mod 3600 / 60 < 100) by (split; [apply Z.div_pos|apply Z.div_lt_upper_bound]; lia).
  repeat (split; [lia|]).
  assert (sec mod 86400 = sec mod 3600 + 3600 * ((sec / 3600) mod 24)) as -> by (by apply (Z.rem_mul_r sec 3600 24)).
  assert (sec mod 3600 = sec mod 60 + 60 * (sec mod 3600 / 60)) as Hm; [|lia].
  pose proof (Z.div_mod (sec mod 3600) 60 ltac:(lia)) as Hd.
  assert (sec mod 3600 mod 60 = sec mod 60) as Hmm; [|lia].
  apply Z.mod_mod_divide. by exists 60.
Qed.

(** The time stamp in front of a line of the log is the time of the day. *)
Theorem timestamp_roundtrip buf_size tv :
  (16 ≤ buf_size)%nat → 0 ≤ tv_sec tv → 0 ≤ tv_usec tv < 1000000 →
  read_clock (get_timestamp buf_size tv) = Some (tv_sec tv mod 86400, tv_usec tv).
Proof.
  intros Hb Hs Hu. unfold get_timestamp, snprintf. set (sec := tv_sec tv) in *.
  assert (0 ≤ Z.rem (Z.quot sec 3600) 24 < 100 ∧ 0 ≤ Z.quot (Z.rem sec 3600) 60 < 100 ∧ 0 ≤ Z.rem sec 60 < 100 ∧
    sec mod 86400 = 3600 * Z.rem (Z.quot sec 3600) 24 + 60 * Z.quot (Z.rem sec 3600) 60 + Z.rem sec 60)
    as (Hh & Hm & Hss & ->) by (by apply clock_arith).
  destruct (fmt_d0_read _ 2 Hh) as (Lh & _ & Vh); [lia|].
  destruct (fmt_d0_read _ 2 Hm) as (Lm & _ & Vm); [lia|].
  destruct (fmt_d0_read _ 2 Hss) as (Ls & _ & Vs); [lia|].
  destruct (fmt_d0_read (tv_usec tv) 6) as (Lu & _ & Vu); [lia|lia|].
  destruct (read_clock_pieces _ _ _ _ Lh Lm Ls Lu) as [Hl Hr].
  rewrite take_ge by lia. rewrite Hr. by rewrite Vh, Vm, Vs, Vu.
Qed.
Lemma timestamp_roundtrip_witness :
  read_clock (get_timestamp 32 (Timeval 1400000000 42)) = Some (60800, 42).
Proof. apply (timestamp_roundtrip 32 (Timeval 1400000000 42)); cbn; lia. Defined.

(** ** Levels *)

(** The macros with their levels. *)
Definition leveled : list (Z * (Z → chars → option (alog * chars))) :=
  [(1, LOC_LOGE); (2, LOC_LOGW); (3, LOC_LOGI); (4, LOC_LOGD); (5, LOC_LOGV)].

(** A line is printed when its level does not exceed the one of the
    configuration, which is 0 to print everything; above 0 it is printed as an
    error whatever its level. *)
Lemma log_levels debug text : 0 ≤ debug →
  Forall (λ lm, (is_Some (lm.2 debug text) ↔ debug = 0 ∨ lm.1 ≤ debug ∨ lm.1 = 1) ∧
    (0 < debug → ∀ c, lm.2 debug text = Some c → c.1 = ALOGE)) leveled.
Proof.
  intros Hd. unfold leveled, LOC_LOGE, LOC_LOGW, LOC_LOGI, LOC_LOGD, LOC_LOGV.
  repeat (apply Forall_cons; split); [cbn [fst snd]..|constructor].
  all: repeat match goal with |- context [?a <=? ?b] => destruct (Z.leb_spec a b) end.
  all: split; [split; [intros [? [=]]; lia|intros; eauto; lia]|intros ? ? [= <-]; done || lia].
Qed.

(** At level 0 the debug lines are marked as warnings. *)
Lemma log_marks_wrong text : LOC_LOGD 0 text = Some (ALOGD, str "W/" ++ text).
Proof. done. Qed.
