(* ===== verification/Camera.v ===== *)
(** * The camera wrapper: camera/CameraWrapper.cpp

    The wrapper stands between the camera service and the vendor's camera
    module: most functions of a device are passed on, a few keep track of the
    preview or change the parameters.  The module is outside the program: its
    calls are recorded, in order, and what they answer may depend on all calls
    so far.  [malloc] is a parameter, the memory of the wrapper a map of live
    blocks; a block that is not live cannot be used.  The class
    [CameraParameters] of the framework is an interface with its laws.  The
    functions are not interleaved; logging and the heap tracker are omitted. *)

From Stdlib Require Import Ascii.
From S2P Require Import Prelude LocCfg.
Local Open Scope Z_scope.

Definition REAR_CAMERA_ID : Z := 0.
Definition FRONT_CAMERA_ID : Z := 1.
Definition EINVAL : Z := 22.
Definition ENOMEM : Z := 12.
Definition NO_ERROR : Z := 0.

(** ** What is outside *)

(** Neither '=' nor ';', which separate the parameters in a text. *)
Definition clean (s : chars) : bool := forallb (λ c, negb (code c =? 61) && negb (code c =? 59)) s.

(** [android::CameraParameters] *)
Class CameraParameters := {
  params : Type;
  unflatten : chars → params;
  flatten : params → chars;
  set : chars → chars → params → params;
  get : chars → params → option chars;
  KEY_SUPPORTED_FOCUS_MODES : chars;
  KEY_PREFERRED_PREVIEW_SIZE_FOR_VIDEO : chars;
  KEY_ROTATION : chars;
  KEY_RECORDING_HINT : chars
}.

(** The functions of a camera device ([camera_device_ops_t]); [P] stands for the
    texts that [put_parameters] takes back, other pointers are numbers. *)
Inductive device_call (P : Type) :=
| D_set_preview_window (window : Z)
| D_set_callbacks (notify_cb data_cb data_cb_timestamp get_memory user : Z)
| D_enable_msg_type (msg_type : Z)
| D_disable_msg_type (msg_type : Z)
| D_msg_type_enabled (msg_type : Z)
| D_start_preview
| D_stop_preview
| D_preview_enabled
| D_store_meta_data_in_buffers (enable : Z)
| D_start_recording
| D_stop_recording
| D_recording_enabled
| D_release_recording_frame (opaque : Z)
| D_auto_focus
| D_cancel_auto_focus
| D_take_picture
| D_cancel_picture
| D_set_parameters (text : option chars)
| D_get_parameters
| D_put_parameters (text : P)
| D_send_command (cmd arg1 arg2 : Z)
| D_release
| D_dump (fd : Z).
Arguments D_set_preview_window {P}. Arguments D_set_callbacks {P}.
Arguments D_enable_msg_type {P}. Arguments D_disable_msg_type {P}.
Arguments D_msg_type_enabled {P}. Arguments D_start_preview {P}.
Arguments D_stop_preview {P}. Arguments D_preview_enabled {P}.
Arguments D_store_meta_data_in_buffers {P}. Arguments D_start_recording {P}.
Arguments D_stop_recording {P}. Arguments D_recording_enabled {P}.
Arguments D_release_recording_frame {P}. Arguments D_auto_focus {P}.
Arguments D_cancel_auto_focus {P}. Arguments D_take_picture {P}.
Arguments D_cancel_picture {P}. Arguments D_set_parameters {P}.
Arguments D_get_parameters {P}. Arguments D_put_parameters {P}.
Arguments D_send_command {P}. Arguments D_release {P}. Arguments D_dump {P}.

(** The calls of the vendor's module and of its devices. *)
Inductive vendor_call :=
| V_get_module                              (* hw_get_module_by_class *)
| V_get_number_of_cameras
| V_get_camera_info (camera_id : Z)
| V_open (name : chars)
| V_close (vendor : Z)
| V_device (vendor : Z) (c : device_call Z).

(** The answers, which may depend on the calls before. *)
Class CameraEnv := {
  vendor_rc : list vendor_call → vendor_call → Z;
  vendor_device : list vendor_call → option Z;       (* what open stores *)
  vendor_text : list vendor_call → option chars;     (* what get_parameters points to *)
  malloc_ok : positive → bool
}.

(** ** The wrapper's data *)

Record wrapper_camera_device := Wrapper {
  module : option Z;           (* base.common, once it is filled in *)
  ops : option positive;       (* base.ops *)
  id : Z;
  vendor : option Z
}.
(** The blocks it allocates: a wrapper, the table of the functions (and whether
    it is filled in), a text. *)
Inductive block := BWrapper (w : wrapper_camera_device) | BOps (filled : bool) | BText (s : chars).

Record camera := Camera {
  previewRunning : bool;
  restartPreview : bool;
  wasVideo : bool;
  gVendorModule : bool;             (* not NULL *)
  blocks : gmap positive block;     (* the live blocks *)
  next : positive;                  (* the address of the next one *)
  calls : list vendor_call          (* the calls of the vendor's code *)
}.
Definition set_previewRunning (v : bool) (s : camera) : camera :=
  Camera v (restartPreview s) (wasVideo s) (gVendorModule s) (blocks s) (next s) (calls s).
Definition set_restartPreview (v : bool) (s : camera) : camera :=
  Camera (previewRunning s) v (wasVideo s) (gVendorModule s) (blocks s) (next s) (calls s).
Definition set_wasVideo (v : bool) (s : camera) : camera :=
  Camera (previewRunning s) (restartPreview s) v (gVendorModule s) (blocks s) (next s) (calls s).
Definition set_gVendorModule (v : bool) (s : camera) : camera :=
  Camera (previewRunning s) (restartPreview s) (wasVideo s) v (blocks s) (next s) (calls s).
Definition set_blocks (v : gmap positive block) (s : camera) : camera :=
  Camera (previewRunning s) (restartPreview s) (wasVideo s) (gVendorModule s) v (next s) (calls s).
Definition set_next (v : positive) (s : camera) : camera :=
  Camera (previewRunning s) (restartPreview s) (wasVideo s) (gVendorModule s) (blocks s) v (calls s).
Definition set_calls (v : list vendor_call) (s : camera) : camera :=
  Camera (previewRunning s) (restartPreview s) (wasVideo s) (gVendorModule s) (blocks s) (next s) v.
Definition camera_init : camera := Camera false false false false ∅ 1 [].

(** ** The functions *)

Section camera.
Context `{Hparams : CameraParameters, Henv : CameraEnv}.
Abbreviation CM := (ST camera).

Definition vcall (c : vendor_call) : CM Z :=
  rc ← st_get (λ s, vendor_rc (calls s) c);
  _ ← st_modify (λ s, set_calls (calls s ++ [c]) s);
  mret rc.

(** [malloc] and what is stored there; [free]. *)
Definition alloc (b : block) : CM (option positive) :=
  p ← st_get next;
  _ ← st_modify (set_next (Pos.succ p));
  if malloc_ok p then
    _ ← st_modify (λ s, set_blocks (<[p:=b]> (blocks s)) s);
    mret (Some p)
  else mret None.
Definition free (p : positive) : CM unit :=
  _ ← st_read (λ s, blocks s !! p);
  st_modify (λ s, set_blocks (delete p (blocks s)) s).
Definition free_opt (p : option positive) : CM unit :=
  match p with Some p => free p | None => mret tt end.
Definition write (p : positive) (b : block) : CM unit :=
  _ ← st_read (λ s, blocks s !! p);
  st_modify (λ s, set_blocks (<[p:=b]> (blocks s)) s).
Definition wrapper_of (b : block) : option wrapper_camera_device :=
  match b with BWrapper w => Some w | _ => None end.
Definition read_wrapper (p : positive) : CM wrapper_camera_device :=
  st_read (λ s, blocks s !! p ≫= wrapper_of).
Definition strdup (s : chars) : CM (option positive) := alloc (BText s).

Definition VENDOR_CALL (device : positive) (c : device_call Z) : CM Z :=
  w ← read_wrapper device;
  v ← st_read (λ _, vendor w);
  vcall (V_device v c).
Definition CAMERA_ID (device : positive) : CM Z := w ← read_wrapper device; mret (id w).

Definition check_vendor_module : CM Z :=
  m ← st_get gVendorModule;
  if m : bool then mret 0
  else
    rv ← vcall V_get_module;
    _ ← st_modify (set_gVendorModule (rv =? 0));
    mret rv.

Definition video_size (id : Z) : chars := if negb (id =? 0) then str "640x480" else str "1280x720".
Definition fixup_get (id : Z) (p : params) : params :=
  let p := if id =? REAR_CAMERA_ID then
             set KEY_SUPPORTED_FOCUS_MODES (str "auto,macro,fixed,continuous-video,face-priority") p
           else p in
  let p := set KEY_PREFERRED_PREVIEW_SIZE_FOR_VIDEO (video_size id) p in
  let p := set KEY_ROTATION (str "0") p in
  set (str "preview-frame-rate-mode") (str "frame-rate-fixed") p.
Definition camera_fixup_getparams (id : Z) (settings : chars) : CM (option positive) :=
  strdup (flatten (fixup_get id (unflatten settings))).

(** The text is returned with its address, which is all the caller has. *)
Definition camera_fixup_setparams (id : Z) (settings : chars) : CM (option chars) :=
  let p := unflatten settings in
  let isVideo := bool_decide (get KEY_RECORDING_HINT p = Some (str "true")) in
  _ ← st_modify (λ s, set_wasVideo (isVideo || wasVideo s) s);
  _ ← st_modify (λ s,
        if (id =? REAR_CAMERA_ID) && previewRunning s && wasVideo s then set_restartPreview true s else s);
  tmp ← strdup (flatten p);
  mret (_ ← tmp; Some (flatten p)).

(** [if (!device) return bad;] *)
Definition on_device {A} (device : option positive) (bad : A) (f : positive → CM A) : CM A :=
  match device with None => mret bad | Some d => f d end.
Definition void (m : CM Z) : CM unit := _ ← m; mret tt.

Definition camera_set_preview_window (device : option positive) (window : Z) : CM Z :=
  on_device device (- EINVAL) (λ d, VENDOR_CALL d (D_set_preview_window window)).
Definition camera_set_callbacks (device : option positive)
    (notify_cb data_cb data_cb_timestamp get_memory user : Z) : CM unit :=
  on_device device tt (λ d, void (VENDOR_CALL d
    (D_set_callbacks notify_cb data_cb data_cb_timestamp get_memory user))).
Definition camera_enable_msg_type (device : option positive) (msg_type : Z) : CM unit :=
  on_device device tt (λ d, void (VENDOR_CALL d (D_enable_msg_type msg_type))).
Definition camera_disable_msg_type (device : option positive) (msg_type : Z) : CM unit :=
  on_device device tt (λ d, void (VENDOR_CALL d (D_disable_msg_type msg_type))).
Definition camera_msg_type_enabled (device : option positive) (msg_type : Z) : CM Z :=
  on_device device 0 (λ d, VENDOR_CALL d (D_msg_type_enabled msg_type)).
Definition camera_start_preview (device : option positive) : CM Z :=
  on_device device (- EINVAL) (λ d,
    ret ← VENDOR_CALL d D_start_preview;
    _ ← st_modify (set_previewRunning (ret =? NO_ERROR));
    mret ret).
Definition camera_stop_preview (device : option positive) : CM unit :=
  on_device device tt (λ d,
    _ ← st_modify (set_previewRunning false);
    void (VENDOR_CALL d D_stop_preview)).
Definition camera_preview_enabled (device : option positive) : CM Z :=
  on_device device (- EINVAL) (λ d, VENDOR_CALL d D_preview_enabled).
Definition camera_store_meta_data_in_buffers (device : option positive) (enable : Z) : CM Z :=
  on_device device (- EINVAL) (λ d, VENDOR_CALL d (D_store_meta_data_in_buffers enable)).
(** The error is positive here. *)
Definition camera_start_recording (device : option positive) : CM Z :=
  on_device device EINVAL (λ d,
    _ ← st_modify (set_wasVideo false);
    VENDOR_CALL d D_start_recording).
Definition camera_stop_recording (device : option positive) : CM unit :=
  on_device device tt (λ d,
    _ ← VENDOR_CALL d D_stop_recording;
    _ ← VENDOR_CALL d D_stop_preview;
    void (VENDOR_CALL d D_start_preview)).
Definition camera_recording_enabled (device : option positive) : CM Z :=
  on_device device (- EINVAL) (λ d, VENDOR_CALL d D_recording_enabled).
Definition camera_release_recording_frame (device : option positive) (opaque : Z) : CM unit :=
  on_device device tt (λ d, void (VENDOR_CALL d (D_release_recording_frame opaque))).
Definition camera_auto_focus (device : option positive) : CM Z :=
  on_device device (- EINVAL) (λ d, VENDOR_CALL d D_auto_focus).
Definition camera_cancel_auto_focus (device : option positive) : CM Z :=
  on_device device (- EINVAL) (λ d, VENDOR_CALL d D_cancel_auto_focus).
Definition camera_take_picture (device : option positive) : CM Z :=
  on_device device (- EINVAL) (λ d, VENDOR_CALL d D_take_picture).
Definition camera_cancel_picture (device : option positive) : CM Z :=
  on_device device (- EINVAL) (λ d, VENDOR_CALL d D_cancel_picture).

(** A NULL text is read. *)
Definition camera_set_parameters (device : option positive) (text : option chars) : CM Z :=
  on_device device (- EINVAL) (λ d,
    id ← CAMERA_ID d;
    text ← st_read (λ _, text);
    tmp ← camera_fixup_setparams id text;
    restart ← st_get restartPreview;
    _ ← (if restart : bool then camera_stop_preview (Some d) else mret tt);
    ret ← VENDOR_CALL d (D_set_parameters tmp);
    restart ← st_get restartPreview;
    _ ← (if restart : bool then
           _ ← camera_start_preview (Some d);
           st_modify (set_restartPreview false)
         else mret tt);
    mret ret).
Definition camera_get_parameters (device : option positive) : CM (option positive) :=
  on_device device None (λ d,
    params ← VENDOR_CALL d D_get_parameters;
    id ← CAMERA_ID d;
    text ← st_read (λ s, vendor_text (calls s));
    tmp ← camera_fixup_getparams id text;
    _ ← VENDOR_CALL d (D_put_parameters params);
    mret tmp).
Definition camera_put_parameters (device : option positive) (params : option positive) : CM unit :=
  free_opt params.
Definition camera_send_command (device : option positive) (cmd arg1 arg2 : Z) : CM Z :=
  on_device device (- EINVAL) (λ d, VENDOR_CALL d (D_send_command cmd arg1 arg2)).
Definition camera_release (device : option positive) : CM unit :=
  on_device device tt (λ d, void (VENDOR_CALL d D_release)).
Definition camera_dump (device : option positive) (fd : Z) : CM Z :=
  on_device device (- EINVAL) (λ d, VENDOR_CALL d (D_dump fd)).

Definition camera_device_close (device : option positive) : CM Z :=
  on_device device (- EINVAL) (λ d,
    w ← read_wrapper d;
    v ← st_read (λ _, vendor w);
    _ ← vcall (V_close v);
    _ ← free_opt (ops w);
    _ ← free d;
    mret 0).

(** The second result is [*device]. *)
Definition open_fail (camera_device camera_ops : option positive) (rv : Z) : CM (Z * option positive) :=
  _ ← free_opt camera_device;
  _ ← free_opt camera_ops;
  mret (rv, None).
Definition camera_device_open (hw_module : Z) (name : option chars) (device : option positive)
    : CM (Z * option positive) :=
  match name with
  | None => mret (0, device)
  | Some name =>
      rv ← check_vendor_module;
      if truth rv then mret (- EINVAL, device)
      else
        let camera_id := atoi name in
        num_cameras ← vcall V_get_number_of_cameras;
        if num_cameras <? camera_id then open_fail None None (- EINVAL)
        else
          camera_device ← alloc (BWrapper (Wrapper None None 0 None));
          match camera_device with
          | None => open_fail None None (- ENOMEM)
          | Some d =>
              _ ← write d (BWrapper (Wrapper None None camera_id None));
              _ ← st_modify (set_wasVideo false);
              rv ← vcall (V_open name);
              v ← st_get (λ s, vendor_device (calls s));
              _ ← write d (BWrapper (Wrapper None None camera_id v));
              if truth rv then open_fail (Some d) None rv
              else
                camera_ops ← alloc (BOps false);
                match camera_ops with
                | None => open_fail (Some d) None (- ENOMEM)
                | Some o =>
                    _ ← write d (BWrapper (Wrapper (Some hw_module) (Some o) camera_id v));
                    _ ← write o (BOps true);
                    mret (rv, Some d)
                end
          end
  end.

Definition camera_get_number_of_cameras : CM Z :=
  rv ← check_vendor_module;
  if truth rv then mret 0 else vcall V_get_number_of_cameras.
Definition camera_get_camera_info (camera_id : Z) : CM Z :=
  rv ← check_vendor_module;
  if truth rv then mret 0 else vcall (V_get_camera_info camera_id).

(** ** The camera service *)

(** The table of functions that a device is given. *)
Inductive answer := A_int (rv : Z) | A_void | A_text (text : option positive) | A_open (rv : Z) (device : option positive).
Definition as_int (m : CM Z) : CM answer := z ← m; mret (A_int z).
Definition as_void (m : CM unit) : CM answer := _ ← m; mret A_void.
Definition camera_ops (c : device_call (option positive)) (device : option positive) : CM answer :=
  match c with
  | D_set_preview_window window => as_int (camera_set_preview_window device window)
  | D_set_callbacks n d t m u => as_void (camera_set_callbacks device n d t m u)
  | D_enable_msg_type m => as_void (camera_enable_msg_type device m)
  | D_disable_msg_type m => as_void (camera_disable_msg_type device m)
  | D_msg_type_enabled m => as_int (camera_msg_type_enabled device m)
  | D_start_preview => as_int (camera_start_preview device)
  | D_stop_preview => as_void (camera_stop_preview device)
  | D_preview_enabled => as_int (camera_preview_enabled device)
  | D_store_meta_data_in_buffers e => as_int (camera_store_meta_data_in_buffers device e)
  | D_start_recording => as_int (camera_start_recording device)
  | D_stop_recording => as_void (camera_stop_recording device)
  | D_recording_enabled => as_int (camera_recording_enabled device)
  | D_release_recording_frame o => as_void (camera_release_recording_frame device o)
  | D_auto_focus => as_int (camera_auto_focus device)
  | D_cancel_auto_focus => as_int (camera_cancel_auto_focus device)
  | D_take_picture => as_int (camera_take_picture device)
  | D_cancel_picture => as_int (camera_cancel_picture device)
  | D_set_parameters text => as_int (camera_set_parameters device text)
  | D_get_parameters => text ← camera_get_parameters device; mret (A_text text)
  | D_put_parameters text => as_void (camera_put_parameters device text)
  | D_send_command cmd a1 a2 => as_int (camera_send_command device cmd a1 a2)
  | D_release => as_void (camera_release device)
  | D_dump fd => as_int (camera_dump device fd)
  end.

(** What the service asks: the functions of the module, those of an open device,
    which it reaches through the device's table. *)
Inductive request :=
| R_open (hw_module : Z) (name : option chars) (device : option positive)
| R_close (device : option positive)
| R_get_number_of_cameras
| R_get_camera_info (camera_id : Z)
| R_device (device : positive) (c : device_call (option positive)).

Definition filled_table (b : block) : option unit := match b with BOps true => Some tt | _ => None end.
Definition handle (r : request) : CM answer :=
  match r with
  | R_open m name device => '(rv, device) ← camera_device_open m name device; mret (A_open rv device)
  | R_close device => as_int (camera_device_close device)
  | R_get_number_of_cameras => as_int camera_get_number_of_cameras
  | R_get_camera_info camera_id => as_int (camera_get_camera_info camera_id)
  | R_device d c =>
      w ← read_wrapper d;
      o ← st_read (λ _, ops w);
      _ ← st_read (λ s, blocks s !! o ≫= filled_table);
      camera_ops c (Some d)
  end.

(** The service uses devices that are open, passes a text to set_parameters and
    gives back texts that it still has. *)
Definition is_open (s : camera) (d : positive) : Prop := ∃ w, blocks s !! d = Some (BWrapper w).
Definition has_text (s : camera) (p : positive) : Prop := ∃ t, blocks s !! p = Some (BText t).
Definition permitted (s : camera) (r : request) : Prop :=
  match r with
  | R_close (Some d) => is_open s d
  | R_device d (D_set_parameters None) => False
  | R_device d (D_put_parameters (Some p)) => is_open s d ∧ has_text s p
  | R_device d _ => is_open s d
  | _ => True
  end.
Definition step (s s' : camera) : Prop := ∃ r a, permitted s r ∧ handle r s = Some (a, s').

(** *** Well formed states *)

(** A device that is open has a vendor's device and a table of its own, filled
    in; addresses of live blocks are below the next one. *)
Definition wf (s : camera) : Prop :=
  restartPreview s = false ∧
  (∀ p b, blocks s !! p = Some b → (p < next s)%positive) ∧
  (∀ p w, blocks s !! p = Some (BWrapper w) →
     is_Some (vendor w) ∧ ∃ o, ops w = Some o ∧ blocks s !! o = Some (BOps true)) ∧
  (∀ p q w w' o, blocks s !! p = Some (BWrapper w) → blocks s !! q = Some (BWrapper w') →
     ops w = Some o → ops w' = Some o → p = q).

Lemma wf_init : wf camera_init.
Proof. repeat split; intros *; rewrite ?lookup_empty; done. Qed.

(** Only flags and calls differ. *)
Lemma wf_same s s' : blocks s' = blocks s → next s' = next s → restartPreview s' = false → wf s → wf s'.
Proof. unfold wf. intros -> -> -> (_ & H2). by split. Qed.

Definition live (d : positive) (w : wrapper_camera_device) (v : Z) (s : camera) : Prop :=
  blocks s !! d = Some (BWrapper w) ∧ vendor w = Some v.

Lemma wf_live s d : wf s → is_open s d → ∃ w v, live d w v s.
Proof. intros (_ & _ & Hw & _) [w Hd]. destruct (Hw _ _ Hd) as [[v Hv] _]. by exists w, v. Qed.

Lemma vcall_run c s : vcall c s = Some (vendor_rc (calls s) c, set_calls (calls s ++ [c]) s).
Proof. done. Qed.

Lemma read_wrapper_run d w v s : live d w v s → read_wrapper d s = Some (w, s).
Proof. intros [Hd _]. unfold read_wrapper, st_read. by rewrite Hd. Qed.

Lemma VENDOR_CALL_run d w v c s : live d w v s →
  VENDOR_CALL d c s = Some (vendor_rc (calls s) (V_device v c), set_calls (calls s ++ [V_device v c]) s).
Proof.
  intros Hl. unfold VENDOR_CALL. st_step (read_wrapper_run _ _ _ _ Hl).
  by rewrite (st_bind_some _ _ s v s) by (apply st_read_some, Hl).
Qed.

Lemma alloc_run b s :
  alloc b s = Some (if malloc_ok (next s) then Some (next s) else None,
    set_next (Pos.succ (next s)) (if malloc_ok (next s) then set_blocks (<[next s:=b]> (blocks s)) s else s)).
Proof. unfold alloc. st_run. by destruct (malloc_ok (next s)). Qed.

Lemma free_run p b s : blocks s !! p = Some b → free p s = Some (tt, set_blocks (delete p (blocks s)) s).
Proof. intros Hp. unfold free. by rewrite (st_bind_some _ _ s b s) by by apply st_read_some. Qed.

Lemma write_run p b b' s : blocks s !! p = Some b → write p b' s = Some (tt, set_blocks (<[p:=b']> (blocks s)) s).
Proof. intros Hp. unfold write. by rewrite (st_bind_some _ _ s b s) by by apply st_read_some. Qed.

Lemma check_vendor_module_run s :
  check_vendor_module s =
    Some (if gVendorModule s then 0 else vendor_rc (calls s) V_get_module,
          if gVendorModule s then s
          else set_gVendorModule (vendor_rc (calls s) V_get_module =? 0) (set_calls (calls s ++ [V_get_module]) s)).
Proof. unfold check_vendor_module. st_run. by destruct (gVendorModule s). Qed.

(** A new text is not a device. *)
Lemma wf_alloc_text t s : wf s → wf (set_next (Pos.succ (next s)) (set_blocks (<[next s:=BText t]> (blocks s)) s)).
Proof.
  intros (H1 & H2 & H3 & H4).
  assert (∀ p w, (<[next s:=BText t]> (blocks s)) !! p = Some (BWrapper w) → blocks s !! p = Some (BWrapper w)) as Hw.
  { intros p w. destruct (decide (p = next s)) as [->|Hp]; [by rewrite lookup_insert_eq|by rewrite lookup_insert_ne]. }
  split; [done|]. split; [|split]; cbn.
  - intros p b. destruct (decide (p = next s)) as [->|Hp]; [lia|].
    rewrite lookup_insert_ne by done. intros Hb. specialize (H2 _ _ Hb). lia.
  - intros p w Hp%Hw. destruct (H3 _ _ Hp) as [Hv (o & Ho & Hb)]. split; [done|]. exists o. split; [done|].
    rewrite lookup_insert_ne; [done|]. intros Heq. specialize (H2 _ _ Hb). lia.
  - intros p q w w' o Hp%Hw Hq%Hw. by eapply H4.
Qed.
Lemma wf_alloc_nothing s : wf s → wf (set_next (Pos.succ (next s)) s).
Proof. intros (H1 & H2 & H34). split; [done|]. split; [|done]. cbn. intros p b Hb. specialize (H2 _ _ Hb). lia. Qed.
Lemma wf_alloc t s : wf s →
  wf (set_next (Pos.succ (next s)) (if malloc_ok (next s) then set_blocks (<[next s:=BText t]> (blocks s)) s else s)).
Proof. destruct (malloc_ok (next s)); [apply wf_alloc_text|apply wf_alloc_nothing]. Qed.
Lemma wf_free_text p t s : wf s → blocks s !! p = Some (BText t) → wf (set_blocks (delete p (blocks s)) s).
Proof.
  intros (H1 & H2 & H3 & H4) Hp.
  assert (∀ q b, (delete p (blocks s)) !! q = Some b → blocks s !! q = Some b) as Hd
    by (intros q b [_ Hq]%lookup_delete_Some; done).
  split; [done|]. split; [|split]; cbn.
  - intros q b Hq%Hd. by eapply H2.
  - intros q w Hq%Hd. destruct (H3 _ _ Hq) as [Hv (o & Ho & Hb)]. split; [done|]. exists o. split; [done|].
    rewrite lookup_delete_ne; [done|]. intros ->. congruence.
  - intros q q' w w' o Hq%Hd Hq'%Hd. by eapply H4.
Qed.

(** ** Parameters *)

Definition is_video (text : chars) : bool :=
  bool_decide (get KEY_RECORDING_HINT (unflatten text) = Some (str "true")).

Lemma live_other d w v s s' : blocks s' = blocks s → live d w v s → live d w v s'.
Proof. unfold live. by intros ->. Qed.
Lemma live_alloc d w v b s : wf s → live d w v s →
  live d w v (set_next (Pos.succ (next s)) (if malloc_ok (next s) then set_blocks (<[next s:=b]> (blocks s)) s else s)).
Proof.
  intros (_ & H2 & _) [Hd Hv]. split; [|done]. destruct (malloc_ok (next s)); [|done]. cbn.
  rewrite lookup_insert_ne; [done|]. intros Heq. specialize (H2 _ _ Hd). lia.
Qed.

Lemma fixup_setparams_run i text s :
  let video := is_video text || wasVideo s in
  let ok := malloc_ok (next s) in
  let text' := flatten (unflatten text) in
  camera_fixup_setparams i text s =
    Some (if ok then Some text' else None,
      Camera (previewRunning s) (((i =? REAR_CAMERA_ID) && previewRunning s && video) || restartPreview s)
        video (gVendorModule s) (if ok then <[next s:=BText text']> (blocks s) else blocks s)
        (Pos.succ (next s)) (calls s)).
Proof.
  intros video ok text'. unfold camera_fixup_setparams, strdup. st_run. fold (is_video text).
  cbn [wasVideo set_wasVideo previewRunning]. fold video. rewrite alloc_run.
  destruct ((i =? REAR_CAMERA_ID) && previewRunning s && video); cbn [next set_restartPreview set_wasVideo];
    fold ok; by destruct ok.
Qed.

Lemma set_parameters_run d w v text s : wf s → live d w v s →
  let video := is_video text || wasVideo s in
  let restart := (id w =? REAR_CAMERA_ID) && previewRunning s && video in
  let ok := malloc_ok (next s) in
  let text' := flatten (unflatten text) in
  let parameters := V_device v (D_set_parameters (if ok then Some text' else None)) in
  let before := if restart then calls s ++ [V_device v D_stop_preview] else calls s in
  let after := before ++ [parameters] in
  camera_set_parameters (Some d) (Some text) s =
    Some (vendor_rc before parameters,
      Camera (if restart then vendor_rc after (V_device v D_start_preview) =? NO_ERROR else previewRunning s)
        false video (gVendorModule s) (if ok then <[next s:=BText text']> (blocks s) else blocks s)
        (Pos.succ (next s)) (if restart then after ++ [V_device v D_start_preview] else after)).
Proof.
  intros Hwf Hl video restart ok text' parameters before after. pose proof (proj1 Hwf) as Hr.
  pose proof (live_alloc _ _ _ (BText text') _ Hwf Hl) as Hl'.
  unfold camera_set_parameters, on_device, CAMERA_ID.
  rewrite (st_bind_some _ _ s (id w) s) by by rewrite st_bind_run, (read_wrapper_run _ _ _ _ Hl).
  rewrite (st_bind_some _ _ s text s) by done. st_step (fixup_setparams_run (id w) text s).
  fold video restart ok text'. rewrite Hr, orb_false_r.
  assert (∀ pr rp cs, live d w v (Camera pr rp video (gVendorModule s)
    (if ok then <[next s:=BText text']> (blocks s) else blocks s) (Pos.succ (next s)) cs)) as Hlive.
  { intros pr rp cs. eapply live_other; [|exact Hl']. fold ok. by destruct ok. }
  st_run. cbn [restartPreview].
  destruct restart; unfold camera_stop_preview, camera_start_preview, on_device, void; st_run.
  - unfold set_previewRunning. erewrite VENDOR_CALL_run by apply Hlive. cbn. st_run.
    unfold set_calls. cbn. erewrite VENDOR_CALL_run by apply Hlive. cbn. st_run. cbn. st_run.
    erewrite VENDOR_CALL_run by apply Hlive. done.
  - cbn beta iota delta [mret ST_ret]. st_run. erewrite VENDOR_CALL_run by apply Hlive. done.
Qed.

Lemma get_parameters_run d w v s text : wf s → live d w v s →
  let before := calls s ++ [V_device v D_get_parameters] in
  vendor_text before = Some text →
  let t := flatten (fixup_get (id w) (unflatten text)) in
  let ok := malloc_ok (next s) in
  camera_get_parameters (Some d) s = Some (if ok then Some (next s) else None,
    Camera (previewRunning s) (restartPreview s) (wasVideo s) (gVendorModule s)
      (if ok then <[next s:=BText t]> (blocks s) else blocks s) (Pos.succ (next s))
      (before ++ [V_device v (D_put_parameters (vendor_rc (calls s) (V_device v D_get_parameters)))])).
Proof.
  intros Hwf Hl before Htext t ok. pose proof (live_alloc _ _ _ (BText t) _ Hwf Hl) as Hl'. fold ok in Hl'.
  unfold camera_get_parameters, on_device, CAMERA_ID. st_step (VENDOR_CALL_run _ _ _ D_get_parameters _ Hl).
  fold before. set (s0 := set_calls before s).
  assert (live d w v s0) as Hl0 by (eapply live_other; [|exact Hl]; done).
  rewrite (st_bind_some _ _ s0 (id w) s0) by by rewrite st_bind_run, (read_wrapper_run _ _ _ _ Hl0).
  rewrite (st_bind_some _ _ s0 text s0) by (apply st_read_some, Htext).
  unfold camera_fixup_getparams, strdup. fold t.
  st_step (alloc_run (BText t) s0). change (next s0) with (next s). fold ok.
  erewrite st_bind_some.
  2:{ apply (VENDOR_CALL_run d w v). eapply live_other; [|exact Hl']. by destruct ok. }
  by destruct ok.
Qed.

(** The functions of an open device are reached through its table. *)
Lemma call_device_run d c s : wf s → is_open s d → handle (R_device d c) s = camera_ops c (Some d) s.
Proof.
  intros (_ & _ & H3 & _) [w Hd]. destruct (H3 _ _ Hd) as [_ (o & Ho & Hb)]. unfold handle.
  rewrite (st_bind_some _ _ s w s) by (apply st_read_some; by rewrite Hd).
  rewrite (st_bind_some _ _ s o s) by (by apply st_read_some).
  rewrite (st_bind_some _ _ s tt s) by (apply st_read_some; by rewrite Hb). done.
Qed.

(** What the documentation of [CameraParameters] promises: a value that was set
    is read back and others are kept, and a text has the parameters it was made
    from.  The names of parameters contain no separator. *)
Class CameraParametersLaws : Prop := {
  get_set : ∀ k v p, clean k = true → clean v = true → get k (set k v p) = Some v;
  get_set_ne : ∀ k k' v p, k ≠ k' → get k (set k' v p) = get k p;
  get_flatten : ∀ k p, get k (unflatten (flatten p)) = get k p;
  clean_keys : clean KEY_SUPPORTED_FOCUS_MODES = true ∧ clean KEY_PREFERRED_PREVIEW_SIZE_FOR_VIDEO = true ∧
               clean KEY_ROTATION = true
}.

(** The parameters that the service is not told as the vendor has them. *)
Definition fixed_value (i : Z) (k : chars) : option chars :=
  if decide (k = str "preview-frame-rate-mode") then Some (str "frame-rate-fixed")
  else if decide (k = KEY_ROTATION) then Some (str "0")
  else if decide (k = KEY_PREFERRED_PREVIEW_SIZE_FOR_VIDEO) then
    Some (if decide (i = REAR_CAMERA_ID) then str "1280x720" else str "640x480")
  else if decide (k = KEY_SUPPORTED_FOCUS_MODES ∧ i = REAR_CAMERA_ID) then
    Some (str "auto,macro,fixed,continuous-video,face-priority")
  else None.

Section laws.
Context `{!CameraParametersLaws}.

Lemma get_set_clean k k' v p : clean k' = true → clean v = true →
  get k (set k' v p) = if decide (k = k') then Some v else get k p.
Proof. intros Hk Hv. destruct (decide (k = k')) as [->|Hne]; [by apply get_set|by apply get_set_ne]. Qed.

Lemma fixup_get_spec i p k :
  get k (fixup_get i p) = match fixed_value i k with Some v => Some v | None => get k p end.
Proof.
  destruct clean_keys as (Hf & Hs & Hr). unfold fixup_get, fixed_value, video_size.
  rewrite !get_set_clean by first [done|by destruct (i =? 0)].
  unfold REAR_CAMERA_ID. case_decide; [done|]. case_decide; [done|].
  destruct (Z.eqb_spec i 0) as [->|Hi]; cbn [negb].
  - rewrite (decide_True (P := 0 = 0)) by done. case_decide; [done|]. rewrite get_set_clean by done.
    repeat case_decide; naive_solver.
  - rewrite (decide_False (P := i = 0)) by done. case_decide; [done|]. case_decide; naive_solver.
Qed.

(** The parameters a client gets: those of the vendor, except that the
    preview rate is fixed, the rotation is 0, the preview size for videos fits
    the camera and the rear camera has no infinity focus.  The vendor's text is
    given back to the vendor, and once the client gives back its own the memory
    is as before. *)
Theorem camera_get_parameters_spec d w v s text : wf s → live d w v s → malloc_ok (next s) = true →
  let before := calls s ++ [V_device v D_get_parameters] in
  vendor_text before = Some text →
  ∃ s1 t, handle (R_device d D_get_parameters) s = Some (A_text (Some (next s)), s1) ∧
    blocks s1 !! next s = Some (BText t) ∧
    (∀ k, get k (unflatten t) = match fixed_value (id w) k with Some x => Some x | None => get k (unflatten text) end) ∧
    calls s1 = before ++ [V_device v (D_put_parameters (vendor_rc (calls s) (V_device v D_get_parameters)))] ∧
  ∃ s2, handle (R_device d (D_put_parameters (Some (next s)))) s1 = Some (A_void, s2) ∧
    blocks s2 = blocks s ∧ calls s2 = calls s1.
Proof.
  intros Hwf Hl Hok before Htext.
  pose proof (get_parameters_run d w v s text Hwf Hl Htext) as Hrun. rewrite Hok in Hrun. fold before in Hrun.
  assert (is_open s d) as Hd by (exists w; apply Hl).
  set (t := flatten (fixup_get (id w) (unflatten text))) in *.
  cbn zeta iota in Hrun. match type of Hrun with _ = Some (_, ?x) => set (s1 := x) in Hrun end.
  exists s1, t. rewrite (call_device_run d _ s Hwf Hd). cbn [camera_ops].
  assert (blocks s1 !! next s = Some (BText t)) as Ht by apply lookup_insert_eq.
  split; [by st_step Hrun|]. split; [done|]. split; [intros k; unfold t; rewrite get_flatten; apply fixup_get_spec|].
  split; [done|].
  assert (wf s1) as Hwf1 by (eapply wf_same; [| | |exact (wf_alloc_text t s Hwf)]; try done; apply Hwf).
  assert (is_open s1 d) as Hd1.
  { exists w. cbn. rewrite lookup_insert_ne; [apply Hl|]. intros Heq. destruct Hl as [Hl _].
    specialize (proj1 (proj2 Hwf) _ _ Hl). lia. }
  eexists. rewrite (call_device_run d _ s1 Hwf1 Hd1). cbn [camera_ops].
  unfold as_void, camera_put_parameters, free_opt.
  split; [by st_step (free_run _ _ _ Ht)|]. split; [|done]. cbn.
  rewrite delete_insert_eq. apply delete_id. destruct (blocks s !! next s) eqn:Hn; [|done].
  specialize (proj1 (proj2 Hwf) _ _ Hn). lia.
Qed.
End laws.

(** ** Opening and closing *)

(** Why a camera cannot be opened, and how many calls that takes. *)
Definition module_found (s : camera) : bool := gVendorModule s || (vendor_rc (calls s) V_get_module =? 0).
Definition calls_found (s : camera) : list vendor_call :=
  if gVendorModule s then calls s else calls s ++ [V_get_module].
Definition calls_counted (s : camera) : list vendor_call := calls_found s ++ [V_get_number_of_cameras].
Definition calls_opened (name : chars) (s : camera) : list vendor_call := calls_counted s ++ [V_open name].
Inductive open_result := NotFound | OutOfRange | NoWrapper | VendorFails (rv : Z) | NoTable | Opens.
Definition open_outcome (name : chars) (s : camera) : open_result :=
  if negb (module_found s) then NotFound
  else if vendor_rc (calls_found s) V_get_number_of_cameras <? atoi name then OutOfRange
  else if negb (malloc_ok (next s)) then NoWrapper
  else if truth (vendor_rc (calls_counted s) (V_open name)) then VendorFails (vendor_rc (calls_counted s) (V_open name))
  else if negb (malloc_ok (Pos.succ (next s))) then NoTable
  else Opens.

Definition open_state (name : chars) (hw_module : Z) (s : camera) : camera :=
  match open_outcome name s with
  | NotFound => Camera (previewRunning s) (restartPreview s) (wasVideo s) false (blocks s) (next s) (calls_found s)
  | OutOfRange => Camera (previewRunning s) (restartPreview s) (wasVideo s) true (blocks s) (next s) (calls_counted s)
  | NoWrapper =>
      Camera (previewRunning s) (restartPreview s) (wasVideo s) true (blocks s) (Pos.succ (next s)) (calls_counted s)
  | VendorFails _ =>
      Camera (previewRunning s) (restartPreview s) false true (blocks s) (Pos.succ (next s)) (calls_opened name s)
  | NoTable =>
      Camera (previewRunning s) (restartPreview s) false true (blocks s) (Pos.succ (Pos.succ (next s)))
        (calls_opened name s)
  | Opens =>
      let w := Wrapper (Some hw_module) (Some (Pos.succ (next s))) (atoi name) (vendor_device (calls_opened name s)) in
      Camera (previewRunning s) (restartPreview s) false true
        (<[Pos.succ (next s):=BOps true]> (<[next s:=BWrapper w]> (blocks s)))
        (Pos.succ (Pos.succ (next s))) (calls_opened name s)
  end.
Definition open_answer (name : chars) (device : option positive) (s : camera) : Z * option positive :=
  match open_outcome name s with
  | NotFound => (- EINVAL, device)
  | OutOfRange => (- EINVAL, None)
  | NoWrapper | NoTable => (- ENOMEM, None)
  | VendorFails rv => (rv, None)
  | Opens => (0, Some (next s))
  end.

Lemma fresh_next s : wf s → blocks s !! next s = None ∧ blocks s !! Pos.succ (next s) = None.
Proof.
  intros (_ & H2 & _). split; apply eq_None_not_Some; intros [b Hb]; specialize (H2 _ _ Hb); lia.
Qed.

Lemma open_fail_run d b rv s : blocks s !! d = Some b →
  open_fail (Some d) None rv s = Some ((rv, None), set_blocks (delete d (blocks s)) s).
Proof. intros Hd. unfold open_fail, free_opt. by st_step (free_run _ _ _ Hd). Qed.

Lemma open_loaded hw_module name device s : wf s → gVendorModule s = true →
  camera_device_open hw_module (Some name) device s =
    Some (open_answer name device s, open_state name hw_module s).
Proof.
  intros Hwf Hm. destruct (fresh_next s Hwf) as [Hn Hn'].
  destruct s as [pr rp wv gm bl nx cs]. cbn in Hm, Hn, Hn'. subst gm.
  unfold camera_device_open, open_answer, open_state, open_outcome, module_found, calls_opened, calls_counted, calls_found.
  cbn [gVendorModule previewRunning restartPreview blocks next calls orb negb].
  rewrite (st_bind_some _ _ _ _ _ (check_vendor_module_run _)). cbn [gVendorModule]. change (truth 0) with false. cbn iota.
  rewrite (st_bind_some _ _ _ _ _ (vcall_run _ _)). cbn [calls].
  destruct (_ <? _); [done|]. rewrite (st_bind_some _ _ _ _ _ (alloc_run _ _)). cbn [next set_calls].
  destruct (malloc_ok nx); cbn [negb]; [|done].
  erewrite st_bind_some by (eapply write_run; apply lookup_insert_eq).
  rewrite (st_bind_some _ _ _ tt _ eq_refl), (st_bind_some _ _ _ _ _ (vcall_run _ _)), (st_bind_some _ _ _ _ _ eq_refl).
  erewrite st_bind_some by (eapply write_run; apply lookup_insert_eq).
  cbn [set_blocks set_next set_calls set_wasVideo blocks next calls previewRunning restartPreview wasVideo gVendorModule].
  unfold set_next, set_blocks, set_calls, set_wasVideo.
  cbn [blocks next calls previewRunning restartPreview wasVideo gVendorModule]. rewrite !insert_insert_eq.
  destruct (truth _) eqn:Hrv.
  { erewrite open_fail_run by apply lookup_insert_eq. cbn. by rewrite delete_insert_id. }
  rewrite (st_bind_some _ _ _ _ _ (alloc_run _ _)). unfold set_next, set_blocks.
  cbn [blocks next calls previewRunning restartPreview wasVideo gVendorModule].
  destruct (malloc_ok (Pos.succ nx)); cbn [negb].
  2:{ erewrite open_fail_run by apply lookup_insert_eq. cbn. by rewrite delete_insert_id. }
  assert (Pos.succ nx ≠ nx) as Hne by lia.
  erewrite st_bind_some.
  2:{ eapply write_run. cbn. rewrite lookup_insert_ne by done. apply lookup_insert_eq. }
  erewrite st_bind_some.
  2:{ eapply write_run. cbn. rewrite lookup_insert_ne by done. apply lookup_insert_eq. }
  unfold set_blocks. cbn [blocks next calls previewRunning restartPreview wasVideo gVendorModule].
  unfold truth in Hrv. apply negb_false_iff, Z.eqb_eq in Hrv. rewrite Hrv. cbn.
  rewrite (insert_insert_ne _ nx (Pos.succ nx)) by done. by rewrite !insert_insert_eq.
Qed.

Lemma camera_device_open_run hw_module name device s : wf s →
  camera_device_open hw_module (Some name) device s =
    Some (open_answer name device s, open_state name hw_module s).
Proof.
  intros Hwf. destruct (gVendorModule s) eqn:Hm; [by apply open_loaded|].
  set (s1 := set_gVendorModule true (set_calls (calls s ++ [V_get_module]) s)).
  destruct (Z.eqb_spec (vendor_rc (calls s) V_get_module) 0) as [H0'|H0'].
  - assert (camera_device_open hw_module (Some name) device s = camera_device_open hw_module (Some name) device s1) as ->.
    { unfold camera_device_open. rewrite !(st_bind_run check_vendor_module), !check_vendor_module_run, Hm.
      by rewrite H0'. }
    rewrite open_loaded by (done || (eapply wf_same; [..|exact Hwf]; (done || apply Hwf))).
    unfold open_answer, open_state, open_outcome, module_found, calls_opened, calls_counted, calls_found.
    by rewrite Hm, H0'.
  - unfold camera_device_open, open_answer, open_state, open_outcome, module_found, calls_found.
    rewrite st_bind_run, check_vendor_module_run, Hm. cbn [orb].
    unfold truth. rewrite (proj2 (Z.eqb_neq _ _) H0'). done.
Qed.

Lemma camera_device_close_run d w v o s : live d w v s → ops w = Some o → is_Some (blocks s !! o) → o ≠ d →
  camera_device_close (Some d) s =
    Some (0, set_blocks (delete d (delete o (blocks s))) (set_calls (calls s ++ [V_close v]) s)).
Proof.
  intros Hl Ho [b Hb] Hne. unfold camera_device_close, on_device. st_step (read_wrapper_run _ _ _ _ Hl).
  rewrite (st_bind_some _ _ s v s) by apply st_read_some, Hl. st_step (vcall_run (V_close v) s).
  rewrite Ho. cbn [free_opt]. rewrite (st_bind_some _ _ _ _ _ (free_run o b (set_calls _ s) Hb)).
  rewrite (st_bind_some _ _ _ _ _ (free_run d (BWrapper w) (set_blocks _ _) ltac:(cbn; rewrite lookup_delete_ne by done; apply Hl))).
  done.
Qed.

(** The vendor's module keeps the rules of the interface: a device that was
    opened is there, and get_parameters answers a text. *)
Class VendorLaws : Prop := {
  vendor_opens : ∀ h name, vendor_rc h (V_open name) = 0 → is_Some (vendor_device (h ++ [V_open name]));
  vendor_answers : ∀ h v, is_Some (vendor_text (h ++ [V_device v D_get_parameters]))
}.

(** *** The preview *)

(** Whether the preview of the vendor runs after some calls. *)
Definition preview_step (before : list vendor_call) (c : vendor_call) (running : bool) : bool :=
  match c with
  | V_device _ D_start_preview => vendor_rc before c =? NO_ERROR
  | V_device _ D_stop_preview => false
  | _ => running
  end.
Fixpoint preview_from (before todo : list vendor_call) (running : bool) : bool :=
  match todo with
  | [] => running
  | c :: todo => preview_from (before ++ [c]) todo (preview_step before c running)
  end.
Definition preview_of (cs : list vendor_call) : bool := preview_from [] cs false.

Lemma preview_from_snoc cs h b c :
  preview_from h (cs ++ [c]) b = preview_step (h ++ cs) c (preview_from h cs b).
Proof.
  revert h b. induction cs as [|c' cs IH]; intros h b; cbn; [by rewrite app_nil_r|].
  rewrite IH. by rewrite <- app_assoc.
Qed.
Lemma preview_of_snoc cs c : preview_of (cs ++ [c]) = preview_step cs c (preview_of cs).
Proof. apply (preview_from_snoc cs []). Qed.

Definition tracks (s : camera) : Prop := previewRunning s = preview_of (calls s).

Section served.
Context {Hvendor : VendorLaws} (d : positive) (faithful : bool).

(** What holds while a function of the device [d] runs; with [faithful] the flag
    follows the vendor's preview, too. *)
Definition serving (s : camera) : Prop := wf s ∧ is_open s d ∧ (faithful = true → tracks s).

Definition neutral (c : device_call Z) : bool :=
  match c with D_start_preview | D_stop_preview => false | _ => true end.

Lemma serving_flags s s' : blocks s' = blocks s → next s' = next s → restartPreview s' = restartPreview s →
  (tracks s → tracks s') → serving s → serving s'.
Proof.
  intros Hb Hn Hr Ht (Hwf & [w Hd] & Hf). split; [eapply wf_same; [done|done| |done]; rewrite Hr; apply Hwf|].
  split; [exists w; by rewrite Hb|auto].
Qed.

Lemma safe_vendor_call c : neutral c = true → safe serving (VENDOR_CALL d c).
Proof.
  intros Hc s Hs. destruct Hs as (Hwf & Hd & Hf). destruct (wf_live _ _ Hwf Hd) as (w & v & Hl).
  rewrite (VENDOR_CALL_run _ _ _ _ _ Hl). eexists _, _. split; [done|].
  eapply (serving_flags s); [done|done|done| |done]. unfold tracks. cbn [calls previewRunning set_calls set_previewRunning]. rewrite preview_of_snoc. intros ->.
  by destruct c.
Qed.

Lemma safe_start_preview : safe serving (camera_start_preview (Some d)).
Proof.
  intros s Hs. destruct Hs as (Hwf & Hd & Hf). destruct (wf_live _ _ Hwf Hd) as (w & v & Hl).
  unfold camera_start_preview, on_device. st_step (VENDOR_CALL_run _ _ _ D_start_preview _ Hl). st_run.
  eexists _, _. split; [done|]. eapply (serving_flags s); [done|done|done| |done].
  unfold tracks. cbn [calls previewRunning set_calls set_previewRunning]. by rewrite preview_of_snoc.
Qed.

Lemma safe_stop_preview : safe serving (camera_stop_preview (Some d)).
Proof.
  intros s Hs. destruct Hs as (Hwf & Hd & Hf). destruct (wf_live _ _ Hwf Hd) as (w & v & Hl).
  unfold camera_stop_preview, on_device, void. st_run.
  rewrite (VENDOR_CALL_run d w v D_stop_preview (set_previewRunning false s) Hl).
  eexists _, _. split; [done|]. eapply (serving_flags s); [done|done|done| |done].
  unfold tracks. cbn [calls previewRunning set_calls set_previewRunning]. by rewrite preview_of_snoc.
Qed.

Lemma safe_stop_recording : faithful = false → safe serving (camera_stop_recording (Some d)).
Proof.
  intros Hf s Hs. destruct Hs as (Hwf & Hd & _). destruct (wf_live _ _ Hwf Hd) as (w & v & Hl).
  unfold camera_stop_recording, on_device, void. st_step (VENDOR_CALL_run _ _ _ D_stop_recording _ Hl).
  rewrite (st_bind_some _ _ _ _ _ (VENDOR_CALL_run d w v D_stop_preview (set_calls _ s) Hl)).
  rewrite (st_bind_some _ _ _ _ _ (VENDOR_CALL_run d w v D_start_preview (set_calls _ (set_calls _ s)) Hl)).
  eexists _, _. split; [done|]. split; [|split; [done|congruence]]. by eapply (wf_same s); try done; apply Hwf.
Qed.

Lemma safe_set_parameters text : safe serving (camera_set_parameters (Some d) (Some text)).
Proof.
  intros s (Hwf & Hd & Hf). destruct (wf_live _ _ Hwf Hd) as (w & v & Hl).
  rewrite (set_parameters_run _ _ _ _ _ Hwf Hl). eexists _, _. split; [done|].
  set (t := flatten (unflatten text)).
  pose proof (live_alloc _ _ _ (BText t) _ Hwf Hl) as [Hl' _].
  split; [|split].
  - apply (wf_same _ _) with (4 := wf_alloc t s Hwf); by destruct (malloc_ok (next s)).
  - exists w. destruct (malloc_ok (next s)); exact Hl'.
  - intros Ht%Hf. unfold tracks in *. cbn [calls previewRunning]. destruct ((id w =? REAR_CAMERA_ID) && _ && _); by rewrite !preview_of_snoc.
Qed.

Lemma safe_get_parameters : safe serving (camera_get_parameters (Some d)).
Proof.
  intros s (Hwf & Hd & Hf). destruct (wf_live _ _ Hwf Hd) as (w & v & Hl).
  destruct (vendor_answers (calls s) v) as [text Htext].
  rewrite (get_parameters_run _ _ _ _ _ Hwf Hl Htext). eexists _, _. split; [done|].
  set (t := flatten (fixup_get (id w) (unflatten text))).
  pose proof (live_alloc _ _ _ (BText t) _ Hwf Hl) as [Hl' _].
  split; [|split].
  - apply (wf_same _ _) with (4 := wf_alloc t s Hwf); try apply Hwf; by destruct (malloc_ok (next s)).
  - exists w. destruct (malloc_ok (next s)); exact Hl'.
  - intros Ht%Hf. unfold tracks in *. cbn [calls previewRunning]. by rewrite !preview_of_snoc.
Qed.

Lemma safe_put_parameters p t s : serving s → blocks s !! p = Some (BText t) →
  ∃ s', free p s = Some (tt, s') ∧ serving s'.
Proof.
  intros (Hwf & [w Hd] & Hf) Hp. rewrite (free_run _ _ _ Hp). eexists. split; [done|].
  split; [by eapply wf_free_text|]. split; [|done]. exists w. cbn. rewrite lookup_delete_ne; [done|]. congruence.
Qed.

Lemma safe_as_int m : safe serving m → safe serving (as_int m).
Proof. intros Hm. apply safe_bind; [done|]. intros a. apply safe_ret. Qed.
Lemma safe_as_void m : safe serving m → safe serving (as_void m).
Proof. intros Hm. apply safe_bind; [done|]. intros a. apply safe_ret. Qed.
Lemma safe_void m : safe serving m → safe serving (void m).
Proof. intros Hm. apply safe_bind; [done|]. intros a. apply safe_ret. Qed.

Lemma safe_device_call c s : serving s → permitted s (R_device d c) → (faithful = true → c ≠ D_stop_recording) →
  ∃ a s', camera_ops c (Some d) s = Some (a, s') ∧ serving s'.
Proof.
  intros Hs Hp Hc.
  destruct c as [| | | | | | | | | | | | | | | | |[text|]| |[p|]| | |]; cbn [camera_ops];
    try (first [apply safe_as_int|apply safe_as_void]; [|exact Hs];
         first [by apply safe_vendor_call|by apply safe_void, safe_vendor_call]).
  - by apply safe_as_int; [apply safe_start_preview|].
  - by apply safe_as_void; [apply safe_stop_preview|].
  - apply safe_as_int; [|exact Hs]. apply safe_bind; [|intros _; by apply safe_vendor_call].
    apply safe_modify. intros s1. by apply serving_flags.
  - apply safe_as_void; [|exact Hs]. apply safe_stop_recording. by destruct faithful; [destruct (Hc eq_refl)|].
  - by apply safe_as_int; [apply safe_set_parameters|].
  - done.
  - by apply safe_bind; [apply safe_get_parameters|intros; apply safe_ret|].
  - destruct Hp as [_ [t Ht]]. destruct (safe_put_parameters p t s Hs Ht) as (s' & Hrun & Hs').
    exists A_void, s'. unfold as_void, camera_put_parameters, free_opt. by st_step Hrun.
  - by apply safe_as_void; [apply safe_ret|].
Qed.
End served.

(** *** The requests *)

Section requests.
Context {Hvendor : VendorLaws}.

Lemma open_ops_ne s d w o : wf s → blocks s !! d = Some (BWrapper w) → ops w = Some o →
  is_Some (blocks s !! o) ∧ o ≠ d.
Proof.
  intros (_ & _ & H3 & _) Hd Ho. destruct (H3 _ _ Hd) as [_ (o' & Ho' & Hb)]. simplify_eq.
  split; [by eexists|]. intros ->. congruence.
Qed.

Lemma wf_closed s d w o : wf s → blocks s !! d = Some (BWrapper w) → ops w = Some o →
  wf (set_blocks (delete d (delete o (blocks s))) s).
Proof.
  intros (H1 & H2 & H3 & H4) Hd Ho.
  assert (∀ q b, (delete d (delete o (blocks s))) !! q = Some b → q ≠ d ∧ blocks s !! q = Some b) as Hdel.
  { intros q b [Hq [_ Hb]%lookup_delete_Some]%lookup_delete_Some. done. }
  split; [done|]. split; [|split]; cbn.
  - intros p b [_ Hp]%Hdel. by eapply H2.
  - intros p w' [Hpd Hp]%Hdel. destruct (H3 _ _ Hp) as [Hv (o' & Ho' & Hb)]. split; [done|]. exists o'.
    split; [done|]. rewrite !lookup_delete_ne; [done| |].
    + intros ->. apply Hpd. by eapply H4.
    + intros ->. congruence.
  - intros p q w1 w2 o' [_ Hp]%Hdel [_ Hq]%Hdel. by eapply H4.
Qed.

Lemma wf_open name hw_module s : wf s → wf (open_state name hw_module s).
Proof.
  intros Hwf. destruct (fresh_next s Hwf) as [Hn Hn']. unfold open_state.
  destruct (open_outcome name s) eqn:Ho.
  1-5: destruct Hwf as (H1 & H2 & H34); split; [done|]; split; [|done]; cbn; intros p b Hp; specialize (H2 _ _ Hp); lia.
  assert (is_Some (vendor_device (calls_opened name s))) as Hv.
  { apply vendor_opens. revert Ho. unfold open_outcome, truth.
    do 3 (break_if; [done|]). break_if; [done|]. by apply negb_false_iff, Z.eqb_eq in E2. }
  destruct Hwf as (H1 & H2 & H3 & H4). set (w := Wrapper _ _ _ _).
  set (o := Pos.succ (next s)). assert (o ≠ next s) as Hne by lia.
  assert (∀ p b, (<[o:=BOps true]> (<[next s:=BWrapper w]> (blocks s))) !! p = Some b →
    (p = o ∧ b = BOps true) ∨ (p = next s ∧ b = BWrapper w) ∨ (p < next s)%positive ∧ blocks s !! p = Some b) as Hlook.
  { intros p b. destruct (decide (p = o)) as [->|Hpo]; [rewrite lookup_insert_eq; naive_solver|].
    rewrite lookup_insert_ne by done. destruct (decide (p = next s)) as [->|Hpn]; [rewrite lookup_insert_eq; naive_solver|].
    rewrite lookup_insert_ne by done. intros Hp. right. right. split; [by eapply H2|done]. }
  assert (∀ p, (p < next s)%positive →
    (<[o:=BOps true]> (<[next s:=BWrapper w]> (blocks s))) !! p = blocks s !! p) as Hold.
  { intros p Hp. by rewrite !lookup_insert_ne by lia. }
  assert (∀ p w' o', (p < next s)%positive → blocks s !! p = Some (BWrapper w') → ops w' = Some o' → (o' < next s)%positive) as Hops.
  { intros p w' o' _ Hp Ho'. destruct (H3 _ _ Hp) as [_ (o2 & Ho2 & Hb)]. simplify_eq. by eapply H2. }
  split; [done|]. split; [|split]; cbn.
  - intros p b [[-> _]|[[-> _]|[Hp _]]]%Hlook; lia.
  - intros p w' [[-> ?]|[[-> ?]|[Hp Hb]]]%Hlook; simplify_eq.
    + split; [done|]. exists o. split; [done|]. apply lookup_insert_eq.
    + destruct (H3 _ _ Hb) as [Hv' (o' & Ho' & Hb')]. split; [done|]. exists o'. split; [done|].
      rewrite Hold; [done|by eapply Hops].
  - intros p q w1 w2 o' [[-> ?]|[[-> ?]|[Hp Hb]]]%Hlook; simplify_eq;
      intros [[-> ?]|[[-> ?]|[Hq Hc]]]%Hlook; simplify_eq; intros Ho1 Ho2; simplify_eq/=; [done| | |by eapply H4].
    + specialize (Hops _ _ _ Hq Hc Ho2). lia.
    + specialize (Hops _ _ _ Hp Hb Ho1). lia.
Qed.

Lemma tracks_open name hw_module s : tracks s → tracks (open_state name hw_module s).
Proof.
  unfold tracks, open_state, calls_opened, calls_counted, calls_found.
  by destruct (open_outcome name s), (gVendorModule s); cbn [previewRunning calls]; rewrite ?preview_of_snoc.
Qed.

Definition good (faithful : bool) (s : camera) : Prop := wf s ∧ (faithful = true → tracks s).

Lemma good_calls f s s' c : blocks s' = blocks s → next s' = next s → restartPreview s' = restartPreview s →
  previewRunning s' = previewRunning s → calls s' = calls s ++ [c] →
  (∀ v c', c ≠ V_device v c') → good f s → good f s'.
Proof.
  intros Hb Hn Hr Hp Hc Hv (Hwf & Hf). split.
  - eapply wf_same; [done|done| |done]. rewrite Hr. apply Hwf.
  - unfold tracks in *. rewrite Hp, Hc, preview_of_snoc. destruct c; naive_solver.
Qed.

Lemma good_found f s : good f s → ∃ rv s', check_vendor_module s = Some (rv, s') ∧ good f s'.
Proof.
  intros Hs. rewrite check_vendor_module_run. eexists _, _. split; [done|]. destruct (gVendorModule s); [done|].
  by apply (good_calls f s _ V_get_module).
Qed.

Lemma handle_safe f r s : good f s → permitted s r → (f = true → ∀ d, r ≠ R_device d D_stop_recording) →
  ∃ a s', handle r s = Some (a, s') ∧ good f s'.
Proof.
  intros Hs Hp Hr. destruct r as [m name device|device| |i|d c].
  - destruct name as [name|]; [|by eexists _, _]. destruct Hs as (Hwf & Hf).
    cbn [handle]. rewrite st_bind_run, camera_device_open_run by done.
    destruct (open_answer name device s) as [rv dv]. eexists _, _. split; [done|].
    split; [by apply wf_open|]. intros Ht. by apply tracks_open, Hf.
  - destruct device as [d|]; [|by eexists _, _]. destruct Hs as (Hwf & Hf). destruct Hp as [w Hd].
    destruct (proj1 (proj2 (proj2 Hwf)) _ _ Hd) as [[v Hv] (o & Ho & _)].
    destruct (open_ops_ne s d w o Hwf Hd Ho) as [Hb Hne]. cbn [handle]. unfold as_int.
    rewrite (st_bind_some _ _ _ _ _ (camera_device_close_run d w v o s (conj Hd Hv) Ho Hb Hne)).
    eexists _, _. split; [done|].
    apply (good_calls f (set_blocks (delete d (delete o (blocks s))) s) _ (V_close v)); try done.
    split; [by eapply wf_closed|]. done.
  - destruct (good_found f s Hs) as (rv & s' & Hrun & Hs'). cbn [handle]. unfold camera_get_number_of_cameras, as_int.
    rewrite st_bind_run. st_step Hrun. destruct (truth rv); [by eexists _, _|]. eexists _, _. split; [done|].
    by apply (good_calls f s' _ V_get_number_of_cameras).
  - destruct (good_found f s Hs) as (rv & s' & Hrun & Hs'). cbn [handle]. unfold camera_get_camera_info, as_int.
    rewrite st_bind_run. st_step Hrun. destruct (truth rv); [by eexists _, _|]. eexists _, _. split; [done|].
    by apply (good_calls f s' _ (V_get_camera_info i)).
  - assert (is_open s d) as Hd by (destruct c as [| | | | | | | | | | | | | | | | |[|]| |[|]| | |]; naive_solver).
    destruct Hs as (Hwf & Hf). rewrite call_device_run by done.
    destruct (safe_device_call d f c s) as (a & s' & Hrun & (Hwf' & _ & Hf')); [done|done| |].
    { intros Ht ->. by apply (Hr Ht d). }
    by exists a, s'.
Qed.
End requests.

(** ** What the service can rely on *)

Section service.
Context {Hvendor : VendorLaws}.

(** C8: From the start, whatever a client that follows the rules of the interface
    asks and whatever memory the system refuses, no function of the wrapper uses
    a block that is not live, a NULL pointer or a table that is not filled in:
    every request is answered; devices that are open keep a vendor's device and a
    table of their own. *)
Theorem camera_never_faults s : reachable step (eq camera_init) s →
  wf s ∧ ∀ r, permitted s r → ∃ a s', handle r s = Some (a, s').
Proof.
  intros Hs. assert (good false s) as Hg.
  { revert s Hs. apply invariant_reachable; [intros s <-; split; [exact wf_init|done]|].
    intros s s' Hs (r & a & Hp & Hrun). destruct (handle_safe false r s Hs Hp) as (a' & s2 & Hrun' & Hs'); [done|].
    by simplify_eq. }
  split; [apply Hg|]. intros r Hp. destruct (handle_safe false r s Hg Hp) as (a & s' & Hrun & _); [done|]. by exists a, s'.
Qed.

Definition step_not_recording (s s' : camera) : Prop :=
  ∃ r a, permitted s r ∧ (∀ d, r ≠ R_device d D_stop_recording) ∧ handle r s = Some (a, s').

(** C17: As long as no recording is stopped, the flag of the wrapper tells whether
    the last call of the vendor that started or stopped the preview was a start
    that succeeded, over the restarts of set_parameters, too. *)
Theorem preview_flag_follows_vendor s : reachable step_not_recording (eq camera_init) s →
  previewRunning s = preview_of (calls s).
Proof.
  intros Hs. assert (good true s) as Hg; [|by apply Hg].
  revert s Hs. apply invariant_reachable; [intros s <-; split; [exact wf_init|done]|].
  intros s s' Hs (r & a & Hp & Hr & Hrun). destruct (handle_safe true r s Hs Hp) as (a' & s2 & Hrun' & Hs'); [done|].
  by simplify_eq.
Qed.

(** C19: Opening a camera fails if the vendor's module is not found, if the number
    lies above the vendor's count, if memory is refused or if the vendor fails,
    with the error of each; then no memory is kept.  Otherwise there is a new
    device, and closing it closes the vendor's and gives all memory back. *)
Theorem camera_device_open_spec hw_module name device s : wf s →
  let '(rv, device') := open_answer name device s in
  ∃ s', handle (R_open hw_module (Some name) device) s = Some (A_open rv device', s') ∧ wf s' ∧
  match open_outcome name s with
  | Opens =>
      rv = 0 ∧ ∃ d v, device' = Some d ∧ blocks s !! d = None ∧
        live d (Wrapper (Some hw_module) (Some (Pos.succ d)) (atoi name) (Some v)) v s' ∧
      ∃ s2, handle (R_close (Some d)) s' = Some (A_int 0, s2) ∧ wf s2 ∧ blocks s2 = blocks s ∧
        calls s2 = calls s' ++ [V_close v]
  | _ => rv ≠ 0 ∧ (device' = None ∨ device' = device) ∧ blocks s' = blocks s
  end.
Proof.
  intros Hwf. pose proof (wf_open name hw_module s Hwf) as Hwf'. destruct (fresh_next s Hwf) as [Hn Hn'].
  destruct (open_answer name device s) as [rv device'] eqn:Ha. exists (open_state name hw_module s).
  cbn [handle]. rewrite st_bind_run, (camera_device_open_run hw_module name device s Hwf), Ha.
  split; [done|]. split; [done|]. unfold open_answer in Ha. unfold open_state in *.
  destruct (open_outcome name s) eqn:Ho; simplify_eq/=; try (split; [done|]; split; [by auto|done]).
  - split; [|auto]. revert Ho. unfold open_outcome, truth. repeat (break_if; try done).
    intros [= <-]. by apply negb_true_iff, Z.eqb_neq in E2.
  - set (w := Wrapper _ _ _ _) in *. set (s' := Camera _ _ _ _ _ _ _) in *.
    assert (blocks s' !! next s = Some (BWrapper w)) as Hd.
    { cbn. rewrite lookup_insert_ne by lia. apply lookup_insert_eq. }
    destruct (proj1 (proj2 (proj2 Hwf')) _ _ Hd) as [[v Hv] _].
    destruct (open_ops_ne s' (next s) w _ Hwf' Hd eq_refl) as [Hb Hne].
    split; [done|]. exists (next s), v. split; [done|]. split; [done|]. split.
    { rewrite <- Hv. by split. }
    unfold as_int. rewrite (st_bind_some _ _ _ _ _ (camera_device_close_run (next s) w v _ s' (conj Hd Hv) eq_refl Hb Hne)).
    eexists. split; [done|]. split; [|split; [|done]].
    + eapply wf_same; [| | |exact (wf_closed s' (next s) w _ Hwf' Hd eq_refl)]; try done. apply Hwf.
    + cbn. rewrite delete_insert_eq, delete_insert_ne by lia. rewrite delete_insert_eq. by rewrite (delete_id _ _ Hn'), (delete_id _ _ Hn).
Qed.

(** C18: The parameters a client sets reach the vendor with the same values.  The
    preview is stopped before and started again after exactly if it runs on the
    rear camera and the client has asked for video since the last recording or
    opening; the restart is not left pending. *)
Theorem camera_set_parameters_spec `{!CameraParametersLaws} d w v s text :
  wf s → live d w v s → malloc_ok (next s) = true →
  let video := is_video text || wasVideo s in
  let restart := (id w =? REAR_CAMERA_ID) && previewRunning s && video in
  ∃ t rc s', handle (R_device d (D_set_parameters (Some text))) s = Some (A_int rc, s') ∧
    (∀ k, get k (unflatten t) = get k (unflatten text)) ∧
    calls s' = calls s ++ (if restart then [V_device v D_stop_preview] else []) ++
      [V_device v (D_set_parameters (Some t))] ++ (if restart then [V_device v D_start_preview] else []) ∧
    wasVideo s' = video ∧ restartPreview s' = false ∧
    (restart = false → previewRunning s' = previewRunning s) ∧
    (restart = true → previewRunning s' = preview_of (calls s')).
Proof.
  intros Hwf Hl Hok video restart. rewrite call_device_run by (done || (exists w; apply Hl)). cbn [camera_ops].
  unfold as_int. rewrite (st_bind_some _ _ _ _ _ (set_parameters_run d w v text s Hwf Hl)). rewrite Hok.
  fold video restart. exists (flatten (unflatten text)). eexists _, _. split; [done|].
  split; [intros k; apply get_flatten|]. cbn [calls wasVideo restartPreview previewRunning].
  split; [destruct restart; by rewrite <- ?app_assoc|]. split; [done|]. split; [done|].
  split; [by intros ->|]. intros ->. by rewrite preview_of_snoc.
Qed.
End service.
End camera.

(** ** Concrete runs *)

(** Parameters as a map; a text holds its code in binary digits. *)
Fixpoint bits (p : positive) : chars :=
  match p with xH => [] | xO p => "0"%char :: bits p | xI p => "1"%char :: bits p end.
Fixpoint unbits (s : chars) : positive :=
  match s with [] => xH | c :: s => if bool_decide (c = "1"%char) then xI (unbits s) else xO (unbits s) end.
Lemma unbits_bits p : unbits (bits p) = p.
Proof. induction p as [p IH|p IH|]; cbn [bits unbits]; [| |done]; by rewrite IH. Qed.

Definition demo_parameters : CameraParameters := {|
  params := (gmap chars chars);
  unflatten s := default ∅ (decode (unbits s));
  flatten p := bits (encode p);
  set k v (p : (gmap chars chars)) := if clean k && clean v then <[k:=v]> p else p;
  get k (p : (gmap chars chars)) := p !! k;
  KEY_SUPPORTED_FOCUS_MODES := str "focus-mode-values";
  KEY_PREFERRED_PREVIEW_SIZE_FOR_VIDEO := str "preferred-preview-size-for-video";
  KEY_ROTATION := str "rotation";
  KEY_RECORDING_HINT := str "recording-hint"
|}.
#[local] Existing Instance demo_parameters.

Lemma demo_parameters_laws : CameraParametersLaws.
Proof.
  split; [| | |by split].
  - intros k v p Hk Hv. cbn. rewrite Hk, Hv. apply lookup_insert_eq.
  - intros k k' v p Hne. cbn. destruct (clean k' && clean v); [|done]. by rewrite lookup_insert_ne.
  - intros k p. cbn. by rewrite unbits_bits, decode_encode.
Qed.

(** Two cameras; every call succeeds. *)
Definition demo_text : chars := flatten (set (str "rotation") (str "90") (set (str "zoom") (str "3") (∅ : (gmap chars chars)))).
Definition demo_camera : CameraEnv := {|
  vendor_rc h c := match c with V_get_number_of_cameras => 2 | V_device _ D_get_parameters => 77 | _ => 0 end;
  vendor_device h := Some 5;
  vendor_text h := Some demo_text;
  malloc_ok p := true
|}.
#[local] Existing Instance demo_camera.
Lemma demo_vendor_laws : VendorLaws.
Proof. split; by eexists. Qed.
#[local] Existing Instances demo_parameters_laws demo_vendor_laws.

Fixpoint serve (rs : list request) (s : camera) : option (list answer * camera) :=
  match rs with
  | [] => Some ([], s)
  | r :: rs => '(a, s) ← handle r s; '(l, s) ← serve rs s; Some (a :: l, s)
  end.

Definition after (rs : list request) : camera := default camera_init (snd <$> serve rs camera_init).
(** The rear camera is open, its preview runs. *)
Definition demo_open : list request := [R_open 1 (Some (str "0")) None].
Definition demo_preview : list request := demo_open ++ [R_device 1 D_start_preview].
Definition demo_video : chars := flatten (set (str "recording-hint") (str "true") (∅ : gmap chars chars)).
Definition demo_wrapper : wrapper_camera_device := Wrapper (Some 1) (Some 2%positive) 0 (Some 5).

(** Requests that return lead from a reachable state to a reachable one. *)
Lemma reachable_handle {I : camera → Prop} s r a s' : reachable step I s → permitted s r →
  handle r s = Some (a, s') → reachable step I s'.
Proof. intros Hs Hp Hr. eapply reachable_step; [exact Hs|]. by exists r, a. Qed.

Lemma demo_wf : wf (after demo_preview).
Proof.
  pose proof (handle_safe false (R_open 1 (Some (str "0")) None) camera_init) as H1.
  destruct H1 as (a & s1 & Hrun1 & Hg1); [split; [exact wf_init|done]|done|done|].
  assert (s1 = after demo_open) as -> by (vm_compute in Hrun1; vm_compute; congruence).
  pose proof (handle_safe false (R_device 1 D_start_preview) (after demo_open)) as H2.
  destruct H2 as (a2 & s2 & Hrun2 & Hg2); [done|eexists; vm_compute; reflexivity|done|].
  assert (s2 = after demo_preview) as -> by (vm_compute in Hrun2; vm_compute; congruence). apply Hg2.
Qed.
Lemma demo_live : live 1 demo_wrapper 5 (after demo_preview).
Proof. split; vm_compute; reflexivity. Qed.

Lemma camera_never_faults_witness :
  wf camera_init ∧ ∃ a s', handle (R_open 1 (Some (str "0")) None) camera_init = Some (a, s').
Proof.
  destruct (camera_never_faults camera_init) as [Hwf Hrun]; [by exists camera_init|].
  split; [exact Hwf|]. by apply Hrun.
Defined.

Lemma preview_flag_follows_vendor_witness :
  let s := after demo_open in previewRunning s = preview_of (calls s) ∧ calls s = [V_get_module; V_get_number_of_cameras; V_open (str "0")].
Proof.
  intros s. split; [|vm_compute; reflexivity]. apply preview_flag_follows_vendor.
  exists camera_init. split; [done|]. apply rtc_once. exists (R_open 1 (Some (str "0")) None), (A_open 0 (Some 1%positive)).
  split; [done|]. split; [done|]. vm_compute. reflexivity.
Defined.

Lemma camera_device_open_spec_witness :
  open_outcome (str "0") camera_init = Opens ∧
  ∃ s' s2, handle (R_open 1 (Some (str "0")) None) camera_init = Some (A_open 0 (Some 1%positive), s') ∧
    handle (R_close (Some 1%positive)) s' = Some (A_int 0, s2) ∧ blocks s2 = ∅.
Proof.
  pose proof (camera_device_open_spec 1 (str "0") None camera_init wf_init) as Hspec.
  assert (open_outcome (str "0") camera_init = Opens) as Ho by (vm_compute; reflexivity).
  split; [exact Ho|]. unfold open_answer in Hspec. rewrite Ho in Hspec.
  destruct Hspec as (s' & Hrun & _ & _ & d & v & Hd & _ & _ & s2 & Hclose & _ & Hb & _).
  injection Hd as <-. exists s', s2. split; [exact Hrun|]. split; [exact Hclose|exact Hb].
Defined.

Lemma camera_set_parameters_spec_witness :
  let s := after demo_preview in
  ∃ t rc s', handle (R_device 1 (D_set_parameters (Some demo_video))) s = Some (A_int rc, s') ∧
    calls s' = calls s ++ [V_device 5 D_stop_preview; V_device 5 (D_set_parameters (Some t)); V_device 5 D_start_preview].
Proof.
  intros s. destruct (camera_set_parameters_spec (Henv := demo_camera) 1 demo_wrapper 5 s demo_video demo_wf demo_live ltac:(reflexivity))
    as (t & rc & s' & Hrun & _ & Hc & _).
  exists t, rc, s'. split; [exact Hrun|]. rewrite Hc.
  replace ((id demo_wrapper =? REAR_CAMERA_ID) && previewRunning s && (is_video demo_video || wasVideo s)) with true
    by (vm_compute; reflexivity). done.
Defined.

Lemma camera_get_parameters_spec_witness :
  let s := after demo_preview in
  ∃ s1 t, handle (R_device 1 D_get_parameters) s = Some (A_text (Some 3%positive), s1) ∧
    get (str "rotation") (unflatten t) = Some (str "0") ∧ get (str "zoom") (unflatten t) = Some (str "3").
Proof.
  intros s. destruct (camera_get_parameters_spec (Henv := demo_camera) 1 demo_wrapper 5 s demo_text demo_wf demo_live ltac:(reflexivity) ltac:(reflexivity))
    as (s1 & t & Hrun & _ & Hget & _).
  exists s1, t. split; [exact Hrun|]. rewrite !Hget. split; vm_compute; reflexivity.
Defined.

(** *** What was found *)

(** camera_stop_recording starts the preview without setting the flag. *)
Lemma stop_recording_not_tracked :
  let s := after (demo_open ++ [R_device 1 D_stop_recording]) in
  preview_of (calls s) = true ∧ previewRunning s = false.
Proof. split; vm_compute; reflexivity. Qed.

(** With two cameras, number 2 (and any negative number) is passed on. *)
Lemma camera_out_of_range :
  open_outcome (str "2") camera_init = Opens ∧ open_outcome (str "-7") camera_init = Opens.
Proof. split; vm_compute; reflexivity. Qed.

(** The text made for the vendor is never freed. *)
Lemma set_parameters_leaks :
  blocks (after (demo_open ++ replicate 3 (R_device 1 (D_set_parameters (Some demo_video))) ++ [R_close (Some 1%positive)])) =
    list_to_map ((λ p, (p, BText demo_video)) <$> [3; 4; 5]%positive).
Proof. vm_compute. reflexivity. Qed.

Lemma start_recording_positive_error s : camera_start_recording None s = Some (22, s).
Proof. done. Qed.

(** When there is no memory for the table the vendor's device stays open. *)
Definition no_second_malloc : CameraEnv := {|
  vendor_rc h c := match c with V_get_number_of_cameras => 2 | _ => 0 end;
  vendor_device h := Some 5;
  vendor_text h := Some demo_text;
  malloc_ok p := bool_decide (p = 1%positive)
|}.
Lemma vendor_device_stays_open :
  snd <$> camera_device_open (Henv := no_second_malloc) 1 (Some (str "0")) None camera_init =
    Some (Camera false false false true ∅ 3 [V_get_module; V_get_number_of_cameras; V_open (str "0")]).
Proof. vm_compute. reflexivity. Qed.
